(* ===== verification/_CoqProject ===== *)
-Q . S2P
Prelude.v
KvData.v
Engine.v
EngineSpec.v
ArrayEngine.v
HashEngine.v
RbTree.v
SkipList.v
ZSet.v
Engines.v
Resp.v
Config.v
Repl.v
Aof.v
ExpireQueue.v
Expire.v
Timers.v
Store.v
Snapshot.v
SnapshotSpec.v
Ai.v
AiFloat.v
Embed.v
Commands.v
Lookup.v
CommandSpec.v
Records.v
Protocol.v
ProtocolSpec.v
DeleteSpec.v
Server.v
RestartSpec.v
TornLog.v
Memory.v
Mempool.v
MempoolInv.v
MempoolOps.v
MempoolSpec.v
Net.v
Sync.v
SyncSpec.v
System.v
ReplicaSpec.v
Rdma.v
RdmaSpec.v
RdmaFail.v
Connect.v
Verbs.v
Events.v
EventsSpec.v
WellFormed.v
Relay.v
RingSpec.v
Affinity.v
Capture.v
RelaySpec.v
LegacyHash.v
