(* ===== verification/Prelude.v ===== *)
(** * kivo: a verified model of the key-value server

    kivo is a server in C that speaks RESP, the protocol of Redis.  It keeps
    eight stores in memory, logs its write commands, saves snapshots, deletes
    keys whose time has come, and sends what it logs to a slave.  This library
    models its code as executable definitions and proves what the parts
    promise and how they work together.  Sources are under src/.

    ** How the program hangs together

    - A connection's coroutine (ntyco.c; reactor.c and proactor.c are two
      other servers chosen when it is built) receives into a buffer and calls
      [protocol_process_stream] (resp.c), which cuts the buffer into requests,
      logs write commands (persistence.c), puts them into the replication
      backlog (repl.c), looks the command up and runs its handler (kvstore.c),
      and packs the reply.
    - A handler works on one of the stores: the array, the red-black tree, the
      skip list or one of five hash tables (kvs_array.c, kvs_rbtree.c,
      kvs_skiptable.c, kvs_hash.c on kv_utils.c), or on the semantic index
      (ai_chat.c).
    - A key set with an expiry time leaves a timer in a queue; the expiry
      thread (expire.c) sorts timers in a heap and hands those that are due
      back to the main thread, which deletes the keys and logs that.
    - At the start (server.c) a snapshot is loaded (snapshot.c) and the log
      replayed over it through the same parser and handlers.
    - A slave asks with SYNC, gets the log over TCP or RDMA (repl.c, rdma.c),
      replays it and applies the commands that follow.  Apart from the server,
      a relay (ebpf_relay.c) forwards the packets that a program in the kernel
      (sync_filter.bpf.c) copies from the network.
    - All of it allocates through a memory pool (mempool.c).

    ** Files and sources

    - Prelude: bytes, machine integers, decimal texts, the error monad [res].
      KvData: kv_utils.c.
    - Engine: the interface of a store, a class of operations with its laws;
      EngineSpec: the abstract key-value map with expiry and the refinement of
      whole runs, proved from the laws.  ArrayEngine, HashEngine, RbTree,
      SkipList: the engines and the proofs of their laws; ZSet: the sorted set
      kept in the skip list; Engines: the refinement theorems; Store: the
      eight stores as a family of maps, and slots as access paths to them.
    - Resp: parser, probe and packer of resp.c.  Config: config.c.  Repl: the
      backlog.  Aof: the buffers of persistence.c.  ExpireQueue, Expire,
      Timers: expire.c.  Snapshot, SnapshotSpec: snapshot.c.  Ai: ai_chat.c; AiFloat:
      its floating-point part, which discharges the interface Ai asks for;
      Embed: its request to the embedding service.
    - Commands: the 37 handlers of kvstore.c and their table; Lookup: the hash
      index of the table; CommandSpec, Records: what handlers answer.
    - Protocol: the loops of resp.c and the deletions of expire.c over a
      [node], the server with its log; ProtocolSpec, DeleteSpec: their
      theorems.  Server: init_kvengine and dest_kvengine; RestartSpec: what a
      restart gives back; TornLog: what it does not.
    - Memory: bytes at addresses; Mempool, MempoolInv, MempoolOps,
      MempoolSpec: mempool.c.
    - Net: a connection of ntyco.c.  System: all its coroutines and the expiry
      thread as a step relation.  WellFormed: the types of the state.
      Events, EventsSpec: reactor.c and proactor.c.
    - Sync, SyncSpec: the transfer over TCP; ReplicaSpec: master and slave
      together.  Rdma, RdmaSpec: the transfer over RDMA as two interleaved
      programs; RdmaFail: the same programs when calls fail; Connect: the
      hand-shake; Verbs: the resources.
    - Relay, RingSpec, RelaySpec: ebpf_relay.c; Affinity: the processors it
      runs on; Capture: sync_filter.bpf.c.
    - LegacyHash: hash.c, an older hash table that the build leaves out.

    ** How the state and the code are written

    A definition carries the name of the C function it translates; structures
    are records, enumerations inductive types.  An [int], [long] or [size_t]
    is a [Z] that is wrapped where the code wraps it ([i32], [u32], [i64],
    [u64]) and undefined, [UB], where the C standard says so; accesses outside a
    buffer are [UB] as well, those to the relay's ring and pool included.  [res] is the outcome of a handler; [run]
    adds a wait without end, a lack of answers from the kernel and a lack of
    fuel.  What the system does is an argument: the allocator's answer
    to the i-th request of a call ([cenv]), the clock, the kernel's answers to
    send, recv, splice and io_uring, the verbs library, the embedding
    service.  Replies, sent bytes, submitted writes and file system calls are
    results.  Theorems quantify over all of it; a hypothesis such as [mem_ok]
    says when memory must not run out.

    The number of slots of a hash table wraps where it doubles beyond 2^30, as
    gcc computes it; the C standard leaves this overflow undefined.

    ** What is proved

    - Stores: every run of operations on each engine is a run of the abstract
      map with expiry, replies included (Engines); each of the twenty basic
      commands performs its operation on its own store and on no other
      (CommandSpec); GETIDXREC, range queries and MATCH answer what they
      promise (Records, ZSet, Ai); names are looked up rightly (Lookup); the
      older table is a map for the keys it is made for (LegacyHash).
    - Protocol: what is encoded is parsed back, wherever it lies (Resp);
      requests are executed once and in order however the stream is cut
      (ProtocolSpec, Net), and the peer gets what the kernel takes of each
      batch of replies; replies do not overrun their buffer (Resp), and the
      event servers lose none (EventsSpec).
    - Whatever clients and the master send, and however coroutines and the
      expiry thread are scheduled, the state stays well formed as long as the
      steps return (WellFormed): the hash tables, trees and lists, the counts of
      the arrays, the rings and timers, the buffers of the log and of the
      connections.
    - Durability: what is submitted to the kernel and what waits is what was
      logged, in order, and so is the file when the kernel writes all of it
      (Aof); a restart from a log of SET, MOD and DEL commands without expiry
      time, or from what a crash left of it, gives the content back
      (RestartSpec); with TTL support a snapshot is loaded as it was saved, and
      it agrees with the log replayed over it; it is replaced atomically
      (SnapshotSpec, RestartSpec).
    - Expiry: the queue is a FIFO under every interleaving (ExpireQueue), the
      thread delivers what is due (Expire) and no timer is lost between the
      threads (Timers), a key set with an expiry time is deleted and logged, and
      only while it still carries that time; for the hash tables only when the
      hash that the timer happens to carry is right (DeleteSpec).
    - Replication: an empty slave that joins over TCP when the master's append
      buffer is empty ends with the master's content (ReplicaSpec), and the
      backlog is a FIFO behind a SYNC (Repl); the RDMA transfer ends and copies
      the log in every interleaving (RdmaSpec), and whatever fails, a log that
      is replayed is of the master's length, and is the master's when the waits
      for acknowledgements succeed (RdmaFail); both sides learn the other's address (Connect);
      resources are acquired and released in order (Verbs); the relay forwards
      the stream in order while its pool has room, and in full while the slave
      takes it (RingSpec, RelaySpec).
    - The pool implements an allocator (MempoolSpec).
    - Where the code does not do what it means to, a theorem of kind error
      says so: a negative bulk length, a torn log, a SYNC that misses the
      append buffer, a close of the log that never returns, an incomplete
      request in the event servers, a packet longer than the capture, a forged
      magic number in the pool.

    ** Fuel and bounds

    Loops that are not structural take fuel, and a theorem says how much is
    enough.  The stream and replay loops need more than the number of requests
    in the buffer; with a request of negative length no fuel is enough, which
    is a theorem, since the C loop does not end either.  A connection's parse
    loop has one turn per byte and one more.  Walks in the skip list have one
    turn per node, the repair of the red-black tree one per level, the heap one
    per item, the snapshot one per byte, the probing of the command index one
    per slot.  Waits for the kernel consume a list of answers; when it is used
    up the outcome says so and nothing is claimed.  Sizes are those of the
    code: 100000 array slots and backlog nodes, 65536 timers, log buffers of 64 MB that
    are flushed from 16 KB on, receive buffers of up to 16 MB, RDMA chunks of 32 MB.

    ** Not modelled

    - Sockets, epoll and io_uring set-up, files opened and mapped, threads
      created and joined, console output and statistics: system calls without
      an effect on the data.
    - libcurl and cJSON, which carry and parse what the embedding service
      answers (ai_chat.c): arguments of Embed.
    - The expiry thread's turn is one step of System; Timers shows that it is a
      sequence of accesses to the queues and what their interleaving keeps.
      Likewise a coroutine is not interrupted within its turn, and it is not in
      the code either.
    - vmlinux.h is generated; the test_*.c programs are tests. *)

From Stdlib Require Export Strings.Byte Strings.String.
From stdpp Require Export prelude gmap list list_numbers strings sorting.

(** ** Bytes *)

Abbreviation byte := Byte.byte.
Abbreviation bytes := (list Byte.byte).

#[export] Instance byte_eq_dec : EqDecision byte := Byte.byte_eq_dec.

#[export] Program Instance byte_countable : Countable byte :=
  inj_countable Byte.to_N Byte.of_N _.
Next Obligation. intros x. apply Byte.of_to_N. Qed.

#[export] Instance byte_inhabited : Inhabited byte := populate x00.

(** The value of an [unsigned char]. *)
Definition b2z (b : byte) : Z := Z.of_N (Byte.to_N b).

(** Conversion of an integer to [unsigned char]: reduction modulo 256. *)
Definition z2b (z : Z) : byte :=
  match Byte.of_N (Z.to_N (z mod 256)) with
  | Some b => b
  | None => x00
  end.

Lemma b2z_range b : (0 <= b2z b < 256)%Z.
Proof.
  unfold b2z. pose proof (Byte.to_N_bounded b). lia.
Qed.

Lemma b2z_inj b1 b2 : b2z b1 = b2z b2 -> b1 = b2.
Proof.
  unfold b2z. intros H%N2Z.inj.
  apply (f_equal Byte.of_N) in H. rewrite !Byte.of_to_N in H. congruence.
Qed.

Lemma z2b_b2z b : z2b (b2z b) = b.
Proof.
  unfold z2b. pose proof (b2z_range b). rewrite Z.mod_small by lia.
  unfold b2z. rewrite N2Z.id, Byte.of_to_N. done.
Qed.

Lemma b2z_z2b z : b2z (z2b z) = (z mod 256)%Z.
Proof.
  unfold z2b. pose proof (Z.mod_pos_bound z 256 ltac:(lia)).
  destruct (Byte.of_N (Z.to_N (z mod 256))) as [b|] eqn:E.
  - unfold b2z. apply Byte.to_of_N in E. rewrite E. lia.
  - apply Byte.of_N_None_iff in E. lia.
Qed.

(** String literals of the source as byte sequences. *)
Definition str (s : string) : bytes := String.list_byte_of_string s.

Definition CR : byte := x0d.
Definition LF : byte := x0a.
Definition CRLF : bytes := [CR; LF].

(** ** Machine integers *)

Definition u64 (z : Z) : Z := (z mod 2 ^ 64)%Z.
Definition u32 (z : Z) : Z := (z mod 2 ^ 32)%Z.
Definition i32 (z : Z) : Z := ((z + 2 ^ 31) mod 2 ^ 32 - 2 ^ 31)%Z.
Definition i64 (z : Z) : Z := ((z + 2 ^ 63) mod 2 ^ 64 - 2 ^ 63)%Z.

Lemma u64_range z : (0 <= u64 z < 2 ^ 64)%Z.
Proof. apply Z.mod_pos_bound. lia. Qed.
Lemma u32_range z : (0 <= u32 z < 2 ^ 32)%Z.
Proof. apply Z.mod_pos_bound. lia. Qed.
Lemma u64_small z : (0 <= z < 2 ^ 64)%Z -> u64 z = z.
Proof. apply Z.mod_small. Qed.
Lemma u32_small z : (0 <= z < 2 ^ 32)%Z -> u32 z = z.
Proof. apply Z.mod_small. Qed.
Lemma i32_small z : (- 2 ^ 31 <= z < 2 ^ 31)%Z -> i32 z = z.
Proof. intros. unfold i32. rewrite Z.mod_small; lia. Qed.
Lemma i64_small z : (- 2 ^ 63 <= z < 2 ^ 63)%Z -> i64 z = z.
Proof. intros. unfold i64. rewrite Z.mod_small; lia. Qed.
Lemma i32_range z : (- 2 ^ 31 <= i32 z < 2 ^ 31)%Z.
Proof. unfold i32. pose proof (Z.mod_pos_bound (z + 2 ^ 31) (2 ^ 32)). lia. Qed.

(** ** Little-endian representation of integers in memory *)

Fixpoint le_encode (n : nat) (z : Z) : bytes :=
  match n with
  | O => []
  | S n' => z2b z :: le_encode n' (z / 256)
  end.

Fixpoint le_decode (l : bytes) : Z :=
  match l with
  | [] => 0
  | b :: l' => b2z b + 256 * le_decode l'
  end%Z.

Lemma length_le_encode n z : length (le_encode n z) = n.
Proof. revert z. induction n; intros; simpl; auto. Qed.

Lemma le_decode_encode n z :
  le_decode (le_encode n z) = (z mod 2 ^ (8 * Z.of_nat n))%Z.
Proof.
  revert z. induction n as [|n IH]; intros z; simpl le_encode; simpl le_decode.
  - by rewrite Z.mod_1_r.
  - rewrite IH, b2z_z2b.
    replace (8 * Z.of_nat (S n))%Z with (8 + 8 * Z.of_nat n)%Z by lia.
    rewrite Z.pow_add_r by lia. change (2 ^ 8)%Z with 256%Z.
    rewrite Z.rem_mul_r by lia. lia.
Qed.

Lemma le_decode_range l : (0 <= le_decode l < 2 ^ (8 * Z.of_nat (length l)))%Z.
Proof.
  induction l as [|b l IH]; simpl le_decode.
  - simpl. lia.
  - pose proof (b2z_range b). simpl length.
    replace (8 * Z.of_nat (S (length l)))%Z with (8 + 8 * Z.of_nat (length l))%Z by lia.
    rewrite Z.pow_add_r by lia. change (2 ^ 8)%Z with 256%Z. lia.
Qed.

Lemma le_decode_encode_u64 z : le_decode (le_encode 8 z) = u64 z.
Proof. rewrite le_decode_encode. done. Qed.
Lemma le_decode_encode_u32 z : le_decode (le_encode 4 z) = u32 z.
Proof. rewrite le_decode_encode. done. Qed.

(** ** Decimal notation *)

(** The character of a digit. *)
Definition digit (d : Z) : byte := z2b (48 + d).

(** The [n] last digits of [z], the most significant first. *)
Fixpoint digs (n : nat) (z : Z) : bytes :=
  match n with
  | O => []
  | S n => digit ((z / 10 ^ Z.of_nat n) mod 10) :: digs n z
  end.

Fixpoint ndigits (fuel : nat) (z : Z) : nat :=
  match fuel with
  | O => 1%nat
  | S fuel => if Z.ltb z 10 then 1%nat else S (ndigits fuel (z / 10))
  end.

(** What [%d], [%lld] and [%zu] print; 20 digits are enough for 64 bits. *)
Definition dec_u (z : Z) : bytes := digs (ndigits 20 z) z.
Definition dec (z : Z) : bytes := if Z.ltb z 0 then x2d :: dec_u (- z) else dec_u z.

(** [isdigit] in the C locale. *)
Definition is_digit (b : byte) : bool := Z.leb 48 (b2z b) && Z.leb (b2z b) 57.

Lemma b2z_digit d : (0 <= d < 10)%Z -> b2z (digit d) = (48 + d)%Z.
Proof. intros. unfold digit. rewrite b2z_z2b. apply Z.mod_small. lia. Qed.

Lemma is_digit_digit d : (0 <= d < 10)%Z -> is_digit (digit d) = true.
Proof.
  intros. unfold is_digit. rewrite b2z_digit by done.
  apply andb_true_iff. split; apply Z.leb_le; lia.
Qed.

Lemma length_digs n z : length (digs n z) = n.
Proof. induction n; simpl; auto. Qed.

Lemma digs_digits n z : forallb is_digit (digs n z) = true.
Proof.
  induction n as [|n IH]; simpl; [done|].
  rewrite is_digit_digit by (apply Z.mod_pos_bound; lia). done.
Qed.

Lemma ndigits_pos fuel z : (1 <= ndigits fuel z)%nat.
Proof. destruct fuel; simpl; [lia|]. destruct (Z.ltb z 10); lia. Qed.

Lemma ndigits_bound fuel z :
  (0 <= z < 10 ^ Z.of_nat (S fuel))%Z -> (z < 10 ^ Z.of_nat (ndigits fuel z))%Z.
Proof.
  revert z. induction fuel as [|fuel IH]; intros z Hz; cbn [ndigits]; [lia|].
  destruct (Z.ltb_spec z 10); [simpl; lia|].
  rewrite (Nat2Z.inj_succ (S fuel)), Z.pow_succ_r in Hz by lia.
  rewrite (Nat2Z.inj_succ (ndigits _ _)), Z.pow_succ_r by lia.
  pose proof (Z.div_mod z 10). pose proof (Z.mod_pos_bound z 10).
  assert (Hq : (z / 10 < 10 ^ Z.of_nat (ndigits fuel (z / 10)))%Z).
  { apply IH. split; [apply Z.div_pos; lia|]. apply Z.div_lt_upper_bound; [lia|]. apply Hz. }
  lia.
Qed.

Lemma ndigits_le fuel z n :
  (0 <= z < 10 ^ Z.of_nat n)%Z -> (1 <= n)%nat -> (ndigits fuel z <= n)%nat.
Proof.
  revert z n. induction fuel as [|fuel IH]; intros z n Hz Hn; cbn [ndigits]; [lia|].
  destruct (Z.ltb_spec z 10); [lia|]. destruct n as [|n]; [lia|].
  rewrite Nat2Z.inj_succ, Z.pow_succ_r in Hz by lia.
  destruct n as [|n]; [simpl in Hz; lia|].
  apply le_n_S, IH; [|lia]. split; [apply Z.div_pos; lia|apply Z.div_lt_upper_bound; lia].
Qed.

(** Padding on the left with zeros. *)
Lemma digs_pad m n z :
  (0 <= z < 10 ^ Z.of_nat n)%Z -> digs (m + n) z = replicate m x30 ++ digs n z.
Proof.
  intros Hz. induction m as [|m IH]; simpl; [done|]. rewrite IH.
  rewrite Z.div_small; [done|]. split; [lia|].
  eapply Z.lt_le_trans; [apply Hz|]. apply Z.pow_le_mono_r; lia.
Qed.

(** [parse_digits acc l]: the value of the digits at the head of [l], after
    [acc], and what follows them. *)
Fixpoint parse_digits (acc : Z) (l : bytes) : Z * bytes :=
  match l with
  | [] => (acc, [])
  | b :: l' => if is_digit b then parse_digits (acc * 10 + (b2z b - 48))%Z l' else (acc, l)
  end.

Lemma parse_digits_digs n z acc r :
  (0 <= z)%Z -> (match r with b :: _ => is_digit b = false | [] => True end) ->
  parse_digits acc (digs n z ++ r) = (acc * 10 ^ Z.of_nat n + z mod 10 ^ Z.of_nat n, r)%Z.
Proof.
  intros Hz Hr. revert acc. induction n as [|n IH]; intros acc; cbn [digs app].
  - rewrite Z.mod_1_r, Z.mul_1_r, Z.add_0_r. destruct r as [|b r]; [done|].
    simpl. by rewrite Hr.
  - assert (Hd : (0 <= (z / 10 ^ Z.of_nat n) mod 10 < 10)%Z) by (apply Z.mod_pos_bound; lia).
    cbn [parse_digits]. rewrite is_digit_digit, b2z_digit by done. rewrite IH. f_equal.
    rewrite Nat2Z.inj_succ, Z.pow_succ_r by lia. rewrite (Z.mul_comm 10).
    rewrite (Z.rem_mul_r z (10 ^ Z.of_nat n) 10) by lia. lia.
Qed.

Lemma parse_digits_dec_u z r :
  (0 <= z < 10 ^ 21)%Z -> (match r with b :: _ => is_digit b = false | [] => True end) ->
  parse_digits 0 (dec_u z ++ r) = (z, r).
Proof.
  intros Hz Hr. unfold dec_u. rewrite parse_digits_digs by (done || lia).
  rewrite Z.mod_small; [done|]. split; [lia|]. apply ndigits_bound. exact Hz.
Qed.

(** The first of the digits. *)
Lemma dec_u_head z : exists b t, dec_u z = b :: t /\ is_digit b = true.
Proof.
  unfold dec_u. pose proof (digs_digits (ndigits 20 z) z) as Hd. pose proof (ndigits_pos 20 z).
  destruct (ndigits 20 z) as [|n]; [lia|]. cbn [digs forallb] in *.
  apply andb_true_iff in Hd as [Hd _]. by eexists _, _.
Qed.

(** What [take] leaves, counted by what it took. *)
Lemma take_rest {A} n (l : list A) : take n l ++ drop (length (take n l)) l = l.
Proof.
  rewrite length_take. destruct (Nat.min_spec n (length l)) as [[_ ->]|[Hl ->]].
  - apply take_drop.
  - by rewrite take_ge, drop_ge, app_nil_r.
Qed.

(** ** Outcomes of code that may read outside its buffer *)

(** [UB] stands for an access outside the object a pointer designates, or for
    a signed overflow. *)
Inductive res (A : Type) : Type :=
| Ok (a : A)
| UB.
Arguments Ok {A} a.
Arguments UB {A}.

Definition rbind {A B} (m : res A) (f : A -> res B) : res B :=
  match m with
  | Ok a => f a
  | UB => UB
  end.

Declare Scope kvs_scope.
Delimit Scope kvs_scope with kvs.
Notation "'let*' x := m 'in' k" := (rbind m (fun x => k))
  (at level 10, x pattern, m at level 100, k at level 200)
  : kvs_scope.

(** The outcome of a loop or of a call that may wait: a result; undefined
    behaviour; a wait that never ends; more answers of the system needed; more
    turns of the loop needed. *)
Inductive run (A : Type) :=
| Ret (a : A)
| Undef
| Hangs
| MoreAnswers
| MoreFuel.
Arguments Ret {A} a.
Arguments Undef {A}.
Arguments Hangs {A}.
Arguments MoreAnswers {A}.
Arguments MoreFuel {A}.

Definition run_bind {A B} (m : run A) (f : A -> run B) : run B :=
  match m with
  | Ret a => f a
  | Undef => Undef
  | Hangs => Hangs
  | MoreAnswers => MoreAnswers
  | MoreFuel => MoreFuel
  end.

Notation "'let!' x := m 'in' k" := (run_bind m (fun x => k))
  (at level 10, x pattern, m at level 100, k at level 200) : kvs_scope.

Definition of_res {A} (m : res A) : run A := match m with Ok a => Ret a | UB => Undef end.

(** The result of a signed 64-bit operation. *)
Definition i64_res (z : Z) : res Z :=
  if (Z.leb (- 2 ^ 63) z && Z.ltb z (2 ^ 63))%bool then Ok z else UB.

(** The result of a signed 32-bit operation. *)
Definition i32_res (z : Z) : res Z :=
  if (Z.leb (- 2 ^ 31) z && Z.ltb z (2 ^ 31))%bool then Ok z else UB.

Lemma i32_res_ok z : (- 2 ^ 31 <= z < 2 ^ 31)%Z -> i32_res z = Ok z.
Proof.
  intros Hz. unfold i32_res. by rewrite (proj2 (Z.leb_le _ _)), (proj2 (Z.ltb_lt _ _)) by lia.
Qed.

Lemma i32_res_Ok z x : i32_res z = Ok x -> x = z /\ (- 2 ^ 31 <= z < 2 ^ 31)%Z.
Proof.
  unfold i32_res. destruct (Z.leb_spec (- 2 ^ 31) z), (Z.ltb_spec z (2 ^ 31)); simpl; try done.
  by intros [= <-].
Qed.

(** The C string at the head of [l]. *)
Fixpoint cstr (l : bytes) : bytes :=
  match l with
  | [] => []
  | b :: l => if Z.eqb (b2z b) 0 then [] else b :: cstr l
  end.

(** A text without a byte 0, which a C string is to its end. *)
Definition no_nul (l : bytes) : Prop := Forall (fun b => b2z b <> 0%Z) l.

#[export] Instance no_nul_dec l : Decision (no_nul l).
Proof. unfold no_nul. apply _. Defined.

Lemma cstr_no_nul l : no_nul l -> cstr l = l.
Proof.
  induction 1 as [|b l Hb Hl IH]; simpl; [done|].
  by rewrite (proj2 (Z.eqb_neq _ _) Hb), IH.
Qed.

(** ** The environment a call runs in *)

(** [ce_ttl] is the global [g_enable_ttl]; [ce_now] the value [gettimeofday]
    gives during the call, in milliseconds; [ce_malloc i n] whether the [i]-th
    allocation of the call, of [n] bytes, succeeds; [ce_seed] the value
    [pthread_self() ^ time(NULL)] a generator without a seed takes. *)
Record cenv := CEnv {
  ce_ttl : bool;
  ce_now : Z;
  ce_malloc : nat -> Z -> bool;
  ce_seed : Z
}.

(** [kvs_malloc]: a request for 0 bytes gives NULL, any other one succeeds or
    fails as the system decides. *)
Definition alloc_ok (e : cenv) (i : nat) (n : Z) : bool :=
  negb (Z.eqb n 0) && ce_malloc e i n.

(** An environment with enough memory. *)
Definition mem_ok (e : cenv) : Prop := forall i n, ce_malloc e i n = true.

(** ** Buffers that double *)

(** [while (need > cap) cap *= 2] *)
Fixpoint double_cap (fuel : nat) (cap need : Z) : Z :=
  match fuel with
  | O => cap
  | S fuel => if Z.ltb cap need then double_cap fuel (u64 (cap * 2)%Z) need else cap
  end.

Lemma double_cap_ok fuel cap need :
  (0 < cap < 2 ^ 64 -> need < 2 ^ 63 -> need <= cap * 2 ^ Z.of_nat fuel ->
   need <= double_cap fuel cap need /\ cap <= double_cap fuel cap need < 2 ^ 64)%Z.
Proof.
  revert cap. induction fuel as [|fuel IH]; intros cap Hc Hn Hf; cbn [double_cap].
  - rewrite Z.pow_0_r, Z.mul_1_r in Hf. lia.
  - destruct (Z.ltb_spec cap need); [|lia].
    rewrite u64_small by lia. rewrite Nat2Z.inj_succ, Z.pow_succ_r in Hf by lia.
    destruct (IH (cap * 2)%Z) as [H1 H2]; [lia|done|nia|]. lia.
Qed.

(** ** Lists *)

Lemma filter_every {A} (P : A -> Prop) `{!forall x, Decision (P x)} (l : list A) :
  (forall x, x ∈ l -> P x) -> filter P l = l.
Proof.
  induction l as [|x l IH]; intros Hl; [done|]. rewrite filter_cons_True by (apply Hl; by left).
  rewrite IH; [done|]. intros y Hy. apply Hl. by right.
Qed.

Lemma filter_none {A} (P : A -> Prop) `{!forall x, Decision (P x)} (l : list A) :
  (forall x, x ∈ l -> ~ P x) -> filter P l = [].
Proof.
  induction l as [|x l IH]; intros Hl; [done|]. rewrite filter_cons, decide_False.
  - apply IH. intros y Hy. apply Hl. by right.
  - apply Hl. by left.
Qed.

(** Splitting a [list_to_map] at a key that occurs in neither part. *)
Section assoc.
Context {V : Type}.
Implicit Types l : list (bytes * V).

Lemma ltm_lookup_app_None l1 l2 k :
  k ∉ l1.*1 ->
  (list_to_map (l1 ++ l2) : gmap bytes V) !! k = (list_to_map l2 : gmap bytes V) !! k.
Proof.
  intros Hk. rewrite list_to_map_app, lookup_union_r; [done|].
  by apply not_elem_of_list_to_map_1.
Qed.

Lemma ltm_insert_mid l1 l2 k v :
  k ∉ l1.*1 ->
  (list_to_map (l1 ++ (k, v) :: l2) : gmap bytes V)
  = <[k := v]> (list_to_map (l1 ++ l2)).
Proof.
  intros Hk. apply map_eq. intros k'.
  destruct (decide (k' = k)) as [->|Hne].
  - rewrite ltm_lookup_app_None by done. simpl.
    by rewrite !lookup_insert_eq.
  - rewrite lookup_insert_ne by done.
    rewrite !list_to_map_app. simpl.
    destruct ((list_to_map l1 : gmap bytes V) !! k') as [x|] eqn:E.
    + by erewrite !lookup_union_Some_l by done.
    + rewrite !lookup_union_r by done. by rewrite lookup_insert_ne.
Qed.

Lemma ltm_delete_mid l1 l2 k v :
  k ∉ l1.*1 -> k ∉ l2.*1 ->
  (list_to_map (l1 ++ l2) : gmap bytes V)
  = delete k (list_to_map (l1 ++ (k, v) :: l2)).
Proof.
  intros H1 H2. rewrite ltm_insert_mid by done.
  rewrite delete_insert_id; [done|].
  rewrite ltm_lookup_app_None by done. by apply not_elem_of_list_to_map_1.
Qed.

Lemma ltm_lookup_mid l1 l2 k v :
  k ∉ l1.*1 ->
  (list_to_map (l1 ++ (k, v) :: l2) : gmap bytes V) !! k = Some v.
Proof. intros Hk. rewrite ltm_insert_mid by done. apply lookup_insert_eq. Qed.
End assoc.

(** ** Automation *)

Create HintDb kvs discriminated.
Create Rewrite HintDb kvs.
#[export] Hint Resolve b2z_range u64_range u32_range i32_range : kvs.
#[export] Hint Rewrite length_le_encode z2b_b2z b2z_z2b le_decode_encode_u64
  le_decode_encode_u32 : kvs.

(** Case analysis on the test a [match] or an [if] of the goal or of a
    hypothesis inspects, followed by clean-up. *)
Ltac split_match :=
  repeat (case_match; simplify_eq/=); try done.

(** Lists with the same elements in the same order, differently bracketed. *)
Ltac app_eq := repeat (progress (cbn [app]; rewrite <- ?app_assoc)); try done.

(** Boolean comparisons turned into propositions. *)
Ltac unbool :=
  repeat match goal with
  | H : _ && _ = true |- _ => apply andb_true_iff in H; destruct H
  | H : _ || _ = false |- _ => apply orb_false_iff in H; destruct H
  | H : negb _ = true |- _ => apply negb_true_iff in H
  | H : negb _ = false |- _ => apply negb_false_iff in H
  | H : Z.eqb _ _ = true |- _ => apply Z.eqb_eq in H
  | H : Z.eqb _ _ = false |- _ => apply Z.eqb_neq in H
  | H : Z.ltb _ _ = true |- _ => apply Z.ltb_lt in H
  | H : Z.ltb _ _ = false |- _ => apply Z.ltb_ge in H
  | H : Z.leb _ _ = true |- _ => apply Z.leb_le in H
  | H : Z.leb _ _ = false |- _ => apply Z.leb_gt in H
  end.
