(* ===== verification/KvData.v ===== *)
(** * Binary data blocks (kv_utils.c)

    [kv_data] is the C struct [kv_data_t]: a possibly NULL data pointer with
    its length, and the cached hash (0 when it was not computed).  The file
    models the 64-bit hash, the duplication and destruction of a block, and the
    comparison every engine orders its keys with, and proves that the
    comparison is a total order and that the hash is a bucket index. *)

From S2P Require Import Prelude.

Open Scope Z_scope.
Open Scope kvs_scope.

Record kv_data := KvData {
  kd_data : option bytes;
  kd_hash : Z
}.

(** The bytes a block designates; NULL designates none. *)
Definition kd_bytes (d : kv_data) : bytes := default [] (kd_data d).
Definition kd_len (d : kv_data) : Z := Z.of_nat (length (kd_bytes d)).

(** A block on the stack of a handler: pointer and length, no cached hash. *)
Definition kd_of (l : bytes) : kv_data := KvData (Some l) 0.

Definition kd_null : kv_data := KvData None 0.

(** ** The hash *)

Definition xorshift_r (h : Z) (r : Z) : Z := Z.lxor h (Z.shiftr h r).

Definition byte_at (d : bytes) (i : nat) : Z := b2z (nth i d x00).

(** The mixing of one 8-byte block in the loop of [kv_hash_short]. *)
Definition hash_block (m : Z) (h k : Z) : Z :=
  let k := u64 (k * m) in
  let k := xorshift_r k 47 in
  let k := u64 (k * m) in
  let h := Z.lxor h k in
  u64 (h * m).

(** The loop over the [len & ~7] first bytes; returns the hash and what is
    left of the key.  [fuel] bounds the number of blocks. *)
Fixpoint hash_blocks (fuel : nat) (m h : Z) (key : bytes) : Z * bytes :=
  match fuel with
  | O => (h, key)
  | S f => hash_blocks f m (hash_block m h (le_decode (take 8 key))) (drop 8 key)
  end.

(** The [switch (len & 7)] with its fall-through cases. *)
Definition hash_tail (m h : Z) (d : bytes) (r : nat) : Z :=
  let h := if (7 <=? r)%nat then Z.lxor h (Z.shiftl (byte_at d 6) 48) else h in
  let h := if (6 <=? r)%nat then Z.lxor h (Z.shiftl (byte_at d 5) 40) else h in
  let h := if (5 <=? r)%nat then Z.lxor h (Z.shiftl (byte_at d 4) 32) else h in
  let h := if (4 <=? r)%nat then Z.lxor h (Z.shiftl (byte_at d 3) 24) else h in
  let h := if (3 <=? r)%nat then Z.lxor h (Z.shiftl (byte_at d 2) 16) else h in
  let h := if (2 <=? r)%nat then Z.lxor h (Z.shiftl (byte_at d 1) 8) else h in
  if (1 <=? r)%nat then u64 (Z.lxor h (byte_at d 0) * m) else h.

Definition kv_hash_short (key : bytes) : Z :=
  let len := length key in
  if (len <=? 16)%nat then
    let h :=
      if (len <=? 8)%nat then
        u64 (le_decode key * 0x9e3779b97f4a7c15)
      else
        let v1 := le_decode (take 8 key) in
        let v2 := le_decode (drop (len - 8) key) in
        Z.lxor (u64 (v1 * 0x9e3779b97f4a7c15)) (u64 (v2 * 0x85ebca6b3a6b3f4e))
    in
    let h := xorshift_r h 33 in
    let h := u64 (h * 0xff51afd7ed558ccd) in
    let h := xorshift_r h 33 in
    let h := u64 (h * 0xc4ceb9fe1a85ec53) in
    xorshift_r h 33
  else
    let m := 0xc6a4a7935bd1e995 in
    let h := Z.lxor 0x9e3779b97f4a7c15 (u64 (Z.of_nat len * m)) in
    let '(h, d) := hash_blocks (len / 8) m h key in
    let h := hash_tail m h d (len mod 8) in
    let h := xorshift_r h 47 in
    let h := u64 (h * m) in
    xorshift_r h 47.

(** [kv_data_hash_calc]: the cached hash if there is one; the cache is filled
    otherwise. *)
Definition kv_data_hash_calc (key : kv_data) : Z * kv_data :=
  if negb (kd_hash key =? 0) then (kd_hash key, key)
  else let h := kv_hash_short (kd_bytes key) in (h, KvData (kd_data key) h).

(** [kv_data_hash]: the bucket of a key among [size] buckets; a NULL key or a
    size of 0 gives 0 and leaves the cache alone. *)
Definition kv_data_hash (key : kv_data) (size : Z) : Z * kv_data :=
  match kd_data key with
  | None => (0, key)
  | Some _ =>
    if size <=? 0 then (0, key)
    else let '(h, key') := kv_data_hash_calc key in (Z.land h (size - 1), key')
  end.

(** ** Creation, duplication, destruction *)

(** [kv_data_create]: the new block and the status; [i] numbers the
    allocation within the calling operation. *)
Definition kv_data_create (e : cenv) (i : nat) (src : option bytes) (len : Z)
  : kv_data * Z :=
  if len =? 0 then (kd_null, 0)
  else match src with
  | None => (kd_null, -1)
  | Some l =>
    if alloc_ok e i (u64 (len + 1)) then (KvData (Some (take (Z.to_nat len) l)) 0, 0)
    else (kd_null, -1)
  end.

Definition kv_data_destroy (d : kv_data) : kv_data := kd_null.

Definition kv_data_dup (e : cenv) (i : nat) (src : kv_data) : kv_data * Z :=
  match kd_data src with
  | None => (kd_null, 0)
  | Some l =>
    if kd_len src =? 0 then (kd_null, 0)
    else
      let '(d, ret) := kv_data_create e i (kd_data src) (kd_len src) in
      if ret =? 0 then (KvData (kd_data d) (kd_hash src), ret) else (d, ret)
  end.

Definition kv_data_free (d : kv_data) : kv_data := kv_data_destroy d.

(** ** Comparison *)

(** The C library's [memcmp]: the difference of the first two bytes that
    differ, 0 when there are none among the first [n]. *)
Fixpoint memcmp (a b : bytes) (n : nat) : Z :=
  match n, a, b with
  | S n', x :: a', y :: b' =>
    if bool_decide (x = y) then memcmp a' b' n' else b2z x - b2z y
  | _, _, _ => 0
  end.

(** The comparison of the contents of two blocks; the shortcut of the code
    for two equal pointers gives the same result. *)
Definition bytes_cmp (a b : bytes) : Z :=
  let min_len := if (length a <? length b)%nat then length a else length b in
  let cmp := memcmp a b min_len in
  if negb (cmp =? 0) then cmp
  else if (length a <? length b)%nat then -1
  else if (length b <? length a)%nat then 1
  else 0.

Definition kv_data_compare (a b : kv_data) : Z := bytes_cmp (kd_bytes a) (kd_bytes b).

Definition kv_data_equals (a b : kv_data) : bool :=
  if negb (kd_len a =? kd_len b) then false
  else memcmp (kd_bytes a) (kd_bytes b) (length (kd_bytes a)) =? 0.

(** ** The comparison is a total order *)

Lemma bytes_cmp_nil_nil : bytes_cmp [] [] = 0.
Proof. done. Qed.

Lemma bytes_cmp_nil_cons y b : bytes_cmp [] (y :: b) = -1.
Proof. done. Qed.

Lemma bytes_cmp_cons_nil x a : bytes_cmp (x :: a) [] = 1.
Proof. done. Qed.

Lemma bytes_cmp_cons x a y b :
  bytes_cmp (x :: a) (y :: b) =
  if bool_decide (x = y) then bytes_cmp a b else b2z x - b2z y.
Proof.
  unfold bytes_cmp. simpl length.
  change (S (length a) <? S (length b))%nat with (length a <? length b)%nat.
  change (S (length b) <? S (length a))%nat with (length b <? length a)%nat.
  replace (if (length a <? length b)%nat then S (length a) else S (length b))
    with (S (if (length a <? length b)%nat then length a else length b))
    by by destruct (length a <? length b)%nat.
  simpl memcmp. case_bool_decide as E; [done|].
  assert (b2z x - b2z y <> 0).
  { intros H. apply E, b2z_inj. lia. }
  destruct (Z.eqb_spec (b2z x - b2z y) 0); [lia|done].
Qed.

#[export] Hint Rewrite bytes_cmp_nil_nil bytes_cmp_nil_cons bytes_cmp_cons_nil
  bytes_cmp_cons : kvs.

Lemma bytes_cmp_refl a : bytes_cmp a a = 0.
Proof.
  induction a as [|x a IH]; [done|].
  rewrite bytes_cmp_cons, bool_decide_true by done. done.
Qed.

Lemma bytes_cmp_eq a b : bytes_cmp a b = 0 <-> a = b.
Proof.
  split; [|intros ->; apply bytes_cmp_refl].
  revert b. induction a as [|x a IH]; intros [|y b]; autorewrite with kvs; try done.
  case_bool_decide as E; [intros H%IH; congruence|].
  intros H. destruct E. apply b2z_inj. lia.
Qed.

Lemma bytes_cmp_antisym a b : bytes_cmp a b < 0 <-> 0 < bytes_cmp b a.
Proof.
  revert b. induction a as [|x a IH]; intros [|y b]; autorewrite with kvs; try lia.
  case_bool_decide; case_bool_decide; try congruence; [apply IH|lia].
Qed.

Lemma bytes_cmp_trans a b c :
  bytes_cmp a b < 0 -> bytes_cmp b c < 0 -> bytes_cmp a c < 0.
Proof.
  revert b c. induction a as [|x a IH]; intros [|y b] [|z c]; autorewrite with kvs;
    try lia.
  intros H1 H2. repeat case_bool_decide; simplify_eq; try lia; eauto.
Qed.

(** The order of the keys. *)
Definition blt (a b : bytes) : Prop := bytes_cmp a b < 0.

#[export] Instance blt_dec a b : Decision (blt a b).
Proof. unfold blt. apply _. Defined.

#[export] Instance blt_strict_order : StrictOrder blt.
Proof.
  split.
  - intros a H. unfold blt in H. rewrite bytes_cmp_refl in H. lia.
  - intros a b c. apply bytes_cmp_trans.
Qed.

Lemma bytes_cmp_gt a b : 0 < bytes_cmp a b <-> blt b a.
Proof. symmetry. apply bytes_cmp_antisym. Qed.

(** The three outcomes of a comparison, as every engine's search tests them. *)
Inductive cmp_spec (a b : bytes) : Z -> Prop :=
| cmp_lt z : z < 0 -> blt a b -> cmp_spec a b z
| cmp_eq : a = b -> cmp_spec a b 0
| cmp_gt z : 0 < z -> blt b a -> cmp_spec a b z.

Lemma bytes_cmpP a b : cmp_spec a b (bytes_cmp a b).
Proof.
  destruct (Z.lt_trichotomy (bytes_cmp a b) 0) as [H|[H|H]].
  - by constructor.
  - rewrite H. apply cmp_eq. by apply bytes_cmp_eq.
  - constructor; [done|]. by apply bytes_cmp_gt.
Qed.

Lemma kv_data_equals_spec a b :
  kv_data_equals a b = true <-> kv_data_compare a b = 0.
Proof.
  unfold kv_data_equals, kv_data_compare, kd_len.
  destruct (Z.eqb_spec (Z.of_nat (length (kd_bytes a))) (Z.of_nat (length (kd_bytes b))))
    as [E|E]; simpl.
  - unfold bytes_cmp. apply Nat2Z.inj in E. rewrite E, Nat.ltb_irrefl.
    destruct (Z.eqb_spec (memcmp (kd_bytes a) (kd_bytes b) (length (kd_bytes b))) 0);
      simpl; split; intros; try done; lia.
  - rewrite bytes_cmp_eq. split; [done|]. intros Heq. by rewrite Heq in E.
Qed.

(** ** The hash is a bucket index *)

Lemma land_mask_range h k :
  0 <= k -> 0 <= h -> 0 <= Z.land h (2 ^ k - 1) < 2 ^ k.
Proof.
  intros Hk Hh.
  replace (2 ^ k - 1) with (Z.ones k) by (rewrite Z.ones_equiv; lia).
  rewrite Z.land_ones by done. apply Z.mod_pos_bound. lia.
Qed.

Lemma xorshift_r_nonneg h r : 0 <= h -> 0 <= xorshift_r h r.
Proof.
  intros. unfold xorshift_r. apply Z.lxor_nonneg. rewrite Z.shiftr_nonneg. lia.
Qed.

Lemma kv_hash_short_nonneg key : 0 <= kv_hash_short key.
Proof.
  unfold kv_hash_short. case_match.
  - apply xorshift_r_nonneg, u64_range.
  - case_match. apply xorshift_r_nonneg, u64_range.
Qed.

#[export] Hint Resolve kv_hash_short_nonneg : kvs.

(** A block whose cached hash, when set, is the hash of its bytes. *)
Definition kd_wf (d : kv_data) : Prop :=
  kd_hash d = 0 \/ kd_hash d = kv_hash_short (kd_bytes d).

Lemma kd_of_wf l : kd_wf (kd_of l).
Proof. by left. Qed.
#[export] Hint Resolve kd_of_wf : kvs.

Lemma kv_data_hash_calc_spec d :
  kd_wf d ->
  kv_data_hash_calc d = (kv_hash_short (kd_bytes d),
                         KvData (kd_data d) (kv_hash_short (kd_bytes d))).
Proof.
  unfold kd_wf, kv_data_hash_calc. destruct d as [l h]; simpl. intros [->|Hh]; simpl.
  - done.
  - destruct (Z.eqb_spec h 0) as [Hz|Hz]; simpl; [done|]. by rewrite Hh.
Qed.

(** The bucket of a non-NULL key in a table of [2 ^ k] buckets. *)
Lemma kv_data_hash_spec d l k :
  kd_wf d -> kd_data d = Some l -> 0 <= k ->
  kv_data_hash d (2 ^ k)
  = (Z.land (kv_hash_short l) (2 ^ k - 1), KvData (Some l) (kv_hash_short l)).
Proof.
  intros Hwf Hd Hk. unfold kv_data_hash. rewrite Hd.
  destruct (Z.leb_spec (2 ^ k) 0); [lia|].
  rewrite kv_data_hash_calc_spec by done. unfold kd_bytes. by rewrite Hd.
Qed.

(** ** What the engines rely on *)

(** The comparison of keys is a strict total order on byte strings that
    agrees with equality: the rotations of the tree and the walks of the skip
    list depend on it. *)
Theorem kv_data_compare_order a b c :
  (kv_data_compare a b = 0 <-> kd_bytes a = kd_bytes b) /\
  (kv_data_compare a b < 0 <-> 0 < kv_data_compare b a) /\
  (kv_data_compare a b < 0 -> kv_data_compare b c < 0 -> kv_data_compare a c < 0) /\
  (kv_data_equals a b = true <-> kv_data_compare a b = 0).
Proof.
  unfold kv_data_compare. split_and!.
  - apply bytes_cmp_eq.
  - apply bytes_cmp_antisym.
  - apply bytes_cmp_trans.
  - apply kv_data_equals_spec.
Qed.

(** The bucket of a key is within a table whose size is a power of two,
    and is the same with and without the cached hash. *)
Theorem kv_data_hash_in_range l k cache :
  0 <= k -> cache = 0 \/ cache = kv_hash_short l ->
  0 <= (kv_data_hash (KvData (Some l) cache) (2 ^ k)).1 < 2 ^ k /\
  (kv_data_hash (KvData (Some l) cache) (2 ^ k)).1 = Z.land (kv_hash_short l) (2 ^ k - 1).
Proof.
  intros Hk Hc. rewrite (kv_data_hash_spec _ l k) by done. split; [|done].
  apply land_mask_range; [done|apply kv_hash_short_nonneg].
Qed.

Lemma kv_data_hash_in_range_witness :
  0 <= (kv_data_hash (kd_of (str "key")) (2 ^ 4)).1 < 2 ^ 4 /\
  (kv_data_hash (kd_of (str "key")) (2 ^ 4)).1 = Z.land (kv_hash_short (str "key")) (2 ^ 4 - 1).
Proof. apply (kv_data_hash_in_range (str "key") 4 0); [lia|by left]. Defined.
