(* ===== verification/Engine.v ===== *)
(** * What a storage engine promises to its clients

    The four engines (array, hash table, red-black tree, skip list) have the
    same operations and the command handlers, the expiry thread and the
    snapshot use them the same way.  [KvEngine] names the operations,
    [KvEngineLaws] states their contract over an abstract finite map from keys
    to values with their expiry time; each engine file proves an instance, and
    the client files are verified against the class. *)

From S2P Require Import Prelude KvData.

Open Scope Z_scope.

(** The abstract content of an engine: key to value and expiry time, in
    milliseconds, 0 for a key that never expires. *)
Abbreviation kvmap := (gmap bytes (bytes * Z)).

(** The test every engine makes on a node it found, with TTL support on. *)
Definition is_expired (e : cenv) (expire_time : Z) : bool :=
  ce_ttl e && (0 <? expire_time) && (expire_time <? ce_now e).

Class KvEngine (T : Type) := {
  eng_set : cenv -> T -> kv_data -> kv_data -> Z -> T * Z;
  eng_get : cenv -> T -> kv_data -> T * option kv_data;
  eng_del : cenv -> T -> kv_data -> T * Z;
  eng_mod : cenv -> T -> kv_data -> kv_data -> Z -> T * Z;
  eng_exist : cenv -> T -> kv_data -> T * Z;
  eng_del_if_expired : cenv -> T -> kv_data -> Z -> T * Z;
  (** the callback's arguments in order: key, value, expiry time *)
  eng_foreach : cenv -> T -> list (bytes * (bytes * Z))
}.

(** [eng_inv] is the engine's representation invariant, [eng_abs] its
    content, [eng_key] the keys it stores properly and [eng_room s k] that
    there is room to set [k]. *)
Class KvEngineLaws (T : Type) `{KvEngine T} := {
  eng_inv : T -> Prop;
  eng_abs : T -> kvmap;
  eng_key : bytes -> Prop;
  eng_room : T -> bytes -> Prop;

  eng_set_inv e s k v x : eng_inv s -> eng_key k -> eng_inv (eng_set e s (kd_of k) v x).1;
  eng_set_ok e s k v x :
    eng_inv s -> eng_key k -> (eng_set e s (kd_of k) v x).2 = 0 ->
    eng_abs (eng_set e s (kd_of k) v x).1 = <[k := (kd_bytes v, x)]> (eng_abs s);
  eng_set_frame e s k v x :
    eng_inv s -> eng_key k ->
    delete k (eng_abs (eng_set e s (kd_of k) v x).1) = delete k (eng_abs s);
  eng_set_room e s k v x :
    eng_inv s -> eng_key k -> mem_ok e -> eng_room s k ->
    Z.of_nat (length k) < 2 ^ 31 -> kd_len v < 2 ^ 31 ->
    (eng_set e s (kd_of k) v x).2 = 0;

  eng_get_inv e s k : eng_inv s -> eng_key k -> eng_inv (eng_get e s (kd_of k)).1;
  eng_get_spec e s k :
    eng_inv s -> eng_key k ->
    match eng_abs s !! k with
    | Some (v, x) =>
      if is_expired e x then
        (eng_get e s (kd_of k)).2 = None /\
        eng_abs (eng_get e s (kd_of k)).1 = delete k (eng_abs s)
      else
        (exists d, (eng_get e s (kd_of k)).2 = Some d /\ kd_bytes d = v) /\
        (eng_get e s (kd_of k)).1 = s
    | None => eng_get e s (kd_of k) = (s, None)
    end;

  eng_del_inv e s k : eng_inv s -> eng_key k -> eng_inv (eng_del e s (kd_of k)).1;
  eng_del_spec e s k :
    eng_inv s -> eng_key k ->
    eng_abs (eng_del e s (kd_of k)).1 = delete k (eng_abs s) /\
    (eng_del e s (kd_of k)).2 = (match eng_abs s !! k with Some _ => 0 | None => 1 end);

  eng_mod_set e s k v x : eng_mod e s k v x = eng_set e s k v x;

  eng_exist_spec e s k :
    eng_inv s -> eng_key k ->
    eng_exist e s (kd_of k) =
    ((eng_get e s (kd_of k)).1,
     match (eng_get e s (kd_of k)).2 with Some _ => 0 | None => 1 end);

  eng_del_if_expired_spec e s k x :
    eng_inv s -> eng_key k ->
    eng_del_if_expired e s (kd_of k) x =
    match eng_abs s !! k with
    | Some (v, x') =>
      if bool_decide (x' = x) then ((eng_del e s (kd_of k)).1, 1) else (s, 0)
    | None => (s, 0)
    end;

  (** with TTL support on, the traversal meets every key that has not
      expired, once, and no other *)
  eng_foreach_spec e s :
    eng_inv s -> ce_ttl e = true ->
    eng_foreach e s ≡ₚ
      map_to_list (filter (fun kv => is_expired e kv.2.2 = false) (eng_abs s))
}.

(** ** What clients use *)

Section client.
Context {T : Type} `{KvEngineLaws T}.
Implicit Types (e : cenv) (s : T) (k : bytes) (v : kv_data) (x : Z).

(** The value a client reads under [k]: none when absent or expired. *)
Definition live (e : cenv) (m : kvmap) (k : bytes) : option bytes :=
  match m !! k with
  | Some (v, x) => if is_expired e x then None else Some v
  | None => None
  end.

Lemma eng_get_live e s k :
  eng_inv s -> eng_key k ->
  kd_bytes <$> (eng_get e s (kd_of k)).2 = live e (eng_abs s) k.
Proof.
  intros Hi Hk. pose proof (eng_get_spec e s k Hi Hk) as Hs. unfold live.
  destruct (eng_abs s !! k) as [[v x]|]; [|by rewrite Hs].
  destruct (is_expired e x).
  - by destruct Hs as [-> _].
  - destruct Hs as [(d & -> & <-) _]. done.
Qed.

(** Reading never changes what a later read of any key at the same time
    gives: the nodes it drops had expired. *)
Lemma eng_get_keeps_live e s k k' :
  eng_inv s -> eng_key k ->
  live e (eng_abs (eng_get e s (kd_of k)).1) k' = live e (eng_abs s) k'.
Proof.
  intros Hi Hk. pose proof (eng_get_spec e s k Hi Hk) as Hs. unfold live.
  destruct (eng_abs s !! k) as [[v x]|] eqn:E; [|by rewrite Hs].
  destruct (is_expired e x) eqn:Ex.
  - destruct Hs as [_ ->]. destruct (decide (k = k')) as [<-|Hne].
    + by rewrite lookup_delete_eq, E, Ex.
    + by rewrite lookup_delete_ne.
  - by destruct Hs as [_ ->].
Qed.

Lemma eng_del_abs e s k :
  eng_inv s -> eng_key k ->
  eng_abs (eng_del e s (kd_of k)).1 = delete k (eng_abs s).
Proof. intros Hi Hk. by apply eng_del_spec. Qed.

Lemma eng_set_lookup e s k v x :
  eng_inv s -> eng_key k -> (eng_set e s (kd_of k) v x).2 = 0 ->
  eng_abs (eng_set e s (kd_of k) v x).1 !! k = Some (kd_bytes v, x).
Proof. intros. rewrite eng_set_ok by done. apply lookup_insert_eq. Qed.

(** Whatever the outcome of a [set], the other keys keep their entry. *)
Lemma eng_set_lookup_ne e s k k' v x :
  eng_inv s -> eng_key k -> k <> k' ->
  eng_abs (eng_set e s (kd_of k) v x).1 !! k' = eng_abs s !! k'.
Proof.
  intros Hi Hk Hne. pose proof (eng_set_frame e s k v x Hi Hk) as Hf.
  apply (f_equal (fun m : kvmap => m !! k')) in Hf.
  by rewrite !lookup_delete_ne in Hf by done.
Qed.
End client.

(** The traversal of a map built from a list without duplicate keys. *)
Lemma filter_map_to_list (P : bytes * (bytes * Z) -> Prop) `{!forall x, Decision (P x)}
  (l : list (bytes * (bytes * Z))) :
  NoDup l.*1 ->
  filter P l ≡ₚ map_to_list (filter P (list_to_map l : kvmap)).
Proof.
  intros Hnd. apply NoDup_Permutation.
  - apply NoDup_filter. by eapply NoDup_fmap_1.
  - apply NoDup_map_to_list.
  - intros [k w]. rewrite list_elem_of_filter, elem_of_map_to_list, map_lookup_filter_Some.
    rewrite <- elem_of_list_to_map by done. tauto.
Qed.

