(* ===== verification/EngineSpec.v ===== *)
(** * The storage engines as a key-value map with expiry

    The specification of an engine is a transition relation over a finite map
    from keys to values with their expiry time; [spec_step] says which replies
    each operation may give and how the content may change.  [run_ops_refine]
    proves, once for every engine that satisfies [KvEngineLaws], that any
    sequence of operations, each in its own environment (time, memory, TTL
    switch), gives replies the specification allows. *)

From S2P Require Import Prelude KvData Engine.

Open Scope Z_scope.

Inductive op :=
| OSet (k : bytes) (v : kv_data) (x : Z)
| OMod (k : bytes) (v : kv_data) (x : Z)
| OGet (k : bytes)
| ODel (k : bytes)
| OExist (k : bytes)
| ODelIfExpired (k : bytes) (x : Z)
| OForeach.

Inductive reply :=
| RInt (z : Z)
| RVal (v : option bytes)
| RList (l : list (bytes * (bytes * Z))).

Definition op_key (o : op) : option bytes :=
  match o with
  | OSet k _ _ | OMod k _ _ | OGet k | ODel k | OExist k | ODelIfExpired k _ => Some k
  | OForeach => None
  end.

Section run.
Context {T : Type} `{KvEngine T}.

Definition run_op (e : cenv) (s : T) (o : op) : T * reply :=
  match o with
  | OSet k v x => let '(s', r) := eng_set e s (kd_of k) v x in (s', RInt r)
  | OMod k v x => let '(s', r) := eng_mod e s (kd_of k) v x in (s', RInt r)
  | OGet k => let '(s', r) := eng_get e s (kd_of k) in (s', RVal (kd_bytes <$> r))
  | ODel k => let '(s', r) := eng_del e s (kd_of k) in (s', RInt r)
  | OExist k => let '(s', r) := eng_exist e s (kd_of k) in (s', RInt r)
  | ODelIfExpired k x =>
    let '(s', r) := eng_del_if_expired e s (kd_of k) x in (s', RInt r)
  | OForeach => (s, RList (eng_foreach e s))
  end.

Fixpoint run_ops (s : T) (ops : list (cenv * op)) : T * list reply :=
  match ops with
  | [] => (s, [])
  | (e, o) :: ops =>
    let '(s1, r) := run_op e s o in
    let '(s2, rs) := run_ops s1 ops in (s2, r :: rs)
  end.
End run.

(** ** The specification *)

(** The content once an expired entry of [k] was dropped. *)
Definition purge (e : cenv) (m : kvmap) (k : bytes) : kvmap :=
  match m !! k with
  | Some (_, x) => if is_expired e x then delete k m else m
  | None => m
  end.

(** [may_fail] says when storing may be refused: then the other keys keep
    their entries. *)
Inductive spec_set (e : cenv) (room : kvmap -> bytes -> Prop) (m : kvmap) (k : bytes)
    (v : kv_data) (x : Z) : kvmap -> reply -> Prop :=
| spec_stored : spec_set e room m k v x (<[k := (kd_bytes v, x)]> m) (RInt 0)
| spec_refused m' c :
  c <> 0 -> delete k m' = delete k m ->
  ~ (mem_ok e /\ room m k /\ Z.of_nat (length k) < 2 ^ 31 /\ kd_len v < 2 ^ 31) ->
  spec_set e room m k v x m' (RInt c).

Inductive spec_step (e : cenv) (room : kvmap -> bytes -> Prop) (m : kvmap)
  : op -> kvmap -> reply -> Prop :=
| spec_OSet k v x m' r :
  spec_set e room m k v x m' r -> spec_step e room m (OSet k v x) m' r
| spec_OMod k v x m' r :
  spec_set e room m k v x m' r -> spec_step e room m (OMod k v x) m' r
| spec_OGet k : spec_step e room m (OGet k) (purge e m k) (RVal (live e m k))
| spec_ODel k :
  spec_step e room m (ODel k) (delete k m) (RInt (if m !! k then 0 else 1))
| spec_OExist k :
  spec_step e room m (OExist k) (purge e m k) (RInt (if live e m k then 0 else 1))
| spec_due k x v :
  m !! k = Some (v, x) -> spec_step e room m (ODelIfExpired k x) (delete k m) (RInt 1)
| spec_not_due k x :
  snd <$> m !! k <> Some x -> spec_step e room m (ODelIfExpired k x) m (RInt 0)
| spec_foreach l :
  (ce_ttl e = true ->
     l ≡ₚ map_to_list (filter (fun kv => is_expired e kv.2.2 = false) m)) ->
  spec_step e room m OForeach m (RList l).

Inductive spec_run (room : kvmap -> bytes -> Prop) (m : kvmap)
  : list (cenv * op) -> kvmap -> list reply -> Prop :=
| spec_run_nil : spec_run room m [] m []
| spec_run_cons e o m1 r ops m2 rs :
  spec_step e room m o m1 r -> spec_run room m1 ops m2 rs ->
  spec_run room m ((e, o) :: ops) m2 (r :: rs).

(** ** Refinement *)

Section refine.
Context {T : Type} `{KvEngineLaws T}.
Context (room : kvmap -> bytes -> Prop).
Context (Hroom : forall s k, eng_inv s -> eng_key k -> room (eng_abs s) k -> eng_room s k).
Implicit Types (e : cenv) (s : T) (k : bytes).

Definition op_ok (o : op) : Prop :=
  match op_key o with Some k => eng_key k | None => True end.

Lemma set_refines e s k v x :
  eng_inv s -> eng_key k ->
  spec_set e room (eng_abs s) k v x (eng_abs (eng_set e s (kd_of k) v x).1)
    (RInt (eng_set e s (kd_of k) v x).2).
Proof.
  intros Hi Hk. destruct (decide ((eng_set e s (kd_of k) v x).2 = 0)) as [Hz|Hnz].
  - rewrite eng_set_ok, Hz by done. constructor.
  - apply spec_refused; [done|by apply eng_set_frame|].
    intros (Hm & Hr & Hlk & Hlv). apply Hnz, eng_set_room; auto.
Qed.

Lemma get_refines e s k :
  eng_inv s -> eng_key k ->
  kd_bytes <$> (eng_get e s (kd_of k)).2 = live e (eng_abs s) k /\
  eng_abs (eng_get e s (kd_of k)).1 = purge e (eng_abs s) k.
Proof.
  intros Hi Hk. split; [by apply eng_get_live|].
  pose proof (eng_get_spec e s k Hi Hk) as Hs. unfold purge.
  destruct (eng_abs s !! k) as [[v x]|]; [|by rewrite Hs].
  destruct (is_expired e x); [by destruct Hs|]. by destruct Hs as [_ ->].
Qed.

Lemma run_op_refines e s o :
  eng_inv s -> op_ok o ->
  eng_inv (run_op e s o).1 /\
  spec_step e room (eng_abs s) o (eng_abs (run_op e s o).1) (run_op e s o).2.
Proof.
  intros Hi Ho. destruct o as [k v x|k v x|k|k|k|k x|]; unfold op_ok in Ho; simpl in *.
  - pose proof (set_refines e s k v x Hi Ho) as Hs. pose proof (eng_set_inv e s k v x Hi Ho).
    destruct (eng_set e s (kd_of k) v x). split; [done|by constructor].
  - rewrite eng_mod_set.
    pose proof (set_refines e s k v x Hi Ho) as Hs. pose proof (eng_set_inv e s k v x Hi Ho).
    destruct (eng_set e s (kd_of k) v x). split; [done|by constructor].
  - destruct (get_refines e s k Hi Ho) as [Hv Ha]. pose proof (eng_get_inv e s k Hi Ho).
    destruct (eng_get e s (kd_of k)). split; [done|]. simpl in *. rewrite Hv, Ha. constructor.
  - destruct (eng_del_spec e s k Hi Ho) as [Ha Hv]. pose proof (eng_del_inv e s k Hi Ho).
    destruct (eng_del e s (kd_of k)). split; [done|]. simpl in *. rewrite Hv, Ha.
    replace (match eng_abs s !! k with Some _ => 0 | None => 1 end)
      with (if eng_abs s !! k then 0 else 1) by done. constructor.
  - rewrite eng_exist_spec by done.
    destruct (get_refines e s k Hi Ho) as [Hv Ha]. pose proof (eng_get_inv e s k Hi Ho).
    destruct (eng_get e s (kd_of k)) as [s' r]. split; [done|]. simpl in *. rewrite Ha.
    replace (match r with Some _ => 0 | None => 1 end)
      with (if live e (eng_abs s) k then 0 else 1) by (rewrite <- Hv; by destruct r).
    constructor.
  - rewrite eng_del_if_expired_spec by done.
    destruct (eng_abs s !! k) as [[v x']|] eqn:E.
    + case_bool_decide as Hx; simpl.
      * subst x'. split; [by apply eng_del_inv|]. rewrite eng_del_abs by done.
        by eapply spec_due.
      * split; [done|]. apply spec_not_due.
        rewrite E. simpl. congruence.
    + split; [done|]. simpl. apply spec_not_due. by rewrite E.
  - split; [done|]. constructor. intros. by apply eng_foreach_spec.
Qed.

Lemma run_ops_refine s ops :
  eng_inv s -> Forall (fun eo => op_ok eo.2) ops ->
  eng_inv (run_ops s ops).1 /\
  spec_run room (eng_abs s) ops (eng_abs (run_ops s ops).1) (run_ops s ops).2.
Proof.
  intros Hi Hops. revert s Hi. induction Hops as [|[e o] ops Ho Hops IH]; intros s Hi; simpl.
  - split; [done|constructor].
  - destruct (run_op_refines e s o Hi Ho) as [Hi1 Hs1].
    destruct (run_op e s o) as [s1 r]. simpl in *.
    destruct (IH s1 Hi1) as [Hi2 Hs2]. destruct (run_ops s1 ops) as [s2 rs]. simpl in *.
    split; [done|]. by econstructor.
Qed.
End refine.
