(* ===== verification/ArrayEngine.v ===== *)
(** * The array engine (kvs_array.c)

    The table is modelled by its live prefix: the slots from [total] on are
    zero-filled, are never read, and are not represented.  A key whose length
    is 0 is stored with a NULL pointer and [find_key_index] skips it: such a
    slot stays dead, which is why the interface's [eng_key] excludes it. *)

From S2P Require Import Prelude KvData Engine.

Open Scope Z_scope.

Record array_item := ArrayItem {
  ai_key : kv_data;
  ai_value : kv_data;
  ai_expire : Z
}.

Definition KVS_ARRAY_SIZE : Z := 100000.

Record kvs_array := KvsArray {
  ka_table : option (list array_item);
  ka_idx : Z;
  ka_total : Z
}.

Definition array_zero : kvs_array := KvsArray None 0 0.

(** sizeof(kvs_array_item_t): two blocks of 24 bytes and the expiry time *)
Definition sizeof_array_item : Z := 56.

Definition kvs_array_create (e : cenv) (inst : kvs_array) : kvs_array * Z :=
  match ka_table inst with
  | Some _ => (inst, -1)
  | None =>
    if alloc_ok e 0 (KVS_ARRAY_SIZE * sizeof_array_item) then
      (KvsArray (Some []) 0 0, 0)
    else (inst, -1)
  end.

Definition kvs_array_destroy (inst : kvs_array) : kvs_array := KvsArray None 0 0.

Definition array_items (inst : kvs_array) : list array_item :=
  default [] (ka_table inst).

(** [find_key_index]: the index of the first slot with a non-NULL key equal
    to [key]; -1, here [None], when there is none. *)
Fixpoint find_from (l : list array_item) (key : kv_data) (i : nat) : option nat :=
  match l with
  | [] => None
  | it :: l' =>
    match kd_data (ai_key it) with
    | Some _ =>
      if kv_data_compare (ai_key it) key =? 0 then Some i else find_from l' key (S i)
    | None => find_from l' key (S i)
    end
  end.

Definition find_key_index (inst : kvs_array) (key : kv_data) : option nat :=
  find_from (take (Z.to_nat (ka_total inst)) (array_items inst)) key 0.

Definition set_value (v : kv_data) (it : array_item) : array_item :=
  ArrayItem (ai_key it) v (ai_expire it).
Definition set_value_expire (v : kv_data) (x : Z) (it : array_item) : array_item :=
  ArrayItem (ai_key it) v x.

Definition kvs_array_set (e : cenv) (inst : kvs_array) (key value : kv_data)
  (expire_time : Z) : kvs_array * Z :=
  match find_key_index inst key with
  | Some idx =>
    let '(v, ret) := kv_data_dup e 0 value in
    if negb (ret =? 0) then
      (KvsArray (Some (alter (set_value v) idx (array_items inst)))
                (ka_idx inst) (ka_total inst), -2)
    else
      (KvsArray (Some (alter (set_value_expire v expire_time) idx (array_items inst)))
                (ka_idx inst) (ka_total inst), 0)
  | None =>
    if KVS_ARRAY_SIZE <=? ka_total inst then (inst, -1)
    else
      let '(k, ret) := kv_data_dup e 0 key in
      if negb (ret =? 0) then (inst, -2)
      else
        let '(v, ret) := kv_data_dup e 1 value in
        if negb (ret =? 0) then (inst, -2)
        else
          (KvsArray (Some (array_items inst ++ [ArrayItem k v expire_time]))
                    (ka_total inst + 1) (ka_total inst + 1), 0)
  end.

Definition kvs_array_mod (e : cenv) (inst : kvs_array) (key value : kv_data)
  (expire_time : Z) : kvs_array * Z :=
  kvs_array_set e inst key value expire_time.

(** The slot at [idx] takes the last slot's item and the last slot is
    cleared; when [idx] is the last slot it is only cleared. *)
Definition array_remove (l : list array_item) (idx : nat) : list array_item :=
  if bool_decide (idx <> length l - 1)%nat then
    match last l with
    | Some it => take (length l - 1) (<[idx := it]> l)
    | None => l
    end
  else take (length l - 1) l.

Definition kvs_array_del (e : cenv) (inst : kvs_array) (key : kv_data) : kvs_array * Z :=
  match find_key_index inst key with
  | None => (inst, 1)
  | Some idx =>
    (KvsArray (Some (array_remove (array_items inst) idx))
              (ka_total inst - 1) (ka_total inst - 1), 0)
  end.

Definition kvs_array_get (e : cenv) (inst : kvs_array) (key : kv_data)
  : kvs_array * option kv_data :=
  match find_key_index inst key with
  | None => (inst, None)
  | Some idx =>
    match array_items inst !! idx with
    | None => (inst, None)
    | Some it =>
      if is_expired e (ai_expire it) then ((kvs_array_del e inst key).1, None)
      else (inst, Some (ai_value it))
    end
  end.

Definition kvs_array_del_if_expired (e : cenv) (inst : kvs_array) (key : kv_data)
  (expected_expire : Z) : kvs_array * Z :=
  match find_key_index inst key with
  | None => (inst, 0)
  | Some idx =>
    match array_items inst !! idx with
    | None => (inst, 0)
    | Some it =>
      if negb (ai_expire it =? expected_expire) then (inst, 0)
      else ((kvs_array_del e inst key).1, 1)
    end
  end.

Definition kvs_array_exist (e : cenv) (inst : kvs_array) (key : kv_data) : kvs_array * Z :=
  let '(inst', res) := kvs_array_get e inst key in
  (inst', match res with None => 1 | Some _ => 0 end).

(** A non-NULL result with a NULL pointer counts as absent here. *)
Definition kvs_array_get_value_len (e : cenv) (inst : kvs_array) (key_ptr : bytes)
  (key_len : Z) : kvs_array * Z :=
  if key_len <=? 0 then (inst, 0)
  else
    let '(inst', res) := kvs_array_get e inst (kd_of (take (Z.to_nat key_len) key_ptr)) in
    (inst', match res with
            | Some d => match kd_data d with Some l => Z.of_nat (length l) | None => 0 end
            | None => 0
            end).

(** The arguments the callback gets, in order; the expiry time is the one the
    callback reads in the slot around the key.  Without TTL support the
    function does nothing at all. *)
Definition kvs_array_foreach (e : cenv) (inst : kvs_array) : list (bytes * (bytes * Z)) :=
  if ce_ttl e then
    omap (fun it =>
      match kd_data (ai_key it) with
      | None => None
      | Some k =>
        if (0 <? ai_expire it) && (ai_expire it <? ce_now e) then None
        else Some (k, (kd_bytes (ai_value it), ai_expire it))
      end) (take (Z.to_nat (ka_total inst)) (array_items inst))
  else [].

#[export] Instance array_engine : KvEngine kvs_array := {
  eng_set := kvs_array_set;
  eng_get := kvs_array_get;
  eng_del := kvs_array_del;
  eng_mod := kvs_array_mod;
  eng_exist := kvs_array_exist;
  eng_del_if_expired := kvs_array_del_if_expired;
  eng_foreach := kvs_array_foreach
}.

(** ** Representation *)

(** The entry of a slot; none for a slot whose key pointer is NULL. *)
Definition item_entry (it : array_item) : option (bytes * (bytes * Z)) :=
  match kd_data (ai_key it) with
  | Some k => Some (k, (kd_bytes (ai_value it), ai_expire it))
  | None => None
  end.

Definition array_entries (l : list array_item) : list (bytes * (bytes * Z)) :=
  omap item_entry l.

Definition array_abs (inst : kvs_array) : kvmap :=
  list_to_map (array_entries (array_items inst)).

(** [total] and [idx] count the slots, the table does not overflow, and no
    key is stored twice and no slot has a NULL key. *)
Record array_inv (inst : kvs_array) : Prop := {
  ainv_table : is_Some (ka_table inst);
  ainv_total : ka_total inst = Z.of_nat (length (array_items inst));
  ainv_idx : ka_idx inst = ka_total inst;
  ainv_size : ka_total inst <= KVS_ARRAY_SIZE;
  ainv_keys : NoDup (array_entries (array_items inst)).*1;
  ainv_live : length (array_entries (array_items inst)) = length (array_items inst)
}.

Lemma array_take_total inst :
  array_inv inst ->
  take (Z.to_nat (ka_total inst)) (array_items inst) = array_items inst.
Proof. intros [_ -> _ _ _ _]. rewrite Nat2Z.id. by apply take_ge. Qed.

Lemma array_entries_app l1 l2 :
  array_entries (l1 ++ l2) = array_entries l1 ++ array_entries l2.
Proof. apply omap_app. Qed.

(** What [find_key_index] returns: the split of the table at the key. *)
Lemma find_from_Some l key i j kb :
  kd_data key = Some kb ->
  find_from l key i = Some j ->
  exists l1 it l2, l = l1 ++ it :: l2 /\ j = (i + length l1)%nat /\
    kd_data (ai_key it) = Some kb /\ kb ∉ (array_entries l1).*1.
Proof.
  intros Hkey. revert i. induction l as [|it l IH]; intros i; simpl; [done|].
  assert (Hrec : (kd_data (ai_key it) <> Some kb) -> find_from l key (S i) = Some j ->
    exists l1 it0 l2, it :: l = l1 ++ it0 :: l2 /\ j = (i + length l1)%nat /\
      kd_data (ai_key it0) = Some kb /\ kb ∉ (array_entries l1).*1).
  { intros Hne (l1 & it' & l2 & -> & -> & Hk & Hnot)%IH.
    exists (it :: l1), it', l2. split_and!; [done|simpl; lia|done|].
    change (it :: l1) with ([it] ++ l1). rewrite array_entries_app, fmap_app.
    rewrite not_elem_of_app. split; [|done].
    unfold array_entries, item_entry. simpl.
    destruct (kd_data (ai_key it)) as [k'|]; simpl; [|apply not_elem_of_nil].
    rewrite list_elem_of_singleton. congruence. }
  destruct (kd_data (ai_key it)) as [k'|] eqn:Ek; [|by apply Hrec].
  destruct (Z.eqb_spec (kv_data_compare (ai_key it) key) 0) as [E|E].
  - intros [= <-]. exists [], it, l. split_and!; [done|simpl; lia| |apply not_elem_of_nil].
    unfold kv_data_compare, kd_bytes in E. rewrite Ek, Hkey in E. simpl in E.
    apply bytes_cmp_eq in E. by subst.
  - apply Hrec. intros [= ->]. apply E. unfold kv_data_compare, kd_bytes.
    rewrite Ek, Hkey. apply bytes_cmp_refl.
Qed.

Lemma find_from_None l key i kb :
  kd_data key = Some kb ->
  find_from l key i = None -> kb ∉ (array_entries l).*1.
Proof.
  intros Hkey. revert i. induction l as [|it l IH]; intros i; simpl.
  { intros _. apply not_elem_of_nil. }
  unfold array_entries. simpl. unfold item_entry at 1.
  destruct (kd_data (ai_key it)) as [k'|] eqn:Ek; [|apply IH].
  destruct (Z.eqb_spec (kv_data_compare (ai_key it) key) 0) as [E|E]; [done|].
  intros Hf. apply IH in Hf. rewrite fmap_cons, not_elem_of_cons. split; [|done].
  simpl. intros ->. apply E. unfold kv_data_compare, kd_bytes.
  rewrite Ek, Hkey. apply bytes_cmp_refl.
Qed.

(** The two outcomes of a lookup, on a well-formed array. *)
Inductive find_view (inst : kvs_array) (kb : bytes) : option nat -> Prop :=
| find_absent : array_abs inst !! kb = None ->
    kb ∉ (array_entries (array_items inst)).*1 ->
    find_view inst kb None
| find_at l1 it l2 :
    array_items inst = l1 ++ it :: l2 ->
    kd_data (ai_key it) = Some kb ->
    kb ∉ (array_entries l1).*1 ->
    kb ∉ (array_entries l2).*1 ->
    array_abs inst !! kb = Some (kd_bytes (ai_value it), ai_expire it) ->
    find_view inst kb (Some (length l1)).

Lemma array_entries_cons it l kb :
  kd_data (ai_key it) = Some kb ->
  array_entries (it :: l)
  = (kb, (kd_bytes (ai_value it), ai_expire it)) :: array_entries l.
Proof. intros Hk. unfold array_entries. simpl. unfold item_entry at 1. by rewrite Hk. Qed.

Lemma array_find inst kb :
  array_inv inst -> find_view inst kb (find_key_index inst (kd_of kb)).
Proof.
  intros Hi. unfold find_key_index. rewrite array_take_total by done.
  destruct (find_from _ _ _) as [j|] eqn:E.
  - apply (find_from_Some _ _ _ _ kb) in E as (l1 & it & l2 & Hl & -> & Hk & Hn); [|done].
    simpl. pose proof (ainv_keys _ Hi) as Hnd. rewrite Hl in Hnd.
    rewrite array_entries_app, (array_entries_cons it l2 kb Hk), fmap_app in Hnd.
    apply NoDup_app in Hnd as (_ & _ & Hnd). simpl in Hnd.
    apply NoDup_cons in Hnd as [Hn2 _].
    apply (find_at _ _ l1 it l2); try done.
    unfold array_abs. rewrite Hl, array_entries_app, (array_entries_cons it l2 kb Hk).
    by apply ltm_lookup_mid.
  - apply (find_from_None _ _ _ kb) in E; [|done].
    constructor; [|done]. by apply not_elem_of_list_to_map_1.
Qed.

Lemma alter_mid {A} (f : A -> A) l1 x l2 :
  alter f (length l1) (l1 ++ x :: l2) = l1 ++ f x :: l2.
Proof. induction l1; simpl; [done|]. by f_equal. Qed.

Lemma insert_mid {A} l1 (x y : A) l2 :
  <[length l1 := y]> (l1 ++ x :: l2) = l1 ++ y :: l2.
Proof. induction l1; simpl; [done|]. by f_equal. Qed.

Lemma array_remove_mid l1 it l2 :
  array_remove (l1 ++ it :: l2) (length l1) ≡ₚ l1 ++ l2.
Proof.
  unfold array_remove. rewrite length_app. simpl.
  destruct l2 as [|y l2 _] using rev_ind; simpl.
  - rewrite bool_decide_false by lia.
    rewrite Nat.add_sub. by rewrite take_app_length, app_nil_r.
  - rewrite bool_decide_true by (rewrite length_app; simpl; lia).
    rewrite app_comm_cons, app_assoc, last_snoc, <- app_assoc. simpl.
    rewrite insert_mid.
    rewrite app_comm_cons, (app_assoc l1 (y :: l2) [y]), take_app_length'
      by (rewrite !length_app; simpl; lia).
    by rewrite Permutation_cons_append, app_assoc.
Qed.

(** ** Preservation and functional behaviour *)

Lemma kv_data_dup_bytes e i d :
  (kv_data_dup e i d).2 = 0 -> kd_bytes (kv_data_dup e i d).1 = kd_bytes d.
Proof.
  unfold kv_data_dup, kv_data_create, kd_len, kd_bytes.
  destruct (kd_data d) as [l|] eqn:El; simpl; [|done].
  destruct (Z.eqb_spec (Z.of_nat (length l)) 0) as [E|E]; simpl.
  - intros _. destruct l; [done|]. simpl in E. lia.
  - destruct (alloc_ok e i _); simpl; [|done].
    intros _. rewrite Nat2Z.id. by apply take_ge.
Qed.

Lemma kv_data_dup_key e i kb :
  kb <> [] -> (kv_data_dup e i (kd_of kb)).2 = 0 ->
  kd_data (kv_data_dup e i (kd_of kb)).1 = Some kb.
Proof.
  intros Hne H. pose proof (kv_data_dup_bytes e i (kd_of kb) H) as Hb.
  revert H Hb. unfold kv_data_dup, kv_data_create, kd_len, kd_bytes. simpl.
  destruct (Z.eqb_spec (Z.of_nat (length kb)) 0) as [E|E]; simpl.
  - destruct kb; [done|]. simpl in E. lia.
  - destruct (alloc_ok e i _); simpl; [|done].
    congruence.
Qed.

(** A zero-length or NULL block is never allocated; any other one needs one
    byte more than its length, which the 64-bit size can express. *)
Lemma kv_data_dup_mem_ok e i d :
  mem_ok e -> Z.of_nat (length (kd_bytes d)) < 2 ^ 64 - 1 -> (kv_data_dup e i d).2 = 0.
Proof.
  intros Hm Hlen. unfold kv_data_dup, kv_data_create, kd_len.
  unfold kd_bytes in *. destruct (kd_data d) as [l|] eqn:El; simpl in *; [|done].
  destruct (Z.eqb_spec (Z.of_nat (length l)) 0) as [E|E]; simpl; [done|].
  unfold alloc_ok. rewrite Hm, u64_small by lia.
  destruct (Z.eqb_spec (Z.of_nat (length l) + 1) 0); [lia|]. done.
Qed.

Section array.
Implicit Types (e : cenv) (inst : kvs_array) (k : bytes) (v : kv_data) (x : Z).

(** Replacing the value of the slot that holds [k]. *)
Lemma array_update_at inst l1 it l2 k f :
  array_inv inst -> array_items inst = l1 ++ it :: l2 ->
  kd_data (ai_key it) = Some k -> k ∉ (array_entries l1).*1 ->
  ai_key (f it) = ai_key it ->
  let inst' := KvsArray (Some (alter f (length l1) (array_items inst)))
                        (ka_idx inst) (ka_total inst) in
  array_inv inst' /\
  array_abs inst' = <[k := (kd_bytes (ai_value (f it)), ai_expire (f it))]>
                      (array_abs inst).
Proof.
  intros [Ht Hto Hi Hs Hnd Hlv] Hl Hk Hn Hf. simpl. rewrite Hl in Hto, Hnd, Hlv |- *.
  rewrite alter_mid. assert (Hk' : kd_data (ai_key (f it)) = Some k) by by rewrite Hf.
  split.
  - split; simpl; try done.
    + unfold array_items at 1. simpl. rewrite length_app in *. done.
    + unfold array_items at 1. simpl.
      rewrite array_entries_app, (array_entries_cons _ _ k Hk'), fmap_app.
      rewrite array_entries_app, (array_entries_cons _ _ k Hk), fmap_app in Hnd. done.
    + unfold array_items at 1 2. simpl.
      rewrite array_entries_app, (array_entries_cons _ _ k Hk').
      rewrite array_entries_app, (array_entries_cons _ _ k Hk) in Hlv.
      rewrite !length_app in *. exact Hlv.
  - unfold array_abs. rewrite Hl. unfold array_items; simpl.
    rewrite !array_entries_app, (array_entries_cons _ _ k Hk'),
      (array_entries_cons _ _ k Hk).
    rewrite !ltm_insert_mid by done. by rewrite insert_insert_eq.
Qed.

Lemma array_append inst key v x k :
  array_inv inst -> ka_total inst < KVS_ARRAY_SIZE ->
  kd_data key = Some k -> k ∉ (array_entries (array_items inst)).*1 ->
  let inst' := KvsArray (Some (array_items inst ++ [ArrayItem key v x]))
                        (ka_total inst + 1) (ka_total inst + 1) in
  array_inv inst' /\ array_abs inst' = <[k := (kd_bytes v, x)]> (array_abs inst).
Proof.
  intros [Ht Hto Hi Hs Hnd Hlv] Hlt Hk Hn.
  assert (Hent : array_entries (array_items inst ++ [ArrayItem key v x])
    = array_entries (array_items inst) ++ [(k, (kd_bytes v, x))]).
  { rewrite array_entries_app. f_equal. unfold array_entries. simpl.
    unfold item_entry. simpl. by rewrite Hk. }
  split.
  - split; simpl; try done.
    + unfold array_items at 1; simpl. rewrite length_app. simpl. lia.
    + lia.
    + unfold array_items at 1; simpl. rewrite Hent, fmap_app. apply NoDup_app.
      split_and!; [done| |apply NoDup_singleton].
      intros k' Hk'. simpl. rewrite list_elem_of_singleton. by intros ->.
    + unfold array_items at 1 3; simpl. rewrite Hent, !length_app, Hlv. done.
  - unfold array_abs at 1. unfold array_items at 1. simpl. rewrite Hent.
    rewrite ltm_insert_mid, app_nil_r by done. done.
Qed.

Lemma array_remove_at inst l1 it l2 k :
  array_inv inst -> array_items inst = l1 ++ it :: l2 ->
  kd_data (ai_key it) = Some k -> k ∉ (array_entries l1).*1 ->
  k ∉ (array_entries l2).*1 ->
  let inst' := KvsArray (Some (array_remove (array_items inst) (length l1)))
                        (ka_total inst - 1) (ka_total inst - 1) in
  array_inv inst' /\ array_abs inst' = delete k (array_abs inst).
Proof.
  intros [Ht Hto Hi Hs Hnd Hlv] Hl Hk Hn1 Hn2. rewrite Hl in Hto, Hnd, Hlv.
  pose proof (array_remove_mid l1 it l2) as Hp.
  set (l' := array_remove _ _) in Hp.
  assert (He : array_entries l' ≡ₚ array_entries l1 ++ array_entries l2).
  { rewrite <- array_entries_app. unfold array_entries. by rewrite Hp. }
  rewrite array_entries_app, (array_entries_cons _ _ k Hk) in Hnd, Hlv.
  assert (Hnd' : NoDup (array_entries l').*1).
  { rewrite He, fmap_app. rewrite fmap_app in Hnd. simpl in Hnd.
    rewrite NoDup_app in Hnd |- *. rewrite NoDup_cons in Hnd.
    destruct Hnd as (H1 & H2 & H3 & H4). split_and!; try done.
    intros k' Hk' Hin. apply (H2 k' Hk'). by right. }
  rewrite Hl. simpl. fold l'. split.
  - split; simpl; try done.
    + unfold array_items at 1; simpl. rewrite Hp.
      rewrite length_app in *. simpl in Hto. lia.
    + lia.
    + unfold array_items at 1 2; simpl. rewrite He, Hp. rewrite !length_app in *.
      simpl in Hlv. lia.
  - unfold array_abs. rewrite Hl. unfold array_items; simpl.
    rewrite (list_to_map_proper _ _ Hnd' He).
    rewrite array_entries_app, (array_entries_cons _ _ k Hk).
    by apply ltm_delete_mid.
Qed.

Lemma array_set_cases e inst k v x :
  array_inv inst -> k <> [] ->
  let r := kvs_array_set e inst (kd_of k) v x in
  array_inv r.1 /\
  (r.2 = 0 -> array_abs r.1 = <[k := (kd_bytes v, x)]> (array_abs inst)) /\
  delete k (array_abs r.1) = delete k (array_abs inst).
Proof.
  intros Hi Hk. unfold kvs_array_set.
  destruct (array_find inst k Hi) as [Hnone Hn|l1 it l2 Hl Hit Hn1 Hn2 Habs].
  - destruct (Z.leb_spec KVS_ARRAY_SIZE (ka_total inst)); simpl; [done|].
    destruct (kv_data_dup e 0 (kd_of k)) as [key ret] eqn:Ek; simpl.
    destruct (Z.eqb_spec ret 0) as [->|]; simpl; [|done].
    destruct (kv_data_dup e 1 v) as [v' ret] eqn:Ev; simpl.
    destruct (Z.eqb_spec ret 0) as [->|]; simpl; [|done].
    pose proof (kv_data_dup_key e 0 k Hk) as Hkey. rewrite Ek in Hkey.
    pose proof (kv_data_dup_bytes e 1 v) as Hv. rewrite Ev in Hv.
    simpl in Hkey, Hv. rewrite <- Hv by done.
    destruct (array_append inst key v' x k) as [Hinv Habs']; auto.
    split_and!; try done. rewrite Habs'. by rewrite delete_insert_eq.
  - destruct (kv_data_dup e 0 v) as [v' ret] eqn:Ev; simpl.
    pose proof (kv_data_dup_bytes e 0 v) as Hv. rewrite Ev in Hv. simpl in Hv.
    destruct (Z.eqb_spec ret 0) as [->|Hr]; simpl.
    + destruct (array_update_at inst l1 it l2 k (set_value_expire v' x))
        as [Hinv Habs']; auto. simpl in Habs'. rewrite Hv in Habs' by done.
      split_and!; try done. rewrite Habs'. by rewrite delete_insert_eq.
    + destruct (array_update_at inst l1 it l2 k (set_value v')) as [Hinv Habs']; auto.
      split_and!; try done. rewrite Habs'. by rewrite delete_insert_eq.
Qed.

Lemma array_del_cases e inst k :
  array_inv inst ->
  let r := kvs_array_del e inst (kd_of k) in
  array_inv r.1 /\ array_abs r.1 = delete k (array_abs inst) /\
  r.2 = (match array_abs inst !! k with Some _ => 0 | None => 1 end).
Proof.
  intros Hi. unfold kvs_array_del.
  destruct (array_find inst k Hi) as [Hnone Hn|l1 it l2 Hl Hit Hn1 Hn2 Habs]; simpl.
  - rewrite Hnone. split_and!; try done. by rewrite delete_id.
  - rewrite Habs. destruct (array_remove_at inst l1 it l2 k) as [Hinv Habs']; auto.
Qed.

Lemma array_get_cases e inst k :
  array_inv inst ->
  kvs_array_get e inst (kd_of k) =
  match array_abs inst !! k with
  | None => (inst, None)
  | Some (v, x) =>
    if is_expired e x then ((kvs_array_del e inst (kd_of k)).1, None)
    else (inst, (kvs_array_get e inst (kd_of k)).2)
  end /\
  (forall w x, array_abs inst !! k = Some (w, x) -> is_expired e x = false ->
    exists d, (kvs_array_get e inst (kd_of k)).2 = Some d /\ kd_bytes d = w).
Proof.
  intros Hi. unfold kvs_array_get.
  destruct (array_find inst k Hi) as [Hnone Hn|l1 it l2 Hl Hit Hn1 Hn2 Habs]; simpl.
  - rewrite Hnone. done.
  - rewrite Habs, Hl, list_lookup_middle by done.
    split; [by destruct (is_expired e (ai_expire it))|].
    intros w x [= <- <-] ->. eauto.
Qed.

(** A key can be set when it is present or when a slot is left. *)
Definition array_room inst k : Prop :=
  is_Some (array_abs inst !! k) \/ ka_total inst < KVS_ARRAY_SIZE.

Lemma array_set_room e inst k v x :
  array_inv inst -> mem_ok e -> array_room inst k ->
  Z.of_nat (length k) < 2 ^ 31 -> kd_len v < 2 ^ 31 ->
  (kvs_array_set e inst (kd_of k) v x).2 = 0.
Proof.
  unfold kd_len. intros Hi Hm Hroom Hk Hv. unfold kvs_array_set.
  assert (Hdv : forall i, (kv_data_dup e i v).2 = 0)
    by (intros; apply kv_data_dup_mem_ok; [done|lia]).
  assert (Hdk : (kv_data_dup e 0 (kd_of k)).2 = 0)
    by (apply kv_data_dup_mem_ok; [done|change (kd_bytes (kd_of k)) with k; lia]).
  destruct (array_find inst k Hi) as [Hnone Hn|l1 it l2 Hl Hit Hn1 Hn2 Habs].
  - destruct Hroom as [Hs|Hlt]; [by rewrite Hnone in Hs; destruct Hs|].
    destruct (Z.leb_spec KVS_ARRAY_SIZE (ka_total inst)); [lia|].
    destruct (kv_data_dup e 0 (kd_of k)) as [dk rk]. simpl in Hdk. subst rk. simpl.
    specialize (Hdv 1%nat). destruct (kv_data_dup e 1 v) as [dv rv].
    simpl in Hdv. by subst rv.
  - specialize (Hdv 0%nat). destruct (kv_data_dup e 0 v) as [dv rv].
    simpl in Hdv. by subst rv.
Qed.

Lemma array_del_if_expired_spec e inst k x :
  array_inv inst ->
  kvs_array_del_if_expired e inst (kd_of k) x =
  match array_abs inst !! k with
  | Some (w, x') =>
    if bool_decide (x' = x) then ((kvs_array_del e inst (kd_of k)).1, 1) else (inst, 0)
  | None => (inst, 0)
  end.
Proof.
  intros Hi. unfold kvs_array_del_if_expired.
  destruct (array_find inst k Hi) as [Hnone Hn|l1 it l2 Hl Hit Hn1 Hn2 Habs].
  - by rewrite Hnone.
  - rewrite Habs, Hl, list_lookup_middle by done.
    destruct (Z.eqb_spec (ai_expire it) x); case_bool_decide; done.
Qed.

Lemma array_foreach_entries e inst :
  array_inv inst -> ce_ttl e = true ->
  kvs_array_foreach e inst =
  filter (fun kv => is_expired e kv.2.2 = false) (array_entries (array_items inst)).
Proof.
  intros Hi Ht. unfold kvs_array_foreach. rewrite Ht, array_take_total by done.
  unfold array_entries. induction (array_items inst) as [|it l IH]; simpl; [done|].
  unfold item_entry at 1. destruct (kd_data (ai_key it)) as [k|]; [|exact IH].
  assert (Hx : is_expired e (ai_expire it) =
    (0 <? ai_expire it) && (ai_expire it <? ce_now e))
    by (unfold is_expired; by rewrite Ht).
  rewrite filter_cons. simpl. rewrite <- Hx.
  case_decide as Hd; destruct (is_expired e (ai_expire it)); try done.
  f_equal. exact IH.
Qed.
End array.

#[export] Program Instance array_laws : KvEngineLaws kvs_array := {
  eng_inv := array_inv;
  eng_abs := array_abs;
  eng_key k := k <> [];
  eng_room := array_room
}.
Next Obligation. intros. by apply array_set_cases. Qed.
Next Obligation. intros e s k v x Hi Hk. by apply array_set_cases. Qed.
Next Obligation. intros e s k v x Hi Hk. by apply array_set_cases. Qed.
Next Obligation. intros e s k v x Hi Hk Hm Hr Hlk Hlv. by apply array_set_room. Qed.
Next Obligation.
  intros e s k Hi Hk. simpl. destruct (array_get_cases e s k Hi) as [-> _].
  destruct (array_abs s !! k) as [[w x]|]; [|done].
  destruct (is_expired e x); [|done]. by apply array_del_cases.
Qed.
Next Obligation.
  intros e s k Hi Hk. simpl. destruct (array_get_cases e s k Hi) as [Heq Hv].
  destruct (array_abs s !! k) as [[w x]|] eqn:E; [|done].
  destruct (is_expired e x) eqn:Ex; rewrite Heq; simpl.
  - split; [done|]. by apply array_del_cases.
  - split; [|done]. eauto.
Qed.
Next Obligation. intros. by apply array_del_cases. Qed.
Next Obligation. intros e s k Hi Hk. simpl. by apply array_del_cases. Qed.
Next Obligation. done. Qed.
Next Obligation.
  intros e s k Hi Hk. simpl. unfold kvs_array_exist.
  by destruct (kvs_array_get e s (kd_of k)) as [s' [d|]].
Qed.
Next Obligation. intros. by apply array_del_if_expired_spec. Qed.
Next Obligation.
  intros e s Hi Ht. simpl. rewrite array_foreach_entries by done.
  apply filter_map_to_list, Hi.
Qed.

Lemma array_size_abs inst : array_inv inst -> Z.of_nat (size (array_abs inst)) = ka_total inst.
Proof.
  intros Hi. unfold array_abs. rewrite map_size_list_to_map by apply Hi.
  rewrite (ainv_total _ Hi), (ainv_live _ Hi). done.
Qed.

Lemma kvs_array_create_ok e :
  mem_ok e ->
  (kvs_array_create e array_zero).2 = 0 /\ array_inv (kvs_array_create e array_zero).1 /\
  array_abs (kvs_array_create e array_zero).1 = ∅.
Proof.
  intros Hm. unfold kvs_array_create, alloc_ok. rewrite Hm. simpl.
  split_and!; try done. split; simpl; try done. constructor.
Qed.
