(* ===== verification/HashEngine.v ===== *)
(** * The hash table engine (kvs_hash.c)

    Buckets are lists, in the order of their [next] pointers.  A node caches
    the hash of its key, and growing or shrinking the table redistributes the
    nodes by that cached hash alone.  The tests of the code for implausible
    node addresses have no counterpart: a node of the model is never a wild
    pointer. *)

From S2P Require Import Prelude KvData Engine.

Open Scope Z_scope.

Record hashnode := HashNode {
  hn_expire : Z;
  hn_key : kv_data;
  hn_value : kv_data
}.

Definition INIT_HASH_SLOTS : Z := 16.

Record kvs_hash := KvsHash {
  kh_buckets : option (list (list hashnode));
  kh_max_slots : Z;
  kh_count : Z
}.

Definition hash_zero : kvs_hash := KvsHash None 0 0.

(** sizeof(hashnode_t): next, expire_time and two blocks *)
Definition sizeof_hashnode : Z := 64.

(** One turn of the inner loop of [kvs_hash_resize]. *)
Definition rehash_node (mask : Z) (nb : list (list hashnode)) (n : hashnode)
  : list (list hashnode) :=
  alter (cons n) (Z.to_nat (Z.land (kd_hash (hn_key n)) mask)) nb.

Definition kvs_hash_resize (e : cenv) (i : nat) (hash : kvs_hash) (new_slots : Z)
  : kvs_hash * Z :=
  if new_slots <? INIT_HASH_SLOTS then (hash, -1)
  else if negb (alloc_ok e i (u64 (new_slots * 8))) then (hash, -1)
  else
    let empty := replicate (Z.to_nat new_slots) [] in
    let olds := take (Z.to_nat (kh_max_slots hash)) (default [] (kh_buckets hash)) in
    let nb := fold_left (fun nb b => fold_left (rehash_node (new_slots - 1)) b nb)
                        olds empty in
    (KvsHash (Some nb) new_slots (kh_count hash), 0).

Definition kvs_hash_create (e : cenv) (hash : kvs_hash) : kvs_hash * Z :=
  if alloc_ok e 0 (INIT_HASH_SLOTS * 8) then
    (KvsHash (Some (replicate (Z.to_nat INIT_HASH_SLOTS) [])) INIT_HASH_SLOTS 0, 0)
  else (KvsHash None INIT_HASH_SLOTS 0, -1).

Definition kvs_hash_destroy (hash : kvs_hash) : kvs_hash :=
  match kh_buckets hash with
  | None => hash
  | Some _ => KvsHash None 0 0
  end.

(** The node owns copies of the key and of the value; the key keeps its
    cached hash. *)
Definition hash_create_node (e : cenv) (i : nat) (key value : kv_data) (expire_time : Z)
  : option hashnode :=
  if alloc_ok e i (u64 (sizeof_hashnode + kd_len key + kd_len value)) then
    Some (HashNode expire_time (KvData (Some (kd_bytes key)) (kd_hash key))
                   (KvData (Some (kd_bytes value)) 0))
  else None.

(** The walk along a chain: the nodes before the first one with an equal
    key, that node, and the ones after it. *)
Fixpoint chain_find (b : list hashnode) (key : kv_data)
  : option (list hashnode * hashnode * list hashnode) :=
  match b with
  | [] => None
  | n :: b' =>
    if kv_data_compare (hn_key n) key =? 0 then Some ([], n, b')
    else match chain_find b' key with
         | Some (b1, m, b2) => Some (n :: b1, m, b2)
         | None => None
         end
  end.

Definition bucket_at (bs : list (list hashnode)) (h : Z) : list hashnode :=
  default [] (bs !! Z.to_nat h).

Definition kvs_hash_set (e : cenv) (hash : kvs_hash) (key value : kv_data)
  (expire_time : Z) : kvs_hash * Z :=
  match kh_buckets hash with
  | None => (hash, -1)
  | Some _ =>
    let '(hash, ret) :=
      if kh_max_slots hash <=? kh_count hash
      then kvs_hash_resize e 0 hash (i32 (kh_max_slots hash * 2))
      else (hash, 0) in
    if negb (ret =? 0) then (hash, -1)
    else
      let bs := default [] (kh_buckets hash) in
      let '(h, key) := kv_data_hash key (kh_max_slots hash) in
      if kh_max_slots hash <=? h then (hash, -1)
      else
        match chain_find (bucket_at bs h) key with
        | Some (b1, node, b2) =>
          if kd_len value <=? kd_len (hn_value node) then
            let node' := HashNode expire_time (hn_key node)
              (KvData (Some (kd_bytes value)) (kd_hash (hn_value node))) in
            (KvsHash (Some (<[Z.to_nat h := b1 ++ node' :: b2]> bs))
                     (kh_max_slots hash) (kh_count hash), 0)
          else
            let bs := <[Z.to_nat h := b1 ++ b2]> bs in
            let count := kh_count hash - 1 in
            match hash_create_node e 1 key value expire_time with
            | None => (KvsHash (Some bs) (kh_max_slots hash) count, -1)
            | Some n =>
              (KvsHash (Some (<[Z.to_nat h := n :: b1 ++ b2]> bs))
                       (kh_max_slots hash) (count + 1), 0)
            end
        | None =>
          match hash_create_node e 1 key value expire_time with
          | None => (hash, -1)
          | Some n =>
            (KvsHash (Some (<[Z.to_nat h := n :: bucket_at bs h]> bs))
                     (kh_max_slots hash) (kh_count hash + 1), 0)
          end
        end
  end.

Definition kvs_hash_mod (e : cenv) (hash : kvs_hash) (key value : kv_data)
  (expire_time : Z) : kvs_hash * Z :=
  kvs_hash_set e hash key value expire_time.

Definition kvs_hash_del (e : cenv) (hash : kvs_hash) (key : kv_data) : kvs_hash * Z :=
  match kh_buckets hash with
  | None => (hash, -1)
  | Some bs =>
    let '(h, key) := kv_data_hash key (kh_max_slots hash) in
    if kh_max_slots hash <=? h then (hash, -1)
    else
      match chain_find (bucket_at bs h) key with
      | None => (hash, 1)
      | Some (b1, node, b2) =>
        let hash := KvsHash (Some (<[Z.to_nat h := b1 ++ b2]> bs))
                            (kh_max_slots hash) (kh_count hash - 1) in
        let hash :=
          if (kh_count hash <? kh_max_slots hash / 4) && (INIT_HASH_SLOTS <? kh_max_slots hash)
          then (kvs_hash_resize e 0 hash (kh_max_slots hash / 2)).1
          else hash in
        (hash, 0)
      end
  end.

(** The search part that [get], [exist] and [del_if_expired] repeat. *)
Definition hash_lookup (hash : kvs_hash) (key : kv_data) : option hashnode :=
  match kh_buckets hash with
  | None => None
  | Some bs =>
    let '(h, key) := kv_data_hash key (kh_max_slots hash) in
    if kh_max_slots hash <=? h then None
    else match chain_find (bucket_at bs h) key with
         | Some (_, node, _) => Some node
         | None => None
         end
  end.

Definition kvs_hash_get (e : cenv) (hash : kvs_hash) (key : kv_data)
  : kvs_hash * option kv_data :=
  match hash_lookup hash key with
  | None => (hash, None)
  | Some node =>
    if is_expired e (hn_expire node) then ((kvs_hash_del e hash key).1, None)
    else (hash, Some (hn_value node))
  end.

Definition kvs_hash_del_if_expired (e : cenv) (hash : kvs_hash) (key : kv_data)
  (expected_expire : Z) : kvs_hash * Z :=
  match hash_lookup hash key with
  | None => (hash, 0)
  | Some node =>
    if hn_expire node =? expected_expire then ((kvs_hash_del e hash key).1, 1)
    else (hash, 0)
  end.

Definition kvs_hash_exist (e : cenv) (hash : kvs_hash) (key : kv_data) : kvs_hash * Z :=
  match hash_lookup hash key with
  | None => (hash, 1)
  | Some node =>
    if is_expired e (hn_expire node) then ((kvs_hash_del e hash key).1, 1)
    else (hash, 0)
  end.

Definition kvs_hash_get_value_len (e : cenv) (hash : kvs_hash) (key : kv_data)
  : kvs_hash * Z :=
  let '(hash', val) := kvs_hash_get e hash key in
  (hash', match val with Some d => i32 (kd_len d) | None => -1 end).

Definition node_entry (n : hashnode) : bytes * (bytes * Z) :=
  (kd_bytes (hn_key n), (kd_bytes (hn_value n), hn_expire n)).

Definition kvs_hash_foreach (e : cenv) (hash : kvs_hash) : list (bytes * (bytes * Z)) :=
  node_entry <$>
    filter (fun n => is_expired e (hn_expire n) = false)
      (concat (take (Z.to_nat (kh_max_slots hash)) (default [] (kh_buckets hash)))).

#[export] Instance hash_engine : KvEngine kvs_hash := {
  eng_set := kvs_hash_set;
  eng_get := kvs_hash_get;
  eng_del := kvs_hash_del;
  eng_mod := kvs_hash_mod;
  eng_exist := kvs_hash_exist;
  eng_del_if_expired := kvs_hash_del_if_expired;
  eng_foreach := kvs_hash_foreach
}.

(** ** Comma-separated lists of identifiers *)

Definition COMMA : byte := x2c.

(** The pieces of a value between commas, as [kvs_hash_get_list] and the
    duplicate scan of [kvs_hash_append] cut it. *)
Fixpoint split_comma (v : bytes) : list bytes :=
  match v with
  | [] => [[]]
  | b :: v' =>
    if bool_decide (b = COMMA) then [] :: split_comma v'
    else match split_comma v' with
         | [] => [[b]]
         | t :: ts => (b :: t) :: ts
         end
  end.

(** The duplicate scan stops when its index reaches the end of the value, so
    it does not look at the empty piece after a final comma. *)
Definition scan_tokens (v : bytes) : list bytes :=
  let ts := split_comma v in
  if bool_decide (last ts = Some []) then removelast ts else ts.

Definition kvs_hash_append (e : cenv) (hash : kvs_hash) (key id : kv_data)
  : kvs_hash * Z :=
  match kh_buckets hash with
  | None => (hash, -1)
  | Some _ =>
    match kd_data id with
    | None => (hash, -1)
    | Some idb =>
      if kd_len id =? 0 then (hash, -1)
      else
        let '(hash, existing) := kvs_hash_get e hash key in
        let old := match existing with Some d => kd_bytes d | None => [] end in
        if (length old =? 0)%nat then kvs_hash_set e hash key id 0
        else if bool_decide (idb ∈ scan_tokens old) then (hash, 0)
        else if negb (alloc_ok e 2 (kd_len (kd_of old))) then (hash, -1)
        else if negb (alloc_ok e 3 (u64 (kd_len (kd_of old) + 1 + kd_len id))) then (hash, -1)
        else kvs_hash_set e hash key (kd_of (old ++ COMMA :: idb)) 0
    end
  end.

(** The identifiers under [key], with the status; 0 identifiers for a key
    that is absent or empty.  [count] is the number of commas plus one, the
    number of allocations the loop makes after the array's. *)
Definition kvs_hash_get_list (e : cenv) (hash : kvs_hash) (key : kv_data)
  : kvs_hash * (list bytes * Z) :=
  let '(hash, value) := kvs_hash_get e hash key in
  let v := match value with Some d => kd_bytes d | None => [] end in
  if (length v =? 0)%nat then (hash, ([], 0))
  else
    let ids := split_comma v in
    if negb (alloc_ok e 2 (8 * Z.of_nat (length ids))) then (hash, ([], -1))
    else if forallb (fun '(j, t) => alloc_ok e j (Z.of_nat (length t) + 1))
                    (zip (seq 3 (length ids)) ids)
    then (hash, (ids, 0))
    else (hash, ([], -1)).

(** ** Representation invariant *)

(** A node of bucket [h] of a table with [2 ^ ex] buckets: it owns its key,
    caches its hash, and the hash selects [h]. *)
Definition node_ok (ex : Z) (h : nat) (n : hashnode) : Prop :=
  is_Some (kd_data (hn_key n)) /\
  kd_hash (hn_key n) = kv_hash_short (kd_bytes (hn_key n)) /\
  Z.of_nat h = Z.land (kd_hash (hn_key n)) (2 ^ ex - 1).

Definition buckets_ok (ex : Z) (bs : list (list hashnode)) : Prop :=
  forall h b n, bs !! h = Some b -> n ∈ b -> node_ok ex h n.

Definition chain_entries (b : list hashnode) : list (bytes * (bytes * Z)) := node_entry <$> b.

Definition hash_nodes (hash : kvs_hash) : list hashnode :=
  concat (default [] (kh_buckets hash)).

Definition hash_abs (hash : kvs_hash) : kvmap :=
  list_to_map (chain_entries (hash_nodes hash)).

(** The number of buckets is a power of two between 16 and 2^30, every node
    is in the bucket its key hashes to, no key occurs twice, [count] counts
    the nodes and never exceeds the number of buckets. *)
Record hash_inv (hash : kvs_hash) : Prop := {
  hinv_shape : exists bs ex, kh_buckets hash = Some bs /\ 4 <= ex <= 30 /\
    kh_max_slots hash = 2 ^ ex /\ length bs = Z.to_nat (2 ^ ex) /\ buckets_ok ex bs;
  hinv_keys : NoDup (chain_entries (hash_nodes hash)).*1;
  hinv_count : kh_count hash = Z.of_nat (length (hash_nodes hash));
  hinv_load : kh_count hash <= kh_max_slots hash
}.

Lemma chain_entries_app b1 b2 :
  chain_entries (b1 ++ b2) = chain_entries b1 ++ chain_entries b2.
Proof. apply fmap_app. Qed.

Lemma concat_take_drop {A} (bs : list (list A)) h b :
  bs !! h = Some b -> concat bs = concat (take h bs) ++ b ++ concat (drop (S h) bs).
Proof.
  intros Hb. rewrite <- (take_drop_middle bs h b Hb) at 1.
  by rewrite concat_app.
Qed.

Lemma concat_insert {A} (bs : list (list A)) h b b' :
  bs !! h = Some b ->
  concat (<[h := b']> bs) = concat (take h bs) ++ b' ++ concat (drop (S h) bs).
Proof.
  intros Hb. assert (Hlt : (h < length bs)%nat) by by eapply lookup_lt_Some.
  rewrite (concat_take_drop _ h b') by by apply list_lookup_insert_eq.
  rewrite take_insert_ge, drop_insert_lt by lia. done.
Qed.

(** ** The walk along a chain *)

Lemma chain_find_Some b key b1 n b2 :
  chain_find b key = Some (b1, n, b2) ->
  b = b1 ++ n :: b2 /\ kd_bytes (hn_key n) = kd_bytes key.
Proof.
  revert b1. induction b as [|m b IH]; intros b1; simpl; [done|].
  destruct (Z.eqb_spec (kv_data_compare (hn_key m) key) 0) as [E|E].
  - intros [= <- <- <-]. split; [done|]. by apply bytes_cmp_eq.
  - destruct (chain_find b key) as [[[b1' m'] b2']|]; [|done].
    intros [= <- <- <-]. destruct (IH b1' eq_refl) as [-> Hk]. done.
Qed.

Lemma chain_find_None b key :
  chain_find b key = None -> kd_bytes key ∉ (chain_entries b).*1.
Proof.
  induction b as [|m b IH]; simpl; [intros _; apply not_elem_of_nil|].
  destruct (Z.eqb_spec (kv_data_compare (hn_key m) key) 0) as [E|E]; [done|].
  destruct (chain_find b key) as [[[b1' m'] b2']|]; [done|].
  intros _. rewrite not_elem_of_cons. split; [|by apply IH].
  intros Heq. apply E. unfold kv_data_compare. apply bytes_cmp_eq. done.
Qed.

Lemma buckets_ok_keys ex bs h b k :
  buckets_ok ex bs -> bs !! h = Some b -> k ∈ (chain_entries b).*1 ->
  Z.of_nat h = Z.land (kv_hash_short k) (2 ^ ex - 1).
Proof.
  intros Hok Hb Hk. unfold chain_entries in Hk. rewrite <- list_fmap_compose in Hk.
  apply list_elem_of_fmap in Hk as (n & -> & Hn). simpl.
  destruct (Hok h b n Hb Hn) as (_ & Hh & ->). by rewrite Hh.
Qed.

(** A key is in its own bucket or nowhere. *)
Lemma key_not_elsewhere ex bs h b k :
  buckets_ok ex bs -> bs !! h = Some b ->
  Z.of_nat h = Z.land (kv_hash_short k) (2 ^ ex - 1) ->
  (k ∉ (chain_entries (concat (take h bs))).*1) /\
  (k ∉ (chain_entries (concat (drop (S h) bs))).*1).
Proof.
  intros Hok Hb Hh.
  assert (Hgen : forall l, (forall b', b' ∈ l -> exists h', bs !! h' = Some b' /\ h' <> h) ->
    k ∉ (chain_entries (concat l)).*1).
  { intros l Hl Hin. unfold chain_entries in Hin. rewrite <- list_fmap_compose in Hin.
    apply list_elem_of_fmap in Hin as (n & -> & Hn).
    apply list_elem_of_In, in_concat in Hn as (b' & Hb' & Hn).
    apply list_elem_of_In in Hb'. apply list_elem_of_In in Hn.
    destruct (Hl b' Hb') as (h' & Hbs & Hne).
    destruct (Hok h' b' n Hbs Hn) as (_ & Hc & Hh'). apply Hne, Nat2Z.inj.
    by rewrite Hh', Hc, Hh. }
  split; apply Hgen; intros b' Hb'; apply list_elem_of_lookup in Hb' as (i & Hi).
  - apply lookup_take_Some in Hi as [Hi Hlt]. exists i. split; [done|lia].
  - rewrite lookup_drop in Hi. exists (S h + i)%nat. split; [done|lia].
Qed.

(** ** Resizing *)

Lemma alter_insert {A} (f : A -> A) (l : list A) i x :
  l !! i = Some x -> alter f i l = <[i := f x]> l.
Proof.
  revert i. induction l as [|y l IH]; intros [|i]; simpl; try done.
  - by intros [= ->].
  - intros H. f_equal. by apply IH.
Qed.

(** A node that may be put in any table: it owns its key and caches its hash. *)
Definition node_hashed (n : hashnode) : Prop :=
  is_Some (kd_data (hn_key n)) /\
  kd_hash (hn_key n) = kv_hash_short (kd_bytes (hn_key n)).

Lemma mask_lt ex z : 0 <= ex -> 0 <= z -> (Z.to_nat (Z.land z (2 ^ ex - 1)) < Z.to_nat (2 ^ ex))%nat.
Proof. intros Hex Hz. pose proof (land_mask_range z ex Hex Hz). lia. Qed.

Lemma rehash_node_ok ex nb n :
  0 <= ex -> node_hashed n -> length nb = Z.to_nat (2 ^ ex) -> buckets_ok ex nb ->
  let nb' := rehash_node (2 ^ ex - 1) nb n in
  length nb' = Z.to_nat (2 ^ ex) /\ buckets_ok ex nb' /\ concat nb' ≡ₚ n :: concat nb.
Proof.
  intros Hex [Hk Hh] Hlen Hok. unfold rehash_node.
  set (h := Z.to_nat _).
  assert (Hhz : Z.of_nat h = Z.land (kd_hash (hn_key n)) (2 ^ ex - 1)).
  { subst h. rewrite Hh. pose proof (land_mask_range (kv_hash_short (kd_bytes (hn_key n))) ex Hex).
    pose proof (kv_hash_short_nonneg (kd_bytes (hn_key n))). lia. }
  assert (Hlt : (h < length nb)%nat).
  { rewrite Hlen. subst h. rewrite Hh. apply mask_lt; [done|]. apply kv_hash_short_nonneg. }
  destruct (lookup_lt_is_Some_2 nb h Hlt) as [b Hb].
  rewrite (alter_insert _ _ _ b Hb). split_and!.
  - by rewrite length_insert.
  - intros h' b' m Hb' Hm. destruct (decide (h = h')) as [<-|Hne].
    + rewrite list_lookup_insert_eq in Hb' by done. injection Hb' as <-.
      apply elem_of_cons in Hm as [->|Hm]; [done|]. by apply (Hok h b).
    + rewrite list_lookup_insert_ne in Hb' by done. by apply (Hok h' b').
  - rewrite (concat_insert _ _ b), (concat_take_drop nb h b) by done.
    simpl. by rewrite <- Permutation_middle.
Qed.

Lemma rehash_nodes_ok ex ns nb :
  0 <= ex -> Forall node_hashed ns ->
  length nb = Z.to_nat (2 ^ ex) -> buckets_ok ex nb ->
  let nb' := fold_left (rehash_node (2 ^ ex - 1)) ns nb in
  length nb' = Z.to_nat (2 ^ ex) /\ buckets_ok ex nb' /\
  concat nb' ≡ₚ ns ++ concat nb.
Proof.
  intros Hex Hns. revert nb. induction Hns as [|n ns Hn Hns IH]; intros nb Hlen Hok; simpl.
  { done. }
  destruct (rehash_node_ok ex nb n) as (Hlen' & Hok' & Hp); auto.
  destruct (IH _ Hlen' Hok') as (Hlen'' & Hok'' & Hp'').
  split_and!; [done|done|]. rewrite Hp'', Hp. by rewrite Permutation_middle.
Qed.

Lemma fold_left_concat {A B} (f : B -> A -> B) (ls : list (list A)) (b : B) :
  fold_left (fun b l => fold_left f l b) ls b = fold_left f (concat ls) b.
Proof.
  revert b. induction ls as [|l ls IH]; intros b; simpl; [done|].
  by rewrite fold_left_app, IH.
Qed.

Lemma concat_replicate_nil {A} n : concat (replicate n (@nil A)) = [].
Proof. by induction n. Qed.

Lemma hash_nodes_hashed hash : hash_inv hash -> Forall node_hashed (hash_nodes hash).
Proof.
  intros [(bs & ex & Hbs & _ & _ & _ & Hok) _ _ _].
  unfold hash_nodes. rewrite Hbs. simpl.
  apply Forall_forall. intros n Hn.
  apply list_elem_of_In, in_concat in Hn as (b & Hb & Hn).
  apply list_elem_of_In in Hb. apply list_elem_of_In in Hn.
  apply list_elem_of_lookup in Hb as [h Hh]. by destruct (Hok h b n Hh Hn) as (? & ? & _).
Qed.

(** Two tables whose nodes are a permutation of each other. *)
Lemma hash_abs_perm h1 h2 :
  NoDup (chain_entries (hash_nodes h1)).*1 ->
  hash_nodes h1 ≡ₚ hash_nodes h2 -> hash_abs h1 = hash_abs h2.
Proof.
  intros Hnd Hp. unfold hash_abs. apply list_to_map_proper; [done|].
  unfold chain_entries. by rewrite Hp.
Qed.

(** Resizing keeps the nodes; the load condition is the caller's. *)
Lemma kvs_hash_resize_spec e i hash ex :
  hash_inv hash -> 4 <= ex <= 30 -> kh_count hash <= 2 ^ ex ->
  let r := kvs_hash_resize e i hash (2 ^ ex) in
  (r.2 = 0 /\ hash_inv r.1 /\ kh_max_slots r.1 = 2 ^ ex /\
   kh_count r.1 = kh_count hash /\ hash_abs r.1 = hash_abs hash) \/
  (r = (hash, -1) /\ ~ mem_ok e).
Proof.
  intros Hi Hex Hcount. unfold kvs_hash_resize.
  assert (Hpow : 2 ^ 4 <= 2 ^ ex <= 2 ^ 30).
  { split; apply Z.pow_le_mono_r; lia. }
  destruct (Z.ltb_spec (2 ^ ex) INIT_HASH_SLOTS); [unfold INIT_HASH_SLOTS in *; lia|].
  destruct (alloc_ok e i (u64 (2 ^ ex * 8))) eqn:Ea; simpl.
  2:{ right. split; [done|]. intros Hm. unfold alloc_ok in Ea.
      rewrite Hm, andb_true_r in Ea. unbool. rewrite u64_small in Ea by lia. lia. }
  left. pose proof (hash_nodes_hashed _ Hi) as Hns.
  destruct Hi as [(bs & ex0 & Hbs & Hex0 & Hslots & Hlen & Hok) Hnd Hc Hl].
  unfold hash_nodes in *. rewrite Hbs in *. simpl in *.
  rewrite Hslots. rewrite (take_ge bs) by lia. rewrite fold_left_concat.
  destruct (rehash_nodes_ok ex (concat bs) (replicate (Z.to_nat (2 ^ ex)) []))
    as (Hlen' & Hok' & Hp); [lia|done|by rewrite length_replicate| |].
  { intros h b n Hb Hn. apply lookup_replicate in Hb as [-> _].
    by apply not_elem_of_nil in Hn. }
  rewrite concat_replicate_nil, app_nil_r in Hp.
  split_and!; [done| |done|done|].
  - split; unfold hash_nodes; simpl.
    + eexists _, ex. split_and!; try done; lia.
    + unfold chain_entries. by rewrite Hp.
    + by rewrite Hp.
    + done.
  - symmetry. apply hash_abs_perm; unfold hash_nodes; simpl; by rewrite ?Hbs.
Qed.

(** ** Locating a key *)

(** Where the operations look for [k]: bucket [h], whose chain is [b]; [c1]
    and [c2] are the nodes of the other buckets. *)
Record located (hash : kvs_hash) (k : bytes) (bs : list (list hashnode))
    (ex : Z) (h : nat) (b c1 c2 : list hashnode) : Prop := {
  loc_buckets : kh_buckets hash = Some bs;
  loc_ex : 4 <= ex <= 30;
  loc_slots : kh_max_slots hash = 2 ^ ex;
  loc_length : length bs = Z.to_nat (2 ^ ex);
  loc_ok : buckets_ok ex bs;
  loc_hash : kv_data_hash (kd_of k) (kh_max_slots hash)
             = (Z.of_nat h, KvData (Some k) (kv_hash_short k));
  loc_mask : Z.of_nat h = Z.land (kv_hash_short k) (2 ^ ex - 1);
  loc_range : Z.of_nat h < kh_max_slots hash;
  loc_bucket : bs !! h = Some b;
  loc_nodes : hash_nodes hash = c1 ++ b ++ c2;
  loc_update b' : concat (<[h := b']> bs) = c1 ++ b' ++ c2;
  loc_c1 : k ∉ (chain_entries c1).*1;
  loc_c2 : k ∉ (chain_entries c2).*1
}.

Lemma hash_locate hash k :
  hash_inv hash -> exists bs ex h b c1 c2, located hash k bs ex h b c1 c2.
Proof.
  intros [(bs & ex & Hbs & Hex & Hslots & Hlen & Hok) Hnd Hc Hl].
  set (h := Z.to_nat (Z.land (kv_hash_short k) (2 ^ ex - 1))).
  pose proof (land_mask_range (kv_hash_short k) ex ltac:(lia) (kv_hash_short_nonneg k)).
  assert (Hh : Z.of_nat h = Z.land (kv_hash_short k) (2 ^ ex - 1)) by lia.
  destruct (lookup_lt_is_Some_2 bs h) as [b Hb]; [lia|].
  destruct (key_not_elsewhere ex bs h b k Hok Hb Hh) as [H1 H2].
  exists bs, ex, h, b, (concat (take h bs)), (concat (drop (S h) bs)).
  split; try done.
  - rewrite Hslots, (kv_data_hash_spec _ k) by (auto with kvs; lia). by rewrite Hh.
  - lia.
  - unfold hash_nodes. rewrite Hbs. simpl. by apply concat_take_drop.
  - intros b'. by eapply concat_insert.
Qed.

Section located.
Context (hash : kvs_hash) (k : bytes) (bs : list (list hashnode)) (ex : Z)
  (h : nat) (b c1 c2 : list hashnode).
Context (Hinv : hash_inv hash) (L : located hash k bs ex h b c1 c2).

Lemma located_bucket_at : bucket_at bs (Z.of_nat h) = b.
Proof. unfold bucket_at. rewrite Nat2Z.id. by rewrite (loc_bucket _ _ _ _ _ _ _ _ L). Qed.

Lemma located_entries :
  chain_entries (hash_nodes hash)
  = chain_entries c1 ++ chain_entries b ++ chain_entries c2.
Proof. rewrite (loc_nodes _ _ _ _ _ _ _ _ L). by rewrite !chain_entries_app. Qed.

(** The chain of the bucket replaced by [b']: what has to hold of [b'] and of
    the new count for the invariant to be kept. *)
Lemma located_replace b' count :
  Forall (node_ok ex h) b' ->
  NoDup (chain_entries (c1 ++ b' ++ c2)).*1 ->
  count = Z.of_nat (length (c1 ++ b' ++ c2)) -> count <= kh_max_slots hash ->
  let hash' := KvsHash (Some (<[h := b']> bs)) (kh_max_slots hash) count in
  hash_inv hash' /\ hash_nodes hash' = c1 ++ b' ++ c2.
Proof.
  intros Hb' Hnd Hcount Hle. simpl.
  assert (Hn : hash_nodes (KvsHash (Some (<[h := b']> bs)) (kh_max_slots hash) count)
    = c1 ++ b' ++ c2).
  { unfold hash_nodes. simpl. apply (loc_update _ _ _ _ _ _ _ _ L). }
  split; [|done]. split; rewrite ?Hn; simpl; try done.
  exists (<[h := b']> bs), ex. rewrite length_insert.
  split_and!; try done; try apply L.
  intros h' b'' n Hb'' Hin. destruct (decide (h = h')) as [<-|Hne].
  - rewrite list_lookup_insert_eq in Hb''
      by (eapply lookup_lt_Some, (loc_bucket _ _ _ _ _ _ _ _ L)).
    injection Hb'' as <-. by eapply Forall_forall.
  - rewrite list_lookup_insert_ne in Hb'' by done.
    by apply (loc_ok _ _ _ _ _ _ _ _ L h' b'').
Qed.

Lemma located_bucket_ok : Forall (node_ok ex h) b.
Proof.
  apply Forall_forall. intros n Hn. eapply (loc_ok _ _ _ _ _ _ _ _ L); [|done].
  apply (loc_bucket _ _ _ _ _ _ _ _ L).
Qed.

(** A fresh node for [k]. *)
Definition fresh_node (v : kv_data) (x : Z) : hashnode :=
  HashNode x (KvData (Some k) (kv_hash_short k)) (KvData (Some (kd_bytes v)) 0).

Lemma fresh_node_ok v x : node_ok ex h (fresh_node v x).
Proof.
  split_and!; simpl; [by eexists|done|]. apply (loc_mask _ _ _ _ _ _ _ _ L).
Qed.

(** [k] is not in the table. *)
Lemma located_absent :
  k ∉ (chain_entries b).*1 -> hash_abs hash !! k = None.
Proof.
  intros Hb. apply not_elem_of_list_to_map_1. rewrite located_entries.
  rewrite !fmap_app, !not_elem_of_app. split_and!; [|done|];
    [apply (loc_c1 _ _ _ _ _ _ _ _ L)|apply (loc_c2 _ _ _ _ _ _ _ _ L)].
Qed.

Lemma located_push v x :
  k ∉ (chain_entries b).*1 -> kh_count hash + 1 <= kh_max_slots hash ->
  let hash' := KvsHash (Some (<[h := fresh_node v x :: b]> bs))
                       (kh_max_slots hash) (kh_count hash + 1) in
  hash_inv hash' /\ hash_abs hash' = <[k := (kd_bytes v, x)]> (hash_abs hash).
Proof.
  intros Hb Hle. pose proof (loc_c1 _ _ _ _ _ _ _ _ L) as H1.
  pose proof (loc_c2 _ _ _ _ _ _ _ _ L) as H2.
  destruct (located_replace (fresh_node v x :: b) (kh_count hash + 1)) as [Hi Hn].
  - constructor; [apply fresh_node_ok|apply located_bucket_ok].
  - pose proof (hinv_keys _ Hinv) as Hnd. rewrite (loc_nodes _ _ _ _ _ _ _ _ L) in Hnd.
    simpl. rewrite chain_entries_app in *. simpl.
    rewrite fmap_app in *. simpl. rewrite <- Permutation_middle.
    apply NoDup_cons. split; [|done].
    rewrite chain_entries_app, !fmap_app, !not_elem_of_app. done.
  - rewrite (hinv_count _ Hinv), (loc_nodes _ _ _ _ _ _ _ _ L).
    rewrite !length_app. simpl. rewrite ?length_app. lia.
  - done.
  - split; [done|]. unfold hash_abs. rewrite Hn, (loc_nodes _ _ _ _ _ _ _ _ L).
    rewrite !chain_entries_app.
    by apply ltm_insert_mid.
Qed.

(** [k] is in the chain, at the node [n]. *)
Context (b1 : list hashnode) (n : hashnode) (b2 : list hashnode).
Context (Hb : b = b1 ++ n :: b2) (Hn : kd_bytes (hn_key n) = k).

Lemma located_entries_split :
  chain_entries (hash_nodes hash)
  = chain_entries (c1 ++ b1)
    ++ (k, (kd_bytes (hn_value n), hn_expire n)) :: chain_entries (b2 ++ c2).
Proof.
  rewrite (loc_nodes _ _ _ _ _ _ _ _ L), Hb. simpl.
  rewrite <- app_assoc. simpl. rewrite app_assoc, chain_entries_app. simpl.
  unfold node_entry. by rewrite Hn.
Qed.

Lemma located_unique :
  (k ∉ (chain_entries (c1 ++ b1)).*1) /\ (k ∉ (chain_entries (b2 ++ c2)).*1).
Proof.
  pose proof (hinv_keys _ Hinv) as Hnd. rewrite located_entries_split, fmap_app in Hnd.
  apply NoDup_app in Hnd as (_ & Hnd & Hnd'). simpl in *.
  apply NoDup_cons in Hnd' as [Hnd' _]. split; [|done].
  intros Hin. apply (Hnd k Hin). by left.
Qed.

Lemma located_present : hash_abs hash !! k = Some (kd_bytes (hn_value n), hn_expire n).
Proof.
  unfold hash_abs. rewrite located_entries_split.
  apply ltm_lookup_mid, located_unique.
Qed.

Lemma located_overwrite n' :
  node_ok ex h n' -> kd_bytes (hn_key n') = k ->
  let hash' := KvsHash (Some (<[h := b1 ++ n' :: b2]> bs))
                       (kh_max_slots hash) (kh_count hash) in
  hash_inv hash' /\
  hash_abs hash' = <[k := (kd_bytes (hn_value n'), hn_expire n')]> (hash_abs hash).
Proof.
  intros Hok Hk'. pose proof located_unique as [H1 H2].
  assert (Hent : chain_entries (c1 ++ (b1 ++ n' :: b2) ++ c2)
    = chain_entries (c1 ++ b1)
      ++ (k, (kd_bytes (hn_value n'), hn_expire n')) :: chain_entries (b2 ++ c2)).
  { rewrite <- app_assoc. simpl. rewrite app_assoc, chain_entries_app. simpl.
    unfold node_entry at 1. by rewrite Hk'. }
  pose proof (hinv_keys _ Hinv) as Hnd. rewrite located_entries_split in Hnd.
  destruct (located_replace (b1 ++ n' :: b2) (kh_count hash)) as [Hi Hnodes].
  - pose proof located_bucket_ok as Hbo. rewrite Hb in Hbo.
    apply Forall_app in Hbo as [Hb1 Hb2]. apply Forall_cons in Hb2 as [_ Hb2].
    apply Forall_app. split; [done|]. by constructor.
  - rewrite Hent. rewrite fmap_app in *. done.
  - rewrite (hinv_count _ Hinv), (loc_nodes _ _ _ _ _ _ _ _ L), Hb.
    rewrite !length_app. simpl. lia.
  - apply (hinv_load _ Hinv).
  - split; [done|]. unfold hash_abs. rewrite Hnodes, Hent, located_entries_split.
    rewrite !ltm_insert_mid by done. by rewrite insert_insert_eq.
Qed.

Lemma located_remove :
  let hash' := KvsHash (Some (<[h := b1 ++ b2]> bs))
                       (kh_max_slots hash) (kh_count hash - 1) in
  hash_inv hash' /\ hash_abs hash' = delete k (hash_abs hash) /\
  located hash' k (<[h := b1 ++ b2]> bs) ex h (b1 ++ b2) c1 c2 /\
  k ∉ (chain_entries (b1 ++ b2)).*1.
Proof.
  pose proof located_unique as [H1 H2].
  pose proof (hinv_keys _ Hinv) as Hnd. rewrite located_entries_split in Hnd.
  assert (Hent : c1 ++ (b1 ++ b2) ++ c2 = (c1 ++ b1) ++ (b2 ++ c2))
    by by rewrite !app_assoc.
  assert (Hlt : (h < length bs)%nat)
    by (eapply lookup_lt_Some, (loc_bucket _ _ _ _ _ _ _ _ L)).
  destruct (located_replace (b1 ++ b2) (kh_count hash - 1)) as [Hi Hnodes].
  - pose proof located_bucket_ok as Hbo. rewrite Hb in Hbo.
    apply Forall_app in Hbo as [Hb1 Hb2]. apply Forall_cons in Hb2 as [_ Hb2].
    by apply Forall_app.
  - rewrite Hent, chain_entries_app, fmap_app. rewrite fmap_app in Hnd. simpl in Hnd.
    rewrite NoDup_app in Hnd |- *. rewrite NoDup_cons in Hnd.
    destruct Hnd as (Ha & Hc & Hd & He). split_and!; try done.
    intros k' Hk' Hin. apply (Hc k' Hk'). by right.
  - rewrite (hinv_count _ Hinv), (loc_nodes _ _ _ _ _ _ _ _ L), Hb.
    rewrite !length_app. simpl. lia.
  - pose proof (hinv_load _ Hinv). lia.
  - split_and!; [done| | |].
    + unfold hash_abs. rewrite Hnodes, Hent, located_entries_split, chain_entries_app.
      by apply ltm_delete_mid.
    + split; simpl; try apply L; try done.
      * by rewrite length_insert, (loc_length _ _ _ _ _ _ _ _ L).
      * destruct Hi as [(bs' & ex' & [= <-] & Hex' & Hs' & Hl' & Hok') _ _ _].
        simpl in *. rewrite (loc_slots _ _ _ _ _ _ _ _ L) in Hs'.
        apply Z.pow_inj_r in Hs'; [by subst|lia| |lia].
        pose proof (loc_ex _ _ _ _ _ _ _ _ L). lia.
      * by apply list_lookup_insert_eq.
      * intros b'. rewrite list_insert_insert_eq. apply (loc_update _ _ _ _ _ _ _ _ L).
    + rewrite chain_entries_app, fmap_app, not_elem_of_app.
      rewrite chain_entries_app, fmap_app, not_elem_of_app in H1, H2. tauto.
Qed.
End located.

(** ** The operations *)

Lemma hash_node_room (k : bytes) v e :
  mem_ok e -> Z.of_nat (length k) < 2 ^ 31 -> kd_len v < 2 ^ 31 ->
  forall c, alloc_ok e 1 (u64 (sizeof_hashnode + kd_len (KvData (Some k) c) + kd_len v)) = true.
Proof.
  unfold kd_len, kd_bytes, sizeof_hashnode. simpl. intros Hm Hk Hv c.
  unfold alloc_ok. rewrite Hm, andb_true_r, u64_small by lia.
  destruct (Z.eqb_spec (64 + Z.of_nat (length k) + Z.of_nat (length (default [] (kd_data v)))) 0);
    [lia|done].
Qed.

Section hash.
Implicit Types (e : cenv) (hash : kvs_hash) (k : bytes) (v : kv_data) (x : Z).

(** The growth step of [set] and its outcome. *)
Definition hash_grow e hash : kvs_hash * Z :=
  if kh_max_slots hash <=? kh_count hash
  then kvs_hash_resize e 0 hash (i32 (kh_max_slots hash * 2))
  else (hash, 0).

Lemma hash_grow_spec e hash :
  hash_inv hash ->
  ((hash_grow e hash).2 = 0 /\ hash_inv (hash_grow e hash).1 /\
   hash_abs (hash_grow e hash).1 = hash_abs hash /\
   kh_count (hash_grow e hash).1 = kh_count hash /\
   kh_count hash + 1 <= kh_max_slots (hash_grow e hash).1) \/
  (hash_grow e hash = (hash, -1) /\ (mem_ok e -> 2 ^ 30 <= kh_count hash)).
Proof.
  intros Hi. unfold hash_grow.
  destruct (Z.leb_spec (kh_max_slots hash) (kh_count hash)) as [Hle|Hlt].
  2:{ left. split_and!; try done. simpl. lia. }
  destruct (hinv_shape _ Hi) as (bs & ex & _ & Hex & Hslots & _ & _).
  rewrite Hslots in *. pose proof (hinv_load _ Hi) as Hload. rewrite Hslots in Hload.
  destruct (decide (ex = 30)) as [->|Hne].
  - right. replace (i32 (2 ^ 30 * 2)) with (- 2 ^ 31) by done.
    unfold kvs_hash_resize. simpl. split; [done|lia].
  - assert (Hp : 2 ^ ex * 2 = 2 ^ (ex + 1)) by (rewrite Z.pow_add_r by lia; lia).
    assert (2 ^ (ex + 1) <= 2 ^ 30) by (apply Z.pow_le_mono_r; lia).
    rewrite i32_small by lia. rewrite Hp.
    destruct (kvs_hash_resize_spec e 0 hash (ex + 1)) as [(H1 & H2 & H3 & H4 & H5)|[-> Hm]];
      [done|lia|lia| |by right].
    left. split_and!; try done. rewrite H3. assert (0 < 2 ^ ex) by lia. lia.
Qed.

Lemma hash_set_cases e hash k v x :
  hash_inv hash ->
  let r := kvs_hash_set e hash (kd_of k) v x in
  hash_inv r.1 /\
  (r.2 = 0 -> hash_abs r.1 = <[k := (kd_bytes v, x)]> (hash_abs hash)) /\
  delete k (hash_abs r.1) = delete k (hash_abs hash) /\
  (mem_ok e -> kh_count hash < 2 ^ 30 ->
   Z.of_nat (length k) < 2 ^ 31 -> kd_len v < 2 ^ 31 -> r.2 = 0).
Proof.
  intros Hi. unfold kvs_hash_set.
  destruct (hinv_shape _ Hi) as (bs0 & _ & -> & _). fold (hash_grow e hash).
  destruct (hash_grow_spec e hash Hi) as [(Hr & Hi1 & Habs & Hcnt & Hle)|[-> Hfull]].
  2:{ simpl. split_and!; try done. intros Hm ?. specialize (Hfull Hm). lia. }
  destruct (hash_grow e hash) as [hash1 ret]. simpl in *. subst ret. simpl.
  rewrite <- Habs. destruct (hash_locate hash1 k Hi1) as (bs & ex & h & b & c1 & c2 & L).
  rewrite (loc_hash _ _ _ _ _ _ _ _ L), (loc_buckets _ _ _ _ _ _ _ _ L). simpl.
  pose proof (loc_range _ _ _ _ _ _ _ _ L) as Hrange.
  destruct (Z.leb_spec (kh_max_slots hash1) (Z.of_nat h)); [lia|].
  rewrite (located_bucket_at _ _ _ _ _ _ _ _ L), Nat2Z.id.
  assert (Hroom := hash_node_room k v e).
  destruct (chain_find b _) as [[[b1 n] b2]|] eqn:Ef.
  - apply chain_find_Some in Ef as [Hb Hn]. change (kd_bytes _) with k in Hn at 2.
    destruct (Z.leb_spec (kd_len v) (kd_len (hn_value n))); simpl.
    + set (n' := HashNode _ _ _).
      assert (Hok : node_ok ex h n').
      { pose proof (located_bucket_ok _ _ _ _ _ _ _ _ L) as Hbo. rewrite Hb in Hbo.
        apply Forall_app in Hbo as [_ Hbo]. by apply Forall_cons in Hbo as [Hbo _]. }
      destruct (located_overwrite _ _ _ _ _ _ _ _ Hi1 L b1 n b2 Hb Hn n' Hok Hn)
        as [Hinv Habs'].
      split_and!; try done. rewrite Habs'. by rewrite delete_insert_eq.
    + destruct (located_remove _ _ _ _ _ _ _ _ Hi1 L b1 n b2 Hb Hn)
        as (Hinv & Habs' & L' & Hnot).
      unfold hash_create_node. destruct (alloc_ok e 1 _) eqn:Ea; simpl.
      * destruct (located_push _ _ _ _ _ _ _ _ Hinv L' v x Hnot) as [Hinv2 Habs2].
        { simpl. pose proof (hinv_load _ Hi1). lia. }
        simpl in *.
        unfold fresh_node in *. rewrite Habs', insert_delete_eq in Habs2.
        split_and!; [exact Hinv2|intros _; exact Habs2| |done].
        etrans; [exact (f_equal (delete k) Habs2)|]. by rewrite delete_insert_eq.
      * split_and!; try done.
        -- rewrite Habs'. by rewrite delete_delete_eq.
        -- intros Hm _ Hk Hv. by rewrite Hroom in Ea.
  - apply chain_find_None in Ef. change (kd_bytes _) with k in Ef.
    unfold hash_create_node. destruct (alloc_ok e 1 _) eqn:Ea; simpl.
    + destruct (located_push _ _ _ _ _ _ _ _ Hi1 L v x Ef) as [Hinv2 Habs2].
      { lia. }
      split_and!; [exact Hinv2|intros _; exact Habs2| |done].
      etrans; [exact (f_equal (delete k) Habs2)|]. by rewrite delete_insert_eq.
    + split_and!; try done. intros Hm _ Hk Hv. by rewrite Hroom in Ea.
Qed.

(** Shrinking, when it is tried, keeps the content whatever its outcome. *)
Lemma hash_shrink e hash :
  hash_inv hash ->
  let hash' :=
    if (kh_count hash <? kh_max_slots hash / 4) && (INIT_HASH_SLOTS <? kh_max_slots hash)
    then (kvs_hash_resize e 0 hash (kh_max_slots hash / 2)).1 else hash in
  hash_inv hash' /\ hash_abs hash' = hash_abs hash.
Proof.
  intros Hi. simpl. destruct (_ && _) eqn:E; [|done]. unbool.
  destruct (hinv_shape _ Hi) as (bs & ex & _ & Hex & Hslots & _ & _).
  rewrite Hslots in *. assert (ex <> 4) by (intros ->; unfold INIT_HASH_SLOTS in *; lia).
  assert (Hp : 2 ^ ex = 2 * 2 ^ (ex - 1)).
  { rewrite <- Z.pow_succ_r by lia. f_equal. lia. }
  assert (Hd : 2 ^ ex / 2 = 2 ^ (ex - 1)) by (rewrite Hp, Z.mul_comm, Z.div_mul; lia).
  rewrite Hd. assert (0 < 2 ^ (ex - 1)) by lia.
  assert (2 ^ ex / 4 <= 2 ^ ex / 2) by (apply Z.div_le_compat_l; lia).
  destruct (kvs_hash_resize_spec e 0 hash (ex - 1)) as [(? & ? & ? & ? & ?)|[-> Hm]];
    [done|lia|lia|done|done].
Qed.

Lemma hash_del_cases e hash k :
  hash_inv hash ->
  let r := kvs_hash_del e hash (kd_of k) in
  hash_inv r.1 /\ hash_abs r.1 = delete k (hash_abs hash) /\
  r.2 = match hash_abs hash !! k with Some _ => 0 | None => 1 end.
Proof.
  intros Hi. unfold kvs_hash_del.
  destruct (hash_locate hash k Hi) as (bs & ex & h & b & c1 & c2 & L).
  rewrite (loc_hash _ _ _ _ _ _ _ _ L), (loc_buckets _ _ _ _ _ _ _ _ L).
  pose proof (loc_range _ _ _ _ _ _ _ _ L) as Hrange.
  destruct (Z.leb_spec (kh_max_slots hash) (Z.of_nat h)); [lia|].
  rewrite (located_bucket_at _ _ _ _ _ _ _ _ L), Nat2Z.id.
  destruct (chain_find b _) as [[[b1 n] b2]|] eqn:Ef.
  - apply chain_find_Some in Ef as [Hb Hn]. change (kd_bytes _) with k in Hn at 2.
    rewrite (located_present _ _ _ _ _ _ _ _ Hi L b1 n b2 Hb Hn).
    destruct (located_remove _ _ _ _ _ _ _ _ Hi L b1 n b2 Hb Hn) as (Hinv & Habs & _ & _).
    destruct (hash_shrink e _ Hinv) as [Hinv' Habs'].
    split_and!; [exact Hinv'| |done]. rewrite <- Habs. exact Habs'.
  - apply chain_find_None in Ef. change (kd_bytes _) with k in Ef.
    pose proof (located_absent _ _ _ _ _ _ _ _ L Ef) as Hnone. simpl.
    rewrite Hnone. split_and!; try done. by rewrite delete_id.
Qed.

Lemma hash_lookup_spec hash k :
  hash_inv hash ->
  (fun n => (kd_bytes (hn_value n), hn_expire n)) <$> hash_lookup hash (kd_of k)
  = hash_abs hash !! k.
Proof.
  intros Hi. unfold hash_lookup.
  destruct (hash_locate hash k Hi) as (bs & ex & h & b & c1 & c2 & L).
  rewrite (loc_hash _ _ _ _ _ _ _ _ L), (loc_buckets _ _ _ _ _ _ _ _ L).
  pose proof (loc_range _ _ _ _ _ _ _ _ L) as Hrange.
  destruct (Z.leb_spec (kh_max_slots hash) (Z.of_nat h)); [lia|].
  rewrite (located_bucket_at _ _ _ _ _ _ _ _ L).
  destruct (chain_find b _) as [[[b1 n] b2]|] eqn:Ef; simpl; symmetry.
  - apply chain_find_Some in Ef as [Hb Hn]. change (kd_bytes _) with k in Hn at 2.
    by apply (located_present _ _ _ _ _ _ _ _ Hi L b1 n b2).
  - apply chain_find_None in Ef. change (kd_bytes _) with k in Ef.
    by apply (located_absent _ _ _ _ _ _ _ _ L).
Qed.

Lemma hash_foreach_entries e hash :
  hash_inv hash ->
  kvs_hash_foreach e hash =
  filter (fun kv => is_expired e kv.2.2 = false) (chain_entries (hash_nodes hash)).
Proof.
  intros Hi. unfold kvs_hash_foreach, hash_nodes.
  destruct (hinv_shape _ Hi) as (bs & ex & -> & Hex & -> & Hlen & _). simpl.
  rewrite take_ge by lia. unfold chain_entries.
  induction (concat bs) as [|n l IH]; simpl; [done|].
  rewrite !filter_cons. simpl. case_decide; [simpl; f_equal|]; exact IH.
Qed.

Definition hash_room hash k : Prop := kh_count hash < 2 ^ 30.
End hash.

#[export] Program Instance hash_laws : KvEngineLaws kvs_hash := {
  eng_inv := hash_inv;
  eng_abs := hash_abs;
  eng_key _ := True;
  eng_room := hash_room
}.
Next Obligation. intros. by apply hash_set_cases. Qed.
Next Obligation. intros e s k v x Hi Hk. by apply hash_set_cases. Qed.
Next Obligation. intros e s k v x Hi Hk. by apply hash_set_cases. Qed.
Next Obligation.
  intros e s k v x Hi Hk Hm Hr Hlk Hlv.
  by destruct (hash_set_cases e s k v x Hi) as (_ & _ & _ & H); apply H.
Qed.
Next Obligation.
  intros e s k Hi Hk. simpl. unfold kvs_hash_get.
  destruct (hash_lookup s (kd_of k)) as [n|]; [|done].
  destruct (is_expired e (hn_expire n)); [|done]. by apply hash_del_cases.
Qed.
Next Obligation.
  intros e s k Hi Hk. simpl. rewrite <- hash_lookup_spec by done. unfold kvs_hash_get.
  destruct (hash_lookup s (kd_of k)) as [n|]; simpl; [|done].
  destruct (is_expired e (hn_expire n)); simpl; [|by eauto].
  split; [done|]. by apply hash_del_cases.
Qed.
Next Obligation. intros. by apply hash_del_cases. Qed.
Next Obligation. intros e s k Hi Hk. simpl. by apply hash_del_cases. Qed.
Next Obligation. done. Qed.
Next Obligation.
  intros e s k Hi Hk. simpl. unfold kvs_hash_exist, kvs_hash_get.
  destruct (hash_lookup s (kd_of k)) as [n|]; [|done]. by destruct (is_expired _ _).
Qed.
Next Obligation.
  intros e s k x Hi Hk. simpl. unfold kvs_hash_del_if_expired.
  rewrite <- hash_lookup_spec by done.
  destruct (hash_lookup s (kd_of k)) as [n|]; simpl; [|done].
  destruct (Z.eqb_spec (hn_expire n) x); case_bool_decide; done.
Qed.
Next Obligation.
  intros e s Hi Ht. simpl. rewrite hash_foreach_entries by done.
  apply filter_map_to_list, Hi.
Qed.

Lemma kvs_hash_create_ok e :
  mem_ok e -> (kvs_hash_create e hash_zero).2 = 0 /\
  hash_inv (kvs_hash_create e hash_zero).1 /\
  hash_abs (kvs_hash_create e hash_zero).1 = ∅.
Proof.
  intros Hm. unfold kvs_hash_create, alloc_ok. rewrite Hm. simpl.
  assert (Hn : hash_nodes (KvsHash (Some (replicate (Z.to_nat INIT_HASH_SLOTS) []))
                                   INIT_HASH_SLOTS 0) = []) by done.
  split; [done|]. split; [|done]. split.
  - eexists _, 4. split_and!; try done. intros h b n Hb Hin.
    simpl in Hb. apply (lookup_replicate 16 []) in Hb as [-> _].
    by apply not_elem_of_nil in Hin.
  - constructor.
  - done.
  - done.
Qed.
