(* ===== verification/RbTree.v ===== *)
(** * The red-black tree engine (kvs_rbtree.c)

    A pointer into the tree is a zipper: the subtree it designates and the
    [path] of the nodes above it, innermost first, each with the side the
    pointer hangs on.  Following [->parent] pops a frame, the sentinel [nil]
    is [Nil] below and the empty path above, and a rotation rebuilds the
    subtree in place, which is what the code's update of the parent's link
    does.  A step that would write the colour or a link of the sentinel has no
    tree as its result: it gives [None], and the theorems show that it never
    happens on a tree the operations built. *)

From S2P Require Import Prelude KvData Engine.

Open Scope Z_scope.

Inductive color := RED | BLACK.

#[export] Instance color_eq_dec : EqDecision color.
Proof. solve_decision. Defined.

(** The payload of a node; both pointers are into the node itself. *)
Record rbent := RbEnt {
  re_key : bytes;
  re_val : bytes;
  re_expire : Z
}.

Inductive tree :=
| Nil
| Node (c : color) (l : tree) (e : rbent) (r : tree).

(** [FL c e r]: the hole is the left child of a node [c, e] whose right child
    is [r]; [FR c l e]: the hole is its right child. *)
Inductive frame :=
| FL (c : color) (e : rbent) (r : tree)
| FR (c : color) (l : tree) (e : rbent).

Abbreviation path := (list frame).

Definition tcolor (t : tree) : color :=
  match t with Nil => BLACK | Node c _ _ _ => c end.

(** The colour of the node a frame stands for. *)
Definition fcolor (f : frame) : color :=
  match f with FL c _ _ => c | FR c _ _ => c end.

Definition set_color (c : color) (t : tree) : tree :=
  match t with Nil => Nil | Node _ l e r => Node c l e r end.

Definition set_fcolor (c : color) (f : frame) : frame :=
  match f with FL _ e r => FL c e r | FR _ l e => FR c l e end.

Definition plug1 (t : tree) (f : frame) : tree :=
  match f with FL c e r => Node c t e r | FR c l e => Node c l e t end.

(** The whole tree around a pointer. *)
Fixpoint plug (t : tree) (p : path) : tree :=
  match p with
  | [] => t
  | f :: p' => plug (plug1 t f) p'
  end.

(** ** Rotations, on the subtree at the rotated node *)

Definition rbtree_left_rotate (x : tree) : option tree :=
  match x with
  | Node cx a ex (Node cy b ey c) => Some (Node cy (Node cx a ex b) ey c)
  | _ => None
  end.

Definition rbtree_right_rotate (y : tree) : option tree :=
  match y with
  | Node cy (Node cx a ex b) ey c => Some (Node cx a ex (Node cy b ey c))
  | _ => None
  end.

(** ** Insertion *)

Fixpoint rbtree_insert_fixup (z : tree) (p : path) {struct p} : option tree :=
  match p with
  | [] => Some (set_color BLACK z)
  | f :: p1 =>
    match fcolor f with
    | BLACK => Some (set_color BLACK (plug z p))
    | RED =>
      match p1 with
      | [] => None (* the grandparent is the sentinel *)
      | FL _ ge y :: p2 =>
        match tcolor y with
        | RED =>
          rbtree_insert_fixup
            (Node RED (plug1 z (set_fcolor BLACK f)) ge (set_color BLACK y)) p2
        | BLACK =>
          let parent := plug1 z f in
          let parent := match f with FR _ _ _ => rbtree_left_rotate parent
                                   | FL _ _ _ => Some parent end in
          match parent with
          | None => None
          | Some parent =>
            match rbtree_right_rotate (Node RED (set_color BLACK parent) ge y) with
            | None => None
            | Some t => Some (set_color BLACK (plug t p2))
            end
          end
        end
      | FR _ y ge :: p2 =>
        match tcolor y with
        | RED =>
          rbtree_insert_fixup
            (Node RED (set_color BLACK y) ge (plug1 z (set_fcolor BLACK f))) p2
        | BLACK =>
          let parent := plug1 z f in
          let parent := match f with FL _ _ _ => rbtree_right_rotate parent
                                   | FR _ _ _ => Some parent end in
          match parent with
          | None => None
          | Some parent =>
            match rbtree_left_rotate (Node RED y ge (set_color BLACK parent)) with
            | None => None
            | Some t => Some (set_color BLACK (plug t p2))
            end
          end
        end
      end
    end
  end.

(** ** Search *)

Fixpoint rbtree_search (t : tree) (key : bytes) : option rbent :=
  match t with
  | Nil => None
  | Node _ l e r =>
    let cmp := bytes_cmp key (re_key e) in
    if cmp <? 0 then rbtree_search l key
    else if 0 <? cmp then rbtree_search r key
    else Some e
  end.

(** [rbtree_find_parent]: the pointer the loop stops at, the node with the
    key or the sentinel under the node the key would hang on; the last frame
    holds the parent and the side that [cmp] tells. *)
Fixpoint rbtree_find_parent (t : tree) (key : bytes) (p : path) : tree * path :=
  match t with
  | Nil => (Nil, p)
  | Node c l e r =>
    let cmp := bytes_cmp key (re_key e) in
    if cmp <? 0 then rbtree_find_parent l key (FL c e r :: p)
    else if 0 <? cmp then rbtree_find_parent r key (FR c l e :: p)
    else (t, p)
  end.

(** ** Deletion *)

(** [rbtree_mini], with the frames between the minimum and the start. *)
Fixpoint rbtree_mini (t : tree) (q : path) : option (color * rbent * tree * path) :=
  match t with
  | Nil => None
  | Node c Nil e r => Some (c, e, r, q)
  | Node c l e r => rbtree_mini l (FL c e r :: q)
  end.

(** The part of a turn of the loop after the sibling [w] is known not to be
    red: [pc, e] is the parent, [p] the path above it.  The result is a
    finished tree or the next position of [x]. *)
Definition delete_fixup_left (x : tree) (pc : color) (e : rbent) (w : tree) (p : path)
  : option (tree + tree * path) :=
  match w with
  | Nil => None (* it would redden the sentinel *)
  | Node _ wl we wr =>
    if bool_decide (tcolor wl = BLACK) && bool_decide (tcolor wr = BLACK) then
      Some (inr (Node pc x e (set_color RED w), p))
    else
      let w' :=
        if bool_decide (tcolor wr = BLACK)
        then rbtree_right_rotate (Node RED (set_color BLACK wl) we wr)
        else Some w in
      match w' with
      | Some (Node _ wl we wr) =>
        match rbtree_left_rotate
                (Node BLACK x e (Node pc wl we (set_color BLACK wr))) with
        | Some t => Some (inl (set_color BLACK (plug t p)))
        | None => None
        end
      | _ => None
      end
  end.

Definition delete_fixup_right (x : tree) (pc : color) (w : tree) (e : rbent) (p : path)
  : option (tree + tree * path) :=
  match w with
  | Nil => None
  | Node _ wl we wr =>
    if bool_decide (tcolor wl = BLACK) && bool_decide (tcolor wr = BLACK) then
      Some (inr (Node pc (set_color RED w) e x, p))
    else
      let w' :=
        if bool_decide (tcolor wl = BLACK)
        then rbtree_left_rotate (Node RED wl we (set_color BLACK wr))
        else Some w in
      match w' with
      | Some (Node _ wl we wr) =>
        match rbtree_right_rotate
                (Node BLACK (Node pc (set_color BLACK wl) we wr) e x) with
        | Some t => Some (inl (set_color BLACK (plug t p)))
        | None => None
        end
      | _ => None
      end
  end.

(** One turn of the loop: a red sibling is first rotated above the parent,
    which turns red and gets a black sibling. *)
Definition delete_fixup_step (x : tree) (f : frame) (p : path)
  : option (tree + tree * path) :=
  match f with
  | FL pc e (Node RED wl we wr) =>
    delete_fixup_left x RED e wl (FL BLACK we wr :: p)
  | FL pc e w => delete_fixup_left x pc e w p
  | FR pc (Node RED wl we wr) e =>
    delete_fixup_right x RED wr e (FR BLACK wl we :: p)
  | FR pc w e => delete_fixup_right x pc w e p
  end.

Fixpoint rbtree_delete_fixup (fuel : nat) (x : tree) (p : path) : option tree :=
  match p with
  | [] => Some (set_color BLACK x)
  | f :: p1 =>
    match tcolor x with
    | RED => Some (plug (set_color BLACK x) p)
    | BLACK =>
      match fuel with
      | O => None
      | S fuel' =>
        match delete_fixup_step x f p1 with
        | None => None
        | Some (inl t) => Some t
        | Some (inr (x', p')) => rbtree_delete_fixup fuel' x' p'
        end
      end
    end
  end.

(** [rbtree_delete] of the node [t] under the path [p]: the tree without it.
    [x] takes the place of the node unlinked, [y]; the fuel is one turn per
    node above [x] and one more. *)
Definition rbtree_delete (t : tree) (p : path) : option tree :=
  match t with
  | Nil => None
  | Node c zl ze zr =>
    let finish (y_original_color : color) (x : tree) (p : path) :=
      match y_original_color with
      | BLACK => rbtree_delete_fixup (S (length p)) x p
      | RED => Some (plug x p)
      end in
    match zl, zr with
    | Nil, _ => finish c zr p
    | _, Nil => finish c zl p
    | _, _ =>
      match rbtree_mini zr [] with
      | None => None
      | Some (yc, ye, yr, q) => finish yc yr (q ++ FR c zl ye :: p)
      end
    end
  end.

(** ** In-order content *)

Fixpoint elems (t : tree) : list rbent :=
  match t with
  | Nil => []
  | Node _ l e r => elems l ++ e :: elems r
  end.

(** The content to the left and to the right of a pointer. *)
Fixpoint pleft (p : path) : list rbent :=
  match p with
  | [] => []
  | FL _ _ _ :: p' => pleft p'
  | FR _ l e :: p' => pleft p' ++ elems l ++ [e]
  end.

Fixpoint pright (p : path) : list rbent :=
  match p with
  | [] => []
  | FL _ e r :: p' => e :: elems r ++ pright p'
  | FR _ _ _ :: p' => pright p'
  end.

Lemma elems_set_color c t : elems (set_color c t) = elems t.
Proof. by destruct t. Qed.

Lemma elems_plug t p : elems (plug t p) = pleft p ++ elems t ++ pright p.
Proof.
  revert t. induction p as [|[c e r|c l e] p IH]; intros t; simpl.
  - by rewrite app_nil_r.
  - rewrite IH. simpl. by rewrite <- app_assoc.
  - rewrite IH. simpl. by rewrite <- !app_assoc.
Qed.

Lemma elems_left_rotate t t' : rbtree_left_rotate t = Some t' -> elems t' = elems t.
Proof.
  destruct t as [|c a e [|c' b e' d]]; simpl; try done.
  intros [= <-]. simpl. by rewrite <- app_assoc.
Qed.

Lemma elems_right_rotate t t' : rbtree_right_rotate t = Some t' -> elems t' = elems t.
Proof.
  destruct t as [|c [|c' a e' b] e d]; simpl; try done.
  intros [= <-]. simpl. by rewrite <- app_assoc.
Qed.

Lemma elems_plug1_color t f c : elems (plug1 t (set_fcolor c f)) = elems (plug1 t f).
Proof. by destruct f. Qed.

Lemma elems_plug1_plug t f p : pleft p ++ elems (plug1 t f) ++ pright p
  = pleft (f :: p) ++ elems t ++ pright (f :: p).
Proof. rewrite <- !elems_plug. done. Qed.

Create HintDb rb discriminated.
Create Rewrite HintDb rb.

(** Concatenations nested to the right. *)
Ltac app_norm := repeat (progress (rewrite <- ?app_assoc; simpl)).

#[export] Hint Rewrite elems_set_color elems_plug elems_plug1_color : rb.

Lemma insert_fixup_elems z p t :
  rbtree_insert_fixup z p = Some t -> elems t = pleft p ++ elems z ++ pright p.
Proof.
  revert z t. induction p as [p IH] using (induction_ltof1 _ (@length frame)).
  unfold ltof in IH. intros z t. destruct p as [|f p1]; cbn [rbtree_insert_fixup].
  { intros [= <-]. autorewrite with rb. simpl. by rewrite app_nil_r. }
  rewrite <- elems_plug1_plug. destruct (fcolor f).
  2:{ intros [= <-]. by autorewrite with rb. }
  destruct p1 as [|[gc ge y|gc y ge] p2]; [done| |];
    rewrite <- elems_plug1_plug; cbn [plug1]; destruct (tcolor y).
  - intros H%IH; [|simpl; lia]. rewrite H. simpl. by autorewrite with rb.
  - destruct (match f with FL _ _ _ => _ | FR _ _ _ => _ end) as [pt|] eqn:Ep; [|done].
    destruct pt as [|pc pl pe pr]; [done|].
    assert (He : elems (Node pc pl pe pr) = elems (plug1 z f)).
    { destruct f; [congruence|]. by apply elems_left_rotate. }
    simpl in *. intros [= <-]. autorewrite with rb. rewrite <- He. by app_norm.
  - intros H%IH; [|simpl; lia]. rewrite H. simpl. by autorewrite with rb.
  - destruct (match f with FL _ _ _ => _ | FR _ _ _ => _ end) as [pt|] eqn:Ep; [|done].
    destruct pt as [|pc pl pe pr]; [done|].
    assert (He : elems (Node pc pl pe pr) = elems (plug1 z f)).
    { destruct f; [|congruence]. by apply elems_right_rotate. }
    simpl in *. intros [= <-]. autorewrite with rb. rewrite <- He. by app_norm.
Qed.

(** What a turn of the deletion loop keeps: the content of the finished tree
    or of the tree around the next position. *)
Definition step_elems (s : tree + tree * path) : list rbent :=
  match s with
  | inl t => elems t
  | inr (x, p) => pleft p ++ elems x ++ pright p
  end.

Lemma delete_fixup_left_elems x pc e w p s :
  delete_fixup_left x pc e w p = Some s ->
  step_elems s = pleft p ++ (elems x ++ e :: elems w) ++ pright p.
Proof.
  destruct w as [|wc wl we wr]; simpl; [done|].
  destruct (_ && _). { by intros [= <-]. }
  destruct (if bool_decide _ then _ else _) as [w'|] eqn:Ew; [|done].
  destruct w' as [|c' l' e' r']; [done|].
  assert (He : elems (Node c' l' e' r') = elems (Node wc wl we wr)).
  { case_bool_decide.
    - apply (elems_right_rotate (Node RED (set_color BLACK wl) we wr)) in Ew. rewrite Ew. simpl. by autorewrite with rb.
    - by injection Ew as -> -> -> ->. }
  simpl in *. intros [= <-]. simpl. autorewrite with rb. simpl.
  rewrite <- He. autorewrite with rb. by app_norm.
Qed.

Lemma delete_fixup_right_elems x pc w e p s :
  delete_fixup_right x pc w e p = Some s ->
  step_elems s = pleft p ++ (elems w ++ e :: elems x) ++ pright p.
Proof.
  destruct w as [|wc wl we wr]; simpl; [done|].
  destruct (_ && _). { by intros [= <-]. }
  destruct (if bool_decide _ then _ else _) as [w'|] eqn:Ew; [|done].
  destruct w' as [|c' l' e' r']; [done|].
  assert (He : elems (Node c' l' e' r') = elems (Node wc wl we wr)).
  { case_bool_decide.
    - apply (elems_left_rotate (Node RED wl we (set_color BLACK wr))) in Ew. rewrite Ew. simpl. by autorewrite with rb.
    - by injection Ew as -> -> -> ->. }
  simpl in *. intros [= <-]. simpl. autorewrite with rb. simpl.
  rewrite <- He. autorewrite with rb. by app_norm.
Qed.

Lemma delete_fixup_step_elems x f p s :
  delete_fixup_step x f p = Some s ->
  step_elems s = pleft (f :: p) ++ elems x ++ pright (f :: p).
Proof.
  rewrite <- elems_plug1_plug.
  destruct f as [pc e [|[] wl we wr]|pc [|[] wl we wr] e];
    cbn [delete_fixup_step plug1]; try done; intros H; first [apply delete_fixup_left_elems in H
                    |apply delete_fixup_right_elems in H];
    rewrite H; by app_norm.
Qed.

Lemma delete_fixup_elems fuel x p t :
  rbtree_delete_fixup fuel x p = Some t -> elems t = pleft p ++ elems x ++ pright p.
Proof.
  revert x p t. induction fuel as [|fuel IH]; intros x p t;
    (destruct p as [|f p1]; cbn [rbtree_delete_fixup];
     [intros [= <-]; autorewrite with rb; simpl; by rewrite app_nil_r|]);
    destruct (tcolor x); try done.
  - intros [= <-]. change (plug (plug1 ?y f) p1) with (plug y (f :: p1)).
    by autorewrite with rb.
  - intros [= <-]. change (plug (plug1 ?y f) p1) with (plug y (f :: p1)).
    by autorewrite with rb.
  - destruct (delete_fixup_step x f p1) as [[t'|[x' p']]|] eqn:Es; [| |done];
      apply delete_fixup_step_elems in Es; simpl in Es.
    + intros [= <-]. done.
    + intros H%IH. by rewrite H.
Qed.

Lemma rbtree_mini_elems t q c e r q' :
  rbtree_mini t q = Some (c, e, r, q') ->
  pleft q ++ elems t ++ pright q = pleft q' ++ (e :: elems r) ++ pright q' /\
  pleft q' = pleft q.
Proof.
  revert q. induction t as [|c0 l IHl e0 r0 _]; intros q; simpl; [done|].
  destruct l as [|lc ll le lr].
  - intros [= <- <- <- <-]. simpl. done.
  - intros H%IHl. destruct H as [H1 H2]. simpl in *. rewrite <- H1, H2.
    split; [|done]. by rewrite <- !app_assoc.
Qed.

Lemma pleft_app p1 p2 : pleft (p1 ++ p2) = pleft p2 ++ pleft p1.
Proof.
  induction p1 as [|[] p1 IH]; simpl; rewrite ?app_nil_r; [done|done|].
  by rewrite IH, !app_assoc.
Qed.

Lemma pright_app p1 p2 : pright (p1 ++ p2) = pright p1 ++ pright p2.
Proof.
  induction p1 as [|[] p1 IH]; simpl; [done| |done]. by rewrite IH, !app_assoc.
Qed.

Lemma rbtree_delete_elems c l e r p t :
  rbtree_delete (Node c l e r) p = Some t ->
  elems t = pleft p ++ elems l ++ elems r ++ pright p.
Proof.
  unfold rbtree_delete.
  assert (Hfin : forall yc x p' t',
    match yc with RED => Some (plug x p')
                | BLACK => rbtree_delete_fixup (S (length p')) x p' end = Some t' ->
    elems t' = pleft p' ++ elems x ++ pright p').
  { intros [] x p' t'; [intros [= <-]; apply elems_plug|apply delete_fixup_elems]. }
  destruct l as [|lc ll le lr]; [intros H%Hfin; by rewrite H|].
  destruct r as [|rc rl re rr]; [intros H%Hfin; by rewrite H|].
  remember (Node lc ll le lr) as zl eqn:El. remember (Node rc rl re rr) as zr eqn:Er.
  destruct (rbtree_mini zr []) as [[[[yc ye] yr] q]|] eqn:Em; [|done].
  intros H%Hfin. rewrite H. apply rbtree_mini_elems in Em as [Em1 Em2].
  rewrite pleft_app, pright_app, Em2. simpl in Em1. rewrite Em2, app_nil_r in Em1.
  rewrite Em1. by app_norm.
Qed.

(** ** Balance *)

(** [rbt n c t]: [t] has root colour [c], black height [n], and no red node
    with a red child. *)
Inductive rbt : nat -> color -> tree -> Prop :=
| rbt_nil : rbt 0 BLACK Nil
| rbt_red n l e r : rbt n BLACK l -> rbt n BLACK r -> rbt n RED (Node RED l e r)
| rbt_black n cl cr l e r :
    rbt n cl l -> rbt n cr r -> rbt (S n) BLACK (Node BLACK l e r).

(** [ctx n c p]: a black tree of black height [n] under [p], whose innermost
    node has colour [c], gives a tree whose root is black. *)
Inductive ctx : nat -> color -> path -> Prop :=
| ctx_nil n : ctx n BLACK []
| ctx_black_l n cr pc e r p :
    rbt n cr r -> ctx (S n) pc p -> ctx n BLACK (FL BLACK e r :: p)
| ctx_black_r n cl pc e l p :
    rbt n cl l -> ctx (S n) pc p -> ctx n BLACK (FR BLACK l e :: p)
| ctx_red_l n e r f p :
    rbt n BLACK r -> ctx n BLACK (f :: p) -> ctx n RED (FL RED e r :: f :: p)
| ctx_red_r n e l f p :
    rbt n BLACK l -> ctx n BLACK (f :: p) -> ctx n RED (FR RED l e :: f :: p).

#[export] Hint Constructors rbt ctx : rb.

Lemma rbt_color n c t : rbt n c t -> tcolor t = c.
Proof. by destruct 1. Qed.

Lemma rbt_blacken n c t : rbt n c t -> exists m, rbt m BLACK (set_color BLACK t).
Proof. destruct 1; simpl; eauto with rb. Qed.

Lemma ctx_color n c p : ctx n c p ->
  match p with [] => c = BLACK | f :: _ => fcolor f = c end.
Proof. by destruct 1. Qed.

(** A tree in its context: its colour has to be black under a red node. *)
Lemma ctx_plug n c pc t p :
  rbt n c t -> ctx n pc p -> (pc = RED -> c = BLACK) ->
  (p = [] -> c = BLACK) -> exists m, rbt m BLACK (plug t p).
Proof.
  intros Ht Hp. revert c t Ht. induction Hp; intros c t Ht Hc Hroot; simpl.
  - rewrite Hroot in Ht by done. eauto.
  - eapply IHHp; eauto with rb.
  - eapply IHHp; eauto with rb.
  - specialize (Hc eq_refl) as ->. eapply IHHp; eauto with rb; done.
  - specialize (Hc eq_refl) as ->. eapply IHHp; eauto with rb; done.
Qed.

Lemma rbt_set_black_root n c t : rbt n c t -> exists m, rbt m BLACK (set_color BLACK t).
Proof. apply rbt_blacken. Qed.

Lemma plug_black_root n t p :
  rbt n BLACK (plug t p) -> set_color BLACK (plug t p) = plug t p.
Proof. inversion 1; done. Qed.

(** A finished subtree put back, the root blackened. *)
Lemma finish_plug n c pc t p :
  rbt n c t -> ctx n pc p -> (pc = RED -> c = BLACK) ->
  exists m, rbt m BLACK (set_color BLACK (plug t p)).
Proof.
  intros Ht Hp Hc. destruct p as [|f p].
  - simpl. by eapply rbt_blacken.
  - destruct (ctx_plug n c pc t (f :: p)) as [m Hm]; try done.
    exists m. by erewrite plug_black_root.
Qed.

(** The loop of the insertion: a red node under any context becomes a
    red-black tree, without touching the sentinel. *)
Lemma insert_fixup_balanced n pc z p :
  rbt n RED z -> ctx n pc p ->
  exists t m, rbtree_insert_fixup z p = Some t /\ rbt m BLACK t.
Proof.
  revert n pc z. induction p as [p IH] using (induction_ltof1 _ (@length frame)).
  unfold ltof in IH. intros n pc z Hz Hp.
  destruct p as [|f p1]; cbn [rbtree_insert_fixup].
  { destruct (rbt_blacken _ _ _ Hz) as [m Hm]. eauto. }
  destruct (fcolor f) eqn:Ef.
  2:{ inversion Hp; subst; simpl in Ef; try done;
      (edestruct (finish_plug n RED BLACK z) as [m Hm]; [done|exact Hp|done|];
       eexists _, m; split; [done|exact Hm]). }
  inversion Hp as [| | |? e r g p2 Hr Hg|? e l g p2 Hl Hg]; subst; simpl in Ef; try done;
    inversion Hg as [|? cy gpc ge y ? Hy Hg'|? cy gpc ge y ? Hy Hg'| |]; subst;
    cbn [plug1 set_fcolor];
    rewrite (rbt_color _ _ _ Hy); destruct cy.
  - eapply (IH p2); [simpl; lia| |exact Hg'].
    inversion Hy; subst. eauto with rb.
  - simpl. edestruct (finish_plug (S n) BLACK) as [m Hm]; [|exact Hg'|done|].
    2:{ eexists _, m. split; [done|exact Hm]. }
    eauto with rb.
  - eapply (IH p2); [simpl; lia| |exact Hg'].
    inversion Hy; subst. eauto with rb.
  - inversion Hz; subst. simpl.
    edestruct (finish_plug (S n) BLACK) as [m Hm]; [|exact Hg'|done|].
    2:{ eexists _, m. split; [done|exact Hm]. }
    eauto with rb.
  - eapply (IH p2); [simpl; lia| |exact Hg'].
    inversion Hy; subst. eauto with rb.
  - inversion Hz; subst. simpl.
    edestruct (finish_plug (S n) BLACK) as [m Hm]; [|exact Hg'|done|].
    2:{ eexists _, m. split; [done|exact Hm]. }
    eauto with rb.
  - eapply (IH p2); [simpl; lia| |exact Hg'].
    inversion Hy; subst. eauto with rb.
  - simpl. edestruct (finish_plug (S n) BLACK) as [m Hm]; [|exact Hg'|done|].
    2:{ eexists _, m. split; [done|exact Hm]. }
    eauto with rb.
Qed.

(** What the deletion loop holds at [x], where one black node is missing:
    either [x] is black, or it is red and blackening it repairs the height. *)
Definition deficit (n : nat) (x : tree) : Prop :=
  rbt n BLACK x \/ (tcolor x = RED /\ rbt (S n) BLACK (set_color BLACK x)).

(** The context of a parent of colour [pc] whose children have black height
    [n]. *)
Definition parent_ctx (n : nat) (pc : color) (p : path) : Prop :=
  match pc with
  | RED => ctx n BLACK p /\ p <> []
  | BLACK => exists c, ctx (S n) c p
  end.

Definition step_ok (n : nat) (pc : color) (p : path) (s : tree + tree * path) : Prop :=
  match s with
  | inl t => exists m, rbt m BLACK t
  | inr (x, p') =>
    p' = p /\ match pc with
              | RED => tcolor x = RED /\ rbt (S n) BLACK (set_color BLACK x)
              | BLACK => rbt (S n) BLACK x
              end
  end.

(** A subtree of the parent's colour and height put back under it. *)
Lemma finish_parent n pc t p :
  rbt (match pc with RED => S n | BLACK => S (S n) end) pc t -> parent_ctx (S n) pc p ->
  exists m, rbt m BLACK (set_color BLACK (plug t p)).
Proof.
  intros Ht Hp. destruct pc; simpl in Hp.
  - destruct Hp as [Hp _]. by eapply finish_plug.
  - destruct Hp as [c Hp]. by eapply finish_plug.
Qed.

#[local] Ltac invert_rbt :=
  repeat match goal with
  | H : rbt _ _ (Node _ _ _ _) |- _ => inversion H; clear H; subst
  | H : rbt (S _) _ ?t |- _ => is_var t; inversion H; clear H; subst
  | H : rbt _ RED ?t |- _ => is_var t; inversion H; clear H; subst
  end.

#[local] Ltac finish_step :=
  eexists; split; [reflexivity|]; simpl;
  (eapply finish_parent; [|eassumption]); simpl; eauto with rb.

Lemma delete_fixup_left_ok n x pc e w p :
  rbt n BLACK x -> rbt (S n) BLACK w -> parent_ctx (S n) pc p ->
  exists s, delete_fixup_left x pc e w p = Some s /\ step_ok n pc p s.
Proof.
  intros Hx Hw Hp. inversion Hw as [| |? cl cr wl we wr Hl Hr]; subst.
  unfold delete_fixup_left. rewrite (rbt_color _ _ _ Hl), (rbt_color _ _ _ Hr).
  destruct cl, cr; simpl.
  - inversion Hr; subst; destruct pc; finish_step.
  - inversion Hl; subst; destruct pc; finish_step.
  - inversion Hr; subst; destruct pc; finish_step.
  - eexists. split; [reflexivity|]. simpl. split; [done|].
    destruct pc; simpl; eauto with rb.
Qed.

Lemma delete_fixup_right_ok n x pc e w p :
  rbt n BLACK x -> rbt (S n) BLACK w -> parent_ctx (S n) pc p ->
  exists s, delete_fixup_right x pc w e p = Some s /\ step_ok n pc p s.
Proof.
  intros Hx Hw Hp. inversion Hw as [| |? cl cr wl we wr Hl Hr]; subst.
  unfold delete_fixup_right. rewrite (rbt_color _ _ _ Hl), (rbt_color _ _ _ Hr).
  destruct cl, cr; simpl.
  - inversion Hl; subst; destruct pc; finish_step.
  - inversion Hl; subst; destruct pc; finish_step.
  - inversion Hr; subst; destruct pc; finish_step.
  - eexists. split; [reflexivity|]. simpl. split; [done|].
    destruct pc; simpl; eauto with rb.
Qed.

(** The position a turn of the loop leaves: nearer to the root, or at a red
    node. *)
Definition next_ok (len : nat) (s : tree + tree * path) : Prop :=
  match s with
  | inl t => exists m, rbt m BLACK t
  | inr (x, p) => exists n c, ctx (S n) c p /\ deficit n x /\
      (tcolor x = RED \/ (length p < len)%nat)
  end.

Lemma step_next n pc p s len :
  step_ok n pc p s -> parent_ctx (S n) pc p -> pc = RED \/ (length p < len)%nat ->
  next_ok len s.
Proof.
  destruct s as [t|[x p']]; simpl; [done|].
  intros [-> Hx] Hp Hlen. destruct pc.
  - exists n, BLACK. unfold deficit. split; [apply Hp|]. split; [by right|].
    left. by destruct Hx.
  - destruct Hp as [c Hp]. exists (S n), c. unfold deficit. split; [done|].
    split; [by left|]. right. by destruct Hlen.
Qed.

Lemma delete_fixup_step_ok n c x f p :
  rbt n BLACK x -> ctx (S n) c (f :: p) ->
  exists s, delete_fixup_step x f p = Some s /\ next_ok (S (length p)) s.
Proof.
  intros Hx Hf.
  assert (Hgo : forall pc s (o : option (tree + tree * path)) p',
    parent_ctx (S n) pc p' -> pc = RED \/ (length p' < S (length p))%nat ->
    o = Some s /\ step_ok n pc p' s -> exists s', o = Some s' /\ next_ok (S (length p)) s').
  { intros pc s o p' Hp' Hlen [-> Hs]. eexists. split; [done|]. by eapply step_next. }
  inversion Hf as [|? cr pc e r ? Hr Hp|? cl pc e l ? Hl Hp|? e r g p2 Hr Hp|? e l g p2 Hl Hp];
    subst; cbn [delete_fixup_step].
  - inversion Hr as [|? l2 e2 r2 Hl2 Hr2|? c1 c2 l2 e2 r2 Hl2 Hr2]; subst.
    + destruct (delete_fixup_left_ok n x RED e l2 (FL BLACK e2 r2 :: p)) as (s & Hs);
        eauto with rb; [split; [eauto with rb|done]|].
      eapply (Hgo RED); [|by left|exact Hs]. split; [eauto with rb|done].
    + destruct (delete_fixup_left_ok n x BLACK e (Node BLACK l2 e2 r2) p) as (s & Hs);
        eauto with rb; [by eexists|].
      eapply (Hgo BLACK); [by eexists|right; lia|exact Hs].
  - inversion Hl as [|? l2 e2 r2 Hl2 Hr2|? c1 c2 l2 e2 r2 Hl2 Hr2]; subst.
    + destruct (delete_fixup_right_ok n x RED e r2 (FR BLACK l2 e2 :: p)) as (s & Hs);
        eauto with rb; [split; [eauto with rb|done]|].
      eapply (Hgo RED); [|by left|exact Hs]. split; [eauto with rb|done].
    + destruct (delete_fixup_right_ok n x BLACK e (Node BLACK l2 e2 r2) p) as (s & Hs);
        eauto with rb; [by eexists|].
      eapply (Hgo BLACK); [by eexists|right; lia|exact Hs].
  - inversion Hr as [| |? c1 c2 l2 e2 r2 Hl2 Hr2]; subst.
    destruct (delete_fixup_left_ok n x RED e (Node BLACK l2 e2 r2) (g :: p2)) as (s & Hs);
      eauto with rb; [by split|].
    eapply (Hgo RED); [by split|by left|exact Hs].
  - inversion Hl as [| |? c1 c2 l2 e2 r2 Hl2 Hr2]; subst.
    destruct (delete_fixup_right_ok n x RED e (Node BLACK l2 e2 r2) (g :: p2)) as (s & Hs);
      eauto with rb; [by split|].
    eapply (Hgo RED); [by split|by left|exact Hs].
Qed.

(** The loop ends with a red-black tree whenever the fuel is at least the
    depth of [x], and never touches the sentinel. *)
Lemma delete_fixup_balanced fuel n c x p :
  deficit n x -> ctx (S n) c p -> tcolor x = RED \/ (length p <= fuel)%nat ->
  exists t m, rbtree_delete_fixup fuel x p = Some t /\ rbt m BLACK t.
Proof.
  revert n c x p. induction fuel as [|fuel IH]; intros n c x p Hx Hp Hfuel;
    (destruct p as [|f p1]; cbn [rbtree_delete_fixup];
     [destruct Hx as [Hx|[_ Hx]];
      [edestruct rbt_blacken as [m Hm]; [exact Hx|]|]; eauto|]).
  - destruct Hfuel as [Hc|]; [|simpl in *; lia]. rewrite Hc.
    destruct Hx as [Hx|[_ Hx]]; [apply rbt_color in Hx; congruence|].
    edestruct ctx_plug as [m Hm]; [exact Hx|exact Hp|done|done|]. eauto.
  - destruct (tcolor x) eqn:Hc.
    + destruct Hx as [Hx|[_ Hx]]; [apply rbt_color in Hx; congruence|].
      edestruct ctx_plug as [m Hm]; [exact Hx|exact Hp|done|done|]. eauto.
    + destruct Hx as [Hx|[Hx _]]; [|congruence].
      destruct (delete_fixup_step_ok n c x f p1 Hx Hp) as ([t|[x' p']] & -> & Hs).
      * destruct Hs as [m Hm]. eauto.
      * destruct Hs as (n' & c' & Hp' & Hx' & Hlen). eapply IH; [done|done|].
        destruct Hfuel as [|Hfuel]; [congruence|].
        destruct Hlen as [|Hlen]; [by left|right; simpl in *; lia].
Qed.

(** A pointer into a red-black tree: a well-formed subtree in a context of
    its height. *)
Definition at_ptr (t : tree) (p : path) : Prop :=
  exists n c pc, rbt n c t /\ ctx n pc p /\ (pc = RED -> c = BLACK) /\ (p = [] -> c = BLACK).

Lemma at_ptr_root n t : rbt n BLACK t -> at_ptr t [].
Proof. intros. exists n, BLACK, BLACK. eauto with rb. Qed.

Lemma at_ptr_plug t p : at_ptr t p -> exists m, rbt m BLACK (plug t p).
Proof. intros (n & c & pc & Ht & Hp & Hpc & Hroot). by eapply ctx_plug. Qed.

Lemma at_ptr_children c l e r p e' :
  at_ptr (Node c l e r) p -> at_ptr l (FL c e' r :: p) /\ at_ptr r (FR c l e' :: p).
Proof.
  intros (n & c0 & pc & Ht & Hp & Hpc & Hroot).
  inversion Ht as [|? ? ? ? Hl Hr|? cl cr ? ? ? Hl Hr]; subst.
  - destruct pc; [by specialize (Hpc eq_refl)|].
    destruct p as [|f p]; [by specialize (Hroot eq_refl)|].
    split; exists n, BLACK, RED; eauto 6 with rb.
  - split; [exists n0, cl, BLACK|exists n0, cr, BLACK]; split_and!; eauto with rb; done.
Qed.

(** Unlinking a node with no left child: [x], its right child, in its place. *)
Definition unlinked (yc : color) (x : tree) (p : path) : Prop :=
  exists cx, rbt 0 cx x /\ (yc = RED -> cx = BLACK) /\
    match yc with RED => ctx 0 BLACK p /\ p <> [] | BLACK => exists c, ctx 1 c p end.

Lemma at_ptr_unlink_l yc e x p : at_ptr (Node yc Nil e x) p -> unlinked yc x p.
Proof.
  intros (n & c0 & pc & Ht & Hp & Hpc & Hroot).
  inversion Ht as [|? ? ? ? Hl Hr|? cl cr ? ? ? Hl Hr]; subst; inversion Hl; subst.
  - exists BLACK. split_and!; try done; [by destruct pc; [specialize (Hpc eq_refl)|]|].
    intros ->. by specialize (Hroot eq_refl).
  - exists cr. split_and!; try done. eauto.
Qed.

Lemma at_ptr_unlink_r yc e x p : at_ptr (Node yc x e Nil) p -> unlinked yc x p.
Proof.
  intros (n & c0 & pc & Ht & Hp & Hpc & Hroot).
  inversion Ht as [|? ? ? ? Hl Hr|? cl cr ? ? ? Hl Hr]; subst; inversion Hr; subst.
  - exists BLACK. split_and!; try done; [by destruct pc; [specialize (Hpc eq_refl)|]|].
    intros ->. by specialize (Hroot eq_refl).
  - exists cl. split_and!; try done. eauto.
Qed.

Lemma rbtree_mini_app t q1 q2 c e r q :
  rbtree_mini t q1 = Some (c, e, r, q) ->
  exists q', q = q' ++ q1 /\ rbtree_mini t q2 = Some (c, e, r, q' ++ q2).
Proof.
  revert q1 q2. induction t as [|c0 l IHl e0 r0 _]; intros q1 q2; simpl; [done|].
  destruct l as [|lc ll le lr].
  - intros [= <- <- <- <-]. by exists [].
  - intros (q' & -> & Hm)%(IHl _ (FL c0 e0 r0 :: q2)).
    exists (q' ++ [FL c0 e0 r0]). rewrite <- !app_assoc. done.
Qed.

Lemma rbtree_mini_unlinked t p :
  at_ptr t p -> t <> Nil ->
  exists yc ye yr q, rbtree_mini t p = Some (yc, ye, yr, q) /\ unlinked yc yr q.
Proof.
  revert p. induction t as [|c l IHl e r _]; intros p Hat Hne; [done|].
  simpl. destruct l as [|lc ll le lr].
  - eexists _, _, _, _. split; [done|]. by eapply at_ptr_unlink_l.
  - apply IHl; [|done]. by eapply at_ptr_children.
Qed.

Lemma unlinked_finish yc x p :
  unlinked yc x p ->
  exists t m, match yc with RED => Some (plug x p)
              | BLACK => rbtree_delete_fixup (S (length p)) x p end = Some t /\ rbt m BLACK t.
Proof.
  intros (cx & Hx & Hc & Hp). destruct yc.
  - specialize (Hc eq_refl) as ->. destruct Hp as [Hp Hne].
    edestruct ctx_plug as [m Hm]; [exact Hx|exact Hp|done|done|]. eauto.
  - destruct Hp as [c Hp]. eapply delete_fixup_balanced; [|exact Hp|right; lia].
    destruct cx; [right|by left]. inversion Hx; subst. simpl. eauto with rb.
Qed.

(** Deletion at any node of a red-black tree gives a red-black tree. *)
Lemma rbtree_delete_balanced t p :
  at_ptr t p -> t <> Nil -> exists t' m, rbtree_delete t p = Some t' /\ rbt m BLACK t'.
Proof.
  intros Hat Hne. destruct t as [|c zl ze zr]; [done|]. unfold rbtree_delete.
  destruct zl as [|lc ll le lr].
  { apply unlinked_finish. by eapply at_ptr_unlink_l. }
  destruct zr as [|rc rl re rr].
  { apply unlinked_finish. by eapply at_ptr_unlink_r. }
  remember (Node lc ll le lr) as zl. remember (Node rc rl re rr) as zr.
  assert (Hz : zr <> Nil) by by subst.
  destruct (at_ptr_children _ _ _ _ _ ze Hat) as [_ Hr].
  destruct (rbtree_mini_unlinked zr (FR c zl ze :: p)) as (yc & ye & yr & q & Hm & _); [done..|].
  destruct (at_ptr_children _ _ _ _ _ ye Hat) as [_ Hr'].
  destruct (rbtree_mini_unlinked zr (FR c zl ye :: p)) as (yc' & ye' & yr' & q' & Hm' & Hu);
    [done..|].
  pose proof Hm as Hm2.
  apply (rbtree_mini_app _ _ []) in Hm as (q0 & -> & Hm). rewrite app_nil_r in Hm.
  apply (rbtree_mini_app _ _ (FR c zl ye :: p)) in Hm2 as (q1 & Hq & Hm2).
  apply app_inv_tail in Hq as <-. rewrite Hm' in Hm2. injection Hm2 as -> -> -> ->.
  rewrite Hm. by apply unlinked_finish.
Qed.

(** ** Search in an ordered tree *)

Definition key_lt (a b : rbent) : Prop := blt (re_key a) (re_key b).

Definition ordered (t : tree) : Prop := StronglySorted key_lt (elems t).

Definition all_lt (l : list rbent) (k : bytes) : Prop := Forall (fun e => blt (re_key e) k) l.
Definition all_gt (l : list rbent) (k : bytes) : Prop := Forall (fun e => blt k (re_key e)) l.

Definition ent_pair (e : rbent) : bytes * (bytes * Z) := (re_key e, (re_val e, re_expire e)).
Definition ent_pairs (l : list rbent) : list (bytes * (bytes * Z)) := ent_pair <$> l.

Lemma ordered_mid l1 e l2 :
  StronglySorted key_lt (l1 ++ e :: l2) <->
  StronglySorted key_lt l1 /\ StronglySorted key_lt l2 /\
  all_lt l1 (re_key e) /\ all_gt l2 (re_key e) /\
  (forall a b, a ∈ l1 -> b ∈ l2 -> key_lt a b).
Proof.
  unfold all_lt, all_gt. rewrite StronglySorted_app, StronglySorted_cons, !Forall_forall.
  split.
  - intros (Hx & H1 & H3 & H2). split_and!; try done.
    + intros x Hin. apply Hx; [done|by left].
    + intros a b Ha Hb. apply Hx; [done|by right].
  - intros (H1 & H2 & H3 & H4 & H5). split_and!; try done.
    intros a b Ha Hb. apply elem_of_cons in Hb as [->|Hb]; [by apply H3|by apply H5].
Qed.

Lemma all_lt_not_in l k : all_lt l k -> k ∉ (ent_pairs l).*1.
Proof.
  unfold all_lt, ent_pairs. rewrite Forall_forall. intros Hl Hin.
  rewrite <- list_fmap_compose in Hin. apply list_elem_of_fmap in Hin as (e & -> & He).
  specialize (Hl e He). simpl in Hl. by apply (irreflexivity blt) in Hl.
Qed.

Lemma all_gt_not_in l k : all_gt l k -> k ∉ (ent_pairs l).*1.
Proof.
  unfold all_gt, ent_pairs. rewrite Forall_forall. intros Hl Hin.
  rewrite <- list_fmap_compose in Hin. apply list_elem_of_fmap in Hin as (e & -> & He).
  specialize (Hl e He). simpl in Hl. by apply (irreflexivity blt) in Hl.
Qed.

Lemma all_lt_trans l k k' : all_lt l k -> blt k k' -> all_lt l k'.
Proof. intros Hl Hk. eapply Forall_impl; [exact Hl|]. intros e He. simpl in *. by etrans. Qed.

Lemma all_gt_trans l k k' : all_gt l k -> blt k' k -> all_gt l k'.
Proof. intros Hl Hk. eapply Forall_impl; [exact Hl|]. intros e He. simpl in *. by etrans. Qed.

(** The position [rbtree_find_parent] stops at: the tree around it is the one
    it started from, the key is greater than everything to the left of the
    position and smaller than everything to the right, and the node there, if
    any, has the key. *)
Record found_at (t : tree) (p : path) (key : bytes) (t' : tree) (p' : path) : Prop := {
  fa_plug : plug t' p' = plug t p;
  fa_ptr : at_ptr t p -> at_ptr t' p';
  fa_left : all_lt (pleft p') key;
  fa_right : all_gt (pright p') key;
  fa_node : match t' with Nil => True | Node _ l e r =>
              re_key e = key /\ all_lt (elems l) key /\ all_gt (elems r) key end
}.

Lemma find_parent_spec t key p :
  ordered t -> all_lt (pleft p) key -> all_gt (pright p) key ->
  found_at t p key (rbtree_find_parent t key p).1 (rbtree_find_parent t key p).2.
Proof.
  revert p. induction t as [|c l IHl e r IHr]; intros p Ho Hlt Hgt; simpl; [done|].
  unfold ordered in Ho. simpl in Ho. apply ordered_mid in Ho as (Hol & Hor & Hl & Hr & _).
  destruct (bytes_cmpP key (re_key e)) as [z Hz Hb|Heq|z Hz Hb].
  - destruct (Z.ltb_spec z 0); [|lia].
    destruct (IHl (FL c e r :: p)) as [H1 H2 H3 H4 H5]; [done|done| |].
    { simpl. constructor; [done|]. apply Forall_app. split; [|done].
      by eapply all_gt_trans. }
    split; try done. intros Hat. apply H2. by eapply at_ptr_children.
  - simpl. split; try done. by subst.
  - destruct (Z.ltb_spec z 0); [lia|]. destruct (Z.ltb_spec 0 z); [|lia].
    destruct (IHr (FR c l e :: p)) as [H1 H2 H3 H4 H5]; [done| |done|].
    { simpl. apply Forall_app. split; [done|]. apply Forall_app.
      split; [by eapply all_lt_trans|]. by repeat constructor. }
    split; try done. intros Hat. apply H2. by eapply at_ptr_children.
Qed.

(** [rbtree_search] stops where [rbtree_find_parent] does. *)
Lemma rbtree_search_find t key p :
  rbtree_search t key =
  match (rbtree_find_parent t key p).1 with Node _ _ e _ => Some e | Nil => None end.
Proof.
  revert p. induction t as [|c l IHl e r IHr]; intros p; simpl; [done|].
  destruct (_ <? 0); [apply IHl|]. by destruct (0 <? _); [apply IHr|].
Qed.

(** ** The engine *)

(** [RbCorrupt]: the code has written through its sentinel. *)
Inductive kvs_rbtree :=
| RbOk (t : tree)
| RbCorrupt.

(** sizeof(rbtree_node_binary_t) *)
Definition sizeof_rbtree_node : Z := 88.

Definition kvs_rbtree_create (e : cenv) : option kvs_rbtree * Z :=
  if alloc_ok e 0 sizeof_rbtree_node then (Some (RbOk Nil), 0) else (None, -1).

Definition rbtree_node_create (e : cenv) (key value : kv_data) (expire_time : Z)
  : option rbent :=
  if alloc_ok e 0 (u64 (sizeof_rbtree_node + kd_len key + kd_len value)) then
    Some (RbEnt (kd_bytes key) (kd_bytes value) expire_time)
  else None.

(** A new node hung under the position [p], and the repair. *)
Definition rb_link (n : rbent) (p : path) : kvs_rbtree :=
  match rbtree_insert_fixup (Node RED Nil n Nil) p with
  | Some t => RbOk t
  | None => RbCorrupt
  end.

Definition kvs_rbtree_set (e : cenv) (inst : kvs_rbtree) (key value : kv_data)
  (expire_time : Z) : kvs_rbtree * Z :=
  match inst with
  | RbCorrupt => (RbCorrupt, 0)
  | RbOk root =>
    match rbtree_find_parent root (kd_bytes key) [] with
    | (Node c l ex r, p) =>
      if kd_len value <=? Z.of_nat (length (re_val ex)) then
        (RbOk (plug (Node c l (RbEnt (re_key ex) (kd_bytes value) expire_time) r) p), 0)
      else
        match rbtree_delete (Node c l ex r) p with
        | None => (RbCorrupt, 0)
        | Some root =>
          match rbtree_node_create e key value expire_time with
          | None => (RbOk root, -1)
          | Some new_node =>
            match rbtree_find_parent root (kd_bytes key) [] with
            | (Node _ _ _ _, _) => (RbOk root, -1)
            | (Nil, p) => (rb_link new_node p, 0)
            end
          end
        end
    | (Nil, p) =>
      match rbtree_node_create e key value expire_time with
      | None => (RbOk root, -1)
      | Some node => (rb_link node p, 0)
      end
    end
  end.

Definition kvs_rbtree_del (e : cenv) (inst : kvs_rbtree) (key : kv_data) : kvs_rbtree * Z :=
  match inst with
  | RbCorrupt => (RbCorrupt, 0)
  | RbOk root =>
    match rbtree_find_parent root (kd_bytes key) [] with
    | (Nil, _) => (inst, 1)
    | (t, p) =>
      match rbtree_delete t p with
      | Some root => (RbOk root, 0)
      | None => (RbCorrupt, 0)
      end
    end
  end.

Definition rb_lookup (inst : kvs_rbtree) (key : kv_data) : option rbent :=
  match inst with
  | RbCorrupt => None
  | RbOk root => rbtree_search root (kd_bytes key)
  end.

Definition kvs_rbtree_get (e : cenv) (inst : kvs_rbtree) (key : kv_data)
  : kvs_rbtree * option kv_data :=
  match rb_lookup inst key with
  | None => (inst, None)
  | Some node =>
    if is_expired e (re_expire node) then ((kvs_rbtree_del e inst key).1, None)
    else (inst, Some (kd_of (re_val node)))
  end.

Definition kvs_rbtree_del_if_expired (e : cenv) (inst : kvs_rbtree) (key : kv_data)
  (expected_expire : Z) : kvs_rbtree * Z :=
  match rb_lookup inst key with
  | None => (inst, 0)
  | Some node =>
    if negb (re_expire node =? expected_expire) then (inst, 0)
    else ((kvs_rbtree_del e inst key).1, 1)
  end.

Definition kvs_rbtree_mod (e : cenv) (inst : kvs_rbtree) (key value : kv_data)
  (expire_time : Z) : kvs_rbtree * Z :=
  kvs_rbtree_set e inst key value expire_time.

Definition kvs_rbtree_exist (e : cenv) (inst : kvs_rbtree) (key : kv_data)
  : kvs_rbtree * Z :=
  let '(inst', res) := kvs_rbtree_get e inst key in
  (inst', match res with None => 1 | Some _ => 0 end).

Fixpoint rbtree_foreach_node (now : Z) (check_expire : bool) (node : tree)
  : list (bytes * (bytes * Z)) :=
  match node with
  | Nil => []
  | Node _ l e r =>
    rbtree_foreach_node now check_expire l ++
    (if check_expire && (0 <? re_expire e) && (re_expire e <? now) then []
     else [ent_pair e]) ++
    rbtree_foreach_node now check_expire r
  end.

Definition kvs_rbtree_foreach (e : cenv) (inst : kvs_rbtree) : list (bytes * (bytes * Z)) :=
  match inst with
  | RbCorrupt => []
  | RbOk root => rbtree_foreach_node (if ce_ttl e then ce_now e else 0) (ce_ttl e) root
  end.

Definition kvs_rbtree_get_value_len (e : cenv) (inst : kvs_rbtree) (key_ptr : bytes)
  (key_len : Z) : kvs_rbtree * Z :=
  if key_len <=? 0 then (inst, 0)
  else
    let '(inst', res) := kvs_rbtree_get e inst (kd_of (take (Z.to_nat key_len) key_ptr)) in
    (inst', match res with
            | None => 0
            | Some d => if 0x7fffffff <? kd_len d then 0 else kd_len d
            end).

#[export] Instance rbtree_engine : KvEngine kvs_rbtree := {
  eng_set := kvs_rbtree_set;
  eng_get := kvs_rbtree_get;
  eng_del := kvs_rbtree_del;
  eng_mod := kvs_rbtree_mod;
  eng_exist := kvs_rbtree_exist;
  eng_del_if_expired := kvs_rbtree_del_if_expired;
  eng_foreach := kvs_rbtree_foreach
}.

(** ** Correctness *)

Definition rb_tree_ok (t : tree) : Prop := ordered t /\ exists n, rbt n BLACK t.

Definition rb_inv (inst : kvs_rbtree) : Prop :=
  match inst with RbOk t => rb_tree_ok t | RbCorrupt => False end.

Definition tree_abs (t : tree) : kvmap := list_to_map (ent_pairs (elems t)).

Definition rb_abs (inst : kvs_rbtree) : kvmap :=
  match inst with RbOk t => tree_abs t | RbCorrupt => ∅ end.

(** The in-order content split at a key: what is smaller, the entry with the
    key if there is one, what is greater. *)
Record key_split (l : list rbent) (k : bytes) (l1 : list rbent) (o : option rbent)
    (l2 : list rbent) : Prop := {
  ks_eq : l = l1 ++ (match o with Some e => [e] | None => [] end) ++ l2;
  ks_lt : all_lt l1 k;
  ks_gt : all_gt l2 k;
  ks_key : forall e, o = Some e -> re_key e = k
}.

Lemma key_split_lookup l k l1 o l2 :
  key_split l k l1 o l2 ->
  (list_to_map (ent_pairs l) : kvmap) !! k = (fun e => (re_val e, re_expire e)) <$> o.
Proof.
  intros [-> Hl Hg Hk]. unfold ent_pairs. rewrite !fmap_app.
  destruct o as [e|]; simpl.
  - rewrite <- (Hk e eq_refl) in *. apply ltm_lookup_mid. by apply all_lt_not_in.
  - rewrite ltm_lookup_app_None by by apply all_lt_not_in.
    apply not_elem_of_list_to_map_1. by apply all_gt_not_in.
Qed.

Lemma key_split_insert l k l1 o l2 e :
  key_split l k l1 o l2 -> re_key e = k ->
  (list_to_map (ent_pairs (l1 ++ e :: l2)) : kvmap)
  = <[k := (re_val e, re_expire e)]> (list_to_map (ent_pairs l)).
Proof.
  intros [-> Hl Hg Hk] He. unfold ent_pairs. rewrite !fmap_app. simpl. unfold ent_pair at 2.
  rewrite He, ltm_insert_mid by by apply all_lt_not_in.
  destruct o as [e'|]; simpl; [|done].
  unfold ent_pair at 4. rewrite (Hk e' eq_refl).
  rewrite (ltm_insert_mid _ _ k) by by apply all_lt_not_in. by rewrite insert_insert_eq.
Qed.

Lemma key_split_delete l k l1 o l2 :
  key_split l k l1 o l2 ->
  (list_to_map (ent_pairs (l1 ++ l2)) : kvmap) = delete k (list_to_map (ent_pairs l)).
Proof.
  intros Hs. pose proof (key_split_lookup _ _ _ _ _ Hs) as Hlk.
  destruct Hs as [-> Hl Hg Hk]. destruct o as [e|]; simpl in *.
  - unfold ent_pairs. rewrite !fmap_app. simpl. unfold ent_pair at 4.
    rewrite (Hk e eq_refl).
    apply ltm_delete_mid; [by apply all_lt_not_in|by apply all_gt_not_in].
  - by rewrite delete_id.
Qed.

Lemma key_split_ordered l k l1 o l2 e :
  StronglySorted key_lt l -> key_split l k l1 o l2 -> re_key e = k ->
  StronglySorted key_lt (l1 ++ e :: l2) /\ StronglySorted key_lt (l1 ++ l2).
Proof.
  intros Hs [-> Hl Hg Hk] He.
  apply StronglySorted_app in Hs as (Hx & H1 & H2).
  apply StronglySorted_app in H2 as (_ & _ & H2).
  assert (Hcross : forall a b, a ∈ l1 -> b ∈ l2 -> key_lt a b).
  { intros a b Ha Hb. apply Hx; [done|]. apply elem_of_app. by right. }
  split.
  - apply ordered_mid. rewrite He. done.
  - by apply StronglySorted_app.
Qed.

(** Where the operations stop on a well-formed tree. *)
Lemma rb_position root k :
  rb_tree_ok root ->
  let '(t, p) := rbtree_find_parent root k [] in
  at_ptr t p /\
  match t with
  | Nil => key_split (elems root) k (pleft p) None (pright p)
  | Node c l e r =>
    key_split (elems root) k (pleft p ++ elems l) (Some e) (elems r ++ pright p)
  end.
Proof.
  intros [Ho [n Hn]].
  destruct (find_parent_spec root k []) as [H1 H2 H3 H4 H5]; [done|constructor..|].
  destruct (rbtree_find_parent root k []) as [t p]. simpl in *.
  split. { eapply H2, at_ptr_root. done. }
  apply (f_equal elems) in H1. simpl in H1. rewrite elems_plug in H1.
  destruct t as [|c l e r]; simpl in *.
  - by split.
  - destruct H5 as (Hk & Hl & Hr). split.
    + rewrite <- H1. by app_norm.
    + by apply Forall_app.
    + by apply Forall_app.
    + by intros ? [= <-].
Qed.

Lemma rb_link_ok root k p n :
  StronglySorted key_lt (elems root) ->
  at_ptr Nil p -> key_split (elems root) k (pleft p) None (pright p) -> re_key n = k ->
  rb_inv (rb_link n p) /\
  rb_abs (rb_link n p) = <[k := (re_val n, re_expire n)]> (tree_abs root).
Proof.
  intros Ho (m & c & pc & Hnil & Hp & _ & _) Hs Hk. inversion Hnil; subst m c.
  destruct (insert_fixup_balanced 0 pc (Node RED Nil n Nil) p) as (t & m & Ht & Hrb);
    [eauto with rb|done|].
  unfold rb_link. rewrite Ht. apply insert_fixup_elems in Ht. simpl in Ht. split.
  - split; [|eauto]. unfold ordered. rewrite Ht.
    exact (proj1 (key_split_ordered _ _ _ _ _ n Ho Hs Hk)).
  - simpl. unfold tree_abs. rewrite Ht. by eapply key_split_insert.
Qed.

Lemma rb_remove_ok root k c l e r p :
  rb_tree_ok root -> at_ptr (Node c l e r) p ->
  key_split (elems root) k (pleft p ++ elems l) (Some e) (elems r ++ pright p) ->
  exists t, rbtree_delete (Node c l e r) p = Some t /\ rb_tree_ok t /\
    tree_abs t = delete k (tree_abs root).
Proof.
  intros [Ho _] Hat Hs.
  destruct (rbtree_delete_balanced (Node c l e r) p) as (t & m & Ht & Hrb); [done|done|].
  exists t. split; [done|]. apply rbtree_delete_elems in Ht.
  assert (Ht' : elems t = (pleft p ++ elems l) ++ (elems r ++ pright p))
    by (rewrite Ht; by app_norm).
  split; [split; [|eauto]|].
  - unfold ordered. rewrite Ht'. eapply key_split_ordered; [exact Ho|exact Hs|].
    by eapply ks_key.
  - unfold tree_abs. rewrite Ht'. by eapply key_split_delete.
Qed.

(** Overwriting the value of a node in place. *)
Lemma rb_overwrite_ok root k c l e r p e' :
  rb_tree_ok root -> at_ptr (Node c l e r) p ->
  key_split (elems root) k (pleft p ++ elems l) (Some e) (elems r ++ pright p) ->
  re_key e' = k ->
  rb_tree_ok (plug (Node c l e' r) p) /\
  tree_abs (plug (Node c l e' r) p) = <[k := (re_val e', re_expire e')]> (tree_abs root).
Proof.
  intros [Ho _] Hat Hs Hk.
  assert (He : elems (plug (Node c l e' r) p)
    = (pleft p ++ elems l) ++ e' :: (elems r ++ pright p))
    by (rewrite elems_plug; by app_norm).
  split; [split|].
  - unfold ordered. rewrite He. exact (proj1 (key_split_ordered _ _ _ _ _ e' Ho Hs Hk)).
  - apply at_ptr_plug. destruct Hat as (n & c' & pc & Hn & Hp & Hr & Hc).
    exists n, c', pc. (split; [|done]). inversion Hn; subst; [by apply rbt_red|by eapply rbt_black].
  - unfold tree_abs. rewrite He. by eapply key_split_insert.
Qed.

Lemma rbtree_node_create_ok e k v x :
  mem_ok e -> Z.of_nat (length k) < 2 ^ 31 -> kd_len v < 2 ^ 31 ->
  rbtree_node_create e (kd_of k) v x = Some (RbEnt k (kd_bytes v) x).
Proof.
  unfold kd_len. intros Hm Hk Hv. unfold rbtree_node_create, alloc_ok, sizeof_rbtree_node.
  rewrite Hm. change (kd_len (kd_of k)) with (Z.of_nat (length k)). unfold kd_len.
  rewrite u64_small by lia. destruct (Z.eqb_spec (88 + Z.of_nat (length k) + Z.of_nat (length (kd_bytes v))) 0); [lia|done].
Qed.

Lemma rbtree_node_create_Some e k v x n :
  rbtree_node_create e (kd_of k) v x = Some n -> n = RbEnt k (kd_bytes v) x.
Proof. unfold rbtree_node_create. destruct alloc_ok; [|done]. by intros [= <-]. Qed.

(** What [set] can do: store the entry, or fail for lack of memory having at
    most dropped the old entry of the same key. *)
Inductive rb_set_result (e : cenv) (m : kvmap) (k : bytes) (v : kv_data) (x : Z)
  : kvs_rbtree * Z -> Prop :=
| rb_set_stored s :
  rb_inv s -> rb_abs s = <[k := (kd_bytes v, x)]> m -> rb_set_result e m k v x (s, 0)
| rb_set_failed s :
  rbtree_node_create e (kd_of k) v x = None ->
  rb_inv s -> (rb_abs s = m \/ rb_abs s = delete k m) -> rb_set_result e m k v x (s, -1).

Lemma rb_set_cases e root k v x :
  rb_tree_ok root ->
  rb_set_result e (tree_abs root) k v x (kvs_rbtree_set e (RbOk root) (kd_of k) v x).
Proof.
  intros Hok. unfold kvs_rbtree_set. change (kd_bytes (kd_of k)) with k.
  pose proof (rb_position root k Hok) as Hpos.
  destruct (rbtree_find_parent root k []) as [[|c l ex r] p]; destruct Hpos as [Hat Hs].
  - destruct (rbtree_node_create e (kd_of k) v x) as [n|] eqn:En.
    + apply rbtree_node_create_Some in En as ->.
      destruct (rb_link_ok root k p (RbEnt k (kd_bytes v) x)) as [Hi Ha]; [apply Hok|done..|].
      by constructor.
    + constructor; [done..|by left].
  - destruct (kd_len v <=? Z.of_nat (length (re_val ex))).
    + destruct (rb_overwrite_ok root k c l ex r p (RbEnt (re_key ex) (kd_bytes v) x))
        as [Hi Ha]; [done..|exact (ks_key _ _ _ _ _ Hs ex eq_refl)|]. by constructor.
    + destruct (rb_remove_ok root k c l ex r p) as (root' & -> & Hok' & Ha'); [done..|].
      destruct (rbtree_node_create e (kd_of k) v x) as [n|] eqn:En;
        [|constructor; [done..|by right]].
      apply rbtree_node_create_Some in En as ->.
      pose proof (rb_position root' k Hok') as Hpos.
      destruct (rbtree_find_parent root' k []) as [[|c' l' ex' r'] p']; destruct Hpos as [Hat' Hs'].
      * destruct (rb_link_ok root' k p' (RbEnt k (kd_bytes v) x)) as [Hi Ha]; [apply Hok'|done..|].
        constructor; [done|]. rewrite Ha, Ha'. apply insert_delete_eq.
      * apply key_split_lookup in Hs'. fold (tree_abs root') in Hs'.
        by rewrite Ha', lookup_delete_eq in Hs'.
Qed.

#[local] Arguments rbtree_delete : simpl never.
#[local] Arguments kvs_rbtree_del : simpl never.
#[local] Arguments kvs_rbtree_set : simpl never.

Lemma rb_del_cases e root k :
  rb_tree_ok root ->
  rb_inv (kvs_rbtree_del e (RbOk root) (kd_of k)).1 /\
  rb_abs (kvs_rbtree_del e (RbOk root) (kd_of k)).1 = delete k (tree_abs root) /\
  (kvs_rbtree_del e (RbOk root) (kd_of k)).2
    = (match tree_abs root !! k with Some _ => 0 | None => 1 end).
Proof.
  intros Hok. unfold kvs_rbtree_del. change (kd_bytes (kd_of k)) with k.
  pose proof (rb_position root k Hok) as Hpos.
  destruct (rbtree_find_parent root k []) as [[|c l ex r] p]; destruct Hpos as [Hat Hs];
    pose proof (key_split_lookup _ _ _ _ _ Hs) as Hlk; fold (tree_abs root) in Hlk;
    rewrite Hlk; simpl.
  - by rewrite delete_id.
  - by destruct (rb_remove_ok root k c l ex r p) as (root' & -> & Hok' & Ha').
Qed.

Lemma rb_lookup_spec root k :
  rb_tree_ok root ->
  tree_abs root !! k = (fun e => (re_val e, re_expire e)) <$> rb_lookup (RbOk root) (kd_of k).
Proof.
  intros Hok. simpl. change (kd_bytes (kd_of k)) with k. rewrite (rbtree_search_find root k []).
  pose proof (rb_position root k Hok) as Hpos.
  destruct (rbtree_find_parent root k []) as [[|c l ex r] p]; destruct Hpos as [_ Hs];
    by apply key_split_lookup in Hs.
Qed.

Lemma rb_foreach_elems e t :
  ce_ttl e = true ->
  kvs_rbtree_foreach e (RbOk t) =
  filter (fun kv => is_expired e kv.2.2 = false) (ent_pairs (elems t)).
Proof.
  intros Ht. simpl. rewrite Ht. induction t as [|c l IHl n r IHr]; simpl; [done|].
  unfold ent_pairs in *. rewrite !fmap_app, !filter_app. simpl.
  rewrite filter_cons. simpl. rewrite IHl, IHr.
  unfold is_expired. rewrite Ht. simpl.
  by destruct (_ && _).
Qed.

Lemma ordered_nodup t : ordered t -> NoDup (ent_pairs (elems t)).*1.
Proof.
  unfold ordered. induction (elems t) as [|e l IH]; simpl; [constructor|].
  intros [Hl Hf]%StronglySorted_cons. constructor; [|by apply IH].
  by apply all_gt_not_in.
Qed.

#[export] Program Instance rbtree_laws : KvEngineLaws kvs_rbtree := {
  eng_inv := rb_inv;
  eng_abs := rb_abs;
  eng_key _ := True;
  eng_room _ _ := True
}.
Next Obligation. intros e [t|] k v x Hi _; [|done]. simpl. by destruct (rb_set_cases e t k v x Hi). Qed.
Next Obligation.
  intros e [t|] k v x Hi _ H0; [|done]. simpl in *. by destruct (rb_set_cases e t k v x Hi).
Qed.
Next Obligation.
  intros e [t|] k v x Hi _; [|done].
  simpl. destruct (rb_set_cases e t k v x Hi) as [s _ Hs|s _ _ [Hs|Hs]]; simpl; rewrite Hs;
    by rewrite ?delete_insert_eq, ?delete_delete_eq by done.
Qed.
Next Obligation.
  intros e [t|] k v x Hi _ Hm _ Hk Hv; [|done]. simpl.
  destruct (rb_set_cases e t k v x Hi) as [s _ Hs|s Hn]; [done|].
  by rewrite rbtree_node_create_ok in Hn.
Qed.
Next Obligation.
  intros e [t|] k Hi _; [|done]. simpl. unfold kvs_rbtree_get.
  destruct (rb_lookup _ _) as [n|]; [|done]. destruct is_expired; [|done].
  by apply rb_del_cases.
Qed.
Next Obligation.
  intros e [t|] k Hi _; [|done]. simpl rb_abs. rewrite (rb_lookup_spec t k Hi).
  simpl eng_get. unfold kvs_rbtree_get.
  destruct (rb_lookup _ _) as [n|]; [|done]. cbn [fmap option_fmap option_map].
  destruct is_expired; simpl.
  - split; [done|]. by apply rb_del_cases.
  - eauto.
Qed.
Next Obligation. intros e [t|] k Hi _; [|done]. by apply rb_del_cases. Qed.
Next Obligation. intros e [t|] k Hi _; [|done]. split; by apply rb_del_cases. Qed.
Next Obligation. done. Qed.
Next Obligation.
  intros e s k _ _. simpl. unfold kvs_rbtree_exist.
  by destruct (kvs_rbtree_get e s (kd_of k)) as [s' [d|]].
Qed.
Next Obligation.
  intros e [t|] k x Hi _; [|done]. simpl rb_abs. rewrite (rb_lookup_spec t k Hi).
  simpl eng_del_if_expired. unfold kvs_rbtree_del_if_expired.
  destruct (rb_lookup _ _) as [n|]; [|done]. cbn [fmap option_fmap option_map].
  by destruct (Z.eqb_spec (re_expire n) x); case_bool_decide.
Qed.
Next Obligation.
  intros e [t|] Hi Ht; [|done]. cbn [eng_foreach rbtree_engine]. rewrite rb_foreach_elems by done.
  by apply filter_map_to_list, ordered_nodup, Hi.
Qed.

Lemma kvs_rbtree_create_ok e :
  mem_ok e ->
  exists s, kvs_rbtree_create e = (Some s, 0) /\ rb_inv s /\ rb_abs s = ∅.
Proof.
  intros Hm. unfold kvs_rbtree_create, alloc_ok. rewrite Hm. simpl.
  eexists; split_and!; [done| |done]. split; [constructor|]. exists 0%nat. constructor.
Qed.
