(* ===== verification/SkipList.v ===== *)
(** * The skip list engine (kvs_skiptable.c)

    The nodes live in a heap, a finite map from addresses to nodes, and point
    to each other through their [forward] arrays, as in the code.  The file
    models the search that records the update path, the operations built on it
    and the sorted-set commands that store ["timestamp:id"] keys in the same
    list, proves that on a well-formed list no access leaves a node and every
    loop ends, and proves the engine contract. *)

From S2P Require Import Prelude KvData Engine.

Open Scope Z_scope.

Definition MAX_LEVEL : nat := 12.

(** An address. *)
Abbreviation loc := nat.

(** [skipnode_binary_t]; the field [level] is the length of [forward] less
    one. *)
Record skipnode := SkipNode {
  sn_key : bytes;
  sn_value : bytes;
  sn_expire : Z;
  sn_forward : list (option loc)
}.

Abbreviation heap := (gmap loc skipnode).

(** [kvs_skip_t]: the current level, the header node and the number of nodes,
    together with the heap, the next address the allocator gives and the
    generator's seed. *)
Record skiplist := SkipL {
  sk_level : nat;
  sk_header : loc;
  sk_count : Z;
  sk_heap : heap;
  sk_next : loc;
  sk_seed : Z
}.

(** [SkCorrupt]: an access went outside a node, or a loop does not end. *)
Inductive kvs_skip :=
| SkOk (s : skiplist)
| SkCorrupt.

Definition kv_data_compare_safe (a : bytes) (b : kv_data) : Z :=
  match kd_data b with
  | None => 1
  | Some l => bytes_cmp a l
  end.

(** ** The level of a new node *)

Definition xorshift32 (x : Z) : Z :=
  let x := Z.lxor x (u32 (Z.shiftl x 13)) in
  let x := Z.lxor x (Z.shiftr x 17) in
  Z.lxor x (u32 (Z.shiftl x 5)).

(** The [while] loop of [random_level]; [room] is [MAX_LEVEL - level]. *)
Fixpoint random_level_loop (room : nat) (seed : Z) (level : nat) : nat * Z :=
  let seed := xorshift32 seed in
  if Z.land seed 0xFFFF <? Z.shiftr 0xFFFF 2 then
    match room with
    | O => (level, seed)
    | S room => random_level_loop room seed (S level)
    end
  else (level, seed).

Definition random_level (e : cenv) (seed : Z) : nat * Z :=
  let seed := if seed =? 0 then u32 (ce_seed e) else seed in
  random_level_loop MAX_LEVEL seed 0.

(** ** Nodes *)

(** sizeof(skipnode_binary_t) *)
Definition sizeof_skipnode : Z := 64.

Definition skipnode_create (e : cenv) (level : nat) (key value : kv_data)
  (expire_time : Z) : option skipnode :=
  let total := u64 (sizeof_skipnode + 8 * (Z.of_nat level + 1) + kd_len key + kd_len value) in
  if alloc_ok e 0 total then
    Some (SkipNode (kd_bytes key) (kd_bytes value) expire_time (replicate (S level) None))
  else None.

(** [p->forward[i]] *)
Definition fwd (h : heap) (p : loc) (i : nat) : option (option loc) :=
  n ← h !! p; sn_forward n !! i.

Definition with_forward (i : nat) (v : option loc) (n : skipnode) : skipnode :=
  SkipNode (sn_key n) (sn_value n) (sn_expire n) (<[i := v]> (sn_forward n)).

(** [p->forward[i] = v] *)
Definition set_fwd (h : heap) (p : loc) (i : nat) (v : option loc) : option heap :=
  _ ← fwd h p i; Some (alter (with_forward i v) p h).

Definition kvs_skip_create (e : cenv) (seed : Z) : option kvs_skip * Z :=
  match skipnode_create e MAX_LEVEL kd_null kd_null 0 with
  | None => (None, -1)
  | Some hd => (Some (SkOk (SkipL 0 0 0 {[ 0%nat := hd ]} 1 seed)), 0)
  end.

(** ** Search *)

(** The [while] of [skip_find_update] at level [i]. *)
Fixpoint skip_walk (fuel : nat) (h : heap) (i : nat) (key : kv_data) (current : loc)
  : option loc :=
  match fuel with
  | O => None
  | S fuel =>
    nx ← fwd h current i;
    match nx with
    | None => Some current
    | Some n =>
      nd ← h !! n;
      if kv_data_compare_safe (sn_key nd) key <? 0 then skip_walk fuel h i key n
      else Some current
    end
  end.

(** The [for] over the levels [i] to 0: [update[0..i]] and the last
    [current]. *)
Fixpoint skip_find_levels (h : heap) (key : kv_data) (i : nat) (current : loc)
  : option (list loc * loc) :=
  current ← skip_walk (size h) h i key current;
  match i with
  | O => Some ([current], current)
  | S i' =>
    r ← skip_find_levels h key i' current;
    Some (r.1 ++ [current], r.2)
  end.

Definition skip_find_update (s : skiplist) (key : kv_data)
  : option (list loc * option (loc * skipnode)) :=
  r ← skip_find_levels (sk_heap s) key (sk_level s) (sk_header s);
  let '(update, current) := r in
  nx ← fwd (sk_heap s) current 0;
  match nx with
  | None => Some (update, None)
  | Some n =>
    nd ← sk_heap s !! n;
    Some (update, if kv_data_compare_safe (sn_key nd) key =? 0 then Some (n, nd) else None)
  end.

(** ** Linking and unlinking *)

(** [for (i...) if (update[i]->forward[i] == node) update[i]->forward[i] =
    node->forward[i]], over [update[i..]]. *)
Fixpoint skip_unlink (h : heap) (node : loc) (update : list loc) (i : nat) : option heap :=
  match update with
  | [] => Some h
  | u :: us =>
    f ← fwd h u i;
    h' ← (if bool_decide (f = Some node)
          then nf ← fwd h node i; set_fwd h u i nf
          else Some h);
    skip_unlink h' node us (S i)
  end.

Fixpoint skip_link (h : heap) (node : loc) (update : list loc) (i : nat) : option heap :=
  match update with
  | [] => Some h
  | u :: us =>
    f ← fwd h u i;
    h1 ← set_fwd h node i f;
    h2 ← set_fwd h1 u i (Some node);
    skip_link h2 node us (S i)
  end.

(** [while (level > 0 && header->forward[level] == NULL) level--] *)
Fixpoint skip_shrink (h : heap) (header : loc) (level : nat) : option nat :=
  match level with
  | O => Some O
  | S l =>
    f ← fwd h header level;
    match f with
    | None => skip_shrink h header l
    | Some _ => Some level
    end
  end.

(** The body of [handle_expired_node] and of [kvs_skip_del] once the node is
    found. *)
Definition skip_remove (s : skiplist) (node : loc) (update : list loc) : option skiplist :=
  h ← skip_unlink (sk_heap s) node (take (S (sk_level s)) update) 0;
  let h := delete node h in
  level ← skip_shrink h (sk_header s) (sk_level s);
  Some (SkipL level (sk_header s) (i32 (sk_count s - 1)) h (sk_next s) (sk_seed s)).

Definition handle_expired_node (s : skiplist) (node : loc) (nd : skipnode)
  (update : list loc) (now : Z) : option (skiplist * Z) :=
  if sn_expire nd <=? 0 then Some (s, 0)
  else if now <=? sn_expire nd then Some (s, 0)
  else s' ← skip_remove s node update; Some (s', 1).

(** ** Operations *)

Definition skip_del (s : skiplist) (key : kv_data) : option (skiplist * Z) :=
  r ← skip_find_update s key;
  match r with
  | (_, None) => Some (s, 1)
  | (update, Some (current, _)) => s' ← skip_remove s current update; Some (s', 0)
  end.

(** The insertion of a new node at the recorded position. *)
Definition skip_insert (e : cenv) (s : skiplist) (update : list loc) (key value : kv_data)
  (expire_time : Z) : option (skiplist * Z) :=
  let '(level, seed) := random_level e (sk_seed s) in
  let update := update ++ replicate (level - sk_level s) (sk_header s) in
  let lv := Nat.max level (sk_level s) in
  match skipnode_create e level key value expire_time with
  | None => Some (SkipL lv (sk_header s) (sk_count s) (sk_heap s) (sk_next s) seed, -2)
  | Some nd =>
    let new_node := sk_next s in
    h ← skip_link (<[new_node := nd]> (sk_heap s)) new_node (take (S level) update) 0;
    Some (SkipL lv (sk_header s) (i32 (sk_count s + 1)) h (S new_node) seed, 0)
  end.

Definition skip_set (e : cenv) (s : skiplist) (key value : kv_data) (expire_time : Z)
  : option (skiplist * Z) :=
  r ← skip_find_update s key;
  match r with
  | (update, None) => skip_insert e s update key value expire_time
  | (update, Some (current, nd)) =>
    if kd_len value <=? Z.of_nat (length (sn_value nd)) then
      let nd' := SkipNode (sn_key nd) (kd_bytes value) expire_time (sn_forward nd) in
      Some (SkipL (sk_level s) (sk_header s) (sk_count s) (<[current := nd']> (sk_heap s))
              (sk_next s) (sk_seed s), 0)
    else
      d ← skip_del s key;
      r ← skip_find_update d.1 key;
      skip_insert e d.1 r.1 key value expire_time
  end.

Definition skip_get (e : cenv) (s : skiplist) (key : kv_data)
  : option (skiplist * option kv_data) :=
  r ← skip_find_update s key;
  match r with
  | (_, None) => Some (s, None)
  | (update, Some (current, nd)) =>
    if is_expired e (sn_expire nd) then
      r ← handle_expired_node s current nd update (ce_now e);
      Some (r.1, None)
    else Some (s, Some (kd_of (sn_value nd)))
  end.

Definition skip_del_if_expired (s : skiplist) (key : kv_data) (expected_expire : Z)
  : option (skiplist * Z) :=
  r ← skip_find_update s key;
  match r with
  | (_, None) => Some (s, 0)
  | (_, Some (_, nd)) =>
    if sn_expire nd =? expected_expire then d ← skip_del s key; Some (d.1, 1)
    else Some (s, 0)
  end.

(** The nodes in the order of level 0. *)
Fixpoint skip_nodes (fuel : nat) (h : heap) (p : loc) : list (loc * skipnode) :=
  match fuel with
  | O => []
  | S fuel =>
    match fwd h p 0 with
    | Some (Some n) =>
      match h !! n with
      | Some nd => (n, nd) :: skip_nodes fuel h n
      | None => []
      end
    | _ => []
    end
  end.

Definition sk_nodes (s : skiplist) : list (loc * skipnode) :=
  skip_nodes (size (sk_heap s)) (sk_heap s) (sk_header s).

Definition node_entry (nd : skipnode) : bytes * (bytes * Z) :=
  (sn_key nd, (sn_value nd, sn_expire nd)).

(** The operations on a list that may already be corrupt. *)
Definition sk_run {A} (inst : kvs_skip) (d : A) (f : skiplist -> option (skiplist * A))
  : kvs_skip * A :=
  match inst with
  | SkCorrupt => (SkCorrupt, d)
  | SkOk s => match f s with
              | Some (s', a) => (SkOk s', a)
              | None => (SkCorrupt, d)
              end
  end.

Definition kvs_skip_set (e : cenv) (inst : kvs_skip) (key value : kv_data)
  (expire_time : Z) : kvs_skip * Z :=
  sk_run inst 0 (fun s => skip_set e s key value expire_time).

Definition kvs_skip_get (e : cenv) (inst : kvs_skip) (key : kv_data)
  : kvs_skip * option kv_data :=
  sk_run inst None (fun s => skip_get e s key).

Definition kvs_skip_del (e : cenv) (inst : kvs_skip) (key : kv_data) : kvs_skip * Z :=
  sk_run inst 0 (fun s => skip_del s key).

Definition kvs_skip_del_if_expired (e : cenv) (inst : kvs_skip) (key : kv_data)
  (expected_expire : Z) : kvs_skip * Z :=
  sk_run inst 0 (fun s => skip_del_if_expired s key expected_expire).

Definition kvs_skip_mod (e : cenv) (inst : kvs_skip) (key value : kv_data)
  (expire_time : Z) : kvs_skip * Z :=
  kvs_skip_set e inst key value expire_time.

Definition kvs_skip_exist (e : cenv) (inst : kvs_skip) (key : kv_data) : kvs_skip * Z :=
  let '(inst', value) := kvs_skip_get e inst key in
  (inst', match value with Some _ => 0 | None => 1 end).

Definition kvs_skip_foreach (e : cenv) (inst : kvs_skip) : list (bytes * (bytes * Z)) :=
  match inst with
  | SkCorrupt => []
  | SkOk s =>
    node_entry <$>
      filter (fun nd => is_expired e (sn_expire nd) = false) (sk_nodes s).*2
  end.

Definition kvs_skip_get_value_len (e : cenv) (inst : kvs_skip) (key : kv_data)
  : kvs_skip * Z :=
  let '(inst', value) := kvs_skip_get e inst key in
  (inst', match value with Some d => i32 (kd_len d) | None => -1 end).

#[export] Instance skip_engine : KvEngine kvs_skip := {
  eng_set := kvs_skip_set;
  eng_get := kvs_skip_get;
  eng_del := kvs_skip_del;
  eng_mod := kvs_skip_mod;
  eng_exist := kvs_skip_exist;
  eng_del_if_expired := kvs_skip_del_if_expired;
  eng_foreach := kvs_skip_foreach
}.

(** ** Chains *)

(** The nodes of [c] point to each other at level [i], the last one to
    NULL. *)
Fixpoint chain (h : heap) (i : nat) (c : list loc) : Prop :=
  match c with
  | [] => True
  | x :: l => fwd h x i = Some (head l) /\ chain h i l
  end.

Lemma chain_suffix h i a l : chain h i (a ++ l) -> chain h i l.
Proof. induction a as [|x a IH]; simpl; [done|]. intros [_ H]. by apply IH. Qed.

Lemma chain_ext h h' i c :
  (forall q, q ∈ c -> fwd h' q i = fwd h q i) -> chain h i c -> chain h' i c.
Proof.
  induction c as [|x c IH]; simpl; [done|]. intros He [H1 H2]. split.
  - rewrite He; [done|by left].
  - apply IH; [|done]. intros q Hq. apply He. by right.
Qed.

Lemma chain_insert h h' i a u new b :
  chain h i (a ++ u :: b) ->
  (forall q, q ∈ a ++ b -> fwd h' q i = fwd h q i) ->
  fwd h' u i = Some (Some new) -> fwd h' new i = fwd h u i ->
  chain h' i (a ++ u :: new :: b).
Proof.
  induction a as [|x a IH]; simpl.
  - intros [H1 H2] He Hu Hn. split_and!; [done| |by eapply chain_ext].
    by rewrite Hn.
  - intros [H1 H2] He Hu Hn. split.
    + rewrite He by by left. rewrite H1. by destruct a.
    + apply IH; [done| |done..]. intros q Hq. apply He. by right.
Qed.

Lemma chain_remove h h' i a u x b :
  chain h i (a ++ u :: x :: b) ->
  (forall q, q ∈ a ++ b -> fwd h' q i = fwd h q i) ->
  fwd h' u i = fwd h x i ->
  chain h' i (a ++ u :: b).
Proof.
  induction a as [|y a IH]; simpl.
  - intros (H1 & H2 & H3) He Hu. split; [by rewrite Hu|by eapply chain_ext].
  - intros [H1 H2] He Hu. split.
    + rewrite He by by left. rewrite H1. by destruct a.
    + apply IH; [done| |done]. intros q Hq. apply He. by right.
Qed.

(** The last node of a list, or [d]. *)
Lemma last_cons_default (d x : loc) l : List.last (x :: l) d = List.last l x.
Proof.
  revert d x. induction l as [|y l IH]; intros d x; [done|].
  change (List.last (y :: l) d = List.last (y :: l) x). by rewrite !IH.
Qed.

Lemma last_split (d : loc) l : exists a, d :: l = a ++ [List.last l d].
Proof.
  revert d. induction l as [|x l IH]; intros d; [by exists []|].
  rewrite last_cons_default. destruct (IH x) as [a Ha].
  exists (d :: a). simpl. by rewrite Ha.
Qed.

Lemma last_in (d : loc) l : List.last l d ∈ d :: l.
Proof.
  destruct (last_split d l) as [a ->]. apply elem_of_app. right. by left.
Qed.


Lemma walk_ok h i key cur a b fuel :
  chain h i (cur :: a ++ b) ->
  (forall x, x ∈ a ++ b -> exists n, h !! x = Some n /\
     (x ∈ a -> blt (sn_key n) key) /\ (x ∈ b -> ~ blt (sn_key n) key)) ->
  (length a < fuel)%nat ->
  skip_walk fuel h i (kd_of key) cur = Some (List.last a cur).
Proof.
  revert cur fuel. induction a as [|x a IH]; intros cur [|fuel] Hc Hn Hf; simpl in *; try lia.
  - destruct Hc as [-> Hc]. simpl. destruct b as [|x b]; [done|]. simpl.
    destruct (Hn x) as (n & -> & _ & Hb); [by left|]. simpl.
    unfold kv_data_compare_safe. simpl.
    destruct (Z.ltb_spec (bytes_cmp (sn_key n) key) 0); [|done].
    destruct Hb; [by left|done].
  - destruct Hc as [-> Hc]. simpl.
    destruct (Hn x) as (n & -> & Ha & _); [by left|]. simpl.
    unfold kv_data_compare_safe. simpl.
    destruct (Z.ltb_spec (bytes_cmp (sn_key n) key) 0) as [_|Hge].
    + rewrite (IH x); [|done| |lia].
      * f_equal. symmetry. apply last_cons_default.
      * intros q Hq. destruct (Hn q) as (m & Hm & Hma & Hmb); [by right|].
        exists m. split_and!; [done| |done]. intros. apply Hma. by right.
    + assert (blt (sn_key n) key) by (apply Ha; by left). unfold blt in *. lia.
Qed.

(** ** Updates of the forward arrays *)

(** What a node is apart from where its pointers lead. *)
Definition shape (h : heap) (q : loc) : option ((bytes * (bytes * Z)) * nat) :=
  (fun n => (node_entry n, length (sn_forward n))) <$> h !! q.

Definition same_shape (h h' : heap) : Prop := forall q, shape h' q = shape h q.

Lemma same_shape_trans h1 h2 h3 : same_shape h1 h2 -> same_shape h2 h3 -> same_shape h1 h3.
Proof. intros H1 H2 q. by rewrite H2. Qed.

Lemma fwd_is_Some h p i :
  is_Some (fwd h p i) <-> exists n, h !! p = Some n /\ (i < length (sn_forward n))%nat.
Proof.
  unfold fwd. destruct (h !! p) as [n|]; simpl.
  - rewrite lookup_lt_is_Some. naive_solver.
  - split; [by intros []|naive_solver].
Qed.

Lemma set_fwd_ok h p i v :
  is_Some (fwd h p i) ->
  exists h', set_fwd h p i v = Some h' /\ same_shape h h' /\
    (forall q j, fwd h' q j = if bool_decide (q = p /\ j = i) then Some v else fwd h q j).
Proof.
  intros [x Hx]. unfold set_fwd. rewrite Hx. simpl. eexists. split; [done|]. split.
  - intros q. unfold shape. destruct (decide (q = p)) as [->|Hne].
    + rewrite lookup_alter_eq. destruct (h !! p) as [n|]; [|done]. simpl.
      by rewrite length_insert.
    + by rewrite lookup_alter_ne.
  - intros q j. unfold fwd in *. destruct (decide (q = p)) as [->|Hne].
    + rewrite lookup_alter_eq. destruct (h !! p) as [n|]; [|done]. simpl in *.
      case_bool_decide as Hd.
      * destruct Hd as [_ ->]. apply list_lookup_insert_eq.
        by apply lookup_lt_is_Some; eauto.
      * rewrite list_lookup_insert_ne; [done|]. naive_solver.
    + rewrite lookup_alter_ne by done. rewrite bool_decide_false; [done|naive_solver].
Qed.

(** The update entry of level [j] among those of the levels from [i] on. *)
Definition upd_at (us : list loc) (i j : nat) : option loc :=
  if (i <=? j)%nat then us !! (j - i)%nat else None.

Lemma upd_at_cons u us i j :
  upd_at (u :: us) i j = if decide (j = i) then Some u else upd_at us (S i) j.
Proof.
  unfold upd_at. destruct (decide (j = i)) as [->|Hne].
  - by rewrite Nat.leb_refl, Nat.sub_diag.
  - destruct (Nat.leb_spec i j), (Nat.leb_spec (S i) j); try lia; try done.
    by replace (j - i)%nat with (S (j - S i)) by lia.
Qed.

Lemma upd_at_0 us j : upd_at us 0 j = us !! j.
Proof. unfold upd_at. simpl. by rewrite Nat.sub_0_r. Qed.

Lemma skip_link_ok new us : forall i h,
  (forall j u, upd_at us i j = Some u ->
     is_Some (fwd h u j) /\ is_Some (fwd h new j) /\ u <> new) ->
  exists h', skip_link h new us i = Some h' /\ same_shape h h' /\
    forall q j, fwd h' q j =
      match upd_at us i j with
      | Some u => if decide (q = new) then fwd h u j
                  else if decide (q = u) then Some (Some new) else fwd h q j
      | None => fwd h q j
      end.
Proof.
  induction us as [|u us IH]; intros i h Hus; simpl.
  - exists h. split_and!; [done..|]. intros q j. unfold upd_at. by destruct (i <=? j)%nat.
  - destruct (Hus i u) as (Hu & Hn & Hne).
    { rewrite upd_at_cons. by rewrite decide_True. }
    destruct (set_fwd_ok h new i (default None (fwd h u i)) Hn) as (h1 & Hs1 & Hsh1 & Hf1).
    destruct (set_fwd_ok h1 u i (Some new)) as (h2 & Hs2 & Hsh2 & Hf2).
    { rewrite Hf1. by case_bool_decide. }
    destruct (IH (S i) h2) as (h3 & Hs3 & Hsh3 & Hf3).
    { intros j w Hw. destruct (Hus j w) as (H1 & H2 & H3).
      { rewrite upd_at_cons. destruct (decide (j = i)) as [->|]; [|done].
        unfold upd_at in Hw. by destruct (Nat.leb_spec (S i) i); [lia|]. }
      rewrite !Hf2, !Hf1. split_and!; [by repeat case_bool_decide..|done]. }
    destruct Hu as [f Hf]. rewrite Hf in *. simpl in *. rewrite Hs1. simpl. rewrite Hs2. simpl.
    exists h3. split_and!; [done|eauto using same_shape_trans|].
    intros q j. rewrite Hf3, upd_at_cons, !Hf2, !Hf1.
    destruct (decide (j = i)) as [->|Hji].
    + assert (upd_at us (S i) i = None) as ->.
      { unfold upd_at. by destruct (Nat.leb_spec (S i) i); [lia|]. }
      repeat (case_bool_decide || case_decide); naive_solver.
    + destruct (upd_at us (S i) j) as [w|]; rewrite ?Hf2, ?Hf1;
        repeat (case_bool_decide || case_decide); naive_solver.
Qed.

Lemma skip_unlink_ok node us : forall i h,
  (forall j u, upd_at us i j = Some u ->
     is_Some (fwd h u j) /\ u <> node /\
     (fwd h u j = Some (Some node) -> is_Some (fwd h node j))) ->
  exists h', skip_unlink h node us i = Some h' /\ same_shape h h' /\
    forall q j, fwd h' q j =
      match upd_at us i j with
      | Some u => if decide (q = u /\ fwd h u j = Some (Some node)) then fwd h node j
                  else fwd h q j
      | None => fwd h q j
      end.
Proof.
  induction us as [|u us IH]; intros i h Hus; simpl.
  - exists h. split_and!; [done..|]. intros q j. unfold upd_at. by destruct (i <=? j)%nat.
  - destruct (Hus i u) as (Hu & Hne & Hn).
    { rewrite upd_at_cons. by rewrite decide_True. }
    assert (Hnone : upd_at us (S i) i = None).
    { unfold upd_at. by destruct (Nat.leb_spec (S i) i); [lia|]. }
    assert (Hsub : forall j w, upd_at us (S i) j = Some w -> j <> i /\ upd_at (u :: us) i j = Some w).
    { intros j w Hw. rewrite upd_at_cons. destruct (decide (j = i)) as [->|]; [|done].
      by rewrite Hnone in Hw. }
    destruct Hu as [f Hf]. rewrite Hf in *. simpl.
    case_bool_decide as Hfn.
    + subst f. destruct (Hn eq_refl) as [nf Hnf]. rewrite Hnf. simpl.
      destruct (set_fwd_ok h u i nf) as (h1 & Hs1 & Hsh1 & Hf1); [by eauto|].
      rewrite Hs1. simpl.
      destruct (IH (S i) h1) as (h2 & Hs2 & Hsh2 & Hf2).
      { intros j w Hw. destruct (Hsub j w Hw) as [Hji Hw']. destruct (Hus j w Hw') as (H1 & H2 & H3).
        rewrite !Hf1, !bool_decide_false by tauto. done. }
      exists h2. split_and!; [done|eauto using same_shape_trans|].
      intros q j. rewrite Hf2, upd_at_cons. destruct (decide (j = i)) as [->|Hji].
      * rewrite Hnone, Hf1. repeat (case_bool_decide || case_decide); naive_solver.
      * destruct (upd_at us (S i) j) as [w|]; rewrite ?Hf1, ?bool_decide_false by tauto; done.
    + destruct (IH (S i) h) as (h2 & Hs2 & Hsh2 & Hf2).
      { intros j w Hw. apply Hus. by apply Hsub. }
      exists h2. split_and!; [done..|].
      intros q j. rewrite Hf2, upd_at_cons. destruct (decide (j = i)) as [->|Hji]; [|done].
      rewrite Hnone. case_decide; naive_solver.
Qed.

(** ** Well-formed lists *)

(** The nodes with a pointer at level [i]. *)
Definition lvl (h : heap) (i : nat) (x : loc) : bool :=
  match h !! x with Some n => (i <? length (sn_forward n))%nat | None => false end.

Definition levels (h : heap) (i : nat) (ns : list loc) : list loc := List.filter (lvl h i) ns.

Definition loc_entry (h : heap) (x : loc) : bytes * (bytes * Z) :=
  default ([], ([], 0)) (node_entry <$> h !! x).

Definition loc_key (h : heap) (x : loc) : bytes := (loc_entry h x).1.

(** [ns] are the nodes behind the header, in order. *)
Record sk_wf (s : skiplist) (ns : list loc) : Prop := {
  wf_nodup : NoDup (sk_header s :: ns);
  wf_dom x : is_Some (sk_heap s !! x) <-> x ∈ sk_header s :: ns;
  wf_hdr n : sk_heap s !! sk_header s = Some n -> length (sn_forward n) = S MAX_LEVEL;
  wf_len x n : x ∈ ns -> sk_heap s !! x = Some n ->
    (1 <= length (sn_forward n) <= S (sk_level s))%nat;
  wf_level : (sk_level s <= MAX_LEVEL)%nat;
  wf_sorted : StronglySorted blt (loc_key (sk_heap s) <$> ns);
  wf_chain i : (i <= MAX_LEVEL)%nat ->
    chain (sk_heap s) i (sk_header s :: levels (sk_heap s) i ns);
  wf_count : sk_count s = i32 (Z.of_nat (length ns));
  wf_next x : x ∈ sk_header s :: ns -> (x < sk_next s)%nat
}.

Lemma shape_lvl h h' i x : shape h' x = shape h x -> lvl h' i x = lvl h i x.
Proof. unfold shape, lvl. destruct (h !! x), (h' !! x); simpl; congruence. Qed.

Lemma shape_entry h h' x : shape h' x = shape h x -> loc_entry h' x = loc_entry h x.
Proof. unfold shape, loc_entry. destruct (h !! x), (h' !! x); simpl; congruence. Qed.

Lemma levels_ext h h' i ns :
  (forall x, x ∈ ns -> lvl h' i x = lvl h i x) -> levels h' i ns = levels h i ns.
Proof. intros He. apply List.filter_ext_in. intros x Hx. apply He. by apply list_elem_of_In. Qed.

Lemma levels_app h i l1 l2 : levels h i (l1 ++ l2) = levels h i l1 ++ levels h i l2.
Proof. apply List.filter_app. Qed.

Lemma levels_in h i x ns : x ∈ levels h i ns <-> x ∈ ns /\ lvl h i x = true.
Proof. rewrite !list_elem_of_In. apply List.filter_In. Qed.

Lemma levels_mono h i j x ns : (j <= i)%nat -> x ∈ levels h i ns -> x ∈ levels h j ns.
Proof.
  rewrite !levels_in. unfold lvl. intros Hij [Hx Hl]. split; [done|].
  destruct (h !! x); [|done]. apply Nat.ltb_lt in Hl. apply Nat.ltb_lt. lia.
Qed.

Lemma lvl_fwd h i x : lvl h i x = true <-> is_Some (fwd h x i).
Proof.
  rewrite fwd_is_Some. unfold lvl. destruct (h !! x) as [n|].
  - rewrite Nat.ltb_lt. naive_solver.
  - naive_solver.
Qed.

Lemma wf_levels0 s ns l : sk_wf s ns -> (forall x, x ∈ l -> x ∈ ns) ->
  levels (sk_heap s) 0 l = l.
Proof.
  intros Hwf Hsub. apply forallb_filter_id, List.forallb_forall.
  intros x Hx%list_elem_of_In. unfold lvl. specialize (Hsub x Hx).
  destruct (proj2 (wf_dom _ _ Hwf x)) as [n Hn]; [by right|]. rewrite Hn.
  apply Nat.ltb_lt. pose proof (wf_len _ _ Hwf x n Hsub Hn). lia.
Qed.

Lemma wf_size s ns : sk_wf s ns -> size (sk_heap s) = S (length ns).
Proof.
  intros Hwf. rewrite <- (size_dom (sk_heap s)).
  assert (dom (sk_heap s) = list_to_set (sk_header s :: ns)) as ->.
  { apply set_eq. intros x. rewrite elem_of_dom, elem_of_list_to_set. apply Hwf. }
  rewrite size_list_to_set by apply Hwf. done.
Qed.

(** The nodes split at a key, as the search splits them. *)
Record sk_split (h : heap) (ns : list loc) (k : bytes) (l1 : list loc) (o : option loc)
    (l2 : list loc) : Prop := {
  sp_eq : ns = l1 ++ (match o with Some x => [x] | None => [] end) ++ l2;
  sp_lt x : x ∈ l1 -> blt (loc_key h x) k;
  sp_gt x : x ∈ l2 -> blt k (loc_key h x);
  sp_key x : o = Some x -> loc_key h x = k
}.

Lemma sk_split_exists h ns k :
  StronglySorted blt (loc_key h <$> ns) -> exists l1 o l2, sk_split h ns k l1 o l2.
Proof.
  induction ns as [|x ns IH]; [exists [], None, []; split; set_solver|]. simpl.
  intros [Hf' Hs]%StronglySorted_cons.
  assert (Hf : forall y, y ∈ ns -> blt (loc_key h x) (loc_key h y)).
  { intros y Hy. rewrite Forall_forall in Hf'. apply Hf', list_elem_of_fmap. eauto. }
  destruct (bytes_cmpP (loc_key h x) k) as [z _ Hb|He|z _ Hb].
  - destruct (IH Hs) as (l1 & o & l2 & [-> Hl Hg Hk]). exists (x :: l1), o, l2. split; try done.
    intros y [->|Hy]%elem_of_cons; [done|by apply Hl].
  - exists [], (Some x), ns. split; [done|set_solver| |by intros ? [= <-]].
    intros y Hy. rewrite <- He. by apply Hf.
  - exists [], None, (x :: ns). split; [done|set_solver| |done].
    intros y [->|Hy]%elem_of_cons; [done|]. etrans; [exact Hb|]. by apply Hf.
Qed.

Lemma last_suffix (d c : loc) pre a :
  List.last (pre ++ c :: a) d = List.last a c.
Proof.
  revert d. induction pre as [|x pre IH]; intros d; simpl app; rewrite last_cons_default; auto.
Qed.

Lemma levels_length h i ns : (length (levels h i ns) <= length ns)%nat.
Proof. apply List.filter_length_le. Qed.

(** What the update path holds at level [j]. *)
Definition pred_at (s : skiplist) (l1 : list loc) (j : nat) : loc :=
  List.last (levels (sk_heap s) j l1) (sk_header s).

Lemma skip_walk_split s ns k l1 o l2 i cur :
  sk_wf s ns -> sk_split (sk_heap s) ns k l1 o l2 -> (i <= MAX_LEVEL)%nat ->
  cur ∈ sk_header s :: levels (sk_heap s) i l1 ->
  skip_walk (size (sk_heap s)) (sk_heap s) i (kd_of k) cur = Some (pred_at s l1 i).
Proof.
  intros Hwf [Heq Hl Hg Hk] Hi Hcur.
  pose proof (wf_chain _ _ Hwf i Hi) as Hc. rewrite Heq, levels_app in Hc.
  apply list_elem_of_split in Hcur as (pre & a & Hsp).
  assert (Ha : exists q, levels (sk_heap s) i l1 = q ++ a).
  { destruct pre as [|y pre]; [exists []|exists (pre ++ [cur])]; simplify_eq/=; [done|].
    by rewrite <- app_assoc. }
  destruct Ha as [q Ha]. unfold pred_at.
  rewrite app_comm_cons, Hsp, <- app_assoc in Hc. apply chain_suffix in Hc. simpl in Hc.
  erewrite walk_ok; [|exact Hc| |].
  - f_equal. symmetry. rewrite <- (last_cons_default (sk_header s)), Hsp. apply last_suffix.
  - intros x Hx.
    assert (H1 : x ∈ a -> x ∈ l1).
    { intros Hxa. eapply (levels_in _ i). rewrite Ha. apply elem_of_app. by right. }
    set (r := _ ++ l2) in *.
    assert (H2 : x ∈ levels (sk_heap s) i r -> x ∈ r) by by intros []%levels_in.
    destruct (proj2 (wf_dom _ _ Hwf x)) as [n Hn].
    { right. rewrite Heq. apply elem_of_app. apply elem_of_app in Hx. tauto. }
    exists n. split; [done|].
    assert (Hkey : sn_key n = loc_key (sk_heap s) x) by (unfold loc_key, loc_entry; by rewrite Hn).
    rewrite Hkey. split; [by auto|]. intros Hxr%H2 Hlt. subst r.
    apply elem_of_app in Hxr as [Hxo|Hx2].
    + destruct o; [|set_solver]. apply list_elem_of_singleton in Hxo as ->.
      rewrite (Hk _ eq_refl) in Hlt. by apply (irreflexivity blt) in Hlt.
    + apply Hg in Hx2. apply (irreflexivity blt k). by etrans.
  - pose proof (levels_length (sk_heap s) i l1).
    apply (f_equal length) in Ha. rewrite length_app in Ha.
    rewrite (wf_size _ _ Hwf), Heq, length_app. lia.
Qed.

Lemma skip_find_levels_ok s ns k l1 o l2 i cur :
  sk_wf s ns -> sk_split (sk_heap s) ns k l1 o l2 -> (i <= MAX_LEVEL)%nat ->
  cur ∈ sk_header s :: levels (sk_heap s) i l1 ->
  skip_find_levels (sk_heap s) (kd_of k) i cur
    = Some (pred_at s l1 <$> seq 0 (S i), pred_at s l1 0).
Proof.
  intros Hwf Hsp. revert cur. induction i as [|i IH]; intros cur Hi Hcur; cbn [skip_find_levels].
  - by erewrite skip_walk_split.
  - erewrite skip_walk_split by done. cbn [mbind option_bind].
    rewrite IH; [|lia|].
    + cbn [mbind option_bind fst snd]. by rewrite (seq_S (S i) 0), fmap_app.
    + unfold pred_at. pose proof (last_in (sk_header s) (levels (sk_heap s) (S i) l1)) as Hin.
      apply elem_of_cons in Hin as [->|Hin]; [by left|]. right.
      eapply levels_mono; [|exact Hin]. lia.
Qed.

Lemma skip_find_update_ok s ns k l1 o l2 :
  sk_wf s ns -> sk_split (sk_heap s) ns k l1 o l2 ->
  exists r : option (loc * skipnode),
    skip_find_update s (kd_of k) = Some (pred_at s l1 <$> seq 0 (S (sk_level s)), r) /\
  match o with
  | None => r = None
  | Some x => exists nd, r = Some (x, nd) /\ sk_heap s !! x = Some nd
  end.
Proof.
  intros Hwf Hsp. unfold skip_find_update.
  erewrite skip_find_levels_ok; [|done|done|apply Hwf|by left]. cbn [mbind option_bind].
  destruct Hsp as [Heq Hl Hg Hk].
  pose proof (wf_chain _ _ Hwf 0%nat ltac:(lia)) as Hc.
  rewrite (wf_levels0 s ns ns Hwf) in Hc by done.
  assert (Hl1 : levels (sk_heap s) 0 l1 = l1).
  { apply (wf_levels0 s ns l1 Hwf). intros x Hx. rewrite Heq. apply elem_of_app. by left. }
  destruct (last_split (sk_header s) l1) as [a Ha].
  assert (Hp0 : pred_at s l1 0 = List.last l1 (sk_header s)) by (unfold pred_at; by rewrite Hl1).
  rewrite Hp0.
  rewrite Heq, app_comm_cons, Ha, <- app_assoc in Hc. apply chain_suffix in Hc.
  simpl in Hc. destruct Hc as [Hc _]. rewrite Hc. simpl.
  assert (Hnode : forall x, x ∈ ns -> exists n, sk_heap s !! x = Some n /\
    sn_key n = loc_key (sk_heap s) x).
  { intros x Hx. destruct (proj2 (wf_dom _ _ Hwf x)) as [n Hn]; [by right|].
    exists n. split; [done|]. unfold loc_key, loc_entry. by rewrite Hn. }
  destruct o as [x|]; simpl.
  - destruct (Hnode x) as (n & Hn & Hkn); [rewrite Heq; set_solver|].
    rewrite Hn. simpl. unfold kv_data_compare_safe. simpl.
    rewrite Hkn, (Hk x eq_refl), bytes_cmp_refl. eauto.
  - destruct l2 as [|x l2]; simpl; [eauto|].
    destruct (Hnode x) as (n & Hn & Hkn); [rewrite Heq; set_solver|].
    rewrite Hn. simpl. unfold kv_data_compare_safe. simpl.
    assert (Hx : blt k (sn_key n)) by (rewrite Hkn; apply Hg; by left).
    destruct (Z.eqb_spec (bytes_cmp (sn_key n) k) 0) as [He|]; [|eauto].
    apply bytes_cmp_eq in He. rewrite He in Hx. by apply (irreflexivity blt) in Hx.
Qed.

(** ** What the loops of the updates preserve *)

Lemma pred_in s l1 j : pred_at s l1 j ∈ sk_header s :: levels (sk_heap s) j l1.
Proof. apply last_in. Qed.

Lemma pred_fwd s ns l1 r j :
  sk_wf s ns -> ns = l1 ++ r -> (j <= MAX_LEVEL)%nat ->
  exists a, sk_header s :: levels (sk_heap s) j l1 = a ++ [pred_at s l1 j] /\
    chain (sk_heap s) j (a ++ pred_at s l1 j :: levels (sk_heap s) j r).
Proof.
  intros Hwf Heq Hj. destruct (last_split (sk_header s) (levels (sk_heap s) j l1)) as [a Ha].
  exists a. split; [done|].
  pose proof (wf_chain _ _ Hwf j Hj) as Hc.
  rewrite Heq, levels_app, app_comm_cons, Ha, <- app_assoc in Hc. exact Hc.
Qed.

Lemma pred_lookup s l1 n j :
  (pred_at s l1 <$> seq 0 n) !! j = if decide (j < n)%nat then Some (pred_at s l1 j) else None.
Proof.
  rewrite list_lookup_fmap. case_decide.
  - by rewrite lookup_seq_lt.
  - by rewrite lookup_seq_ge by lia.
Qed.

Lemma wf_hdr_fwd s ns j : sk_wf s ns -> (j <= MAX_LEVEL)%nat ->
  is_Some (fwd (sk_heap s) (sk_header s) j).
Proof.
  intros Hwf Hj. apply fwd_is_Some.
  destruct (proj2 (wf_dom _ _ Hwf (sk_header s))) as [n Hn]; [by left|].
  exists n. split; [done|]. rewrite (wf_hdr _ _ Hwf n Hn). lia.
Qed.

Lemma pred_is_Some s ns l1 j : sk_wf s ns -> (j <= MAX_LEVEL)%nat ->
  is_Some (fwd (sk_heap s) (pred_at s l1 j) j).
Proof.
  intros Hwf Hj. pose proof (pred_in s l1 j) as [->|Hin]%elem_of_cons.
  - by eapply wf_hdr_fwd.
  - apply lvl_fwd. by apply levels_in in Hin as [].
Qed.

Lemma wf_lvl_bound s ns i x : sk_wf s ns -> x ∈ ns -> lvl (sk_heap s) i x = true ->
  (i <= sk_level s)%nat.
Proof.
  intros Hwf Hx. unfold lvl. destruct (sk_heap s !! x) as [n|] eqn:E; [|done].
  intros Hi%Nat.ltb_lt. pose proof (wf_len _ _ Hwf x n Hx E). lia.
Qed.

Lemma wf_levels_empty s ns i l : sk_wf s ns -> (forall x, x ∈ l -> x ∈ ns) ->
  (sk_level s < i)%nat -> levels (sk_heap s) i l = [].
Proof.
  intros Hwf Hsub Hi. destruct (levels (sk_heap s) i l) as [|x r] eqn:E; [done|].
  assert (Hx : x ∈ levels (sk_heap s) i l) by (rewrite E; by left).
  apply levels_in in Hx as [Hx Hl]. apply Hsub in Hx.
  pose proof (wf_lvl_bound _ _ _ _ Hwf Hx Hl). lia.
Qed.

Definition with_level (lv : nat) (s : skiplist) : skiplist :=
  SkipL lv (sk_header s) (sk_count s) (sk_heap s) (sk_next s) (sk_seed s).

Lemma wf_raise s ns lv :
  sk_wf s ns -> (sk_level s <= lv <= MAX_LEVEL)%nat -> sk_wf (with_level lv s) ns.
Proof.
  intros [H1 H2 H3 H4 H5 H6 H7 H8 H9] Hlv. split; simpl; try done; [|lia].
  intros x n Hx Hn. specialize (H4 x n Hx Hn). lia.
Qed.

Lemma wf_shrink s ns :
  sk_wf s ns ->
  exists lv, skip_shrink (sk_heap s) (sk_header s) (sk_level s) = Some lv /\
    sk_wf (with_level lv s) ns.
Proof.
  destruct s as [lv hd c h nx sd]. revert lv. induction lv as [|lv IH]; intros Hwf;
    simpl in *; [by exists 0%nat|].
  pose proof (wf_level _ _ Hwf) as Hlv. simpl in Hlv.
  pose proof (wf_chain _ _ Hwf (S lv) Hlv) as [Hhd _]. simpl in Hhd. rewrite Hhd. simpl.
  destruct (levels h (S lv) ns) as [|y r] eqn:El; simpl; [|by exists (S lv)].
  apply IH. destruct Hwf as [H1 H2 H3 H4 H5 H6 H7 H8 H9]; simpl in *.
  split; simpl; try done; [|lia].
  intros x n Hx Hn. specialize (H4 x n Hx Hn).
  destruct (decide (length (sn_forward n) = S (S lv))) as [Hlen|]; [|lia].
  assert (Hin : x ∈ levels h (S lv) ns); [|rewrite El in Hin; set_solver].
  apply levels_in. split; [done|]. unfold lvl. rewrite Hn. apply Nat.ltb_lt. lia.
Qed.

(** ** Removing a node *)

Lemma sk_split_in h ns k l1 o l2 x :
  sk_split h ns k l1 o l2 -> x ∈ l1 ++ l2 -> x ∈ ns.
Proof. intros [-> _ _ _]. rewrite !elem_of_app. tauto. Qed.

Lemma sorted_parts l1 k l2 :
  StronglySorted blt (l1 ++ l2) -> Forall (fun a => blt a k) l1 -> Forall (blt k) l2 ->
  StronglySorted blt (l1 ++ k :: l2).
Proof.
  rewrite !StronglySorted_app, StronglySorted_cons, !Forall_forall.
  intros (Hx & H1 & H2) Hl Hg. split_and!; try done.
  intros a b Ha [->|Hb]%elem_of_cons; [by apply Hl|by apply Hx].
Qed.

Lemma sorted_drop l1 m l2 :
  StronglySorted blt (l1 ++ m ++ l2) -> StronglySorted blt (l1 ++ l2).
Proof.
  rewrite !StronglySorted_app. intros (Hx & H1 & Hy & H2 & H3). split_and!; try done.
  intros a b Ha Hb. apply Hx; [done|]. apply elem_of_app. by right.
Qed.

Lemma levels_sublist h i l : levels h i l `sublist_of` l.
Proof.
  induction l as [|x l IH]; simpl; [done|].
  destruct (lvl h i x); [by apply sublist_skip|by apply sublist_cons].
Qed.

(** The heap after a node was unlinked and freed. *)
Lemma unlinked_chain s ns l1 x l2 h' i :
  sk_wf s ns -> ns = l1 ++ x :: l2 -> (i <= MAX_LEVEL)%nat ->
  (forall q, q ∈ sk_header s :: l1 ++ l2 -> lvl h' i q = lvl (sk_heap s) i q) ->
  (forall q, q ∈ sk_header s :: l1 ++ l2 -> fwd h' q i =
     if decide (q = pred_at s l1 i /\ fwd (sk_heap s) (pred_at s l1 i) i = Some (Some x))
     then fwd (sk_heap s) x i else fwd (sk_heap s) q i) ->
  chain h' i (sk_header s :: levels h' i (l1 ++ l2)).
Proof.
  intros Hwf Heq Hi Hlvl Hfwd.
  assert (He : forall l, (forall q, q ∈ l -> q ∈ l1 ++ l2) ->
    levels h' i l = levels (sk_heap s) i l).
  { intros l Hl. apply levels_ext. intros q Hq. apply Hlvl. right. by apply Hl. }
  rewrite He by done. rewrite levels_app, app_comm_cons.
  destruct (pred_fwd s ns l1 (x :: l2) i Hwf Heq Hi) as (a & Ha & Hc).
  set (u := pred_at s l1 i) in *.
  pose proof (wf_nodup _ _ Hwf) as Hnd. rewrite Heq in Hnd.
  assert (Hsub : forall q, q ∈ a ++ [u] -> q ∈ sk_header s :: l1 ++ l2).
  { intros q Hq. rewrite <- Ha in Hq. apply elem_of_cons in Hq as [->|Hq]; [by left|].
    apply levels_in in Hq as [Hq _]. right. apply elem_of_app. by left. }
  assert (Hsub2 : forall q, q ∈ levels (sk_heap s) i l2 -> q ∈ sk_header s :: l1 ++ l2).
  { intros q Hq. apply levels_in in Hq as [Hq _]. right. apply elem_of_app. by right. }
  assert (Hndu : NoDup (a ++ u :: levels (sk_heap s) i l2)).
  { rewrite (cons_middle u), app_assoc, <- Ha. simpl.
    apply (sublist_NoDup _ (sk_header s :: l1 ++ x :: l2)); [done|].
    apply sublist_skip, sublist_app; [apply levels_sublist|].
    apply sublist_cons, levels_sublist. }
  rewrite Ha, <- app_assoc. simpl in *.
  assert (Hne : forall q, q ∈ a ++ levels (sk_heap s) i l2 -> q <> u).
  { intros q Hq ->. apply NoDup_app in Hndu as (_ & Hd & [Hu _]%NoDup_cons).
    apply elem_of_app in Hq as [Hq|Hq]; [|done]. apply (Hd u Hq). by left. }
  destruct (lvl (sk_heap s) i x) eqn:Hlx.
  - assert (Hu : fwd (sk_heap s) u i = Some (Some x)).
    { apply chain_suffix in Hc. simpl in Hc. by destruct Hc as [-> _]. }
    eapply chain_remove; [exact Hc| |].
    + intros q Hq. rewrite Hfwd, decide_False; [done| |].
      * intros [Hqu _]. by apply (Hne q Hq).
      * apply elem_of_app in Hq as [Hq|Hq]; [|by apply Hsub2].
        apply Hsub, elem_of_app. by left.
    + rewrite Hfwd, decide_True; [done..|]. apply Hsub, elem_of_app. right. by left.
  - eapply chain_ext; [|exact Hc].
    intros q Hq. rewrite Hfwd, decide_False; [done| |].
    + intros [_ Hu]. apply chain_suffix in Hc. simpl in Hc. destruct Hc as [Hc _].
      rewrite Hu in Hc. assert (Hin : x ∈ levels (sk_heap s) i l2).
      { destruct (levels (sk_heap s) i l2); [done|]. simplify_eq/=. by left. }
      apply levels_in in Hin as [Hin _].
      apply NoDup_cons in Hnd as [_ Hnd]. apply NoDup_app in Hnd as (_ & _ & [Hx _]%NoDup_cons).
      done.
    + apply elem_of_app in Hq as [Hq|[->|Hq]%elem_of_cons].
      * apply Hsub, elem_of_app. by left.
      * apply Hsub, elem_of_app. right. by left.
      * by apply Hsub2.
Qed.

Lemma same_shape_dom h h' q : same_shape h h' -> is_Some (h' !! q) <-> is_Some (h !! q).
Proof.
  intros Hs. specialize (Hs q). unfold shape in Hs.
  destruct (h !! q), (h' !! q); simpl in *; split; intros [? ?]; try done; eauto.
Qed.

Lemma shape_len h h' q n n' :
  shape h' q = shape h q -> h !! q = Some n -> h' !! q = Some n' ->
  length (sn_forward n') = length (sn_forward n).
Proof. unfold shape. intros Hs H1 H2. rewrite H1, H2 in Hs. simpl in Hs. congruence. Qed.

Lemma loc_keys_ext h h' (l : list loc) :
  (forall q, q ∈ l -> loc_entry h' q = loc_entry h q) -> loc_key h' <$> l = loc_key h <$> l.
Proof. intros He. apply list_fmap_ext. intros i q Hq. unfold loc_key. rewrite He; [done|]. by eapply list_elem_of_lookup_2. Qed.

Lemma i32_pred a : i32 (i32 a - 1) = i32 (a - 1).
Proof. unfold i32. f_equal.
  replace ((a + 2 ^ 31) mod 2 ^ 32 - 2 ^ 31 - 1 + 2 ^ 31) with ((a + 2 ^ 31) mod 2 ^ 32 - 1) by lia.
  rewrite Zminus_mod_idemp_l. f_equal. lia.
Qed.

Lemma i32_succ a : i32 (i32 a + 1) = i32 (a + 1).
Proof. unfold i32. f_equal.
  replace ((a + 2 ^ 31) mod 2 ^ 32 - 2 ^ 31 + 1 + 2 ^ 31) with ((a + 2 ^ 31) mod 2 ^ 32 + 1) by lia.
  rewrite Zplus_mod_idemp_l. f_equal. lia.
Qed.

Lemma skip_remove_ok s ns k l1 x l2 :
  sk_wf s ns -> sk_split (sk_heap s) ns k l1 (Some x) l2 ->
  exists s', skip_remove s x (pred_at s l1 <$> seq 0 (S (sk_level s))) = Some s' /\
    sk_wf s' (l1 ++ l2) /\
    (forall q, q ∈ l1 ++ l2 -> loc_entry (sk_heap s') q = loc_entry (sk_heap s) q).
Proof.
  intros Hwf [Heq Hl Hg Hk]. simpl in Heq. unfold skip_remove.
  assert (Hnd : NoDup (sk_header s :: l1 ++ x :: l2)) by (rewrite <- Heq; apply Hwf).
  assert (Hx : x ∉ sk_header s :: l1 ++ l2).
  { apply NoDup_cons in Hnd as [Hh Hnd]. apply NoDup_app in Hnd as (H1 & H2 & [H3 _]%NoDup_cons).
    rewrite elem_of_cons, elem_of_app. intros [->|[Hi|Hi]]; [|by apply (H2 x Hi); left|done].
    apply Hh, elem_of_app. right. by left. }
  rewrite take_ge by by rewrite length_fmap, length_seq.
  destruct (skip_unlink_ok x (pred_at s l1 <$> seq 0 (S (sk_level s))) 0 (sk_heap s))
    as (h & -> & Hsh & Hf).
  { intros j u. rewrite upd_at_0, pred_lookup. case_decide as Hj; [intros [= <-]|done].
    pose proof (wf_level _ _ Hwf). split_and!; [eapply pred_is_Some; [done|lia]| |].
    - intros Heqx. pose proof (pred_in s l1 j) as Hin. rewrite Heqx in Hin. apply Hx.
      apply elem_of_cons in Hin as [->|Hin]; [by left|]. right.
      apply levels_in in Hin as [Hin _]. apply elem_of_app. by left.
    - intros Hfx. destruct (pred_fwd s ns l1 (x :: l2) j) as (a & _ & Hc); [done..|lia|].
      apply chain_suffix in Hc as [Hc _]. rewrite Hfx in Hc.
      assert (Hin : x ∈ levels (sk_heap s) j (x :: l2)).
      { destruct (levels (sk_heap s) j (x :: l2)); simplify_eq/=. by left. }
      apply lvl_fwd. by apply levels_in in Hin as []. }
  cbn [mbind option_bind].
  assert (Hdel : forall q, q <> x -> shape (delete x h) q = shape (sk_heap s) q).
  { intros q Hq. rewrite <- (Hsh q). unfold shape. by rewrite lookup_delete_ne. }
  assert (Hnx : forall q, q ∈ sk_header s :: l1 ++ l2 -> q <> x) by by intros q Hq ->.
  set (s1 := SkipL (sk_level s) (sk_header s) (i32 (sk_count s - 1)) (delete x h)
    (sk_next s) (sk_seed s)).
  assert (Hent : forall q, q ∈ l1 ++ l2 -> loc_entry (delete x h) q = loc_entry (sk_heap s) q).
  { intros q Hq. apply shape_entry, Hdel, Hnx. by right. }
  assert (Hwf1 : sk_wf s1 (l1 ++ l2)).
  { split; simpl.
    - eapply sublist_NoDup; [exact Hnd|]. apply sublist_skip, sublist_app; [done|].
      by apply sublist_cons.
    - intros q. destruct (decide (q = x)) as [->|Hqx].
      + rewrite lookup_delete_eq. split; [by intros []|done].
      + rewrite lookup_delete_ne by done. rewrite (same_shape_dom _ _ q Hsh), (wf_dom _ _ Hwf q).
        rewrite Heq, !elem_of_cons, !elem_of_app, elem_of_cons. naive_solver.
    - intros n Hn. rewrite lookup_delete_ne in Hn by (intros ->; apply Hx; by left).
      destruct (proj2 (wf_dom _ _ Hwf (sk_header s))) as [n0 Hn0]; [by left|].
      rewrite (shape_len _ _ _ _ _ (Hsh _) Hn0 Hn). by apply (wf_hdr _ _ Hwf).
    - intros q n Hq Hn. rewrite lookup_delete_ne in Hn by by apply not_eq_sym, Hnx; right.
      assert (Hqn : q ∈ ns) by (rewrite Heq; revert Hq; rewrite !elem_of_app, elem_of_cons; tauto).
      destruct (proj2 (wf_dom _ _ Hwf q)) as [n0 Hn0]; [by right|].
      rewrite (shape_len _ _ _ _ _ (Hsh _) Hn0 Hn). by apply (wf_len _ _ Hwf q).
    - apply Hwf.
    - rewrite (loc_keys_ext (sk_heap s)) by done. pose proof (wf_sorted _ _ Hwf) as Hs.
      rewrite Heq, (fmap_app _ l1 (x :: l2)) in Hs. rewrite fmap_app.
      by apply (sorted_drop _ [loc_key (sk_heap s) x]).
    - intros i Hi. eapply unlinked_chain; [done..| |].
      + intros q Hq. by apply shape_lvl, Hdel, Hnx.
      + intros q Hq. assert (fwd (delete x h) q i = fwd h q i) as ->.
        { unfold fwd. rewrite lookup_delete_ne; [done|]. apply not_eq_sym. by apply Hnx. }
        rewrite Hf, upd_at_0, pred_lookup. case_decide as Hj; [done|].
        rewrite decide_False; [done|]. intros [_ Hu].
        destruct (pred_fwd s ns l1 (x :: l2) i) as (a & _ & Hc); [done..|].
        apply chain_suffix in Hc as [Hc _]. rewrite Hu in Hc.
        rewrite (wf_levels_empty s ns i (x :: l2)) in Hc; [done|done| |lia].
        intros z Hz. rewrite Heq. apply elem_of_app. by right.
    - rewrite (wf_count _ _ Hwf), i32_pred, Heq, !length_app. simpl. f_equal. lia.
    - intros q Hq. apply (wf_next _ _ Hwf). rewrite Heq. set_solver. }
  destruct (wf_shrink s1 _ Hwf1) as (lv & Hlv & Hwf2). simpl in Hlv. rewrite Hlv. simpl.
  eexists. split_and!; [done|exact Hwf2|done].
Qed.

(** ** Inserting a node *)

Lemma random_level_le e seed : ((random_level e seed).1 <= MAX_LEVEL)%nat.
Proof.
  unfold random_level.
  assert (H : forall room sd lv, ((random_level_loop room sd lv).1 <= lv + room)%nat).
  { induction room as [|room IH]; intros sd lv; simpl; destruct (_ <? _); simpl; try lia.
    specialize (IH (xorshift32 sd) (S lv)). lia. }
  apply H.
Qed.

Lemma update_extend s ns l1 level :
  sk_wf s ns -> (forall x, x ∈ l1 -> x ∈ ns) ->
  (pred_at s l1 <$> seq 0 (S (sk_level s))) ++ replicate (level - sk_level s) (sk_header s)
  = pred_at s l1 <$> seq 0 (S (Nat.max level (sk_level s))).
Proof.
  intros Hwf Hsub.
  replace (S (Nat.max level (sk_level s))) with (S (sk_level s) + (level - sk_level s))%nat by lia.
  rewrite (seq_app (S (sk_level s))), fmap_app. f_equal.
  set (d := (level - sk_level s)%nat). simpl plus.
  symmetry. apply list_eq. intros j. rewrite list_lookup_fmap.
  destruct (decide (j < d)%nat) as [Hj|Hj].
  - rewrite lookup_seq_lt, lookup_replicate_2 by done. simpl. unfold pred_at.
    by rewrite (wf_levels_empty s ns) by (done || lia).
  - rewrite lookup_seq_ge by lia. symmetry. simpl. apply lookup_replicate_None. lia.
Qed.

(** The chains after a node with levels up to [level] was linked. *)
Lemma linked_chain s ns l1 l2 new level h' i :
  sk_wf s ns -> ns = l1 ++ l2 -> new ∉ sk_header s :: ns -> (i <= MAX_LEVEL)%nat ->
  (forall q, q ∈ ns -> lvl h' i q = lvl (sk_heap s) i q) ->
  lvl h' i new = (i <=? level)%nat ->
  (forall q, q ∈ sk_header s :: ns -> fwd h' q i =
     if decide (q = pred_at s l1 i /\ (i <= level)%nat) then Some (Some new)
     else fwd (sk_heap s) q i) ->
  ((i <= level)%nat -> fwd h' new i = fwd (sk_heap s) (pred_at s l1 i) i) ->
  chain h' i (sk_header s :: levels h' i (l1 ++ new :: l2)).
Proof.
  intros Hwf Heq Hnew Hi Hlvl Hln Hf Hfn.
  destruct (pred_fwd s ns l1 l2 i Hwf Heq Hi) as (a & Ha & Hc).
  set (u := pred_at s l1 i) in *.
  assert (He : forall l, (forall q, q ∈ l -> q ∈ ns) -> levels h' i l = levels (sk_heap s) i l).
  { intros l Hl. apply levels_ext. intros q Hq. by apply Hlvl, Hl. }
  assert (Hin : forall q, q ∈ a ++ u :: levels (sk_heap s) i l2 -> q ∈ sk_header s :: ns).
  { intros q. rewrite (cons_middle u), app_assoc, <- Ha. simpl. rewrite <- levels_app, <- Heq.
    rewrite !elem_of_cons, levels_in. tauto. }
  assert (Hndu : NoDup (a ++ u :: levels (sk_heap s) i l2)).
  { rewrite (cons_middle u), app_assoc, <- Ha. simpl. rewrite <- levels_app, <- Heq.
    eapply sublist_NoDup; [apply (wf_nodup _ _ Hwf)|]. apply sublist_skip, levels_sublist. }
  assert (Hne : forall q, q ∈ a ++ levels (sk_heap s) i l2 -> q <> u).
  { intros q Hq ->. apply NoDup_app in Hndu as (_ & Hd & [Hu _]%NoDup_cons).
    apply elem_of_app in Hq as [Hq|Hq]; [|done]. apply (Hd u Hq). by left. }
  assert (Hu : u ∈ sk_header s :: ns) by (apply Hin, elem_of_app; right; by left).
  rewrite levels_app. simpl levels. rewrite Hln.
  change (List.filter (lvl h' i) l2) with (levels h' i l2).
  rewrite (He l1), (He l2) by (intros q Hq; rewrite Heq; apply elem_of_app; tauto).
  rewrite app_comm_cons, Ha, <- app_assoc.
  destruct (Nat.leb_spec i level) as [Hle|Hgt]; simpl.
  - eapply chain_insert; [exact Hc| | |by apply Hfn].
    + intros q Hq. rewrite Hf, decide_False; [done| |].
      * intros [Hqu _]. by apply (Hne q Hq).
      * apply Hin. revert Hq. rewrite !elem_of_app, elem_of_cons. tauto.
    + by rewrite Hf, decide_True.
  - eapply chain_ext; [|exact Hc]. intros q Hq. rewrite Hf by by apply Hin.
    rewrite decide_False; [done|]. lia.
Qed.

(** The outcomes of an insertion. *)
Inductive sk_inserted (e : cenv) (s : skiplist) (ns l1 l2 : list loc) (k : bytes) (v : kv_data)
    (x : Z) : option (skiplist * Z) -> Prop :=
| sk_ins_ok s' new :
  sk_wf s' (l1 ++ new :: l2) ->
  (forall q, q ∈ ns -> loc_entry (sk_heap s') q = loc_entry (sk_heap s) q) ->
  loc_entry (sk_heap s') new = (k, (kd_bytes v, x)) ->
  sk_inserted e s ns l1 l2 k v x (Some (s', 0))
| sk_ins_nomem s' level :
  skipnode_create e level (kd_of k) v x = None -> (level <= MAX_LEVEL)%nat ->
  sk_wf s' ns -> sk_heap s' = sk_heap s ->
  sk_inserted e s ns l1 l2 k v x (Some (s', -2)).

(** Linking a node gives a well-formed list. *)
Lemma linked_wf s ns k l1 l2 e' h seed level :
  sk_wf s ns -> sk_split (sk_heap s) ns k l1 None l2 ->
  (level <= sk_level s)%nat -> e'.1 = k ->
  (forall q, q <> sk_next s -> shape h q = shape (sk_heap s) q) ->
  shape h (sk_next s) = Some (e', S level) ->
  (forall q j, fwd h q j =
     if decide (q = sk_next s) then
       if decide (j <= level)%nat then fwd (sk_heap s) (pred_at s l1 j) j else None
     else if decide (q = pred_at s l1 j /\ (j <= level)%nat) then Some (Some (sk_next s))
     else fwd (sk_heap s) q j) ->
  sk_wf (SkipL (sk_level s) (sk_header s) (i32 (sk_count s + 1)) h (S (sk_next s)) seed)
    (l1 ++ sk_next s :: l2).
Proof.
  intros Hwf [Heq Hl Hg _] Hlv Hk Hsh Hshn Hf. simpl in Heq. set (new := sk_next s) in *.
  assert (Hnew : new ∉ sk_header s :: ns) by (intros Hin%(wf_next _ _ Hwf); lia).
  assert (Hne : forall q, q ∈ sk_header s :: ns -> q <> new) by by intros q Hq ->.
  assert (Hperm : sk_header s :: l1 ++ new :: l2 ≡ₚ new :: sk_header s :: ns).
  { rewrite Heq, <- Permutation_middle. apply Permutation_swap. }
  assert (Hmid : forall q, q ∈ l1 ++ new :: l2 -> q = new \/ q ∈ ns).
  { intros q. rewrite Heq, !elem_of_app, elem_of_cons. tauto. }
  assert (Hnode : forall q n, shape h q = shape (sk_heap s) q -> h !! q = Some n ->
    exists n0, sk_heap s !! q = Some n0 /\ length (sn_forward n) = length (sn_forward n0)).
  { intros q n Hs Hn. unfold shape in Hs. rewrite Hn in Hs.
    destruct (sk_heap s !! q) as [n0|]; simplify_eq/=. eauto. }
  assert (Hln : forall n, h !! new = Some n -> length (sn_forward n) = S level).
  { intros n Hn. unfold shape in Hshn. rewrite Hn in Hshn. by simplify_eq/=. }
  assert (Hkeys : forall l : list loc, (forall q, q ∈ l -> q ∈ ns) ->
    loc_key h <$> l = loc_key (sk_heap s) <$> l).
  { intros l Hsub. apply loc_keys_ext. intros q Hq. apply shape_entry, Hsh, Hne. right. by apply Hsub. }
  split; simpl.
  - rewrite Hperm. apply NoDup_cons. split; [done|apply Hwf].
  - intros q. rewrite Hperm, elem_of_cons, <- (wf_dom _ _ Hwf q).
    destruct (decide (q = new)) as [->|Hq].
    + unfold shape in Hshn. destruct (h !! new); [|done]. split; [by left|by eauto].
    + specialize (Hsh q Hq). unfold shape in Hsh.
      destruct (h !! q), (sk_heap s !! q); try done; split; (by eauto) || intros [?|[]]; done.
  - intros n Hn. destruct (Hnode _ _ (Hsh _ (Hne _ ltac:(by left))) Hn) as (n0 & Hn0 & ->).
    by apply (wf_hdr _ _ Hwf).
  - intros q n [->|Hq]%Hmid Hn; [rewrite (Hln n Hn); lia|].
    destruct (Hnode _ _ (Hsh _ (Hne _ ltac:(by right))) Hn) as (n0 & Hn0 & ->).
    by apply (wf_len _ _ Hwf q).
  - apply Hwf.
  - rewrite fmap_app, fmap_cons. pose proof (wf_sorted _ _ Hwf) as Hs.
    rewrite (Hkeys l1), (Hkeys l2) by (intros q Hq; rewrite Heq; apply elem_of_app; tauto).
    assert (loc_key h new = k) as ->.
    { unfold shape, loc_key, loc_entry in *. destruct (h !! new); by simplify_eq/=. }
    rewrite Heq, fmap_app in Hs. apply sorted_parts; [done|..]; apply Forall_forall;
      intros ? (q & -> & Hq)%list_elem_of_fmap; auto.
  - intros i Hi. eapply (linked_chain s ns l1 l2 new level); [done..| | | |].
    + intros q Hq. apply shape_lvl, Hsh, Hne. by right.
    + unfold lvl. destruct (h !! new) as [n|] eqn:En; [by rewrite (Hln n eq_refl)|].
      unfold shape in Hshn. by rewrite En in Hshn.
    + intros q Hq. rewrite Hf, decide_False by by apply Hne. done.
    + intros Hle. by rewrite Hf, decide_True, decide_True.
  - rewrite (wf_count _ _ Hwf), i32_succ, Heq, !length_app. simpl. f_equal. lia.
  - intros q. rewrite Hperm. intros [->|Hq]%elem_of_cons; [lia|].
    apply (wf_next _ _ Hwf) in Hq. lia.
Qed.

Lemma skip_insert_ok e s ns k l1 l2 v x :
  sk_wf s ns -> sk_split (sk_heap s) ns k l1 None l2 ->
  sk_inserted e s ns l1 l2 k v x
    (skip_insert e s (pred_at s l1 <$> seq 0 (S (sk_level s))) (kd_of k) v x).
Proof.
  intros Hwf [Heq Hl Hg _]. simpl in Heq. unfold skip_insert.
  pose proof (random_level_le e (sk_seed s)) as Hlevel.
  destruct (random_level e (sk_seed s)) as [level seed]. simpl in Hlevel.
  pose proof (wf_level _ _ Hwf) as Hlv0.
  set (lv := Nat.max level (sk_level s)) in *.
  assert (Hraise : sk_wf (with_level lv s) ns) by (apply wf_raise; [done|lia]).
  destruct (skipnode_create e level (kd_of k) v x) as [nd|] eqn:Hnd.
  2: { eapply sk_ins_nomem; [done..| |done]. by destruct Hraise. }
  assert (Hndv : nd = SkipNode k (kd_bytes v) x (replicate (S level) None)).
  { unfold skipnode_create in Hnd. destruct (alloc_ok _ _ _); [|done]. by simplify_eq. }
  set (new := sk_next s) in *. set (h0 := <[new:=nd]> (sk_heap s)).
  assert (Hnew : new ∉ sk_header s :: ns).
  { intros Hin%(wf_next _ _ Hwf). lia. }
  assert (Hl1 : forall q, q ∈ l1 -> q ∈ ns) by (intros q Hq; rewrite Heq; apply elem_of_app; tauto).
  rewrite (update_extend s ns) by done. fold lv.
  assert (Hupd : forall j, take (S level) (pred_at s l1 <$> seq 0 (S lv)) !! j
    = if decide (j <= level)%nat then Some (pred_at s l1 j) else None).
  { intros j. case_decide as Hj.
    - rewrite lookup_take_lt by lia. rewrite pred_lookup, decide_True by lia. done.
    - by rewrite lookup_take_ge by lia. }
  assert (Hf0 : forall q j, q <> new -> fwd h0 q j = fwd (sk_heap s) q j).
  { intros q j Hq. unfold fwd, h0. by rewrite lookup_insert_ne by congruence. }
  assert (Hpn : forall j, pred_at s l1 j <> new).
  { intros j Hj. apply Hnew. rewrite <- Hj.
    pose proof (pred_in s l1 j) as [->|Hin]%elem_of_cons; [by left|].
    right. apply levels_in in Hin as [Hin _]. by apply Hl1. }
  destruct (skip_link_ok new (take (S level) (pred_at s l1 <$> seq 0 (S lv))) 0 h0)
    as (h & -> & Hsh & Hf).
  { intros j u. rewrite upd_at_0, Hupd. case_decide as Hj; [intros [= <-]|done].
    split_and!; [|apply fwd_is_Some|done].
    - rewrite Hf0 by done. eapply pred_is_Some; [done|lia].
    - exists nd. unfold h0. rewrite lookup_insert_eq. split; [done|].
      subst nd. simpl. rewrite length_replicate. lia. }
  cbn [mbind option_bind].
  assert (Hshq : forall q, q <> new -> shape h q = shape (sk_heap s) q).
  { intros q Hq. rewrite (Hsh q). unfold shape, h0. by rewrite lookup_insert_ne by congruence. }
  assert (Hshn : shape h new = Some ((k, (kd_bytes v, x)), S level)).
  { rewrite (Hsh new). unfold shape, h0. rewrite lookup_insert_eq. subst nd. simpl.
    by rewrite length_replicate. }
  apply sk_ins_ok with (new := new); simpl.
  - apply (linked_wf (with_level lv s) ns k l1 l2 (k, (kd_bytes v, x)) h seed level); try done.
    + simpl. lia.
    + intros q j. simpl. fold new. rewrite Hf, upd_at_0, Hupd.
      destruct (decide (q = new)) as [->|Hq], (decide (j <= level)%nat) as [Hj|Hj].
      * apply Hf0, Hpn.
      * unfold fwd, h0. rewrite lookup_insert_eq. subst nd.
        apply lookup_ge_None_2. simpl. rewrite length_replicate. lia.
      * rewrite Hf0 by done. change (pred_at (with_level lv s) l1 j) with (pred_at s l1 j).
        by repeat case_decide; tauto.
      * rewrite (decide_False (P := _ /\ _)) by tauto. by apply Hf0.
  - intros q Hq. apply shape_entry, Hshq. intros ->. apply Hnew. by right.
  - unfold shape, loc_entry in *. by destruct (h !! new); simplify_eq/=.
Qed.

(** ** The abstract content *)

Definition loc_map (h : heap) (ns : list loc) : kvmap := list_to_map (loc_entry h <$> ns).

Definition sk_inv (inst : kvs_skip) : Prop :=
  match inst with SkOk s => exists ns, sk_wf s ns | SkCorrupt => False end.

Definition sk_abs (inst : kvs_skip) : kvmap :=
  match inst with
  | SkOk s => list_to_map (node_entry <$> (sk_nodes s).*2)
  | SkCorrupt => ∅
  end.

Lemma skip_nodes_ok h p ns fuel :
  chain h 0 (p :: ns) -> (forall x, x ∈ ns -> is_Some (h !! x)) -> (length ns < fuel)%nat ->
  node_entry <$> (skip_nodes fuel h p).*2 = loc_entry h <$> ns.
Proof.
  revert p fuel. induction ns as [|x ns IH]; intros p [|fuel] Hc Hn Hf; simpl in *; try lia.
  - by destruct Hc as [-> _].
  - destruct Hc as [-> Hc]. destruct (Hn x) as [n Hx]; [by left|]. simpl. rewrite Hx. simpl.
    f_equal; [unfold loc_entry; by rewrite Hx|]. apply IH; [done| |lia].
    intros y Hy. apply Hn. by right.
Qed.

Lemma sk_nodes_entries s ns :
  sk_wf s ns -> node_entry <$> (sk_nodes s).*2 = loc_entry (sk_heap s) <$> ns.
Proof.
  intros Hwf. apply skip_nodes_ok.
  - pose proof (wf_chain _ _ Hwf 0%nat ltac:(lia)) as Hc. by rewrite (wf_levels0 s ns) in Hc.
  - intros x Hx. apply (wf_dom _ _ Hwf). by right.
  - rewrite (wf_size _ _ Hwf). lia.
Qed.

Lemma sk_abs_wf s ns : sk_wf s ns -> sk_abs (SkOk s) = loc_map (sk_heap s) ns.
Proof. intros Hwf. simpl. by rewrite (sk_nodes_entries s ns). Qed.

Lemma loc_map_ext h h' l :
  (forall q, q ∈ l -> loc_entry h' q = loc_entry h q) -> loc_map h' l = loc_map h l.
Proof.
  intros He. unfold loc_map. f_equal. apply list_fmap_ext. intros i q Hq. apply He.
  by eapply list_elem_of_lookup_2.
Qed.

Lemma split_not_in h l k :
  (forall x, x ∈ l -> loc_key h x <> k) -> k ∉ (loc_entry h <$> l).*1.
Proof.
  intros Hl Hin. rewrite <- list_fmap_compose in Hin.
  apply list_elem_of_fmap in Hin as (x & -> & Hx). by apply (Hl x).
Qed.

Section split.
Context {h : heap} {ns : list loc} {k : bytes} {l1 : list loc} {o : option loc} {l2 : list loc}.
Context (Hsp : sk_split h ns k l1 o l2).

Lemma split_left : k ∉ (loc_entry h <$> l1).*1.
Proof.
  apply split_not_in. intros x Hx <-. apply (sp_lt _ _ _ _ _ _ Hsp) in Hx.
  by apply (irreflexivity blt) in Hx.
Qed.

Lemma split_right : k ∉ (loc_entry h <$> l2).*1.
Proof.
  apply split_not_in. intros x Hx <-. apply (sp_gt _ _ _ _ _ _ Hsp) in Hx.
  by apply (irreflexivity blt) in Hx.
Qed.

Lemma loc_map_split :
  loc_map h ns = list_to_map ((loc_entry h <$> l1) ++
    (match o with Some x => [(k, (loc_entry h x).2)] | None => [] end) ++ (loc_entry h <$> l2)).
Proof.
  unfold loc_map. rewrite (sp_eq _ _ _ _ _ _ Hsp), !fmap_app. do 2 f_equal.
  pose proof (sp_key _ _ _ _ _ _ Hsp) as Hk. destruct o as [x|]; simpl; [|done].
  rewrite <- (Hk x eq_refl). unfold loc_key. by destruct (loc_entry h x).
Qed.

Lemma loc_map_lookup : loc_map h ns !! k = (fun x => (loc_entry h x).2) <$> o.
Proof.
  rewrite loc_map_split. pose proof split_left. pose proof split_right.
  destruct o as [x|]; simpl.
  - by rewrite ltm_lookup_mid.
  - rewrite ltm_lookup_app_None by done. by apply not_elem_of_list_to_map_1.
Qed.

Lemma loc_map_delete : loc_map h (l1 ++ l2) = delete k (loc_map h ns).
Proof.
  rewrite loc_map_split. pose proof split_left. pose proof split_right.
  unfold loc_map. rewrite fmap_app. destruct o as [x|]; simpl.
  - by apply ltm_delete_mid.
  - rewrite delete_id; [done|]. rewrite ltm_lookup_app_None by done.
    by apply not_elem_of_list_to_map_1.
Qed.

Lemma loc_map_insert h' new w :
  (forall q, q ∈ l1 ++ l2 -> loc_entry h' q = loc_entry h q) ->
  loc_entry h' new = (k, w) ->
  loc_map h' (l1 ++ new :: l2) = <[k := w]> (loc_map h ns).
Proof.
  intros He Hn. unfold loc_map at 1. rewrite fmap_app, fmap_cons, Hn.
  assert (Hx : forall l : list loc, (forall q, q ∈ l -> q ∈ l1 ++ l2) ->
    loc_entry h' <$> l = loc_entry h <$> l).
  { intros l Hl. apply list_fmap_ext. intros i q Hq. apply He, Hl.
    by eapply list_elem_of_lookup_2. }
  rewrite (Hx l1), (Hx l2) by (intros q; rewrite elem_of_app; tauto).
  pose proof split_left as Hnl. rewrite ltm_insert_mid by done.
  rewrite loc_map_split. destruct o as [x|]; simpl; [|done].
  rewrite (ltm_insert_mid _ _ k) by done. by rewrite insert_insert_eq.
Qed.
End split.

Lemma wf_split s ns k : sk_wf s ns -> exists l1 o l2, sk_split (sk_heap s) ns k l1 o l2.
Proof. intros Hwf. apply sk_split_exists, Hwf. Qed.

(** ** Results of the operations *)

Lemma skip_del_ok s ns k :
  sk_wf s ns ->
  exists s' ns', skip_del s (kd_of k)
    = Some (s', match loc_map (sk_heap s) ns !! k with Some _ => 0 | None => 1 end) /\
    sk_wf s' ns' /\ loc_map (sk_heap s') ns' = delete k (loc_map (sk_heap s) ns).
Proof.
  intros Hwf. destruct (wf_split s ns k Hwf) as (l1 & o & l2 & Hsp).
  unfold skip_del. destruct (skip_find_update_ok s ns k l1 o l2) as (r & -> & Hr); [done..|].
  rewrite (loc_map_lookup Hsp). cbn [mbind option_bind]. destruct o as [x|].
  - destruct Hr as (nd & -> & Hnd).
    destruct (skip_remove_ok s ns k l1 x l2) as (s' & -> & Hwf' & He); [done..|].
    exists s', (l1 ++ l2). simpl. split_and!; [done..|].
    rewrite <- (loc_map_delete Hsp). by apply loc_map_ext.
  - subst r. exists s, ns. split_and!; [done..|].
    by rewrite delete_id by by rewrite (loc_map_lookup Hsp).
Qed.

Lemma overwrite_wf s ns x nd v e :
  sk_wf s ns -> x ∈ ns -> sk_heap s !! x = Some nd ->
  let h := <[x := SkipNode (sn_key nd) v e (sn_forward nd)]> (sk_heap s) in
  sk_wf (SkipL (sk_level s) (sk_header s) (sk_count s) h (sk_next s) (sk_seed s)) ns.
Proof.
  intros Hwf Hx Hnd h.
  assert (Hnode : forall q, (fun n => (sn_key n, sn_forward n)) <$> h !! q
    = (fun n => (sn_key n, sn_forward n)) <$> sk_heap s !! q).
  { intros q. unfold h. destruct (decide (q = x)) as [->|Hq].
    - by rewrite lookup_insert_eq, Hnd.
    - by rewrite lookup_insert_ne by congruence. }
  assert (Hlvl : forall q i, lvl h i q = lvl (sk_heap s) i q).
  { intros q i. specialize (Hnode q). unfold lvl.
    by destruct (h !! q), (sk_heap s !! q); simplify_eq/=; rewrite ?H0. }
  assert (Hfwd : forall q i, fwd h q i = fwd (sk_heap s) q i).
  { intros q i. specialize (Hnode q). unfold fwd.
    by destruct (h !! q), (sk_heap s !! q); simplify_eq/=; rewrite ?H0. }
  assert (Hkey : forall q, loc_key h q = loc_key (sk_heap s) q).
  { intros q. specialize (Hnode q). unfold loc_key, loc_entry.
    by destruct (h !! q), (sk_heap s !! q); simplify_eq/=. }
  assert (Hlen : forall q n, h !! q = Some n ->
    exists n0, sk_heap s !! q = Some n0 /\ sn_forward n0 = sn_forward n).
  { intros q n Hn. specialize (Hnode q). rewrite Hn in Hnode.
    destruct (sk_heap s !! q); simplify_eq/=. eauto. }
  destruct Hwf as [H1 H2 H3 H4 H5 H6 H7 H8 H9]. split; simpl; try done.
  - intros q. rewrite <- H2. specialize (Hnode q).
    destruct (h !! q), (sk_heap s !! q); try done; split; intros []; eauto.
  - intros n (n0 & Hn0 & <-)%Hlen. by apply H3.
  - intros q n Hq (n0 & Hn0 & <-)%Hlen. by apply (H4 q).
  - erewrite list_fmap_ext; [exact H6|]. intros. by rewrite Hkey.
  - intros i Hi. change (chain h i (sk_header s :: levels h i ns)).
    rewrite (levels_ext (sk_heap s)) by done. eapply chain_ext; [|by apply H7]. by intros.
Qed.

(** What [set] can do. *)
Inductive sk_set_result (e : cenv) (m : kvmap) (k : bytes) (v : kv_data) (x : Z)
  : option (skiplist * Z) -> Prop :=
| sk_set_stored s ns :
  sk_wf s ns -> loc_map (sk_heap s) ns = <[k := (kd_bytes v, x)]> m ->
  sk_set_result e m k v x (Some (s, 0))
| sk_set_failed s ns level :
  skipnode_create e level (kd_of k) v x = None -> (level <= MAX_LEVEL)%nat ->
  sk_wf s ns -> (loc_map (sk_heap s) ns = m \/ loc_map (sk_heap s) ns = delete k m) ->
  sk_set_result e m k v x (Some (s, -2)).

Lemma skip_insert_absent e s ns k v x l1 l2 :
  sk_wf s ns -> sk_split (sk_heap s) ns k l1 None l2 ->
  sk_set_result e (loc_map (sk_heap s) ns) k v x
    (skip_insert e s (pred_at s l1 <$> seq 0 (S (sk_level s))) (kd_of k) v x).
Proof.
  intros Hwf Hsp.
  destruct (skip_insert_ok e s ns k l1 l2 v x Hwf Hsp) as [s' new Hwf' He Hn|s' level Hc Hl Hwf' Hh].
  - eapply sk_set_stored; [exact Hwf'|]. apply (loc_map_insert Hsp); [|done].
    intros q Hq. apply He. rewrite (sp_eq _ _ _ _ _ _ Hsp). done.
  - eapply sk_set_failed; [done..|]. left. by rewrite Hh.
Qed.

Lemma skip_set_ok e s ns k v x :
  sk_wf s ns ->
  sk_set_result e (loc_map (sk_heap s) ns) k v x (skip_set e s (kd_of k) v x).
Proof.
  intros Hwf. destruct (wf_split s ns k Hwf) as (l1 & o & l2 & Hsp). unfold skip_set.
  destruct (skip_find_update_ok s ns k l1 o l2) as (r & -> & Hr); [done..|].
  cbn [mbind option_bind]. destruct o as [z|]; [|subst r; by apply skip_insert_absent with l2].
  destruct Hr as (nd & -> & Hnd). destruct (kd_len v <=? _).
  - assert (Hz : z ∈ ns) by (rewrite (sp_eq _ _ _ _ _ _ Hsp), !elem_of_app; right; left; by left).
    assert (Hnz : forall q, q ∈ l1 ++ l2 -> q <> z).
    { intros q Hq ->. pose proof (wf_nodup _ _ Hwf) as Hnd'.
      rewrite (sp_eq _ _ _ _ _ _ Hsp) in Hnd'. simpl in Hnd'.
      rewrite <- Permutation_middle in Hnd'. apply NoDup_cons in Hnd' as [_ Hnd'].
      by apply NoDup_cons in Hnd' as [Hz' _]. }
    eapply sk_set_stored; [by apply overwrite_wf|]. simpl.
    rewrite (sp_eq _ _ _ _ _ _ Hsp) at 1. simpl. apply (loc_map_insert Hsp).
    + intros q Hq. unfold loc_entry. by rewrite lookup_insert_ne by by apply not_eq_sym, Hnz.
    + unfold loc_entry. rewrite lookup_insert_eq. simpl. unfold node_entry. simpl.
      pose proof (sp_key _ _ _ _ _ _ Hsp z eq_refl) as Hk. unfold loc_key, loc_entry in Hk.
      rewrite Hnd in Hk. simpl in Hk. by rewrite Hk.
  - destruct (skip_del_ok s ns k Hwf) as (s' & ns' & -> & Hwf' & Hm').
    cbn [mbind option_bind fst snd].
    destruct (wf_split s' ns' k Hwf') as (l1' & o' & l2' & Hsp').
    destruct (skip_find_update_ok s' ns' k l1' o' l2') as (r' & -> & Hr'); [done..|].
    cbn [mbind option_bind fst snd].
    pose proof (loc_map_lookup Hsp') as Hlk. rewrite Hm', lookup_delete_eq in Hlk.
    destruct o'; [done|].
    destruct (skip_insert_absent e s' ns' k v x l1' l2') as [s2 ns2 Hwf2 Hm2|s2 ns2 lv Hc Hl Hwf2 Hm2];
      [done..| |]; rewrite Hm' in Hm2.
    + eapply sk_set_stored; [exact Hwf2|]. by rewrite Hm2, insert_delete_eq.
    + eapply sk_set_failed; [done..|]. right. destruct Hm2 as [->| ->]; [done|].
      by rewrite delete_delete_eq.
Qed.

Lemma skip_find_abs s ns k :
  sk_wf s ns ->
  exists us r, skip_find_update s (kd_of k) = Some (us, r) /\
    loc_map (sk_heap s) ns !! k = (fun p => (sn_value p.2, sn_expire p.2)) <$> r /\
    (forall x nd, r = Some (x, nd) -> exists s' ns', skip_remove s x us = Some s' /\
       sk_wf s' ns' /\ loc_map (sk_heap s') ns' = delete k (loc_map (sk_heap s) ns)).
Proof.
  intros Hwf. destruct (wf_split s ns k Hwf) as (l1 & o & l2 & Hsp).
  destruct (skip_find_update_ok s ns k l1 o l2) as (r & Hfu & Hr); [done..|].
  eexists _, r. split; [exact Hfu|]. rewrite (loc_map_lookup Hsp). destruct o as [x|].
  - destruct Hr as (nd & -> & Hnd). split.
    + simpl. unfold loc_entry. by rewrite Hnd.
    + intros ? ? [= <- <-].
      destruct (skip_remove_ok s ns k l1 x l2) as (s' & Hs' & Hwf' & He); [done..|].
      exists s', (l1 ++ l2). split_and!; [done..|]. rewrite <- (loc_map_delete Hsp).
      by apply loc_map_ext.
  - by subst r.
Qed.

Lemma skipnode_create_mem_ok e level k v x :
  mem_ok e -> (level <= MAX_LEVEL)%nat ->
  Z.of_nat (length k) < 2 ^ 31 -> kd_len v < 2 ^ 31 ->
  skipnode_create e level (kd_of k) v x <> None.
Proof.
  unfold kd_len, MAX_LEVEL. intros Hm Hl Hk Hv. unfold skipnode_create, alloc_ok, sizeof_skipnode.
  rewrite Hm. change (kd_len (kd_of k)) with (Z.of_nat (length k)). unfold kd_len.
  rewrite u64_small by lia.
  by destruct (Z.eqb_spec (64 + 8 * (Z.of_nat level + 1) + Z.of_nat (length k)
    + Z.of_nat (length (kd_bytes v))) 0); [lia|].
Qed.

Lemma skip_get_ok e s ns k :
  sk_wf s ns ->
  let m := loc_map (sk_heap s) ns in
  exists s' ns' r, skip_get e s (kd_of k) = Some (s', r) /\ sk_wf s' ns' /\
  match m !! k with
  | Some (v, x) =>
    if is_expired e x then r = None /\ loc_map (sk_heap s') ns' = delete k m
    else s' = s /\ r = Some (kd_of v)
  | None => s' = s /\ r = None
  end.
Proof.
  intros Hwf m. destruct (skip_find_abs s ns k Hwf) as (us & r & Hf & Hlk & Hr).
  subst m. rewrite Hlk. unfold skip_get. rewrite Hf. simpl.
  destruct r as [[x nd]|]; simpl; [|by exists s, ns, None].
  destruct (is_expired e (sn_expire nd)) eqn:Ex; [|by eexists s, ns, _].
  destruct (Hr x nd eq_refl) as (s' & ns' & Hrm & Hwf' & Hm').
  unfold handle_expired_node. rewrite Hrm. unfold is_expired in Ex. unbool.
  destruct (Z.leb_spec (sn_expire nd) 0); [lia|].
  destruct (Z.leb_spec (ce_now e) (sn_expire nd)); [lia|].
  by exists s', ns', None.
Qed.

Lemma kvs_skip_get_ok e inst k :
  sk_inv inst ->
  sk_inv (kvs_skip_get e inst (kd_of k)).1 /\
  match sk_abs inst !! k with
  | Some (v, x) =>
    if is_expired e x then
      (kvs_skip_get e inst (kd_of k)).2 = None /\
      sk_abs (kvs_skip_get e inst (kd_of k)).1 = delete k (sk_abs inst)
    else kvs_skip_get e inst (kd_of k) = (inst, Some (kd_of v))
  | None => kvs_skip_get e inst (kd_of k) = (inst, None)
  end.
Proof.
  destruct inst as [s|]; [|done]. intros [ns Hwf]. unfold kvs_skip_get, sk_run.
  destruct (skip_get_ok e s ns k Hwf) as (s' & ns' & r & -> & Hwf' & Hm).
  rewrite (sk_abs_wf s ns Hwf). cbn [fst snd]. split; [by exists ns'|].
  destruct (loc_map (sk_heap s) ns !! k) as [[v x]|]; [|by destruct Hm as [-> ->]].
  destruct (is_expired e x); [|by destruct Hm as [-> ->]].
  destruct Hm as [-> Hm]. split; [done|]. by rewrite (sk_abs_wf s' ns').
Qed.

Lemma kvs_skip_del_ok e inst k :
  sk_inv inst ->
  sk_inv (kvs_skip_del e inst (kd_of k)).1 /\
  sk_abs (kvs_skip_del e inst (kd_of k)).1 = delete k (sk_abs inst) /\
  (kvs_skip_del e inst (kd_of k)).2
    = (match sk_abs inst !! k with Some _ => 0 | None => 1 end).
Proof.
  destruct inst as [s|]; [|done]. intros [ns Hwf]. unfold kvs_skip_del, sk_run.
  destruct (skip_del_ok s ns k Hwf) as (s' & ns' & -> & Hwf' & Hm).
  rewrite (sk_abs_wf s ns Hwf). cbn [fst snd]. split_and!; [by exists ns'| |done].
  by rewrite (sk_abs_wf s' ns').
Qed.

Lemma kvs_skip_set_ok e inst k v x :
  sk_inv inst ->
  let r := kvs_skip_set e inst (kd_of k) v x in
  sk_inv r.1 /\
  (r.2 = 0 -> sk_abs r.1 = <[k := (kd_bytes v, x)]> (sk_abs inst)) /\
  delete k (sk_abs r.1) = delete k (sk_abs inst) /\
  (mem_ok e -> Z.of_nat (length k) < 2 ^ 31 -> kd_len v < 2 ^ 31 -> r.2 = 0).
Proof.
  destruct inst as [s|]; [|done]. intros [ns Hwf]. unfold kvs_skip_set, sk_run.
  destruct (skip_set_ok e s ns k v x Hwf) as [s' ns' Hwf' Hm|s' ns' lv Hc Hl Hwf' Hm];
    rewrite (sk_abs_wf s ns Hwf); cbn [fst snd]; rewrite (sk_abs_wf s' ns' Hwf');
    (split; [by exists ns'|]); split_and!; try done.
  - by rewrite Hm, delete_insert_eq.
  - by destruct Hm as [-> | ->]; rewrite ?delete_delete_eq.
  - intros He Hk Hv. by destruct (skipnode_create_mem_ok e lv k v x He Hl Hk Hv).
Qed.

Lemma kvs_skip_del_if_expired_ok e inst k x :
  sk_inv inst ->
  kvs_skip_del_if_expired e inst (kd_of k) x =
  match sk_abs inst !! k with
  | Some (v, x') =>
    if bool_decide (x' = x) then ((kvs_skip_del e inst (kd_of k)).1, 1) else (inst, 0)
  | None => (inst, 0)
  end.
Proof.
  destruct inst as [s|]; [|done]. intros [ns Hwf]. rewrite (sk_abs_wf s ns Hwf).
  unfold kvs_skip_del_if_expired, kvs_skip_del, sk_run, skip_del_if_expired.
  destruct (skip_find_abs s ns k Hwf) as (us & r & -> & -> & _).
  destruct (skip_del_ok s ns k Hwf) as (s' & ns' & -> & _).
  destruct r as [[y nd]|]; simpl; [|done].
  by destruct (Z.eqb_spec (sn_expire nd) x); case_bool_decide.
Qed.

Lemma loc_entries_nodup s ns : sk_wf s ns -> NoDup (loc_entry (sk_heap s) <$> ns).*1.
Proof.
  intros Hwf. pose proof (wf_sorted _ _ Hwf) as Hs. rewrite <- list_fmap_compose.
  change (NoDup (loc_key (sk_heap s) <$> ns)).
  induction (loc_key (sk_heap s) <$> ns) as [|k l IH]; [constructor|].
  apply StronglySorted_cons in Hs as [Hf Hs]. constructor; [|by apply IH].
  rewrite Forall_forall in Hf. intros Hin%Hf. by apply (irreflexivity blt) in Hin.
Qed.

Lemma sk_size_abs s ns : sk_wf s ns -> size (sk_abs (SkOk s)) = length ns.
Proof.
  intros Hwf. rewrite (sk_abs_wf s ns Hwf). unfold loc_map.
  rewrite map_size_list_to_map by by apply loc_entries_nodup. by rewrite length_fmap.
Qed.

Lemma kvs_skip_foreach_ok e inst :
  sk_inv inst ->
  kvs_skip_foreach e inst ≡ₚ
    map_to_list (filter (fun kv => is_expired e kv.2.2 = false) (sk_abs inst)).
Proof.
  destruct inst as [s|]; [|done]. intros [ns Hwf]. rewrite (sk_abs_wf s ns Hwf).
  unfold loc_map. rewrite <- filter_map_to_list.
  - rewrite <- (sk_nodes_entries s ns Hwf). simpl. apply Permutation_refl'.
    induction (sk_nodes s).*2 as [|nd l IH]; [done|].
    rewrite fmap_cons, !filter_cons. simpl.
    case_decide; [|done]. simpl. f_equal. exact IH.
  - by apply loc_entries_nodup.
Qed.

#[export] Program Instance skip_laws : KvEngineLaws kvs_skip := {
  eng_inv := sk_inv;
  eng_abs := sk_abs;
  eng_key _ := True;
  eng_room _ _ := True
}.
Next Obligation. intros. by apply kvs_skip_set_ok. Qed.
Next Obligation. intros. by apply kvs_skip_set_ok. Qed.
Next Obligation. intros. by apply kvs_skip_set_ok. Qed.
Next Obligation. intros. by apply kvs_skip_set_ok. Qed.
Next Obligation. intros. by apply kvs_skip_get_ok. Qed.
Next Obligation.
  intros e s k Hi _. simpl. destruct (kvs_skip_get_ok e s k Hi) as [_ Hg].
  destruct (sk_abs s !! k) as [[v x]|]; [|done]. destruct (is_expired e x); [done|].
  rewrite Hg. simpl. eauto.
Qed.
Next Obligation. intros. by apply kvs_skip_del_ok. Qed.
Next Obligation. intros e s k Hi _. simpl. by apply kvs_skip_del_ok. Qed.
Next Obligation. done. Qed.
Next Obligation.
  intros e s k _ _. simpl. unfold kvs_skip_exist.
  by destruct (kvs_skip_get e s (kd_of k)) as [s' [d|]].
Qed.
Next Obligation. intros. by apply kvs_skip_del_if_expired_ok. Qed.
Next Obligation. intros. by apply kvs_skip_foreach_ok. Qed.

Lemma kvs_skip_create_ok e seed :
  mem_ok e ->
  exists s, kvs_skip_create e seed = (Some s, 0) /\ sk_inv s /\ sk_abs s = ∅.
Proof.
  intros Hm. unfold kvs_skip_create, skipnode_create, alloc_ok. rewrite Hm.
  change (negb _) with true. cbn [andb].
  eexists. split; [done|].
  match goal with |- sk_inv (SkOk ?s0) /\ _ => set (s := s0) end.
  assert (Hwf : sk_wf s []).
  { split; simpl; try done.
    - repeat constructor. set_solver.
    - intros x. rewrite list_elem_of_singleton. unfold s. simpl.
      destruct (decide (x = 0%nat)) as [->|Hx].
      + by rewrite lookup_singleton_eq.
      + rewrite lookup_singleton_ne by congruence. split; [by intros []|done].
    - unfold s. simpl. rewrite lookup_singleton_eq. by intros n [= <-].
    - set_solver.
    - lia.
    - constructor.
    - intros i Hi. split; [|done]. unfold s, fwd. simpl. rewrite lookup_singleton_eq. simpl.
      apply (lookup_replicate_2 (S MAX_LEVEL)). lia.
    - intros x Hx%list_elem_of_singleton. subst x. unfold s. simpl. lia. }
  split; [by exists []|]. by rewrite (sk_abs_wf s [] Hwf).
Qed.
