(* ===== verification/ZSet.v ===== *)
(** * The sorted set on top of the skip list (kvs_skiptable.c)

    ZADD stores an entry as the key ["timestamp:id"], the timestamp padded to
    15 digits, with an empty value, in the skip list that also serves the
    SSET commands; ZRANGE and ZRECENT walk the list.  The file models the key
    layout and the walks and proves that the order of the padded keys is the
    order of the timestamps. *)

From S2P Require Import Prelude KvData Engine SkipList.

Open Scope Z_scope.

(** [snprintf("%015lld")] *)
Definition fmt015 (z : Z) : bytes :=
  if z <? 0 then
    let d := dec_u (- z) in x2d :: replicate (14 - length d) x30 ++ d
  else
    let d := dec_u z in replicate (15 - length d) x30 ++ d.

Definition COLON : byte := x3a.

(** [zset_make_key]: the key, or None when the buffer of [buf_size] bytes is
    too small. *)
Definition zset_make_key (buf_size ts : Z) (id : bytes) : option bytes :=
  let p := fmt015 ts ++ [COLON] in
  if buf_size <=? Z.of_nat (length p) + Z.of_nat (length id) then None else Some (p ++ id).

(** [zset_extract_id]; [i] numbers the allocation. *)
Definition zset_extract_id (e : cenv) (i : nat) (kdata : bytes) : option bytes :=
  if (length kdata <? 16)%nat then None
  else if alloc_ok e i (Z.of_nat (length kdata) - 16 + 1) then Some (drop 16 kdata) else None.

Definition kvs_zset_add (e : cenv) (inst : kvs_skip) (timestamp : Z) (id : kv_data)
  : kvs_skip * Z :=
  match kd_data id with
  | None | Some [] => (inst, -1)
  | Some l =>
    match zset_make_key 128 timestamp l with
    | None => (inst, -1)
    | Some key => kvs_skip_set e inst (kd_of key) kd_null 0
    end
  end.

(** The collecting loop: the ids of the keys, up to [want]. *)
Fixpoint zset_collect (e : cenv) (i : nat) (want : nat) (keys : list bytes) : list bytes :=
  match keys with
  | [] => []
  | k :: keys =>
    match want with
    | O => []
    | S want' =>
      match zset_extract_id e i k with
      | Some id => id :: zset_collect e (S i) want' keys
      | None => zset_collect e (S i) want keys
      end
    end
  end.

Definition zset_keys (inst : kvs_skip) : list bytes :=
  match inst with
  | SkCorrupt => []
  | SkOk s => sn_key <$> (sk_nodes s).*2
  end.

Definition kvs_zset_recent (e : cenv) (inst : kvs_skip) (n : Z) : Z * list bytes :=
  if n <=? 0 then (-1, [])
  else
    let keys := zset_keys inst in
    let total := length keys in
    if (total =? 0)%nat then (0, [])
    else
      let start := if n <? Z.of_nat total then (total - Z.to_nat n)%nat else 0%nat in
      let want := (total - start)%nat in
      if alloc_ok e 0 (8 * Z.of_nat want) then
        (0, zset_collect e 1 want (drop start keys))
      else (-1, []).

(** [strncmp]; a list that ends is followed by a NUL. *)
Fixpoint strncmp (a b : bytes) (n : nat) : Z :=
  match n with
  | O => 0
  | S n =>
    let x := b2z (nth 0 a x00) in
    let y := b2z (nth 0 b x00) in
    if negb (x =? y) then x - y
    else if x =? 0 then 0
    else strncmp (drop 1 a) (drop 1 b) n
  end.

(** The two passes of [kvs_zset_range] visit the same keys. *)
Fixpoint zset_scan (min_prefix max_prefix : bytes) (keys : list bytes) : list bytes :=
  match keys with
  | [] => []
  | k :: keys =>
    if (length k <? 16)%nat then zset_scan min_prefix max_prefix keys
    else if strncmp k min_prefix 15 <? 0 then zset_scan min_prefix max_prefix keys
    else if 0 <? strncmp k max_prefix 15 then []
    else k :: zset_scan min_prefix max_prefix keys
  end.

Definition kvs_zset_range (e : cenv) (inst : kvs_skip) (min_ts max_ts : Z) : Z * list bytes :=
  if max_ts <? min_ts then (-1, [])
  else
    let found := zset_scan (fmt015 min_ts) (fmt015 max_ts) (zset_keys inst) in
    let count := length found in
    if (count =? 0)%nat then (0, [])
    else if alloc_ok e 0 (8 * Z.of_nat count) then (0, zset_collect e 1 count found)
    else (-1, []).

(** ** The order of the keys *)

(** A timestamp that fits the 15 digits. *)
Definition ts_ok (ts : Z) : Prop := 0 <= ts < 10 ^ 15.

Definition zkey (p : Z * bytes) : bytes := digs 15 p.1 ++ COLON :: p.2.

Lemma fmt015_digs ts : ts_ok ts -> fmt015 ts = digs 15 ts.
Proof.
  intros Hts. unfold fmt015. destruct (Z.ltb_spec ts 0); [unfold ts_ok in *; lia|].
  unfold dec_u. rewrite length_digs.
  assert (Hn : (ndigits 20 ts <= 15)%nat) by (apply ndigits_le; [exact Hts|lia]).
  rewrite <- digs_pad.
  - f_equal. lia.
  - split; [done|]. apply ndigits_bound. split; [done|].
    eapply Z.lt_le_trans; [apply Hts|]. by apply Z.pow_le_mono_r.
Qed.

Lemma zset_make_key_ok ts id :
  ts_ok ts -> (length id < 112)%nat -> zset_make_key 128 ts id = Some (zkey (ts, id)).
Proof.
  intros Hts Hid. unfold zset_make_key, zkey. rewrite fmt015_digs by done.
  rewrite length_app, length_digs. simpl length.
  destruct (Z.leb_spec 128 (Z.of_nat (15 + 1) + Z.of_nat (length id))); [lia|].
  simpl fst. by rewrite <- app_assoc.
Qed.

Lemma digit_mod_cmp n a b :
  0 <= a -> 0 <= b ->
  let p := 10 ^ Z.of_nat n in
  let q := 10 ^ Z.of_nat (S n) in
  let da := (a / p) mod 10 in
  let db := (b / p) mod 10 in
  a mod q = da * p + a mod p /\ b mod q = db * p + b mod p /\
  0 <= a mod p < p /\ 0 <= b mod p < p /\ 0 <= da < 10 /\ 0 <= db < 10.
Proof.
  intros Ha Hb p q. assert (0 < p) by (apply Z.pow_pos_nonneg; lia).
  assert (q = p * 10) as -> by (unfold q, p; rewrite Nat2Z.inj_succ, Z.pow_succ_r; lia).
  intros da db. rewrite !Z.rem_mul_r by lia. unfold da, db.
  split_and!; try lia; apply Z.mod_pos_bound; lia.
Qed.

(** Comparing the digits compares the numbers. *)
Lemma strncmp_digs n a b ra rb :
  0 <= a -> 0 <= b ->
  (strncmp (digs n a ++ ra) (digs n b ++ rb) n < 0 <->
     a mod 10 ^ Z.of_nat n < b mod 10 ^ Z.of_nat n) /\
  (0 < strncmp (digs n a ++ ra) (digs n b ++ rb) n <->
     b mod 10 ^ Z.of_nat n < a mod 10 ^ Z.of_nat n).
Proof.
  intros Ha Hb. induction n as [|n IH]; [rewrite !Z.mod_1_r; simpl; lia|].
  destruct (digit_mod_cmp n a b Ha Hb) as (-> & -> & Hpa & Hpb & Hda & Hdb).
  cbn [digs app strncmp nth drop]. rewrite !drop_0.
  rewrite !b2z_digit by done.
  set (p := 10 ^ Z.of_nat n) in *. set (da := (a / p) mod 10) in *. set (db := (b / p) mod 10) in *.
  destruct (Z.eqb_spec (48 + da) (48 + db)) as [Heq|Hne]; simpl negb; cbn iota.
  - destruct (Z.eqb_spec (48 + da) 0); [lia|]. replace db with da by lia. lia.
  - nia.
Qed.

Lemma zkey_cmp n p q r1 r2 :
  0 <= p -> 0 <= q ->
  blt (digs n p ++ r1) (digs n q ++ r2) ->
  p mod 10 ^ Z.of_nat n <= q mod 10 ^ Z.of_nat n.
Proof.
  intros Hp Hq. induction n as [|n IH]; [rewrite !Z.mod_1_r; lia|].
  destruct (digit_mod_cmp n p q Hp Hq) as (-> & -> & Hpa & Hpb & Hda & Hdb).
  cbn [digs app]. unfold blt. rewrite bytes_cmp_cons.
  set (t := 10 ^ Z.of_nat n) in *. set (da := (p / t) mod 10) in *. set (db := (q / t) mod 10) in *.
  case_bool_decide as Hd.
  - intros Hb. apply IH in Hb. apply (f_equal b2z) in Hd. rewrite !b2z_digit in Hd by done. nia.
  - rewrite !b2z_digit by done. nia.
Qed.

(** ** ZADD, ZRANGE and ZRECENT *)

Lemma zkey_length p : length (zkey p) = (16 + length p.2)%nat.
Proof. unfold zkey. rewrite length_app, length_digs. simpl. lia. Qed.

Lemma zset_extract_zkey e i p :
  mem_ok e -> zset_extract_id e i (zkey p) = Some p.2.
Proof.
  intros Hm. unfold zset_extract_id, alloc_ok. rewrite Hm, zkey_length.
  destruct (Nat.ltb_spec (16 + length p.2) 16); [lia|].
  destruct (Z.eqb_spec (Z.of_nat (16 + length p.2) - 16 + 1) 0); [lia|]. simpl. f_equal.
Qed.

Lemma zset_collect_zkeys e i l :
  mem_ok e -> zset_collect e i (length l) (zkey <$> l) = l.*2.
Proof.
  intros Hm. revert i. induction l as [|p l IH]; intros i; [done|].
  rewrite !fmap_cons. cbn [length zset_collect]. rewrite zset_extract_zkey by done.
  f_equal. apply IH.
Qed.

Lemma strncmp_zkey p ts :
  ts_ok p.1 -> ts_ok ts ->
  (strncmp (zkey p) (fmt015 ts) 15 < 0 <-> p.1 < ts) /\
  (0 < strncmp (zkey p) (fmt015 ts) 15 <-> ts < p.1).
Proof.
  intros Hp Ht. rewrite fmt015_digs by done. unfold zkey.
  rewrite <- (app_nil_r (digs 15 ts)).
  destruct (strncmp_digs 15 p.1 ts (COLON :: p.2) []) as [H1 H2]; [apply Hp|apply Ht|].
  rewrite H1, H2. unfold ts_ok in *. simpl Z.of_nat. rewrite !Z.mod_small by lia. done.
Qed.

Definition in_range (min_ts max_ts : Z) (p : Z * bytes) : Prop := min_ts <= p.1 <= max_ts.

#[export] Instance in_range_dec min_ts max_ts p : Decision (in_range min_ts max_ts p).
Proof. unfold in_range. apply _. Defined.

(** The scan of sorted keys keeps those in the range; its early exit loses
    nothing. *)
Lemma zset_scan_zkeys min_ts max_ts l :
  ts_ok min_ts -> ts_ok max_ts -> Forall (fun p => ts_ok p.1) l ->
  StronglySorted blt (zkey <$> l) ->
  zset_scan (fmt015 min_ts) (fmt015 max_ts) (zkey <$> l)
  = zkey <$> filter (in_range min_ts max_ts) l.
Proof.
  intros Hmin Hmax. induction l as [|p l IH]; [done|].
  intros [Hp Hl]%Forall_cons Hs. rewrite fmap_cons in Hs.
  apply StronglySorted_cons in Hs as [Hf Hs]. rewrite filter_cons, fmap_cons. cbn [zset_scan].
  rewrite zkey_length. destruct (Nat.ltb_spec (16 + length p.2) 16); [lia|].
  destruct (strncmp_zkey p min_ts Hp Hmin) as [H1 _].
  destruct (strncmp_zkey p max_ts Hp Hmax) as [_ H2].
  destruct (Z.ltb_spec (strncmp (zkey p) (fmt015 min_ts) 15) 0) as [Hlt|Hge].
  { rewrite decide_False by (unfold in_range; lia). by apply IH. }
  destruct (Z.ltb_spec 0 (strncmp (zkey p) (fmt015 max_ts) 15)) as [Hgt|Hle].
  - rewrite decide_False by (unfold in_range; lia).
    assert (filter (in_range min_ts max_ts) l = []) as ->; [|done].
    rewrite Forall_forall in Hf. pose proof (proj1 (Forall_forall _ _) Hl) as Hl'. apply filter_none.
    intros q Hq Hr. assert (Hb : blt (zkey p) (zkey q)).
    { apply Hf, list_elem_of_fmap. eauto. }
    unfold zkey in Hb. apply zkey_cmp in Hb; [|apply Hp|by apply Hl'].
    specialize (Hl' q Hq). unfold in_range, ts_ok in *. simpl Z.of_nat in Hb.
    rewrite !Z.mod_small in Hb by lia. lia.
  - rewrite decide_True by (unfold in_range; lia). rewrite fmap_cons. f_equal. by apply IH.
Qed.

(** The keys of a well-formed list are sorted. *)
Lemma zset_keys_sorted inst : sk_inv inst -> StronglySorted blt (zset_keys inst).
Proof.
  destruct inst as [s|]; [|done]. intros [ns Hwf]. simpl.
  pose proof (sk_nodes_entries s ns Hwf) as He. pose proof (wf_sorted _ _ Hwf) as Hs.
  assert (sn_key <$> (sk_nodes s).*2 = loc_key (sk_heap s) <$> ns) as ->; [|done].
  transitivity ((node_entry <$> (sk_nodes s).*2).*1).
  - exact (list_fmap_compose node_entry fst _).
  - rewrite He. symmetry. exact (list_fmap_compose (loc_entry (sk_heap s)) fst _).
Qed.

Lemma zset_range_ok e inst l min_ts max_ts :
  mem_ok e -> sk_inv inst -> zset_keys inst = zkey <$> l -> Forall (fun p => ts_ok p.1) l ->
  ts_ok min_ts -> ts_ok max_ts -> min_ts <= max_ts ->
  kvs_zset_range e inst min_ts max_ts = (0, (filter (in_range min_ts max_ts) l).*2).
Proof.
  intros Hm Hi Hk Hl Hmin Hmax Hle. unfold kvs_zset_range.
  destruct (Z.ltb_spec max_ts min_ts); [lia|].
  pose proof (zset_keys_sorted inst Hi) as Hs. rewrite Hk in *.
  rewrite zset_scan_zkeys by done. rewrite length_fmap.
  set (r := filter (in_range min_ts max_ts) l).
  destruct (Nat.eqb_spec (length r) 0) as [Hz|Hnz].
  - apply nil_length_inv in Hz. by rewrite Hz.
  - unfold alloc_ok. rewrite Hm. destruct (Z.eqb_spec (8 * Z.of_nat (length r)) 0); [lia|].
    simpl. by rewrite zset_collect_zkeys.
Qed.

Lemma zset_recent_ok e inst l n :
  mem_ok e -> sk_inv inst -> zset_keys inst = zkey <$> l -> 0 < n ->
  kvs_zset_recent e inst n = (0, (drop (length l - Z.to_nat n) l).*2).
Proof.
  intros Hm Hi Hk Hn. unfold kvs_zset_recent. rewrite Hk, length_fmap.
  destruct (Z.leb_spec n 0); [lia|].
  destruct (Nat.eqb_spec (length l) 0) as [Hz|Hnz].
  { apply nil_length_inv in Hz. by subst l. }
  assert ((if n <? Z.of_nat (length l) then (length l - Z.to_nat n)%nat else 0%nat)
    = (length l - Z.to_nat n)%nat) as ->.
  { destruct (Z.ltb_spec n (Z.of_nat (length l))); lia. }
  set (st := (length l - Z.to_nat n)%nat). unfold alloc_ok. rewrite Hm.
  destruct (Z.eqb_spec (8 * Z.of_nat (length l - st)) 0); [lia|]. simpl.
  rewrite <- fmap_drop, <- length_drop. by rewrite zset_collect_zkeys.
Qed.

(** ** What the sorted set guarantees *)

(** The list holds the entries [l], as ZADD stores them. *)
Definition zset_holds (inst : kvs_skip) (l : list (Z * bytes)) : Prop :=
  sk_inv inst /\ zset_keys inst = zkey <$> l /\ Forall (fun p => ts_ok p.1) l.

(** C33.  For timestamps of up to 15 digits the text order of the padded keys
    makes a range query exact: it gives the ids whose timestamp is in the
    range, in the order of the list, and its early exit loses none. *)
Theorem zset_range_exact e inst l min_ts max_ts :
  mem_ok e -> zset_holds inst l -> ts_ok min_ts -> ts_ok max_ts -> min_ts <= max_ts ->
  kvs_zset_range e inst min_ts max_ts = (0, (filter (in_range min_ts max_ts) l).*2).
Proof. intros Hm (Hi & Hk & Hl). by apply zset_range_ok. Qed.

(** The [n] most recent entries: the ids of the last [n] entries of the
    list, which is sorted by timestamp. *)
Theorem zset_recent_latest e inst l n :
  mem_ok e -> zset_holds inst l -> 0 < n ->
  kvs_zset_recent e inst n = (0, (drop (length l - Z.to_nat n) l).*2) /\
  StronglySorted (fun p q => p.1 <= q.1) l.
Proof.
  intros Hm (Hi & Hk & Hl) Hn. split; [by apply zset_recent_ok|].
  pose proof (zset_keys_sorted inst Hi) as Hs. rewrite Hk in Hs. clear Hk Hi Hm Hn.
  induction l as [|p l IH]; [constructor|]. apply Forall_cons in Hl as [Hp Hl].
  rewrite fmap_cons in Hs. apply StronglySorted_cons in Hs as [Hf Hs].
  constructor; [by apply IH|]. apply Forall_forall. intros q Hq.
  rewrite Forall_forall in Hf. rewrite Forall_forall in Hl.
  assert (Hb : blt (zkey p) (zkey q)) by (apply Hf, list_elem_of_fmap; eauto).
  specialize (Hl q Hq). unfold zkey in Hb. apply zkey_cmp in Hb; [|apply Hp|apply Hl].
  unfold ts_ok in *. simpl Z.of_nat in Hb. rewrite !Z.mod_small in Hb by lia. lia.
Qed.

(** Three entries added out of order. *)
Definition zset_env : cenv := CEnv true 0 (fun _ _ => true) 3.

Definition zset_sample : kvs_skip :=
  fold_left (fun s p => (kvs_zset_add zset_env s p.1 (kd_of p.2)).1)
    [(30, str "c"); (10, str "a"); (20, str "b")]
    (default SkCorrupt (kvs_skip_create zset_env 5).1).

Lemma zset_add_inv e inst ts id : sk_inv inst -> sk_inv (kvs_zset_add e inst ts id).1.
Proof.
  intros Hi. unfold kvs_zset_add. destruct (kd_data id) as [[|b l]|]; try done.
  destruct (zset_make_key 128 ts (b :: l)) as [k|]; [|done].
  exact (eng_set_inv (T := kvs_skip) e inst k kd_null 0 Hi I).
Qed.

Lemma zset_sample_holds : zset_holds zset_sample [(10, str "a"); (20, str "b"); (30, str "c")].
Proof.
  split_and!; [|by vm_compute|repeat constructor; done].
  unfold zset_sample. destruct (kvs_skip_create_ok zset_env 5) as (s & -> & Hi & _); [done|].
  by repeat apply zset_add_inv.
Qed.

Lemma zset_range_exact_witness :
  zset_holds zset_sample [(10, str "a"); (20, str "b"); (30, str "c")] /\
  kvs_zset_range zset_env zset_sample 5 25
  = (0, (filter (in_range 5 25) [(10, str "a"); (20, str "b"); (30, str "c")]).*2).
Proof.
  split; [exact zset_sample_holds|].
  apply zset_range_exact; [done|exact zset_sample_holds|done|done|done].
Defined.

Lemma zset_recent_latest_witness :
  zset_holds zset_sample [(10, str "a"); (20, str "b"); (30, str "c")] /\
  kvs_zset_recent zset_env zset_sample 2
    = (0, (drop (3 - Z.to_nat 2) [(10, str "a"); (20, str "b"); (30, str "c")]).*2) /\
  StronglySorted (fun p q => p.1 <= q.1) [(10, str "a"); (20, str "b"); (30, str "c")].
Proof.
  split; [exact zset_sample_holds|].
  apply (zset_recent_latest zset_env zset_sample [(10, str "a"); (20, str "b"); (30, str "c")] 2);
    [done|exact zset_sample_holds|done].
Defined.
