(* ===== verification/Engines.v ===== *)
(** * The four engines implement the key-value map

    Each theorem runs an arbitrary sequence of operations on a freshly created
    engine and concludes that the replies and the content are those of the
    specification [EngineSpec.spec_run] started on the empty map.  Memory may
    run out at any allocation and the clock may go anywhere between two
    operations. *)

From S2P Require Import Prelude KvData Engine EngineSpec.
From S2P Require Import ArrayEngine HashEngine RbTree SkipList.

Open Scope Z_scope.

(** A key the array can hold: an empty key is stored with a NULL pointer and
    never found again. *)
Definition nonempty_key (o : op) : Prop := op_key o <> Some [].

(** The array has room for a key it holds already, and for a new one while it
    has fewer than [KVS_ARRAY_SIZE] keys. *)
Definition array_fits (m : kvmap) (k : bytes) : Prop :=
  is_Some (m !! k) \/ Z.of_nat (size m) < KVS_ARRAY_SIZE.

Definition hash_fits (m : kvmap) (k : bytes) : Prop := Z.of_nat (size m) < 2 ^ 30.

Definition always_fits (m : kvmap) (k : bytes) : Prop := True.

Lemma hash_size_abs h : hash_inv h -> Z.of_nat (size (hash_abs h)) = kh_count h.
Proof.
  intros Hi. unfold hash_abs. rewrite map_size_list_to_map by apply Hi.
  rewrite (hinv_count _ Hi). unfold chain_entries. by rewrite length_fmap.
Qed.

(** C1.  The red-black tree is a key-value map: whatever operations follow its
    creation, the rebalancing never touches the sentinel and every reply is
    the map's. *)
Theorem rbtree_refines_map e0 (ops : list (cenv * op)) :
  mem_ok e0 ->
  exists s0, kvs_rbtree_create e0 = (Some s0, 0) /\
    spec_run always_fits ∅ ops (rb_abs (run_ops s0 ops).1) (run_ops s0 ops).2 /\
    rb_inv (run_ops s0 ops).1.
Proof.
  intros Hm. destruct (kvs_rbtree_create_ok e0 Hm) as (s0 & Hc & Hi & Ha).
  exists s0. split; [done|]. rewrite <- Ha.
  destruct (run_ops_refine (T := kvs_rbtree) always_fits) with (s := s0) (ops := ops)
    as [Hi' Hs]; [done|exact Hi| |done].
  apply Forall_true. intros [e o]. unfold op_ok. simpl. by destruct (op_key o).
Qed.

(** C2.  The skip list is a key-value map: whatever levels the generator
    draws, no access leaves a node, every loop ends and every reply is the
    map's. *)
Theorem skiplist_refines_map e0 seed (ops : list (cenv * op)) :
  mem_ok e0 ->
  exists s0, kvs_skip_create e0 seed = (Some s0, 0) /\
    spec_run always_fits ∅ ops (sk_abs (run_ops s0 ops).1) (run_ops s0 ops).2 /\
    sk_inv (run_ops s0 ops).1.
Proof.
  intros Hm. destruct (kvs_skip_create_ok e0 seed Hm) as (s0 & Hc & Hi & Ha).
  exists s0. split; [done|]. rewrite <- Ha.
  destruct (run_ops_refine (T := kvs_skip) always_fits) with (s := s0) (ops := ops)
    as [Hi' Hs]; [done|exact Hi| |done].
  apply Forall_true. intros [e o]. unfold op_ok. simpl. by destruct (op_key o).
Qed.

(** C3.  The hash table is a key-value map through every resize. *)
Theorem hash_refines_map e0 (ops : list (cenv * op)) :
  mem_ok e0 ->
  let s0 := (kvs_hash_create e0 hash_zero).1 in
  (kvs_hash_create e0 hash_zero).2 = 0 /\
  spec_run hash_fits ∅ ops (hash_abs (run_ops s0 ops).1) (run_ops s0 ops).2 /\
  hash_inv (run_ops s0 ops).1.
Proof.
  intros Hm s0. destruct (kvs_hash_create_ok e0 Hm) as (Hc & Hi & Ha).
  fold s0 in Hi, Ha. split; [done|]. rewrite <- Ha.
  destruct (run_ops_refine (T := kvs_hash) hash_fits) with (s := s0) (ops := ops)
    as [Hi' Hs]; [|exact Hi| |done].
  - intros s k Hs _. unfold hash_fits. simpl. unfold hash_room.
    by rewrite hash_size_abs.
  - apply Forall_true. intros [e o]. unfold op_ok. simpl. by destruct (op_key o).
Qed.

(** C4.  The array is a key-value map for non-empty keys: removing an item by
    moving the last one into its slot loses none. *)
Theorem array_refines_map e0 (ops : list (cenv * op)) :
  mem_ok e0 -> Forall (fun eo => nonempty_key eo.2) ops ->
  let s0 := (kvs_array_create e0 array_zero).1 in
  (kvs_array_create e0 array_zero).2 = 0 /\
  spec_run array_fits ∅ ops (array_abs (run_ops s0 ops).1) (run_ops s0 ops).2 /\
  array_inv (run_ops s0 ops).1.
Proof.
  intros Hm Hops s0. destruct (kvs_array_create_ok e0 Hm) as (Hc & Hi & Ha).
  fold s0 in Hi, Ha. split; [done|]. rewrite <- Ha.
  destruct (run_ops_refine (T := kvs_array) array_fits) with (s := s0) (ops := ops)
    as [Hi' Hs]; [|exact Hi| |done].
  - intros s k Hs _. unfold array_fits. simpl. unfold array_room.
    by rewrite array_size_abs.
  - eapply Forall_impl; [exact Hops|]. intros [e o]. unfold op_ok, nonempty_key. simpl.
    destruct (op_key o); [|done]. simpl. congruence.
Qed.

(** ** Witnesses *)

(** An environment with memory, TTL support and the given clock. *)
Definition env_at (now : Z) : cenv := CEnv true now (fun _ _ => true) 1.

Lemma env_at_mem_ok now : mem_ok (env_at now).
Proof. done. Qed.

(** Two keys are set, one of them for a while, and read before and after it
    expires. *)
Definition sample_ops : list (cenv * op) :=
  [(env_at 1, OSet (str "a") (kd_of (str "1")) 0);
   (env_at 2, OSet (str "b") (kd_of (str "22")) 10);
   (env_at 3, OSet (str "a") (kd_of (str "333")) 0);
   (env_at 4, OGet (str "b"));
   (env_at 11, OGet (str "b"));
   (env_at 12, OGet (str "a"));
   (env_at 13, ODel (str "a"));
   (env_at 14, OExist (str "a"))].

Definition sample_replies : list reply :=
  [RInt 0; RInt 0; RInt 0; RVal (Some (str "22")); RVal None; RVal (Some (str "333"));
   RInt 0; RInt 1].

Lemma rbtree_refines_map_witness :
  mem_ok (env_at 0) /\
  exists s0, kvs_rbtree_create (env_at 0) = (Some s0, 0) /\
    spec_run always_fits ∅ sample_ops (rb_abs (run_ops s0 sample_ops).1)
      (run_ops s0 sample_ops).2 /\ rb_inv (run_ops s0 sample_ops).1.
Proof. split; [done|]. apply (rbtree_refines_map (env_at 0)). done. Defined.

Lemma skiplist_refines_map_witness :
  mem_ok (env_at 0) /\
  exists s0, kvs_skip_create (env_at 0) 7 = (Some s0, 0) /\
    spec_run always_fits ∅ sample_ops (sk_abs (run_ops s0 sample_ops).1)
      (run_ops s0 sample_ops).2 /\ sk_inv (run_ops s0 sample_ops).1.
Proof. split; [done|]. apply (skiplist_refines_map (env_at 0)). done. Defined.

Lemma hash_refines_map_witness :
  mem_ok (env_at 0) /\
  let s0 := (kvs_hash_create (env_at 0) hash_zero).1 in
  (kvs_hash_create (env_at 0) hash_zero).2 = 0 /\
  spec_run hash_fits ∅ sample_ops (hash_abs (run_ops s0 sample_ops).1)
    (run_ops s0 sample_ops).2 /\ hash_inv (run_ops s0 sample_ops).1.
Proof. split; [done|]. apply (hash_refines_map (env_at 0)). done. Defined.

Lemma sample_ops_nonempty : Forall (fun eo => nonempty_key eo.2) sample_ops.
Proof. repeat constructor; done. Qed.

Lemma array_refines_map_witness :
  mem_ok (env_at 0) /\ Forall (fun eo => nonempty_key eo.2) sample_ops /\
  let s0 := (kvs_array_create (env_at 0) array_zero).1 in
  (kvs_array_create (env_at 0) array_zero).2 = 0 /\
  spec_run array_fits ∅ sample_ops (array_abs (run_ops s0 sample_ops).1)
    (run_ops s0 sample_ops).2 /\ array_inv (run_ops s0 sample_ops).1.
Proof.
  split; [done|]. split; [exact sample_ops_nonempty|].
  apply (array_refines_map (env_at 0)); [done|exact sample_ops_nonempty].
Defined.

(** The replies of the engines on the sample, evaluated. *)
Example sample_runs :
  (run_ops (RbOk Nil) sample_ops).2 = sample_replies /\
  (run_ops (kvs_hash_create (env_at 0) hash_zero).1 sample_ops).2 = sample_replies /\
  (run_ops (kvs_array_create (env_at 0) array_zero).1 sample_ops).2 = sample_replies /\
  (run_ops (default SkCorrupt (kvs_skip_create (env_at 0) 7).1) sample_ops).2
    = sample_replies.
Proof. vm_compute. done. Qed.
