(* ===== verification/Resp.v ===== *)
(** * The RESP protocol (resp.c, resp.h)

    The detection of a complete request in the receive buffer, its unpacking
    into arguments that point into the buffer, and the packing of replies.
    The receive buffer is the list of the bytes received; reading outside of
    it is [UB].  The file proves that every encoded request is recognised and
    unpacked into its arguments, that a request received in part is never
    taken for a complete one, and that the reply buffer is never overrun. *)

From S2P Require Import Prelude KvData.

Open Scope Z_scope.
Open Scope kvs_scope.

(** [kvs_status_t] *)
Inductive kvs_status :=
| KVS_RESP_OK | KVS_RESP_GET_OK | KVS_RESP_PONG | KVS_RESP_NO_EXISTS | KVS_RESP_EXISTS
| KVS_RESP_SUCCESS | KVS_RESP_ERROR | KVS_RESP_PARSE_ERROR | KVS_RESP_UNKNOWN | KVS_RESP_ERR.

#[export] Instance kvs_status_eq_dec : EqDecision kvs_status.
Proof. solve_decision. Defined.

(** An entry of [argv] with its [argv_len]: the bytes of the receive buffer
    from the pointer on, and the length the client announced. *)
Record arg := Arg {
  arg_ptr : bytes;
  arg_len : Z
}.

Definition arg_bytes (a : arg) : bytes := take (Z.to_nat (arg_len a)) (arg_ptr a).

Record resp_request := RespRequest {
  req_argc : Z;
  req_argv : list arg
}.

Record resp_reply := RespReply {
  rep_status : kvs_status;
  rep_body : option bytes
}.

(** The field [body_len], an [int]: the handlers set it with [body], from its
    length. *)
Definition body_len (r : resp_reply) : Z :=
  match rep_body r with Some b => i32 (Z.of_nat (length b)) | None => 0 end.

(** ** Comparison of command names *)

Definition tolower (b : byte) : Z :=
  let c := b2z b in if (65 <=? c) && (c <=? 90) then c + 32 else c.

(** [strncasecmp(a, b, n) == 0] *)
Fixpoint strncaseeq (a b : bytes) (n : nat) : bool :=
  match n with
  | O => true
  | S n =>
    let x := nth 0 a x00 in
    let y := nth 0 b x00 in
    (tolower x =? tolower y) && ((b2z x =? 0) || strncaseeq (drop 1 a) (drop 1 b) n)
  end.

(** [len == strlen(name) && strncasecmp(cmd, name, len) == 0] *)
Definition cmd_is (name : bytes) (cmd : bytes) (len : Z) : bool :=
  (len =? Z.of_nat (length name)) && strncaseeq cmd name (length name).

Definition write_commands : list bytes :=
  map str ["SET"; "DEL"; "MOD"; "RSET"; "RDEL"; "RMOD"; "HSET"; "HDEL"; "HMOD"; "SSET";
           "SDEL"; "SMOD"; "KEEP"; "SETCTX"; "SETREC"; "SETIDX"; "ZADD"; "DELCTX"]%string.

Definition is_write_command (cmd : bytes) (len : Z) : bool :=
  existsb (fun name => cmd_is name cmd len) write_commands.

(** ** Reading the buffer *)

(** [buf[i]] *)
Definition rd (buf : bytes) (i : Z) : res byte :=
  if i <? 0 then UB
  else match buf !! Z.to_nat i with Some b => Ok b | None => UB end.

Fixpoint find_crlf_from (buf : bytes) (i : nat) : option nat :=
  match buf with
  | a :: ((b :: _) as t) =>
    if bool_decide (a = CR /\ b = LF) then Some i else find_crlf_from t (S i)
  | _ => None
  end.

(** [find_crlf(buf + p, len)]: the offset of the first CR LF pair. *)
Definition find_crlf (buf : bytes) (p len : Z) : option Z :=
  match find_crlf_from (take (Z.to_nat len) (drop (Z.to_nat p) buf)) 0 with
  | Some i => Some (p + Z.of_nat i)
  | None => None
  end.

(** [isspace] in the C locale *)
Definition is_space (b : byte) : bool :=
  (b2z b =? 32) || ((9 <=? b2z b) && (b2z b <=? 13)).

Fixpoint skip_spaces (l : bytes) : res bytes :=
  match l with
  | [] => UB
  | b :: l' => if is_space b then skip_spaces l' else Ok l
  end.

Definition MINUS : byte := x2d.
Definition PLUS : byte := x2b.

(** [strtol(l, NULL, 10)]: the value is kept within 64 bits; the text must end
    before the buffer does. *)
Definition strtol (l : bytes) : res Z :=
  let* l := skip_spaces l in
  let '(neg, l) :=
    match l with
    | b :: l' => if bool_decide (b = MINUS) then (true, l')
                 else if bool_decide (b = PLUS) then (false, l') else (false, l)
    | [] => (false, l)
    end in
  let '(v, r) := parse_digits 0 l in
  match r with
  | [] => UB
  | _ => Ok (Z.max (- 2 ^ 63) (Z.min (2 ^ 63 - 1) (if neg : bool then - v else v)))
  end.

(** [atoi]: the conversion of [strtol]'s result to [int]. *)
Definition atoi (l : bytes) : res Z := let* v := strtol l in Ok (i32 v).

(** ** Recognising a request *)

Definition STAR : byte := x2a.
Definition DOLLAR : byte := x24.

(** The loop over the [n] arguments, from the offset [p]; [start] and [len]
    delimit the part of the buffer under examination.  [None] is the code's
    0, [Some l] its 1 with the length of the request. *)
Fixpoint has_complete_args (buf : bytes) (start len : Z) (n : nat) (p : Z)
  : res (option Z) :=
  match n with
  | O => Ok (Some (p - start))
  | S n =>
    if len <=? p - start then Ok None
    else
      let* c := rd buf p in
      if negb (bool_decide (c = DOLLAR)) then Ok None
      else
        match find_crlf buf p (len - (p - start)) with
        | None => Ok None
        | Some crlf =>
          let* arg_len := atoi (drop (Z.to_nat (p + 1)) buf) in
          let p := crlf + 2 in
          if len <? p - start + arg_len + 2 then Ok None
          else
            let* a := rd buf (p + arg_len) in
            if negb (bool_decide (a = CR)) then Ok None
            else
              let* b := rd buf (p + arg_len + 1) in
              if negb (bool_decide (b = LF)) then Ok None
              else has_complete_args buf start len n (p + arg_len + 2)
        end
  end.

Definition has_complete_resp_command (buf : bytes) (start len : Z) : res (option Z) :=
  if len <? 4 then Ok None
  else
    let* c := rd buf start in
    if negb (bool_decide (c = STAR)) then Ok None
    else
      match find_crlf buf start len with
      | None => Ok None
      | Some crlf =>
        let* argc := atoi (drop (Z.to_nat (start + 1)) buf) in
        has_complete_args buf start len (Z.to_nat argc) (crlf + 2)
      end.

(** ** Unpacking *)

Definition RESP_STATIC_ARGC : Z := 16.

(** The loop of [resp_unpack_no_modify]; a missing CR LF cuts [argc] to the
    arguments read so far. *)
Fixpoint resp_unpack_args (buf : bytes) (start len : Z) (n : nat) (p : Z)
  : res (list arg * bool) :=
  match n with
  | O => Ok ([], true)
  | S n =>
    match find_crlf buf p (len - (p - start)) with
    | None => Ok ([], false)
    | Some crlf =>
      let* arg_len := atoi (drop (Z.to_nat (p + 1)) buf) in
      let p := crlf + 2 in
      let a := Arg (drop (Z.to_nat p) buf) arg_len in
      let* r := resp_unpack_args buf start len n (p + arg_len + 2) in
      Ok (a :: r.1, r.2)
    end
  end.

(** [i] numbers the two allocations made for more than [RESP_STATIC_ARGC]
    arguments; the code does not test their results. *)
Definition resp_unpack_no_modify (e : cenv) (i : nat) (buf : bytes) (start len : Z)
  : res resp_request :=
  match find_crlf buf start len with
  | None => Ok (RespRequest 0 [])
  | Some crlf =>
    let* argc := atoi (drop (Z.to_nat (start + 1)) buf) in
    if (RESP_STATIC_ARGC <? argc) &&
       negb (alloc_ok e i (8 * argc) && alloc_ok e (S i) (4 * argc)) then UB
    else
      let* r := resp_unpack_args buf start len (Z.to_nat argc) (crlf + 2) in
      let '(argv, all) := r in
      Ok (RespRequest (if all : bool then argc else Z.of_nat (length argv)) argv)
  end.

(** ** Packing *)

(** What [resp_pack] appends to the send buffer; [memcpy] takes a negative
    length for one of at least 2 GB. *)
Definition resp_pack (r : resp_reply) : res bytes :=
  match rep_status r with
  | KVS_RESP_OK => Ok (str "+OK" ++ CRLF)
  | KVS_RESP_PONG => Ok (str "+PONG" ++ CRLF)
  | KVS_RESP_SUCCESS => Ok (str "+OK" ++ CRLF)
  | KVS_RESP_ERR => Ok (str "-ERR save snapshot failed" ++ CRLF)
  | KVS_RESP_GET_OK =>
    match rep_body r with
    | Some b =>
      if body_len r <? 0 then UB
      else Ok (DOLLAR :: dec (body_len r) ++ CRLF ++ take (Z.to_nat (body_len r)) b ++ CRLF)
    | None => Ok []
    end
  | KVS_RESP_NO_EXISTS => Ok (str "$-1" ++ CRLF)
  | KVS_RESP_EXISTS => Ok (str "-ERR key already exists" ++ CRLF)
  | KVS_RESP_UNKNOWN => Ok (str "-ERR unknown command" ++ CRLF)
  | KVS_RESP_PARSE_ERROR => Ok (str "-ERR syntax error" ++ CRLF)
  | KVS_RESP_ERROR => Ok []
  end.

(** The send buffer: its content and its capacity. *)
Record wbuf := WBuf {
  wb_data : bytes;
  wb_cap : Z
}.

Definition wb_len (w : wbuf) : Z := Z.of_nat (length (wb_data w)).

(** [i] numbers the reallocation; the sizes are of type [int]. *)
Definition resp_pack_with_realloc (e : cenv) (i : nat) (w : wbuf) (r : resp_reply) : res wbuf :=
  let* needed := i32_res (wb_len w + 1024 + (if 0 <? body_len r then body_len r else 0)) in
  if wb_cap w <? needed then
    let* new_cap := i32_res (wb_cap w * 2) in
    let new_cap := if new_cap <? needed then needed else new_cap in
    if alloc_ok e i new_cap then let* p := resp_pack r in Ok (WBuf (wb_data w ++ p) new_cap)
    else Ok w
  else let* p := resp_pack r in Ok (WBuf (wb_data w ++ p) (wb_cap w)).

(** ** Requests as the clients encode them *)

Definition resp_bulk (a : bytes) : bytes :=
  DOLLAR :: dec (Z.of_nat (length a)) ++ CRLF ++ a ++ CRLF.

Definition resp_encode (args : list bytes) : bytes :=
  STAR :: dec (Z.of_nat (length args)) ++ CRLF ++ concat (resp_bulk <$> args).

(** Sizes an [int] can hold. *)
Definition resp_size_ok (args : list bytes) : Prop :=
  Z.of_nat (length args) < 2 ^ 31 /\ Forall (fun a => Z.of_nat (length a) < 2 ^ 31) args.

#[local] Arguments dec : simpl never.
#[local] Arguments dec_u : simpl never.

(** ** Reading what was encoded *)

Lemma rd_app pre b r : rd (pre ++ b :: r) (Z.of_nat (length pre)) = Ok b.
Proof.
  unfold rd. destruct (Z.ltb_spec (Z.of_nat (length pre)) 0); [lia|].
  by rewrite Nat2Z.id, list_lookup_middle.
Qed.

Lemma drop_app_pos {A} (pre l : list A) : drop (Z.to_nat (Z.of_nat (length pre))) (pre ++ l) = l.
Proof. by rewrite Nat2Z.id, drop_app_length. Qed.

Lemma find_crlf_from_hit h r i :
  CR ∉ h -> find_crlf_from (h ++ CR :: LF :: r) i = Some (i + length h)%nat.
Proof.
  revert i. induction h as [|a h IH]; intros i Hh.
  - simpl. rewrite Nat.add_0_r. done.
  - apply not_elem_of_cons in Hh as [Ha Hh]. specialize (IH (S i) Hh).
    replace (i + length (a :: h))%nat with (S i + length h)%nat by (simpl; lia).
    rewrite <- IH. destruct h as [|b h]; cbn [app find_crlf_from];
      (rewrite bool_decide_false by (intros [-> _]; done)); done.
Qed.

Lemma find_crlf_from_miss h i : CR ∉ h -> find_crlf_from h i = None.
Proof.
  revert i. induction h as [|a h IH]; intros i Hh; [done|].
  apply not_elem_of_cons in Hh as [Ha Hh]. specialize (IH (S i) Hh).
  destruct h as [|b h]; [done|]. cbn [find_crlf_from].
  rewrite bool_decide_false by (intros [-> _]; done). exact IH.
Qed.

Lemma find_crlf_from_cr h i : CR ∉ h -> find_crlf_from (h ++ [CR]) i = None.
Proof.
  revert i. induction h as [|a h IH]; intros i Hh; [done|].
  apply not_elem_of_cons in Hh as [Ha Hh]. specialize (IH (S i) Hh).
  destruct h as [|b h]; cbn [app find_crlf_from] in *;
    (rewrite bool_decide_false by (intros [-> _]; done)); done.
Qed.

Lemma find_crlf_hit pre h r len :
  CR ∉ h -> Z.of_nat (length h) + 2 <= len ->
  find_crlf (pre ++ h ++ CR :: LF :: r) (Z.of_nat (length pre)) len
  = Some (Z.of_nat (length pre) + Z.of_nat (length h)).
Proof.
  intros Hh Hl. unfold find_crlf. rewrite drop_app_pos.
  rewrite take_app_ge by lia.
  replace (Z.to_nat len - length h)%nat with (S (S (Z.to_nat len - length h - 2))) by lia.
  cbn [take]. by rewrite find_crlf_from_hit.
Qed.

Lemma find_crlf_miss pre h r k :
  CR ∉ h -> (k < length h + 2)%nat ->
  find_crlf (pre ++ take k (h ++ CR :: LF :: r)) (Z.of_nat (length pre)) (Z.of_nat k) = None.
Proof.
  intros Hh Hk. unfold find_crlf. rewrite drop_app_pos, Nat2Z.id, take_take, Nat.min_id.
  destruct (decide (k <= length h)%nat) as [Hle|Hgt].
  - rewrite take_app_le, find_crlf_from_miss; [done| |done].
    intros Hin. apply Hh. rewrite <- (take_drop k h). apply elem_of_app. by left.
  - rewrite take_app_ge by lia. replace (k - length h)%nat with 1%nat by lia.
    by rewrite find_crlf_from_cr.
Qed.

Lemma digits_no_cr l : forallb is_digit l = true -> CR ∉ l.
Proof. intros H Hin%list_elem_of_In. rewrite forallb_forall in H. by specialize (H _ Hin). Qed.

Lemma dec_nat n : dec (Z.of_nat n) = dec_u (Z.of_nat n).
Proof. unfold dec. by destruct (Z.ltb_spec (Z.of_nat n) 0); [lia|]. Qed.

Lemma header_no_cr c n : c <> CR -> CR ∉ c :: dec (Z.of_nat n).
Proof.
  intros Hc. apply not_elem_of_cons. split; [congruence|].
  rewrite dec_nat. apply digits_no_cr, digs_digits.
Qed.

Lemma digit_not_space b : is_digit b = true -> is_space b = false.
Proof.
  unfold is_digit, is_space. intros H. unbool.
  destruct (Z.eqb_spec (b2z b) 32); [lia|]. destruct (Z.leb_spec 9 (b2z b)); [|done].
  destruct (Z.leb_spec (b2z b) 13); [lia|done].
Qed.

Lemma atoi_dec_u z b r :
  0 <= z < 2 ^ 31 -> is_digit b = false -> atoi (dec_u z ++ b :: r) = Ok z.
Proof.
  intros Hz Hb. unfold atoi, strtol.
  destruct (dec_u_head z) as (x & t & Hx & Hd). pose proof (parse_digits_dec_u z (b :: r)) as Hp.
  rewrite Hx.
  cbn [app skip_spaces]. rewrite digit_not_space by done. cbn [rbind].
  rewrite !bool_decide_false by (intros ->; done).
  rewrite Hx in Hp. cbn [app] in Hp. rewrite Hp; [|lia|done].
  cbn [rbind]. f_equal. rewrite i32_small; lia.
Qed.

Lemma atoi_count n r : Z.of_nat n < 2 ^ 31 -> atoi (dec (Z.of_nat n) ++ CR :: r) = Ok (Z.of_nat n).
Proof. intros Hn. rewrite dec_nat. apply atoi_dec_u; [lia|done]. Qed.

(** The header of a request or of an argument, followed by [r]. *)
Definition header (c : byte) (n : nat) (r : bytes) : bytes :=
  (c :: dec (Z.of_nat n)) ++ CR :: LF :: r.

Lemma header_length c n r :
  length (header c n r) = (length (dec (Z.of_nat n)) + 3 + length r)%nat.
Proof. unfold header. rewrite length_app. simpl. lia. Qed.

Lemma header_crlf pre c n r len :
  c <> CR -> Z.of_nat (length (dec (Z.of_nat n))) + 3 <= len ->
  find_crlf (pre ++ header c n r) (Z.of_nat (length pre)) len
  = Some (Z.of_nat (length pre) + Z.of_nat (length (dec (Z.of_nat n))) + 1).
Proof.
  intros Hc Hl. unfold header. rewrite find_crlf_hit.
  - f_equal. simpl length. lia.
  - by apply header_no_cr.
  - simpl length. lia.
Qed.

Lemma header_atoi pre c n r :
  Z.of_nat n < 2 ^ 31 ->
  atoi (drop (Z.to_nat (Z.of_nat (length pre) + 1)) (pre ++ header c n r)) = Ok (Z.of_nat n).
Proof.
  intros Hn. replace (Z.to_nat (Z.of_nat (length pre) + 1)) with (length pre + 1)%nat by lia.
  rewrite <- drop_drop, drop_app_length. by apply atoi_count.
Qed.

(** Behind the header. *)
Lemma header_drop pre c n r :
  drop (Z.to_nat (Z.of_nat (length pre) + Z.of_nat (length (dec (Z.of_nat n))) + 1 + 2))
    (pre ++ header c n r) = r.
Proof.
  unfold header.
  replace (pre ++ (c :: dec (Z.of_nat n)) ++ CR :: LF :: r)
    with ((pre ++ (c :: dec (Z.of_nat n)) ++ [CR; LF]) ++ r) by by rewrite <- !app_assoc.
  apply drop_app_length'. rewrite !length_app. simpl. lia.
Qed.

Lemma resp_bulk_header a r : resp_bulk a ++ r = header DOLLAR (length a) (a ++ CR :: LF :: r).
Proof.
  unfold resp_bulk, header, CRLF. by app_eq.
Qed.

Lemma resp_bulk_length a :
  length (resp_bulk a) = (length (dec (Z.of_nat (length a))) + length a + 5)%nat.
Proof. unfold resp_bulk, CRLF. simpl. repeat (rewrite length_app; simpl). lia. Qed.

Lemma resp_encode_header args r :
  resp_encode args ++ r = header STAR (length args) (concat (resp_bulk <$> args) ++ r).
Proof.
  unfold resp_encode, header, CRLF. by app_eq.
Qed.

Lemma resp_encode_length args :
  length (resp_encode args)
  = (length (dec (Z.of_nat (length args))) + 3 + length (concat (resp_bulk <$> args)))%nat.
Proof. unfold resp_encode, CRLF. simpl. repeat (rewrite length_app; simpl). lia. Qed.

Lemma header_take c n r k :
  (length (dec (Z.of_nat n)) + 3 <= k)%nat ->
  take k (header c n r) = header c n (take (k - (length (dec (Z.of_nat n)) + 3)) r).
Proof.
  intros Hk. unfold header. rewrite take_app_ge by (simpl; lia). f_equal. simpl length.
  replace (k - S (length (dec (Z.of_nat n))))%nat
    with (S (S (k - (length (dec (Z.of_nat n)) + 3)))) by lia.
  done.
Qed.

Lemma header_rd pre c n r : rd (pre ++ header c n r) (Z.of_nat (length pre)) = Ok c.
Proof. apply rd_app. Qed.

(** ** A complete argument is skipped *)

Lemma has_complete_args_bulk pre a r start len n :
  Z.of_nat (length a) < 2 ^ 31 -> 0 <= start ->
  Z.of_nat (length pre) - start + Z.of_nat (length (resp_bulk a)) <= len ->
  has_complete_args (pre ++ resp_bulk a ++ r) start len (S n) (Z.of_nat (length pre))
  = has_complete_args (pre ++ resp_bulk a ++ r) start len n
      (Z.of_nat (length (pre ++ resp_bulk a))).
Proof.
  intros Ha Hst Hlen. rewrite length_app. rewrite resp_bulk_length in *.
  cbn [has_complete_args]. rewrite resp_bulk_header.
  set (d := length (dec (Z.of_nat (length a)))) in *.
  destruct (Z.leb_spec len (Z.of_nat (length pre) - start)); [lia|].
  rewrite header_rd. cbn [rbind]. rewrite bool_decide_true by done. cbn [negb].
  rewrite header_crlf, header_atoi by (done || lia). cbn [rbind]. fold d.
  destruct (Z.ltb_spec len (Z.of_nat (length pre) + Z.of_nat d + 1 + 2 - start
    + Z.of_nat (length a) + 2)); [lia|].
  assert (Hbuf : pre ++ header DOLLAR (length a) (a ++ CR :: LF :: r)
    = (pre ++ header DOLLAR (length a) a) ++ CR :: LF :: r).
  { unfold header. by app_eq. }
  assert (Hpos : Z.of_nat (length pre) + Z.of_nat d + 1 + 2 + Z.of_nat (length a)
    = Z.of_nat (length (pre ++ header DOLLAR (length a) a))).
  { rewrite length_app, header_length. fold d. lia. }
  rewrite Hpos. rewrite Hbuf at 1. rewrite rd_app. cbn [rbind].
  rewrite bool_decide_true by done. cbn [negb].
  replace (Z.of_nat (length (pre ++ header DOLLAR (length a) a)) + 1)
    with (Z.of_nat (length ((pre ++ header DOLLAR (length a) a) ++ [CR])))
    by (rewrite (length_app _ [CR]); simpl; lia).
  rewrite Hbuf at 1. rewrite (cons_middle CR), (app_assoc _ [CR]), rd_app. cbn [rbind].
  rewrite bool_decide_true by done. cbn [negb]. f_equal. rewrite <- Hpos. lia.
Qed.

Lemma has_complete_args_full args pre r start len :
  Forall (fun a => Z.of_nat (length a) < 2 ^ 31) args -> 0 <= start ->
  Z.of_nat (length pre) - start + Z.of_nat (length (concat (resp_bulk <$> args))) <= len ->
  has_complete_args (pre ++ concat (resp_bulk <$> args) ++ r) start len (length args)
    (Z.of_nat (length pre))
  = Ok (Some (Z.of_nat (length pre) + Z.of_nat (length (concat (resp_bulk <$> args))) - start)).
Proof.
  intros Hargs Hst. revert pre. induction Hargs as [|a args Ha Hargs IH]; intros pre Hlen.
  - simpl. f_equal. f_equal. lia.
  - rewrite fmap_cons in *. cbn [concat length] in *. rewrite length_app in *.
    rewrite <- (app_assoc (resp_bulk a)). rewrite has_complete_args_bulk by (done || lia).
    rewrite (app_assoc pre), IH; [|rewrite length_app; lia]. rewrite length_app.
    f_equal. f_equal. lia.
Qed.

(** ** A truncated argument is noticed *)

Lemma has_complete_args_cut_bulk pre a r start n k :
  Z.of_nat (length a) < 2 ^ 31 -> 0 <= start -> (k < length (resp_bulk a))%nat ->
  has_complete_args (pre ++ take k (resp_bulk a ++ r)) start
    (Z.of_nat (length pre) - start + Z.of_nat k) (S n) (Z.of_nat (length pre)) = Ok None.
Proof.
  intros Ha Hst Hk. rewrite resp_bulk_length in Hk. cbn [has_complete_args].
  destruct (Z.leb_spec (Z.of_nat (length pre) - start + Z.of_nat k)
    (Z.of_nat (length pre) - start)) as [|Hk0]; [done|].
  rewrite resp_bulk_header. set (d := length (dec (Z.of_nat (length a)))) in *.
  replace (Z.of_nat (length pre) - start + Z.of_nat k - (Z.of_nat (length pre) - start))
    with (Z.of_nat k) by lia.
  destruct (decide (k < d + 3)%nat) as [Hh|Hh].
  - assert (rd (pre ++ take k (header DOLLAR (length a) (a ++ CR :: LF :: r)))
      (Z.of_nat (length pre)) = Ok DOLLAR) as ->.
    { destruct k as [|k]; [lia|]. unfold header. cbn [app take]. apply rd_app. }
    cbn [rbind]. rewrite bool_decide_true by done. cbn [negb]. unfold header.
    rewrite find_crlf_miss; [done|by apply header_no_cr|simpl; fold d; lia].
  - rewrite header_take by (fold d; lia). rewrite header_rd. cbn [rbind].
    rewrite bool_decide_true by done. cbn [negb].
    rewrite header_crlf, header_atoi by (done || (fold d; lia)). cbn [rbind]. fold d.
    destruct (Z.ltb_spec (Z.of_nat (length pre) - start + Z.of_nat k)
      (Z.of_nat (length pre) + Z.of_nat d + 1 + 2 - start + Z.of_nat (length a) + 2)); [done|lia].
Qed.

Lemma has_complete_args_cut args pre start k :
  Forall (fun a => Z.of_nat (length a) < 2 ^ 31) args -> 0 <= start ->
  (k < length (concat (resp_bulk <$> args)))%nat ->
  has_complete_args (pre ++ take k (concat (resp_bulk <$> args))) start
    (Z.of_nat (length pre) - start + Z.of_nat k) (length args) (Z.of_nat (length pre)) = Ok None.
Proof.
  intros Hargs Hst. revert pre k.
  induction Hargs as [|a args Ha Hargs IH]; intros pre k Hk; [simpl in Hk; lia|].
  rewrite fmap_cons in *. cbn [concat length] in *. rewrite length_app in Hk.
  destruct (decide (k < length (resp_bulk a))%nat) as [Hin|Hout].
  - by apply has_complete_args_cut_bulk.
  - rewrite take_app_ge by lia. rewrite has_complete_args_bulk by (done || lia).
    rewrite app_assoc.
    replace (Z.of_nat (length pre) - start + Z.of_nat k)
      with (Z.of_nat (length (pre ++ resp_bulk a)) - start
            + Z.of_nat (k - length (resp_bulk a))) by (rewrite length_app; lia).
    apply IH. lia.
Qed.

(** ** Whole requests *)

Lemma has_complete_full pre args r len :
  resp_size_ok args -> Z.of_nat (length (resp_encode args)) <= len ->
  has_complete_resp_command (pre ++ resp_encode args ++ r) (Z.of_nat (length pre)) len
  = Ok (Some (Z.of_nat (length (resp_encode args)))).
Proof.
  intros [Hn Hargs] Hlen. unfold has_complete_resp_command.
  rewrite resp_encode_length in *. rewrite resp_encode_header.
  set (d := length (dec (Z.of_nat (length args)))) in *.
  assert (Hd : (1 <= d)%nat).
  { unfold d. rewrite dec_nat. unfold dec_u. rewrite length_digs. apply ndigits_pos. }
  destruct (Z.ltb_spec len 4); [lia|].
  rewrite header_rd. cbn [rbind]. rewrite bool_decide_true by done. cbn [negb].
  rewrite header_crlf, header_atoi by (done || (fold d; lia)). cbn [rbind]. fold d.
  rewrite Nat2Z.id.
  set (body := concat (resp_bulk <$> args)) in *.
  assert (Hbuf : pre ++ header STAR (length args) (body ++ r)
    = (pre ++ header STAR (length args) []) ++ body ++ r) by (unfold header; by app_eq).
  assert (Hpos : Z.of_nat (length pre) + Z.of_nat d + 1 + 2
    = Z.of_nat (length (pre ++ header STAR (length args) []))).
  { rewrite length_app, header_length. fold d. simpl. lia. }
  rewrite Hpos, Hbuf. unfold body. rewrite has_complete_args_full; [|done|lia|].
  - fold body. rewrite <- Hpos. do 2 f_equal. lia.
  - fold body. rewrite <- Hpos. lia.
Qed.

Lemma has_complete_cut pre args k :
  resp_size_ok args -> (k < length (resp_encode args))%nat ->
  has_complete_resp_command (pre ++ take k (resp_encode args)) (Z.of_nat (length pre))
    (Z.of_nat k) = Ok None.
Proof.
  intros [Hn Hargs] Hk. unfold has_complete_resp_command.
  rewrite resp_encode_length in Hk. rewrite <- (app_nil_r (resp_encode args)), resp_encode_header.
  rewrite app_nil_r.
  set (d := length (dec (Z.of_nat (length args)))) in *.
  set (body := concat (resp_bulk <$> args)) in *.
  destruct (Z.ltb_spec (Z.of_nat k) 4); [done|].
  destruct (decide (k < d + 3)%nat) as [Hh|Hh].
  - assert (rd (pre ++ take k (header STAR (length args) body)) (Z.of_nat (length pre))
      = Ok STAR) as ->.
    { destruct k as [|k]; [lia|]. unfold header. cbn [app take]. apply rd_app. }
    cbn [rbind]. rewrite bool_decide_true by done. cbn [negb]. unfold header.
    rewrite find_crlf_miss; [done|by apply header_no_cr|simpl; fold d; lia].
  - rewrite header_take by (fold d; lia). fold d. rewrite header_rd. cbn [rbind].
    rewrite bool_decide_true by done. cbn [negb].
    rewrite header_crlf, header_atoi by (done || (fold d; lia)). cbn [rbind]. fold d.
    rewrite Nat2Z.id. set (j := (k - (d + 3))%nat).
    assert (Hbuf : pre ++ header STAR (length args) (take j body)
      = (pre ++ header STAR (length args) []) ++ take j body) by (unfold header; by app_eq).
    assert (Hpos : Z.of_nat (length pre) + Z.of_nat d + 1 + 2
      = Z.of_nat (length (pre ++ header STAR (length args) []))).
    { rewrite length_app, header_length. fold d. simpl. lia. }
    rewrite Hpos, Hbuf.
    replace (Z.of_nat k) with (Z.of_nat (length (pre ++ header STAR (length args) []))
      - Z.of_nat (length pre) + Z.of_nat j) by lia.
    apply has_complete_args_cut; [done|lia|]. fold body. lia.
Qed.

(** ** Unpacking a request *)

(** The arguments of an encoded request that [r] follows in the buffer. *)
Fixpoint argv_at (args : list bytes) (r : bytes) : list arg :=
  match args with
  | [] => []
  | a :: args =>
    Arg (a ++ CRLF ++ concat (resp_bulk <$> args) ++ r) (Z.of_nat (length a)) :: argv_at args r
  end.

Definition request_at (args : list bytes) (r : bytes) : resp_request :=
  RespRequest (Z.of_nat (length args)) (argv_at args r).

Lemma argv_at_bytes args r : arg_bytes <$> argv_at args r = args.
Proof.
  induction args as [|a args IH]; [done|]. cbn [argv_at]. rewrite fmap_cons, IH. f_equal.
  unfold arg_bytes. cbn [arg_ptr arg_len]. rewrite Nat2Z.id. apply take_app_length.
Qed.

Lemma resp_unpack_args_full args pre r start len :
  Forall (fun a => Z.of_nat (length a) < 2 ^ 31) args -> 0 <= start ->
  Z.of_nat (length pre) - start + Z.of_nat (length (concat (resp_bulk <$> args))) <= len ->
  resp_unpack_args (pre ++ concat (resp_bulk <$> args) ++ r) start len (length args)
    (Z.of_nat (length pre)) = Ok (argv_at args r, true).
Proof.
  intros Hargs Hst. revert pre. induction Hargs as [|a args Ha Hargs IH]; intros pre Hlen; [done|].
  rewrite fmap_cons in *. cbn [concat length resp_unpack_args] in *. rewrite length_app in *.
  set (body := concat (resp_bulk <$> args)) in *.
  rewrite <- (app_assoc (resp_bulk a)).
  assert (Hbuf : pre ++ resp_bulk a ++ body ++ r = (pre ++ resp_bulk a) ++ body ++ r)
    by by rewrite <- app_assoc.
  assert (Hrec := IH (pre ++ resp_bulk a) ltac:(rewrite length_app; lia)).
  rewrite length_app in Hrec. rewrite resp_bulk_length in *. rewrite <- Hbuf in Hrec.
  rewrite resp_bulk_header in Hrec |- *.
  set (d := length (dec (Z.of_nat (length a)))) in *.
  rewrite header_crlf, header_atoi by (done || (fold d; lia)). cbn [rbind]. fold d.
  replace (Z.of_nat (length pre) + Z.of_nat d + 1 + 2 + Z.of_nat (length a) + 2)
    with (Z.of_nat (length pre + (d + length a + 5))) by lia.
  rewrite Hrec. cbn [rbind fst snd]. unfold d. rewrite header_drop. done.
Qed.

Lemma resp_unpack_full e i pre args r :
  mem_ok e -> resp_size_ok args ->
  resp_unpack_no_modify e i (pre ++ resp_encode args ++ r) (Z.of_nat (length pre))
    (Z.of_nat (length (resp_encode args))) = Ok (request_at args r).
Proof.
  intros Hm [Hn Hargs]. unfold resp_unpack_no_modify.
  rewrite resp_encode_length, resp_encode_header.
  set (d := length (dec (Z.of_nat (length args)))) in *.
  rewrite header_crlf, header_atoi by (done || (fold d; lia)). cbn [rbind]. fold d.
  rewrite Nat2Z.id. set (body := concat (resp_bulk <$> args)) in *.
  assert (Hal : (RESP_STATIC_ARGC <? Z.of_nat (length args)) &&
    negb (alloc_ok e i (8 * Z.of_nat (length args)) &&
          alloc_ok e (S i) (4 * Z.of_nat (length args))) = false).
  { destruct (Z.ltb_spec RESP_STATIC_ARGC (Z.of_nat (length args))) as [Hlt|]; [|done].
    unfold RESP_STATIC_ARGC, alloc_ok in *. rewrite !Hm.
    destruct (Z.eqb_spec (8 * Z.of_nat (length args)) 0); [lia|].
    destruct (Z.eqb_spec (4 * Z.of_nat (length args)) 0); [lia|]. done. }
  rewrite Hal.
  assert (Hbuf : pre ++ header STAR (length args) (body ++ r)
    = (pre ++ header STAR (length args) []) ++ body ++ r) by (unfold header; by app_eq).
  assert (Hpos : Z.of_nat (length pre) + Z.of_nat d + 1 + 2
    = Z.of_nat (length (pre ++ header STAR (length args) []))).
  { rewrite length_app, header_length. fold d. simpl. lia. }
  assert (Hun := resp_unpack_args_full args (pre ++ header STAR (length args) []) r
    (Z.of_nat (length pre)) (Z.of_nat (d + 3 + length body)) Hargs
    ltac:(lia) ltac:(fold body; lia)).
  fold body in Hun. by rewrite Hpos, Hbuf, Hun.
Qed.

(** ** The reply buffer *)

Lemma dec_length_bound z : 0 <= z < 2 ^ 31 -> (length (dec z) <= 10)%nat.
Proof.
  intros Hz. unfold dec. destruct (Z.ltb_spec z 0); [lia|]. unfold dec_u. rewrite length_digs.
  apply ndigits_le; [|lia]. split; [lia|].
  eapply Z.lt_le_trans; [apply Hz|]. by vm_compute.
Qed.

Lemma body_len_range r : - 2 ^ 31 <= body_len r < 2 ^ 31.
Proof. unfold body_len. destruct (rep_body r); [apply i32_range|lia]. Qed.

(** A body whose length an [int] holds. *)
Definition body_ok (r : resp_reply) : Prop :=
  match rep_body r with Some b => Z.of_nat (length b) < 2 ^ 31 | None => True end.

Lemma body_len_ok r :
  body_ok r -> body_len r = match rep_body r with Some b => Z.of_nat (length b) | None => 0 end.
Proof. unfold body_ok, body_len. destruct (rep_body r); [|done]. intros. apply i32_small. lia. Qed.

Lemma body_len_nonneg r : body_ok r -> 0 <= body_len r.
Proof. intros Hb. rewrite body_len_ok by done. destruct (rep_body r); lia. Qed.

(** The text of a reply. *)
Definition reply_text (r : resp_reply) : bytes :=
  match rep_status r, rep_body r with
  | KVS_RESP_GET_OK, Some b => resp_bulk b
  | _, _ => match resp_pack (RespReply (rep_status r) None) with Ok p => p | UB => [] end
  end.

Lemma resp_pack_ok r : body_ok r -> resp_pack r = Ok (reply_text r).
Proof.
  intros Hb. unfold reply_text, resp_pack, resp_bulk. destruct r as [[] [b|]]; try done.
  cbn [rep_status rep_body]. rewrite body_len_ok by done. cbn [rep_body].
  rewrite (proj2 (Z.ltb_ge _ _)) by lia. by rewrite Nat2Z.id, firstn_all.
Qed.

Lemma resp_pack_length r p :
  resp_pack r = Ok p -> Z.of_nat (length p) < 1024 + (if 0 <? body_len r then body_len r else 0).
Proof.
  pose proof (body_len_range r) as Hb. unfold resp_pack.
  destruct (rep_status r); try (intros [= <-]; simpl; case_match; lia).
  destruct (rep_body r) as [b|]; [|intros [= <-]; simpl; case_match; lia].
  destruct (Z.ltb_spec (body_len r) 0) as [|Hpos]; [done|]. intros [= <-].
  pose proof (dec_length_bound (body_len r) ltac:(lia)).
  cbn [length]. rewrite length_app. cbn [length]. rewrite length_app, length_take. simpl length.
  destruct (Z.ltb_spec 0 (body_len r)); lia.
Qed.

(** The content only grows. *)
Lemma resp_pack_with_realloc_grows e i w r w' :
  resp_pack_with_realloc e i w r = Ok w' ->
  wb_data w' = wb_data w \/ exists p, resp_pack r = Ok p /\ wb_data w' = wb_data w ++ p.
Proof.
  unfold resp_pack_with_realloc. destruct (i32_res _) as [needed|]; [|done]. cbn [rbind].
  destruct (_ <? _); [destruct (i32_res _); [|done]; cbn [rbind]; destruct (alloc_ok _ _ _)|].
  2: { intros [= <-]. by left. }
  all: destruct (resp_pack r) as [p|]; [|done]; intros [= <-]; right; by exists p.
Qed.

(** Whatever is packed and whatever the allocator answers: the content only
    grows and stays within the capacity, which it never fills. *)
Lemma resp_pack_with_realloc_fits e i w r w' :
  wb_len w <= wb_cap w -> resp_pack_with_realloc e i w r = Ok w' ->
  wb_len w' <= wb_cap w' /\
  (w' = w \/ exists p, resp_pack r = Ok p /\ wb_data w' = wb_data w ++ p /\ wb_len w' < wb_cap w').
Proof.
  intros Hw. unfold resp_pack_with_realloc.
  destruct (i32_res _) as [needed|] eqn:Hn; [|done]. apply i32_res_Ok in Hn as [-> Hn]. cbn [rbind].
  assert (Hput : forall cap, wb_len w + 1024 + (if 0 <? body_len r then body_len r else 0) <= cap ->
    (let* p := resp_pack r in Ok (WBuf (wb_data w ++ p) cap)) = Ok w' ->
    wb_len w' <= wb_cap w' /\
    (w' = w \/ exists p, resp_pack r = Ok p /\ wb_data w' = wb_data w ++ p /\ wb_len w' < wb_cap w')).
  { intros cap Hcap. destruct (resp_pack r) as [p|] eqn:Hp; [|done]. intros [= <-].
    apply resp_pack_length in Hp as Hl. unfold wb_len in *. simpl. rewrite length_app.
    split; [lia|]. right. exists p. split_and!; [done|done|lia]. }
  destruct (Z.ltb_spec (wb_cap w) (wb_len w + 1024 + (if 0 <? body_len r then body_len r else 0)));
    [|by apply Hput].
  destruct (i32_res (wb_cap w * 2)) as [c|]; [|done]. cbn [rbind].
  destruct (alloc_ok _ _ _); [|by intros [= <-]; split; [|left]].
  apply Hput. destruct (Z.ltb_spec c (wb_len w + 1024 + (if 0 <? body_len r then body_len r else 0))); lia.
Qed.

(** With sizes an [int] holds the reply is appended, unless memory is missing. *)
Lemma resp_pack_with_realloc_ok e i w r :
  body_ok r -> wb_len w <= wb_cap w < 2 ^ 30 -> wb_len w + 1024 + body_len r < 2 ^ 29 ->
  exists w', resp_pack_with_realloc e i w r = Ok w' /\ wb_cap w' < 2 ^ 30 /\
    (wb_data w' = wb_data w ++ reply_text r \/ w' = w /\ ~ mem_ok e).
Proof.
  intros Hb Hw Hn. pose proof (body_len_nonneg r Hb).
  assert (Hpos : 0 <= wb_len w) by (unfold wb_len; lia). unfold resp_pack_with_realloc.
  replace (if 0 <? body_len r then body_len r else 0) with (body_len r)
    by (destruct (Z.ltb_spec 0 (body_len r)); lia).
  rewrite i32_res_ok, resp_pack_ok by (done || lia). cbn [rbind].
  destruct (Z.ltb_spec (wb_cap w) (wb_len w + 1024 + body_len r)).
  2: { eexists. split; [done|]. split; [simpl; lia|by left]. }
  rewrite i32_res_ok by lia. cbn [rbind]. set (nc := if _ <? _ then _ else _).
  assert (0 < nc < 2 ^ 30)
    by (unfold nc; destruct (Z.ltb_spec (wb_cap w * 2) (wb_len w + 1024 + body_len r)); lia).
  unfold alloc_ok. rewrite (proj2 (Z.eqb_neq nc 0)) by lia. cbn [negb andb].
  destruct (ce_malloc e i nc) eqn:Hm.
  - eexists. split; [done|]. split; [simpl; lia|by left].
  - exists w. split; [done|]. split; [lia|]. right. split; [done|]. intros Hall.
    by rewrite Hall in Hm.
Qed.

(** ** What the protocol guarantees *)

(** C26.  Every request a client encodes is recognised wherever it starts in the
    buffer, with its exact length, and unpacked into its arguments. *)
Theorem resp_roundtrip e i pre args r :
  mem_ok e -> resp_size_ok args ->
  let buf := pre ++ resp_encode args ++ r in
  let start := Z.of_nat (length pre) in
  exists len req,
    has_complete_resp_command buf start (Z.of_nat (length buf) - start) = Ok (Some len) /\
    len = Z.of_nat (length (resp_encode args)) /\
    resp_unpack_no_modify e i buf start len = Ok req /\
    req_argc req = Z.of_nat (length args) /\ arg_bytes <$> req_argv req = args.
Proof.
  intros Hm Hs buf start. exists (Z.of_nat (length (resp_encode args))), (request_at args r).
  split_and!; [|done| |done|].
  - apply has_complete_full; [done|]. unfold buf, start. rewrite !length_app. lia.
  - by apply resp_unpack_full.
  - apply argv_at_bytes.
Qed.

(** A request received in part, however far, is never taken for a complete
    one, and the examination reads no byte that was not received. *)
Theorem resp_partial_never_complete pre args k :
  resp_size_ok args -> (k < length (resp_encode args))%nat ->
  has_complete_resp_command (pre ++ take k (resp_encode args)) (Z.of_nat (length pre))
    (Z.of_nat k) = Ok None.
Proof. apply has_complete_cut. Qed.

(** The replies packed one after the other. *)
Fixpoint pack_all (e : cenv) (w : wbuf) (rs : list resp_reply) : res wbuf :=
  match rs with
  | [] => Ok w
  | r :: rs => let* w := resp_pack_with_realloc e 0 w r in pack_all e w rs
  end.

(** What the code reserves for the replies. *)
Definition reserve (rs : list resp_reply) : Z :=
  foldr (fun r n => 1024 + body_len r + n) 0 rs.

Lemma reserve_nonneg rs : Forall body_ok rs -> 0 <= reserve rs.
Proof. induction 1 as [|r rs Hr _ IH]; simpl; [lia|]. pose proof (body_len_nonneg r Hr). lia. Qed.

Lemma pack_all_fits e w rs w' :
  wb_len w <= wb_cap w -> pack_all e w rs = Ok w' -> wb_len w' <= wb_cap w'.
Proof.
  revert w. induction rs as [|r rs IH]; intros w Hw; cbn [pack_all]; [by intros [= <-]|].
  destruct (resp_pack_with_realloc e 0 w r) as [w1|] eqn:Hr; [|done].
  apply IH. by apply resp_pack_with_realloc_fits in Hr as [? _].
Qed.

Lemma pack_all_ok e w rs :
  mem_ok e -> Forall body_ok rs -> wb_len w <= wb_cap w < 2 ^ 30 -> wb_len w + reserve rs < 2 ^ 29 ->
  exists w', pack_all e w rs = Ok w' /\ wb_data w' = wb_data w ++ concat (reply_text <$> rs) /\
    wb_cap w' < 2 ^ 30.
Proof.
  intros Hm Hrs. revert w. induction Hrs as [|r rs Hr Hrs IH]; intros w Hw Hn; cbn [pack_all].
  { exists w. rewrite app_nil_r. by split_and!; [| |lia]. }
  simpl in Hn. pose proof (reserve_nonneg rs Hrs). pose proof (body_len_nonneg r Hr).
  destruct (resp_pack_with_realloc_ok e 0 w r Hr Hw ltac:(lia))
    as (w1 & Hw1 & Hc & [Hd|[_ ?]]); [|done].
  rewrite Hw1. cbn [rbind]. apply resp_pack_with_realloc_fits in Hw1 as Hf; [|lia].
  destruct Hf as [Hf _]. pose proof (resp_pack_length r _ (resp_pack_ok r Hr)) as Hl.
  assert (Hlen : wb_len w1 = wb_len w + Z.of_nat (length (reply_text r)))
    by (unfold wb_len; rewrite Hd, length_app; lia).
  assert ((if 0 <? body_len r then body_len r else 0) = body_len r) as Hif
    by (destruct (Z.ltb_spec 0 (body_len r)); lia). rewrite Hif in Hl.
  destruct (IH w1) as (w' & Hw' & Hd' & Hc'); [lia|lia|]. exists w'.
  split; [done|]. split; [|done]. by rewrite Hd', Hd, <- app_assoc.
Qed.

(** C28.  The send buffer is never overrun.  Whatever replies are packed and
    whatever the allocator answers, short of an overflow of the sizes, which
    are of type [int], what is written stays within the capacity; and with
    memory, bodies whose length an [int] holds, a capacity below 2^30 and less
    than 2^29 bytes with the 1024 reserved for each reply there is no overflow,
    and the buffer holds the texts of all the replies, in order. *)
Theorem replies_never_overrun e w rs :
  wb_len w <= wb_cap w ->
  (forall w', pack_all e w rs = Ok w' -> wb_len w' <= wb_cap w') /\
  (mem_ok e -> Forall body_ok rs -> wb_cap w < 2 ^ 30 -> wb_len w + reserve rs < 2 ^ 29 ->
   exists w', pack_all e w rs = Ok w' /\ wb_data w' = wb_data w ++ concat (reply_text <$> rs)).
Proof.
  intros Hw. split; [intros w'; by apply pack_all_fits|]. intros Hm Hrs Hc Hn.
  destruct (pack_all_ok e w rs Hm Hrs) as (w' & ? & ? & _); [lia|done|]. by exists w'.
Qed.

(** ** Witnesses *)

Definition mem_env : cenv := CEnv true 0 (fun _ _ => true) 1.

Definition sample_args : list bytes := [str "SET"; str "key"; []; CRLF].

Lemma sample_args_ok : resp_size_ok sample_args.
Proof. split; [done|]. repeat constructor; done. Qed.

Lemma resp_roundtrip_witness :
  resp_size_ok sample_args /\
  let buf := str "junk" ++ resp_encode sample_args ++ str "*1" in
  exists len req,
    has_complete_resp_command buf 4 (Z.of_nat (length buf) - 4) = Ok (Some len) /\
    len = Z.of_nat (length (resp_encode sample_args)) /\
    resp_unpack_no_modify mem_env 0 buf 4 len = Ok req /\
    req_argc req = Z.of_nat (length sample_args) /\ arg_bytes <$> req_argv req = sample_args.
Proof.
  split; [exact sample_args_ok|].
  apply (resp_roundtrip mem_env 0 (str "junk") sample_args (str "*1")); [done|exact sample_args_ok].
Defined.

Lemma resp_partial_never_complete_witness :
  resp_size_ok sample_args /\
  has_complete_resp_command (str "junk" ++ take 20 (resp_encode sample_args)) 4 20 = Ok None.
Proof.
  split; [exact sample_args_ok|].
  apply (resp_partial_never_complete (str "junk") sample_args 20); [exact sample_args_ok|].
  vm_compute. lia.
Defined.

Definition pack_sample : list resp_reply :=
  [RespReply KVS_RESP_OK None; RespReply KVS_RESP_GET_OK (Some (str "value"));
   RespReply KVS_RESP_NO_EXISTS None].

Lemma replies_never_overrun_witness :
  exists w', pack_all mem_env (WBuf [] 16) pack_sample = Ok w' /\
    wb_data w' = str "+OK" ++ CRLF ++ str "$5" ++ CRLF ++ str "value" ++ CRLF ++ str "$-1" ++ CRLF.
Proof.
  apply (proj2 (replies_never_overrun mem_env (WBuf [] 16) pack_sample ltac:(by vm_compute)));
    [done|by repeat constructor|done|by vm_compute].
Defined.

(** A body of 2 GB: its length is negative as an [int]. *)
Lemma huge_reply_undefined e w b :
  2 ^ 31 <= Z.of_nat (length b) < 2 ^ 32 -> wb_len w + 1024 < 2 ^ 31 -> wb_len w + 1024 <= wb_cap w ->
  resp_pack_with_realloc e 0 w (RespReply KVS_RESP_GET_OK (Some b)) = UB.
Proof.
  intros Hb Hw Hc. unfold resp_pack_with_realloc, body_len. cbn [rep_body].
  assert (Hi : i32 (Z.of_nat (length b)) = Z.of_nat (length b) - 2 ^ 32).
  { unfold i32. rewrite <- (Z.mod_add _ (-1)), Z.mod_small by lia. lia. }
  rewrite Hi, (proj2 (Z.ltb_ge 0 _)) by lia. assert (0 <= wb_len w) by (unfold wb_len; lia).
  rewrite i32_res_ok by lia. cbn [rbind]. rewrite (proj2 (Z.ltb_ge _ _)) by lia.
  unfold resp_pack, body_len. cbn [rep_status rep_body]. rewrite Hi.
  by rewrite (proj2 (Z.ltb_lt _ 0)) by lia.
Qed.
