(* ===== verification/Config.v ===== *)
(** * Configuration (config.c, the settings of main in server.c)

    The reader of the configuration file, and the global switches the other
    components test.  The file's content is a list of bytes; the line buffer
    of 256 bytes and the two 64-byte words of [sscanf] cut lines and words as
    in the code. *)

From S2P Require Import Prelude KvData Resp.

Open Scope Z_scope.

(** [server_config_t] *)
Record server_config := ServerConfig {
  cfg_port : Z;
  cfg_persistence : Z;
  cfg_snapshot : Z;
  cfg_expire : Z;
  cfg_mempool : Z;
  cfg_replication : Z;
  cfg_transport : Z;
  cfg_embedding : Z
}.

Definition config_defaults : server_config := ServerConfig 2000 0 0 0 0 0 0 1.

Definition parse_persistence (val : bytes) : Z := if bool_decide (val = str "ON") then 1 else 0.
Definition parse_onoff (val : bytes) : Z := if bool_decide (val = str "ON") then 1 else 0.

Definition parse_replication (val : bytes) : Z :=
  if bool_decide (val = str "MASTER") then 1
  else if bool_decide (val = str "SLAVE") then 2 else 0.

Definition parse_transport (val : bytes) : Z :=
  if bool_decide (val = str "RDMA") then 1
  else if bool_decide (val = str "TCP") then 2 else 0.

(** [atoi] of a NUL-terminated string. *)
Definition atoi_str (s : bytes) : Z :=
  match atoi (s ++ [x00]) with Ok v => v | UB => 0 end.

(** [fgets] with a buffer of 256 bytes: a line ends after its LF or after 255
    bytes; [room] is what is left of the buffer, [acc] the line so far. *)
Fixpoint fgets_lines (content : bytes) (room : nat) (acc : bytes) : list bytes :=
  match content with
  | [] => match acc with [] => [] | _ => [acc] end
  | b :: content =>
    if bool_decide (b = LF) then (acc ++ [b]) :: fgets_lines content 255 []
    else match room with
         | O | S O => (acc ++ [b]) :: fgets_lines content 255 []
         | S room => fgets_lines content room (acc ++ [b])
         end
  end.

(** A word of [sscanf("%63s")]: at most [n] bytes that are not blank. *)
Fixpoint scan_word (n : nat) (l : bytes) : bytes * bytes :=
  match n, l with
  | S n, b :: l' =>
    if is_space b || (b2z b =? 0) then ([], l)
    else let '(w, r) := scan_word n l' in (b :: w, r)
  | _, _ => ([], l)
  end.

Fixpoint drop_spaces (l : bytes) : bytes :=
  match l with
  | b :: l' => if is_space b then drop_spaces l' else l
  | [] => []
  end.

(** [sscanf(line, "%63s %63s", key, val) == 2] *)
Definition scan_pair (line : bytes) : option (bytes * bytes) :=
  let '(key, r) := scan_word 63 (drop_spaces line) in
  let '(val, _) := scan_word 63 (drop_spaces r) in
  match key, val with
  | _ :: _, _ :: _ => Some (key, val)
  | _, _ => None
  end.

(** The assignments of one "key value" pair. *)
Definition config_set (cfg : server_config) (key val : bytes) : server_config :=
    let key_is (s : string) := bool_decide (key = str s) in
    ServerConfig
      (if key_is "port"%string then atoi_str val else cfg_port cfg)
      (if key_is "persistence"%string then parse_persistence val else cfg_persistence cfg)
      (if key_is "snapshot"%string then parse_onoff val else cfg_snapshot cfg)
      (if key_is "expire"%string then parse_onoff val else cfg_expire cfg)
      (if key_is "mempool"%string then parse_onoff val else cfg_mempool cfg)
      (if key_is "replication"%string then parse_replication val else cfg_replication cfg)
      (if key_is "transport"%string then parse_transport val else cfg_transport cfg)
      (if key_is "embedding"%string then parse_onoff val else cfg_embedding cfg).

Definition config_line (cfg : server_config) (line : bytes) : server_config :=
  match line with
  | b :: _ =>
    if bool_decide (b = x23 \/ b = LF \/ b = CR) then cfg
    else
      match scan_pair line with
      | None => cfg
      | Some (key, val) => config_set cfg key val
      end
  | [] => cfg
  end.
(** [load_config]: [None] for a file that cannot be opened. *)
Definition load_config (file : option bytes) : server_config * Z :=
  match file with
  | None => (config_defaults, -1)
  | Some content => (fold_left config_line (fgets_lines content 255 []) config_defaults, 0)
  end.

(** ** The global switches *)

Record globals := Globals {
  g_enable_persistence : bool;
  g_enable_snapshot : bool;
  g_enable_ttl : bool;
  g_enable_mempool : bool;
  g_enable_repl_master : bool;
  g_enable_repl_slave : bool;
  g_use_rdma_sync : bool;
  g_use_tcp_sync : bool;
  g_use_embedding : bool
}.

(** The assignments of [main]. *)
Definition set_globals (cfg : server_config) : globals :=
  Globals (cfg_persistence cfg =? 1) (cfg_snapshot cfg =? 1) (negb (cfg_expire cfg =? 0))
    (negb (cfg_mempool cfg =? 0)) (cfg_replication cfg =? 1) (cfg_replication cfg =? 2)
    (cfg_transport cfg =? 1) (cfg_transport cfg =? 2) (negb (cfg_embedding cfg =? 0)).

(** [g_enable_persistence || g_enable_repl_master || g_enable_repl_slave] *)
Definition aof_enabled (g : globals) : bool :=
  g_enable_persistence g || g_enable_repl_master g || g_enable_repl_slave g.

(** ** The documented layout is read back *)

Definition config_text (port : Z) (persistence snapshot expire mempool : bool)
  (replication transport : Z) (embedding : bool) : bytes :=
  let onoff (b : bool) := str (if b then "ON" else "OFF")%string in
  let line k v := str k ++ [x20] ++ v ++ [LF] in
  line "port"%string (dec port) ++ line "persistence"%string (onoff persistence) ++
  line "snapshot"%string (onoff snapshot) ++ line "expire"%string (onoff expire) ++
  line "mempool"%string (onoff mempool) ++
  line "replication"%string
    (str (if replication =? 1 then "MASTER"%string
          else if replication =? 2 then "SLAVE"%string else "OFF"%string)) ++
  line "transport"%string
    (str (if transport =? 1 then "RDMA"%string
          else if transport =? 2 then "TCP"%string else "NONE"%string)) ++
  line "embedding"%string (onoff embedding).

(** Whatever the configuration, the server is not master and slave at
    once and uses one transport at most. *)
Theorem globals_exclusive cfg :
  let g := set_globals cfg in
  ~ (g_enable_repl_master g = true /\ g_enable_repl_slave g = true) /\
  ~ (g_use_rdma_sync g = true /\ g_use_tcp_sync g = true).
Proof.
  simpl. destruct (Z.eqb_spec (cfg_replication cfg) 1), (Z.eqb_spec (cfg_replication cfg) 2),
    (Z.eqb_spec (cfg_transport cfg) 1), (Z.eqb_spec (cfg_transport cfg) 2); split; lia || naive_solver lia.
Qed.

(** An excerpt of a configuration file, evaluated. *)
Example load_config_sample :
  load_config (Some (str "# server" ++ [LF] ++ config_text 7000 true false true false 2 1 true))
  = (ServerConfig 7000 1 0 1 0 2 1 1, 0).
Proof. vm_compute. done. Qed.

(** ** Reading back *)

Definition word_ok (w : bytes) : bool :=
  (0 <? length w)%nat && (length w <=? 63)%nat &&
  forallb (fun b => negb (is_space b || (b2z b =? 0))) w.

Lemma scan_word_ok n w b r :
  forallb (fun b => negb (is_space b || (b2z b =? 0))) w = true -> (length w <= n)%nat ->
  is_space b = true -> scan_word n (w ++ b :: r) = (w, b :: r).
Proof.
  revert n. induction w as [|a w IH]; intros n Hw Hn Hb.
  - destruct n; simpl; [done|]. by rewrite Hb.
  - destruct n as [|n]; simpl in *; [lia|]. apply andb_true_iff in Hw as [Ha Hw].
    apply negb_true_iff in Ha. rewrite Ha, IH by (done || lia). done.
Qed.

Lemma word_ok_spec w :
  word_ok w = true ->
  w <> [] /\ (length w <= 63)%nat /\
  forallb (fun b => negb (is_space b || (b2z b =? 0))) w = true.
Proof.
  unfold word_ok. intros [[H1 H2]%andb_true_iff H3]%andb_true_iff.
  apply Nat.ltb_lt in H1. apply Nat.leb_le in H2. split_and!; [|done..].
  intros ->. simpl in H1. lia.
Qed.

Lemma word_ok_head a w : word_ok (a :: w) = true -> is_space a = false.
Proof.
  intros (_ & _ & H)%word_ok_spec. simpl in H. by destruct (is_space a).
Qed.

Lemma word_ok_no_lf w : word_ok w = true -> LF ∉ w.
Proof.
  intros (_ & _ & H)%word_ok_spec Hin%list_elem_of_In.
  rewrite forallb_forall in H. by specialize (H _ Hin).
Qed.

Lemma drop_spaces_word w r : word_ok w = true -> drop_spaces (w ++ r) = w ++ r.
Proof.
  intros H. destruct w as [|a w]; [done|]. apply word_ok_head in H. simpl. by rewrite H.
Qed.

Lemma scan_pair_ok k v :
  word_ok k = true -> word_ok v = true -> scan_pair (k ++ x20 :: v ++ [LF]) = Some (k, v).
Proof.
  intros Hk Hv. unfold scan_pair. rewrite drop_spaces_word by done.
  destruct (word_ok_spec k Hk) as (Hnk & Hlk & Hfk).
  destruct (word_ok_spec v Hv) as (Hnv & Hlv & Hfv).
  rewrite scan_word_ok by done. cbn [drop_spaces]. change (is_space x20) with true. cbn iota.
  rewrite drop_spaces_word by done. rewrite scan_word_ok by done.
  by destruct k, v.
Qed.

Lemma fgets_line l rest room acc :
  LF ∉ l -> (length l < room)%nat ->
  fgets_lines (l ++ LF :: rest) room acc = (acc ++ l ++ [LF]) :: fgets_lines rest 255 [].
Proof.
  revert room acc. induction l as [|b l IH]; intros room acc Hl Hr; simpl.
  - done.
  - apply not_elem_of_cons in Hl as [Hb Hl]. simpl in Hr.
    rewrite bool_decide_false by congruence.
    destruct room as [|[|room]]; [lia|lia|]. rewrite IH by (done || lia). by rewrite <- app_assoc.
Qed.

(** A line of the file is read as the pair it spells. *)
Lemma config_lines_pair cfg k v rest :
  word_ok k = true -> word_ok v = true ->
  negb (bool_decide (head k = Some x23)) = true ->
  fold_left config_line (fgets_lines (k ++ [x20] ++ v ++ [LF] ++ rest) 255 []) cfg
  = fold_left config_line (fgets_lines rest 255 []) (config_set cfg k v).
Proof.
  intros Hk Hv Hc.
  replace (k ++ [x20] ++ v ++ [LF] ++ rest) with ((k ++ x20 :: v) ++ LF :: rest) by app_eq.
  destruct (word_ok_spec k Hk) as (Hnk & Hlk & _). destruct (word_ok_spec v Hv) as (_ & Hlv & _).
  pose proof (word_ok_no_lf k Hk). pose proof (word_ok_no_lf v Hv).
  rewrite fgets_line.
  - cbn [fold_left app]. f_equal. unfold config_line.
    replace ((k ++ x20 :: v) ++ [LF]) with (k ++ x20 :: v ++ [LF]) by app_eq.
    rewrite scan_pair_ok by done. destruct k as [|b k]; [done|]. cbn [app].
    rewrite bool_decide_false; [done|]. simpl in Hc.
    apply word_ok_head in Hk. intros [-> |[-> | ->]]; done.
  - rewrite elem_of_app, elem_of_cons. intros [?|[?|?]]; done.
  - rewrite length_app. simpl. lia.
Qed.

Lemma word_ok_dec z : 0 <= z < 2 ^ 31 -> word_ok (dec z) = true.
Proof.
  intros Hz. unfold dec. destruct (Z.ltb_spec z 0); [lia|]. unfold word_ok, dec_u.
  rewrite length_digs. pose proof (ndigits_pos 20 z).
  assert (ndigits 20 z <= 10)%nat.
  { apply ndigits_le; [|lia]. split; [lia|].
    eapply Z.lt_le_trans; [apply Hz|]. by vm_compute. }
  rewrite !andb_true_iff, Nat.ltb_lt, Nat.leb_le. split_and!; [lia|lia|].
  pose proof (digs_digits (ndigits 20 z) z) as Hd. rewrite forallb_forall in *.
  intros b Hb. specialize (Hd b Hb). rewrite digit_not_space by done.
  unfold is_digit in Hd. unbool. by destruct (Z.eqb_spec (b2z b) 0); [lia|].
Qed.

Lemma atoi_str_dec z : 0 <= z < 2 ^ 31 -> atoi_str (dec z) = z.
Proof.
  intros Hz. unfold atoi_str. unfold dec. destruct (Z.ltb_spec z 0); [lia|].
  by rewrite atoi_dec_u.
Qed.

Section config_set.
Context (a b c d e f g h : Z) (v : bytes).

Lemma config_set_port :
  config_set (ServerConfig a b c d e f g h) (str "port") v = ServerConfig (atoi_str v) b c d e f g h.
Proof. reflexivity. Qed.

Lemma config_set_persistence :
  config_set (ServerConfig a b c d e f g h) (str "persistence") v = ServerConfig a (parse_persistence v) c d e f g h.
Proof. reflexivity. Qed.

Lemma config_set_snapshot :
  config_set (ServerConfig a b c d e f g h) (str "snapshot") v = ServerConfig a b (parse_onoff v) d e f g h.
Proof. reflexivity. Qed.

Lemma config_set_expire :
  config_set (ServerConfig a b c d e f g h) (str "expire") v = ServerConfig a b c (parse_onoff v) e f g h.
Proof. reflexivity. Qed.

Lemma config_set_mempool :
  config_set (ServerConfig a b c d e f g h) (str "mempool") v = ServerConfig a b c d (parse_onoff v) f g h.
Proof. reflexivity. Qed.

Lemma config_set_replication :
  config_set (ServerConfig a b c d e f g h) (str "replication") v = ServerConfig a b c d e (parse_replication v) g h.
Proof. reflexivity. Qed.

Lemma config_set_transport :
  config_set (ServerConfig a b c d e f g h) (str "transport") v = ServerConfig a b c d e f (parse_transport v) h.
Proof. reflexivity. Qed.

Lemma config_set_embedding :
  config_set (ServerConfig a b c d e f g h) (str "embedding") v = ServerConfig a b c d e f g (parse_onoff v).
Proof. reflexivity. Qed.

End config_set.

Lemma load_config_text port p s x m r t b :
  0 <= port < 2 ^ 31 -> 0 <= r <= 2 -> 0 <= t <= 2 ->
  load_config (Some (config_text port p s x m r t b))
  = (ServerConfig port (Z.b2z p) (Z.b2z s) (Z.b2z x) (Z.b2z m) r t (Z.b2z b), 0).
Proof.
  intros Hp Hr Ht. unfold load_config, config_text. f_equal.
  assert (Hon : forall c : bool, word_ok (str (if c then "ON" else "OFF")%string) = true)
    by by intros [].
  rewrite <- !app_assoc. unfold config_defaults.
  rewrite config_lines_pair, config_set_port by (done || by apply word_ok_dec).
  rewrite config_lines_pair, config_set_persistence by done.
  rewrite config_lines_pair, config_set_snapshot by done.
  rewrite config_lines_pair, config_set_expire by done.
  rewrite config_lines_pair, config_set_mempool by done.
  rewrite config_lines_pair, config_set_replication
    by (done || by destruct (r =? 1), (r =? 2)).
  rewrite config_lines_pair, config_set_transport
    by (done || by destruct (t =? 1), (t =? 2)).
  rewrite <- (app_nil_r [LF]), config_lines_pair, config_set_embedding by done.
  cbn [fgets_lines fold_left]. rewrite atoi_str_dec by done.
  f_equal; [by destruct p|by destruct s|by destruct x|by destruct m| | |by destruct b].
  - assert (r = 0 \/ r = 1 \/ r = 2) as [-> |[-> | ->]] by lia; done.
  - assert (t = 0 \/ t = 1 \/ t = 2) as [-> |[-> | ->]] by lia; done.
Qed.

(** A configuration file in the documented layout is read back: every key
    reaches its field. *)
Theorem config_roundtrip port p s x m r t b :
  0 <= port < 2 ^ 31 -> 0 <= r <= 2 -> 0 <= t <= 2 ->
  load_config (Some (config_text port p s x m r t b))
  = (ServerConfig port (Z.b2z p) (Z.b2z s) (Z.b2z x) (Z.b2z m) r t (Z.b2z b), 0).
Proof. apply load_config_text. Qed.

Lemma config_roundtrip_witness :
  load_config (Some (config_text 8080 true true false true 1 2 false))
  = (ServerConfig 8080 1 1 0 1 1 2 0, 0).
Proof. apply (config_roundtrip 8080 true true false true 1 2 false); lia. Defined.
