(* ===== verification/Repl.v ===== *)
(** * The replication backlog (repl.c, resp.c, ntyco.c)

    The master keeps the write commands of the replication phase in a ring of
    [REPL_BACKLOG_MAX] nodes; the protocol layer appends to it and a coroutine
    sends it to the slave, a node at a time, whole or in pieces.  The file
    models the ring with its three indices and proves that, behind a SYNC
    that finds it empty, what reaches the slave is what it had room for, in
    order, for every interleaving of appends and sends of any size. *)

From S2P Require Import Prelude KvData Config.

Open Scope Z_scope.
Open Scope kvs_scope.

Definition REPL_BACKLOG_MAX : Z := 100000.

(** The globals of repl.c that the backlog uses. *)
Record repl := Repl {
  g_slave_fd : Z;
  g_sync_file_done : bool;
  g_repl_backlog_enabled : bool;
  g_repl_backlog : gmap Z bytes;
  g_repl_backlog_head : Z;
  g_repl_backlog_tail : Z;
  g_repl_backlog_count : Z
}.

Definition repl_zero : repl := Repl (-1) false false ∅ 0 0 0.

(** The condition under which a write command goes to the backlog. *)
Definition backlog_wanted (g : globals) (r : repl) : bool :=
  (0 <? g_slave_fd r) && g_enable_repl_master g &&
  ((g_use_tcp_sync g && g_sync_file_done r) || g_repl_backlog_enabled r).

(** Appending a copy of [data]; a full backlog drops it; the result of the
    allocation [i] is not tested. *)
Definition backlog_push (e : cenv) (i : nat) (r : repl) (data : bytes) : res repl :=
  if g_repl_backlog_count r <? REPL_BACKLOG_MAX then
    if alloc_ok e i (Z.of_nat (length data)) then
      Ok (Repl (g_slave_fd r) (g_sync_file_done r) (g_repl_backlog_enabled r)
            (<[g_repl_backlog_tail r := data]> (g_repl_backlog r))
            (g_repl_backlog_head r)
            ((g_repl_backlog_tail r + 1) mod REPL_BACKLOG_MAX)
            (g_repl_backlog_count r + 1))
    else UB
  else Ok r.

(** What [send] can do with a node. *)
Inductive send_result :=
| SendSome (n : Z)
| SendAgain
| SendFail.

(** One turn of the inner loop of [ntyco_master_repl_send_co]: the new state,
    the bytes that left, and whether the loop goes on.  A full send releases
    the node, a partial one keeps its rest, a failed one drops the slave. *)
Definition backlog_send (r : repl) (s : send_result) : repl * bytes * bool :=
  let node := default [] (g_repl_backlog r !! g_repl_backlog_head r) in
  match s with
  | SendSome n =>
    if n =? Z.of_nat (length node) then
      (Repl (g_slave_fd r) (g_sync_file_done r) (g_repl_backlog_enabled r)
         (g_repl_backlog r)
         ((g_repl_backlog_head r + 1) mod REPL_BACKLOG_MAX)
         (g_repl_backlog_tail r) (g_repl_backlog_count r - 1), node, true)
    else
      (Repl (g_slave_fd r) (g_sync_file_done r) (g_repl_backlog_enabled r)
         (<[g_repl_backlog_head r := drop (Z.to_nat n) node]> (g_repl_backlog r))
         (g_repl_backlog_head r) (g_repl_backlog_tail r) (g_repl_backlog_count r),
       take (Z.to_nat n) node, false)
  | SendAgain => (r, [], false)
  | SendFail =>
    (Repl (-1) (g_sync_file_done r) (g_repl_backlog_enabled r) (g_repl_backlog r)
       (g_repl_backlog_head r) (g_repl_backlog_tail r) (g_repl_backlog_count r), [], false)
  end.

(** The inner loop: at most [max] nodes, while there are any; [sends] are the
    results of the calls to [send]. *)
Fixpoint backlog_send_loop (r : repl) (max : nat) (sends : list send_result) : repl * bytes :=
  match max, sends with
  | S max, s :: sends =>
    if 0 <? g_repl_backlog_count r then
      let '(r', out, go) := backlog_send r s in
      if go : bool then
        let '(r'', out') := backlog_send_loop r' max sends in (r'', out ++ out')
      else (r', out)
    else (r, [])
  | _, _ => (r, [])
  end.

(** One turn of the outer loop. *)
Definition master_repl_send (r : repl) (sends : list send_result) : repl * bytes :=
  if (0 <? g_slave_fd r) && (0 <? g_repl_backlog_count r) then backlog_send_loop r 100 sends
  else (r, []).

(** The effect of SYNC on the backlog ([cmd_sys_sync]): the count is reset,
    the two indices stay where they are. *)
Definition backlog_sync (r : repl) : repl :=
  Repl (g_slave_fd r) (g_sync_file_done r) true (g_repl_backlog r)
    (g_repl_backlog_head r) (g_repl_backlog_tail r) 0.

(** The effect of SYNC_DONE ([cmd_sys_sync_done]). *)
Definition backlog_sync_done (r : repl) : repl :=
  Repl (g_slave_fd r) true false (g_repl_backlog r)
    (g_repl_backlog_head r) (g_repl_backlog_tail r) (g_repl_backlog_count r).

Definition set_slave_fd (fd : Z) (r : repl) : repl :=
  Repl fd (g_sync_file_done r) (g_repl_backlog_enabled r) (g_repl_backlog r)
    (g_repl_backlog_head r) (g_repl_backlog_tail r) (g_repl_backlog_count r).

(** ** The direct path (repl_push_cmd) *)

(** ["%.*s"]: at most [n] bytes, up to a NUL. *)
Fixpoint cstr_prec (n : nat) (l : bytes) : bytes :=
  match n, l with
  | S n, b :: l => if b2z b =? 0 then [] else b :: cstr_prec n l
  | _, _ => []
  end.

Definition push_text (cmd key : bytes) (value : option bytes) : bytes :=
  let bulk k := x24 :: dec (Z.of_nat (length k)) ++ CRLF ++ cstr_prec (length k) k ++ CRLF in
  let head n := x2a :: dec n ++ CRLF ++ x24 :: dec (Z.of_nat (length cmd)) ++ CRLF ++ cmd ++ CRLF in
  match value with
  | Some (b :: v) => head 3 ++ bulk key ++ bulk (b :: v)
  | _ => head 2 ++ bulk key
  end.

(** The bytes [repl_push_cmd] sends: the result of [snprintf] is the length of
    the whole text, the buffer holds 512 bytes of it. *)
Definition repl_push_cmd (r : repl) (cmd key : bytes) (value : option bytes) : res bytes :=
  if g_slave_fd r <? 0 then Ok []
  else
    let t := push_text cmd key value in
    let len := length t in
    if (512 <? len)%nat then UB else Ok (take len (take 511 t ++ [x00])).

(** ** The backlog as a queue *)

(** The nodes between head and tail, the oldest first. *)
Definition backlog_queue (r : repl) : list bytes :=
  (fun i => default [] (g_repl_backlog r !! ((g_repl_backlog_head r + i) mod REPL_BACKLOG_MAX)))
    <$> seqZ 0 (g_repl_backlog_count r).

Record backlog_ok (r : repl) : Prop := {
  bl_head : 0 <= g_repl_backlog_head r < REPL_BACKLOG_MAX;
  bl_count : 0 <= g_repl_backlog_count r <= REPL_BACKLOG_MAX;
  bl_tail : g_repl_backlog_tail r
    = (g_repl_backlog_head r + g_repl_backlog_count r) mod REPL_BACKLOG_MAX
}.

Lemma mod_ring_inj h i j m :
  0 < m -> 0 <= i < m -> 0 <= j < m -> (h + i) mod m = (h + j) mod m -> i = j.
Proof.
  intros Hm Hi Hj He.
  assert (Hd : (i - j) mod m = 0).
  { replace (i - j) with ((h + i) - (h + j)) by lia.
    rewrite Zminus_mod, He, Z.sub_diag. by rewrite Z.mod_0_l by lia. }
  apply Z.mod_divide in Hd as [q Hq]; [|lia].
  destruct (Z.lt_trichotomy q 0) as [|[->|]]; nia.
Qed.

Lemma backlog_ok_zero : backlog_ok repl_zero.
Proof. by split. Qed.

Lemma backlog_push_queue e i r data :
  backlog_ok r -> g_repl_backlog_count r < REPL_BACKLOG_MAX ->
  alloc_ok e i (Z.of_nat (length data)) = true ->
  exists r', backlog_push e i r data = Ok r' /\ backlog_ok r' /\
    backlog_queue r' = backlog_queue r ++ [data].
Proof.
  intros [Hh Hc Ht] Hlt Ha. unfold backlog_push, REPL_BACKLOG_MAX in *. rewrite Ha.
  destruct (Z.ltb_spec (g_repl_backlog_count r) 100000); [|lia].
  eexists. split; [done|]. split.
  - split; simpl; unfold REPL_BACKLOG_MAX; [lia..|].
    rewrite Ht, Zplus_mod_idemp_l. f_equal. lia.
  - unfold backlog_queue, REPL_BACKLOG_MAX. simpl. rewrite seqZ_app by lia.
    rewrite fmap_app, Z.add_0_l, (seqZ_cons _ 1), (seqZ_nil _ (Z.pred 1)) by lia.
    simpl. rewrite <- Ht, lookup_insert_eq. simpl. f_equal.
    apply list_fmap_ext. intros j x Hj. apply lookup_seqZ in Hj as [-> Hj].
    rewrite lookup_insert_ne; [done|]. rewrite Ht. intros He.
    apply mod_ring_inj in He; lia.
Qed.

Lemma backlog_queue_cons r :
  backlog_ok r -> 0 < g_repl_backlog_count r ->
  backlog_queue r = default [] (g_repl_backlog r !! g_repl_backlog_head r) ::
    ((fun i => default [] (g_repl_backlog r !!
        ((g_repl_backlog_head r + 1 + i) mod REPL_BACKLOG_MAX)))
      <$> seqZ 0 (g_repl_backlog_count r - 1)).
Proof.
  intros [Hh Hc _] Hpos. unfold backlog_queue.
  rewrite seqZ_cons by lia. rewrite fmap_cons. f_equal.
  - by rewrite Z.add_0_r, Z.mod_small.
  - change (Z.succ 0) with (1 + 0). rewrite <- Z.sub_1_r, <- fmap_add_seqZ, <- list_fmap_compose.
    apply list_fmap_ext. intros j x _. simpl. do 3 f_equal. lia.
Qed.

Lemma backlog_send_ok r s :
  backlog_ok r -> 0 < g_repl_backlog_count r ->
  (match s with
   | SendSome n => 0 < n <= Z.of_nat (length (default [] (g_repl_backlog r !! g_repl_backlog_head r)))
   | _ => True
   end) ->
  backlog_ok (backlog_send r s).1.1 /\
  concat (backlog_queue r)
    = (backlog_send r s).1.2 ++ concat (backlog_queue (backlog_send r s).1.1).
Proof.
  intros Hok Hpos Hn. pose proof Hok as [Hh Hc Ht].
  pose proof (backlog_queue_cons r Hok Hpos) as Hq.
  destruct s as [n| |]; [|by split..]. simpl.
  set (node := default [] (g_repl_backlog r !! g_repl_backlog_head r)) in *.
  destruct (Z.eqb_spec n (Z.of_nat (length node))) as [->|Hne]; simpl.
  - split.
    + split; simpl; unfold REPL_BACKLOG_MAX in *; [by apply Z.mod_pos_bound|lia|].
      rewrite Ht, Zplus_mod_idemp_l. f_equal. lia.
    + rewrite Hq. simpl. f_equal. f_equal. unfold backlog_queue. simpl.
      apply list_fmap_ext. intros j x _. by rewrite Zplus_mod_idemp_l.
  - split; [by split|].
    rewrite Hq. simpl. rewrite backlog_queue_cons; [|by split|done]. simpl.
    rewrite lookup_insert_eq. simpl. rewrite app_assoc, take_drop. f_equal. f_equal.
    apply list_fmap_ext. intros j x Hj. apply lookup_seqZ in Hj as [-> Hj].
    rewrite lookup_insert_ne; [done|]. intros He.
    assert (H0 : (g_repl_backlog_head r + 0) mod REPL_BACKLOG_MAX
      = (g_repl_backlog_head r + (1 + (0 + Z.of_nat j))) mod REPL_BACKLOG_MAX).
    { rewrite Z.add_0_r, Z.add_assoc, <- He. by apply Z.mod_small. }
    apply mod_ring_inj in H0; lia.
Qed.

(** ** What the slave receives *)

(** Each send delivers at least a byte and no more than the node holds, as
    [send] does on a connected socket, or nothing. *)
Fixpoint takes_ok (r : repl) (max : nat) (sends : list send_result) : Prop :=
  match max, sends with
  | S max, s :: sends =>
    0 < g_repl_backlog_count r ->
    match s with
    | SendSome n =>
      0 < n <= Z.of_nat (length (default [] (g_repl_backlog r !! g_repl_backlog_head r)))
    | _ => True
    end /\ ((backlog_send r s).2 = true -> takes_ok (backlog_send r s).1.1 max sends)
  | _, _ => True
  end.

Lemma send_loop_fifo r max sends r' out :
  backlog_ok r -> takes_ok r max sends -> backlog_send_loop r max sends = (r', out) ->
  backlog_ok r' /\ concat (backlog_queue r) = out ++ concat (backlog_queue r').
Proof.
  revert r sends r' out. induction max as [|max IH]; intros r sends r' out Hok Hs.
  { by intros [= <- <-]. }
  destruct sends as [|s sends]; [by intros [= <- <-]|]. cbn [takes_ok backlog_send_loop] in *.
  destruct (Z.ltb_spec 0 (g_repl_backlog_count r)) as [Hc|]; [|by intros [= <- <-]].
  destruct (Hs Hc) as [Hn Hgo].
  destruct (backlog_send_ok r s Hok Hc) as [Hok1 Hq]; [by destruct s|].
  destruct (backlog_send r s) as [[r1 o1] go]. cbn [fst snd] in *. destruct go.
  - destruct (backlog_send_loop r1 max sends) as [r2 o2] eqn:E. intros [= <- <-].
    destruct (IH r1 sends r2 o2 Hok1 (Hgo eq_refl) E) as (Hok2 & Hq2).
    split; [done|]. by rewrite Hq, Hq2, app_assoc.
  - by intros [= <- <-].
Qed.

Lemma master_send_fifo r sends r' out :
  backlog_ok r -> takes_ok r 100 sends -> master_repl_send r sends = (r', out) ->
  backlog_ok r' /\ concat (backlog_queue r) = out ++ concat (backlog_queue r').
Proof.
  unfold master_repl_send. destruct (_ && _); [apply send_loop_fifo|]. by intros Hok _ [= <- <-].
Qed.

(** Executions from an empty backlog on: the ring, the commands it had room
    for and what was sent. *)
Inductive backlog_run : repl -> bytes -> bytes -> Prop :=
| run_start r : backlog_ok r -> g_repl_backlog_count r = 0 -> backlog_run r [] []
| run_push r pushed wire e i data r' :
  backlog_run r pushed wire -> backlog_push e i r data = Ok r' ->
  backlog_run r' (pushed ++ if g_repl_backlog_count r <? REPL_BACKLOG_MAX then data else []) wire
| run_turn r pushed wire sends r' out :
  backlog_run r pushed wire -> takes_ok r 100 sends -> master_repl_send r sends = (r', out) ->
  backlog_run r' pushed (wire ++ out)
| run_done r pushed wire :
  backlog_run r pushed wire -> backlog_run (backlog_sync_done r) pushed wire.

(** ** What the backlog guarantees *)

(** C31.  From a SYNC on an empty backlog to the next one the backlog is a
    FIFO: however appends and turns of the sending coroutine with sends of any
    size, or failing ones, interleave, the bytes on the wire followed by those
    that wait in the ring are the commands the ring had room for, in order; a
    command that finds it full is dropped as a whole, and there is never more
    in it than it holds. *)
Theorem backlog_fifo r pushed wire :
  backlog_run r pushed wire ->
  pushed = wire ++ concat (backlog_queue r) /\
  0 <= g_repl_backlog_count r <= REPL_BACKLOG_MAX.
Proof.
  intros Hrun. enough (backlog_ok r /\ pushed = wire ++ concat (backlog_queue r)) as [[] ?] by done.
  induction Hrun as [r Hok Hz|r pushed wire e i data r' _ [Hok IH] Hp
    |r pushed wire sends r' out _ [Hok IH] Hs Hm|r pushed wire _ [[Hh Hc Ht] IH]].
  - split; [done|]. unfold backlog_queue. by rewrite Hz.
  - destruct (Z.ltb_spec (g_repl_backlog_count r) REPL_BACKLOG_MAX) as [Hlt|Hge].
    + destruct (alloc_ok e i (Z.of_nat (length data))) eqn:Ha.
      2: { unfold backlog_push in Hp. by rewrite (proj2 (Z.ltb_lt _ _) Hlt), Ha in Hp. }
      destruct (backlog_push_queue e i r data Hok Hlt Ha) as (r1 & Hp1 & Hok1 & Hq1).
      rewrite Hp in Hp1. injection Hp1 as <-. split; [done|].
      rewrite IH, Hq1, concat_app. simpl. by rewrite app_nil_r, app_assoc.
    + unfold backlog_push in Hp. rewrite (proj2 (Z.ltb_ge _ _) Hge) in Hp. injection Hp as <-.
      by rewrite app_nil_r.
  - destruct (master_send_fifo r sends r' out Hok Hs Hm) as [Hok1 Hq1].
    split; [done|]. by rewrite IH, Hq1, app_assoc.
  - split; [by split|exact IH].
Qed.

(** SYNC resets the count and leaves the indices: the next command
    appended is queued behind the oldest node of before, which is what the
    slave receives in its place. *)
Theorem sync_sends_stale_node e i r data r' :
  mem_ok e -> backlog_ok r -> 0 < g_repl_backlog_count r < REPL_BACKLOG_MAX -> data <> [] ->
  backlog_push e i (backlog_sync r) data = Ok r' ->
  backlog_queue r' = [default [] (g_repl_backlog r !! g_repl_backlog_head r)].
Proof.
  intros Hm Hok Hc Hd. unfold backlog_push. cbn [backlog_sync g_repl_backlog_count].
  change (0 <? REPL_BACKLOG_MAX) with true. unfold alloc_ok. rewrite Hm.
  destruct (Z.eqb_spec (Z.of_nat (length data)) 0); [by destruct data|].
  cbn [negb andb]. intros [= <-]. unfold backlog_queue.
  cbn [g_repl_backlog g_repl_backlog_head g_repl_backlog_tail g_repl_backlog_count].
  rewrite seqZ_cons, seqZ_nil by lia. rewrite fmap_cons. simpl. f_equal.
  destruct Hok as [Hh _ Ht]. rewrite Z.add_0_r, Z.mod_small by done.
  rewrite lookup_insert_ne; [done|]. rewrite Ht. intros He.
  rewrite <- (Z.mod_small (g_repl_backlog_head r) REPL_BACKLOG_MAX) in He at 2 by done.
  rewrite <- (Z.add_0_r (g_repl_backlog_head r)) in He at 2.
  apply mod_ring_inj in He; lia.
Qed.

(** ** Witnesses *)

Definition repl_env : cenv := CEnv true 0 (fun _ _ => true) 1.

Definition backlog_two : repl :=
  Repl 5 false true (<[1 := [x62]]> (<[0 := [x61]]> ∅)) 0 2 2.

Lemma backlog_two_run : backlog_run backlog_two ([x61] ++ [x62]) [].
Proof.
  pose proof (run_start (Repl 5 false true ∅ 0 0 0) ltac:(by split) eq_refl) as H0.
  apply (run_push _ [] [] repl_env 0 [x61] (Repl 5 false true (<[0 := [x61]]> ∅) 0 1 1)) in H0;
    [|by vm_compute].
  by apply (run_push _ _ [] repl_env 0 [x62] backlog_two) in H0; [|by vm_compute].
Qed.

(** The first command leaves. *)
Definition backlog_one : repl := (master_repl_send backlog_two [SendSome 1; SendAgain]).1.

Lemma backlog_fifo_witness :
  backlog_run backlog_one ([x61] ++ [x62]) ([] ++ [x61]) /\
  [x61] ++ [x62] = ([] ++ [x61]) ++ concat (backlog_queue backlog_one) /\
  0 <= g_repl_backlog_count backlog_one <= REPL_BACKLOG_MAX.
Proof.
  assert (Hr : backlog_run backlog_one ([x61] ++ [x62]) ([] ++ [x61])).
  { apply (run_turn backlog_two _ _ [SendSome 1; SendAgain]); [exact backlog_two_run| |reflexivity].
    vm_compute. by repeat split. }
  split; [exact Hr|]. apply (backlog_fifo _ _ _ Hr).
Defined.

(** [x63] was appended and [x61] leaves. *)
Definition backlog_stale : repl :=
  Repl 5 false true (<[2 := [x63]]> (g_repl_backlog backlog_two)) 0 3 1.

Lemma sync_sends_stale_node_witness :
  backlog_push repl_env 0 (backlog_sync backlog_two) [x63] = Ok backlog_stale /\
  backlog_queue backlog_stale
    = [default [] (g_repl_backlog backlog_two !! g_repl_backlog_head backlog_two)].
Proof.
  split; [done|]. apply (sync_sends_stale_node repl_env 0 backlog_two [x63]); try done.
Defined.

Example stale_node_sent : (backlog_send backlog_stale (SendSome 1)).1.2 = [x61].
Proof. vm_compute. done. Qed.
