(* ===== verification/Aof.v ===== *)
(** * The append-only file (persistence.c)

    Write commands are appended to an active buffer; the buffer is swapped with
    a second one and handed to io_uring, at most one write being in flight.
    The kernel's part (a submission slot being free, completions being ready,
    the result of a wait) is an input of each operation.  The file proves that
    every byte logged is submitted once, in order and at the offset that
    follows the previous write, that the active buffer never overflows and
    that the buffer handed to the kernel is not touched while the write is in
    flight; and that the shutdown path waits for a completion that cannot
    come. *)

From S2P Require Import Prelude KvData.

Open Scope Z_scope.

Definition AOF_BUF_SIZE : Z := 64 * 1024 * 1024.
Definition AOF_MIN_FLUSH_SIZE : Z := 16 * 1024.
Definition AOF_FLUSH_TIMEOUT_MS : Z := 10.

Definition zlen (l : bytes) : Z := Z.of_nat (length l).

(** The statics of persistence.c.  [aof_inflight] counts the submissions whose
    completion was not consumed and [aof_submitted] keeps what was submitted,
    with its offset, the oldest first. *)
Record aof := Aof {
  aof_fd_open : bool;
  aof_buf_active : bytes;
  aof_buf_flush : bytes;
  is_io_uring_busy : bool;
  aof_file_offset : Z;
  g_last_flush_time_ms : Z;
  aof_inflight : nat;
  aof_submitted : list (Z * bytes)
}.

(** What io_uring answers during one step: whether [io_uring_get_sqe] finds a
    slot, the results of the completions [io_uring_peek_cqe] finds, and the
    return code of [io_uring_wait_cqe] when a completion is due. *)
Record uring := Uring {
  u_sqe : bool;
  u_peek : list Z;
  u_wait : Z
}.

(** [kvs_persistence_init] on a file of [file_size] bytes. *)
Definition kvs_persistence_init (e : cenv) (fd_ok uring_ok : bool) (file_size : Z)
  : option aof * Z :=
  if fd_ok && alloc_ok e 0 AOF_BUF_SIZE && alloc_ok e 1 AOF_BUF_SIZE && uring_ok then
    (Some (Aof true [] [] false file_size 0 0 []), 0)
  else (None, -1).

Definition aof_trigger_flush_nolock (sqe : bool) (a : aof) : aof :=
  if (zlen (aof_buf_active a) =? 0) || is_io_uring_busy a then a
  else if negb sqe then a
  else
    Aof (aof_fd_open a) [] (aof_buf_active a) true
      (aof_file_offset a + zlen (aof_buf_active a)) (g_last_flush_time_ms a)
      (S (aof_inflight a))
      (aof_submitted a ++ [(aof_file_offset a, aof_buf_active a)]).

(** The state once [n] completions were consumed. *)
Definition aof_completed (n : nat) (a : aof) : aof :=
  Aof (aof_fd_open a) (aof_buf_active a) [] false (aof_file_offset a)
    (g_last_flush_time_ms a) (aof_inflight a - n) (aof_submitted a).

Definition aof_check_cqe_nonblock (u : uring) (a : aof) : aof :=
  if negb (is_io_uring_busy a) then a
  else
    match u_peek u with
    | [] => a
    | rs =>
      let a := aof_completed (length rs) a in
      if AOF_MIN_FLUSH_SIZE <=? zlen (aof_buf_active a)
      then aof_trigger_flush_nolock (u_sqe u) a else a
    end.

(** The result of an operation that may wait: [Blocks] when it waits for a
    completion with nothing in flight, [OutOfEvents] when the answers given
    are not enough to tell. *)
Inductive outcome :=
| Done (a : aof)
| Blocks
| OutOfEvents.

(** The loop that makes room for [len] bytes. *)
Fixpoint aof_make_room (us : list uring) (len : Z) (a : aof) : outcome :=
  if zlen (aof_buf_active a) + len <=? AOF_BUF_SIZE then Done a
  else
    match us with
    | [] => OutOfEvents
    | u :: us =>
      let a := aof_check_cqe_nonblock u a in
      if is_io_uring_busy a && (aof_inflight a =? 0)%nat then Blocks
      else
        let a := if is_io_uring_busy a && (u_wait u =? 0) then aof_completed 1 a else a in
        aof_make_room us len (aof_trigger_flush_nolock (u_sqe u) a)
    end.

Definition aof_append (data : bytes) (a : aof) : aof :=
  Aof (aof_fd_open a) (aof_buf_active a ++ data) (aof_buf_flush a) (is_io_uring_busy a)
    (aof_file_offset a) (g_last_flush_time_ms a) (aof_inflight a) (aof_submitted a).

Definition kvs_persistence_write (us : list uring) (a : aof) (data : bytes) : outcome :=
  if negb (aof_fd_open a) || (zlen data <=? 0) then Done a
  else if AOF_BUF_SIZE <? zlen data then Done a
  else
    match aof_make_room us (zlen data) a with
    | Done a => Done (aof_append data a)
    | r => r
    end.

Definition set_last_flush (now : Z) (a : aof) : aof :=
  Aof (aof_fd_open a) (aof_buf_active a) (aof_buf_flush a) (is_io_uring_busy a)
    (aof_file_offset a) now (aof_inflight a) (aof_submitted a).

Definition kvs_persistence_flush_pending (u : uring) (now : Z) (a : aof) : aof :=
  if negb (aof_fd_open a) then a
  else
    let a := aof_check_cqe_nonblock u a in
    let by_size := AOF_MIN_FLUSH_SIZE <=? zlen (aof_buf_active a) in
    let by_time := (0 <? zlen (aof_buf_active a)) &&
      (AOF_FLUSH_TIMEOUT_MS <=? u64 (now - g_last_flush_time_ms a)) in
    if negb (is_io_uring_busy a) && (by_size || by_time) then
      set_last_flush now (aof_trigger_flush_nolock (u_sqe u) a)
    else a.

Definition kvs_persistence_force_flush (u : uring) (now : Z) (a : aof) : aof :=
  if negb (aof_fd_open a) then a
  else
    let a := aof_check_cqe_nonblock u a in
    if negb (is_io_uring_busy a) && (0 <? zlen (aof_buf_active a)) then
      set_last_flush now (aof_trigger_flush_nolock (u_sqe u) a)
    else a.

(** The [while (is_io_uring_busy)] of [kvs_persistence_close]: its body never
    changes the flag. *)
Fixpoint aof_close_wait (us : list uring) (a : aof) : outcome :=
  if negb (is_io_uring_busy a) then Done a
  else if (aof_inflight a =? 0)%nat then Blocks
  else
    match us with
    | [] => OutOfEvents
    | u :: us =>
      if u_wait u =? 0 then
        aof_close_wait us
          (Aof (aof_fd_open a) (aof_buf_active a) (aof_buf_flush a) (is_io_uring_busy a)
             (aof_file_offset a) (g_last_flush_time_ms a) (aof_inflight a - 1)
             (aof_submitted a))
      else Done a
    end.

(** Steps 1 to 5 of [kvs_persistence_close] and the release of the buffers;
    [u] answers steps 1, 2 and 4, [us] the waits of step 3. *)
Definition kvs_persistence_close (u : uring) (us : list uring) (a : aof) : outcome :=
  let a := aof_check_cqe_nonblock u a in
  let a := if negb (is_io_uring_busy a) && (0 <? zlen (aof_buf_active a))
           then aof_trigger_flush_nolock (u_sqe u) a else a in
  match aof_close_wait us a with
  | Done a =>
    let written := if 0 <? zlen (aof_buf_active a)
                   then [(aof_file_offset a, aof_buf_active a)] else [] in
    Done (Aof false [] [] false (aof_file_offset a + zlen (aof_buf_active a))
            (g_last_flush_time_ms a) (aof_inflight a) (aof_submitted a ++ written))
  | r => r
  end.

(** ** Correctness *)

(** What was logged: what was submitted, then what waits in the buffer. *)
Definition aof_logged (a : aof) : bytes := concat (aof_submitted a).*2 ++ aof_buf_active a.

(** The writes follow each other in the file from offset [o]. *)
Fixpoint contiguous (o : Z) (ws : list (Z * bytes)) : Prop :=
  match ws with
  | [] => True
  | (p, d) :: ws => p = o /\ contiguous (o + zlen d) ws
  end.

Fixpoint end_offset (o : Z) (ws : list (Z * bytes)) : Z :=
  match ws with
  | [] => o
  | (_, d) :: ws => end_offset (o + zlen d) ws
  end.

(** [base] is the size of the file when it was opened. *)
Record aof_ok (base : Z) (a : aof) : Prop := {
  ao_flight : aof_inflight a = if is_io_uring_busy a then 1%nat else 0%nat;
  ao_stable : is_io_uring_busy a = true ->
    exists p, last (aof_submitted a) = Some (p, aof_buf_flush a);
  ao_contiguous : contiguous base (aof_submitted a);
  ao_offset : aof_file_offset a = end_offset base (aof_submitted a);
  ao_size : zlen (aof_buf_active a) <= AOF_BUF_SIZE
}.

(** io_uring reports only what is in flight. *)
Definition uring_ok (u : uring) (a : aof) : Prop := (length (u_peek u) <= aof_inflight a)%nat.

Lemma contiguous_snoc o ws d :
  contiguous o (ws ++ [(end_offset o ws, d)]) <-> contiguous o ws.
Proof.
  revert o. induction ws as [|[p x] ws IH]; intros o; simpl; [tauto|]. by rewrite IH.
Qed.

Lemma end_offset_snoc o ws p d : end_offset o (ws ++ [(p, d)]) = end_offset o ws + zlen d.
Proof. revert o. induction ws as [|[q x] ws IH]; intros o; simpl; auto. Qed.

Lemma trigger_ok base sqe a :
  aof_ok base a ->
  aof_ok base (aof_trigger_flush_nolock sqe a) /\
  aof_logged (aof_trigger_flush_nolock sqe a) = aof_logged a /\
  zlen (aof_buf_active (aof_trigger_flush_nolock sqe a)) <= zlen (aof_buf_active a).
Proof.
  intros Hok. unfold aof_trigger_flush_nolock.
  destruct ((zlen (aof_buf_active a) =? 0) || is_io_uring_busy a) eqn:Hg;
    [split_and!; done || lia|]. unbool. pose proof Hok as [Hf Hs Hc Ho Hz]. rewrite H0 in Hf.
  destruct sqe; simpl; [|split_and!; done || lia].
  split_and!.
  - split; simpl; [by rewrite Hf| | | |unfold zlen; simpl; unfold AOF_BUF_SIZE; lia].
    + intros _. exists (aof_file_offset a). apply last_snoc.
    + rewrite Ho. by apply contiguous_snoc.
    + by rewrite end_offset_snoc, <- Ho.
  - unfold aof_logged. simpl. rewrite fmap_app, concat_app. simpl. by rewrite !app_nil_r.
  - unfold zlen. simpl. lia.
Qed.

Lemma completed_ok base a :
  aof_ok base a -> is_io_uring_busy a = true ->
  aof_ok base (aof_completed 1 a) /\ aof_logged (aof_completed 1 a) = aof_logged a.
Proof.
  intros [Hf Hs Hc Ho Hz] Hb. split; [|done]. split; simpl; try done. by rewrite Hf, Hb.
Qed.

Lemma check_cqe_ok base u a :
  aof_ok base a -> uring_ok u a ->
  aof_ok base (aof_check_cqe_nonblock u a) /\
  aof_logged (aof_check_cqe_nonblock u a) = aof_logged a /\
  zlen (aof_buf_active (aof_check_cqe_nonblock u a)) <= zlen (aof_buf_active a).
Proof.
  intros Hok Hu. unfold aof_check_cqe_nonblock, uring_ok in *.
  destruct (is_io_uring_busy a) eqn:Hb; simpl; [|done].
  destruct (u_peek u) as [|r rs] eqn:Hp; [done|].
  rewrite (ao_flight _ _ Hok), Hb in Hu. simpl in Hu.
  destruct rs; [|simpl in Hu; lia].
  destruct (completed_ok base a Hok Hb) as [Hok1 Hl1]. cbn [length].
  destruct (_ <=? _); [|done].
  destruct (trigger_ok base (u_sqe u) _ Hok1) as (H1 & H2 & H3).
  by rewrite H2, Hl1.
Qed.

(** The answers are possible at each turn of the loop. *)
Fixpoint urings_ok (us : list uring) (a : aof) : Prop :=
  match us with
  | [] => True
  | u :: us =>
    uring_ok u a /\
    (let a := aof_check_cqe_nonblock u a in
     let a := if is_io_uring_busy a && (u_wait u =? 0) then aof_completed 1 a else a in
     urings_ok us (aof_trigger_flush_nolock (u_sqe u) a))
  end.

Lemma make_room_ok base us len a :
  aof_ok base a -> urings_ok us a ->
  match aof_make_room us len a with
  | Done a' => aof_ok base a' /\ aof_logged a' = aof_logged a /\
               zlen (aof_buf_active a') + len <= AOF_BUF_SIZE
  | Blocks => False
  | OutOfEvents => True
  end.
Proof.
  revert a. induction us as [|u us IH]; intros a Hok Hus; cbn [aof_make_room];
    destruct (Z.leb_spec (zlen (aof_buf_active a) + len) AOF_BUF_SIZE); try done.
  destruct Hus as [Hu Hus]. destruct (check_cqe_ok base u a Hok Hu) as (Hok1 & Hl1 & _).
  cbv zeta in *. set (a1 := aof_check_cqe_nonblock u a) in *.
  pose proof (ao_flight _ _ Hok1) as Hf.
  destruct (is_io_uring_busy a1) eqn:Hb; rewrite Hf; cbn [andb Nat.eqb] in *.
  - set (a2 := if u_wait u =? 0 then aof_completed 1 a1 else a1) in *.
    assert (H2 : aof_ok base a2 /\ aof_logged a2 = aof_logged a1).
    { unfold a2. destruct (u_wait u =? 0); [by apply completed_ok|done]. }
    destruct H2 as [Hok2 Hl2]. destruct (trigger_ok base (u_sqe u) a2 Hok2) as (Hok3 & Hl3 & _).
    specialize (IH _ Hok3 Hus). destruct (aof_make_room us len _); [|done..].
    destruct IH as (? & Hl & ?). split_and!; [done| |done]. by rewrite Hl, Hl3, Hl2.
  - destruct (trigger_ok base (u_sqe u) a1 Hok1) as (Hok3 & Hl3 & _).
    specialize (IH _ Hok3 Hus). destruct (aof_make_room us len _); [|done..].
    destruct IH as (? & Hl & ?). split_and!; [done| |done]. by rewrite Hl, Hl3.
Qed.

Lemma write_ok base us a data :
  aof_ok base a -> urings_ok us a -> aof_fd_open a = true -> 0 < zlen data <= AOF_BUF_SIZE ->
  match kvs_persistence_write us a data with
  | Done a' => aof_ok base a' /\ aof_logged a' = aof_logged a ++ data
  | Blocks => False
  | OutOfEvents => True
  end.
Proof.
  intros Hok Hus Ho Hd. unfold kvs_persistence_write. rewrite Ho. simpl.
  destruct (Z.leb_spec (zlen data) 0); [lia|]. simpl.
  destruct (Z.ltb_spec AOF_BUF_SIZE (zlen data)); [lia|].
  pose proof (make_room_ok base us (zlen data) a Hok Hus) as Hm.
  destruct (aof_make_room us (zlen data) a) as [a'| |]; try done.
  destruct Hm as ([Hf Hs Hc Hoff Hz] & Hl & Hroom). split.
  - split; simpl; try done. unfold zlen in *. rewrite length_app. lia.
  - unfold aof_logged in *. simpl. by rewrite app_assoc, Hl.
Qed.

(** When io_uring answers, one turn of the loop makes room. *)
Lemma make_room_progress base u len a :
  aof_ok base a -> uring_ok u a -> u_sqe u = true -> u_wait u = 0 -> 0 <= len <= AOF_BUF_SIZE ->
  exists a', aof_make_room [u] len a = Done a'.
Proof.
  intros Hok Hu Hsqe Hw Hlen. cbn [aof_make_room].
  destruct (Z.leb_spec (zlen (aof_buf_active a) + len) AOF_BUF_SIZE); [eauto|].
  destruct (check_cqe_ok base u a Hok Hu) as (Hok1 & _). cbv zeta.
  set (a1 := aof_check_cqe_nonblock u a) in *. pose proof (ao_flight _ _ Hok1) as Hf.
  assert (Hempty : forall a2, is_io_uring_busy a2 = false ->
    zlen (aof_buf_active (aof_trigger_flush_nolock (u_sqe u) a2)) = 0).
  { intros a2 Hb. unfold aof_trigger_flush_nolock. rewrite Hsqe, Hb, orb_false_r. simpl.
    destruct (Z.eqb_spec (zlen (aof_buf_active a2)) 0); done. }
  rewrite Hw. destruct (is_io_uring_busy a1) eqn:Hb; rewrite Hf; cbn [andb Nat.eqb Z.eqb];
    (rewrite Hempty by done); (destruct (Z.leb_spec (0 + len) AOF_BUF_SIZE); [eauto|lia]).
Qed.

Lemma set_last_flush_ok base now a :
  aof_ok base a -> aof_ok base (set_last_flush now a) /\ aof_logged (set_last_flush now a) = aof_logged a.
Proof. intros [H1 H2 H3 H4 H5]. split; [by split|done]. Qed.

Lemma flush_ok base u now a (c : bool) :
  aof_ok base a ->
  let a' := if c then set_last_flush now (aof_trigger_flush_nolock (u_sqe u) a) else a in
  aof_ok base a' /\ aof_logged a' = aof_logged a.
Proof.
  intros Hok a'. destruct c; [|done].
  destruct (trigger_ok base (u_sqe u) a Hok) as (Hok1 & Hl1 & _).
  destruct (set_last_flush_ok base now _ Hok1) as [Hok2 Hl2]. split; [done|].
  unfold a'. by rewrite Hl2.
Qed.

Lemma flush_pending_ok base u now a :
  aof_ok base a -> uring_ok u a ->
  aof_ok base (kvs_persistence_flush_pending u now a) /\
  aof_logged (kvs_persistence_flush_pending u now a) = aof_logged a.
Proof.
  intros Hok Hu. unfold kvs_persistence_flush_pending.
  destruct (negb (aof_fd_open a)); [done|].
  destruct (check_cqe_ok base u a Hok Hu) as (Hok1 & Hl1 & _). cbv zeta. rewrite <- Hl1.
  by apply flush_ok.
Qed.

Lemma force_flush_ok base u now a :
  aof_ok base a -> uring_ok u a ->
  aof_ok base (kvs_persistence_force_flush u now a) /\
  aof_logged (kvs_persistence_force_flush u now a) = aof_logged a.
Proof.
  intros Hok Hu. unfold kvs_persistence_force_flush.
  destruct (negb (aof_fd_open a)); [done|].
  destruct (check_cqe_ok base u a Hok Hu) as (Hok1 & Hl1 & _). cbv zeta. rewrite <- Hl1.
  by apply flush_ok.
Qed.

(** ** Sequences of operations *)

Inductive aof_op :=
| AofWrite (us : list uring) (data : bytes)
| AofFlushPending (u : uring) (now : Z)
| AofForceFlush (u : uring) (now : Z).

(** One operation, with the bytes it logs. *)
Inductive aof_step (a : aof) : aof_op -> bytes -> aof -> Prop :=
| step_write us data a' :
  urings_ok us a -> 0 < zlen data <= AOF_BUF_SIZE ->
  kvs_persistence_write us a data = Done a' -> aof_step a (AofWrite us data) data a'
| step_flush u now :
  uring_ok u a -> aof_step a (AofFlushPending u now) [] (kvs_persistence_flush_pending u now a)
| step_force u now :
  uring_ok u a -> aof_step a (AofForceFlush u now) [] (kvs_persistence_force_flush u now a).

Inductive aof_steps (a : aof) : list aof_op -> bytes -> aof -> Prop :=
| steps_nil : aof_steps a [] [] a
| steps_cons o d a1 os ds a2 :
  aof_step a o d a1 -> aof_steps a1 os ds a2 -> aof_steps a (o :: os) (d ++ ds) a2.

Lemma fd_open_trigger sqe a : aof_fd_open (aof_trigger_flush_nolock sqe a) = aof_fd_open a.
Proof. unfold aof_trigger_flush_nolock. by destruct (_ || _), sqe. Qed.

Lemma fd_open_check u a : aof_fd_open (aof_check_cqe_nonblock u a) = aof_fd_open a.
Proof.
  unfold aof_check_cqe_nonblock. destruct (negb _), (u_peek u); try done.
  cbv zeta. destruct (_ <=? _); [|done]. by rewrite fd_open_trigger.
Qed.

Lemma fd_open_make_room us len a a' :
  aof_make_room us len a = Done a' -> aof_fd_open a' = aof_fd_open a.
Proof.
  revert a. induction us as [|u us IH]; intros a; cbn [aof_make_room];
    destruct (_ <=? _); try by intros [= <-].
  cbv zeta. destruct (_ && _); [done|]. intros H%IH. rewrite H, fd_open_trigger.
  destruct (_ && _); simpl; apply fd_open_check.
Qed.

Lemma aof_step_ok base a o d a' :
  aof_ok base a -> aof_fd_open a = true -> aof_step a o d a' ->
  aof_ok base a' /\ aof_fd_open a' = true /\ aof_logged a' = aof_logged a ++ d.
Proof.
  intros Hok Ho Hs. destruct Hs as [us data a' Hus Hd Hw|u now Hu|u now Hu].
  - pose proof (write_ok base us a data Hok Hus Ho Hd) as Hwr. rewrite Hw in Hwr.
    destruct Hwr as [? ?]. split_and!; try done.
    unfold kvs_persistence_write in Hw. rewrite Ho in Hw. simpl in Hw.
    destruct (_ <=? _); [by simplify_eq|]. destruct (_ <? _); [by simplify_eq|].
    destruct (aof_make_room us (zlen data) a) eqn:E; simplify_eq. simpl.
    by rewrite (fd_open_make_room _ _ _ _ E).
  - destruct (flush_pending_ok base u now a Hok Hu) as [? Hl]. rewrite app_nil_r.
    split_and!; try done. unfold kvs_persistence_flush_pending. rewrite Ho. cbn [negb].
    cbv zeta. destruct (_ && _); simpl; rewrite ?fd_open_trigger; by rewrite fd_open_check.
  - destruct (force_flush_ok base u now a Hok Hu) as [? Hl]. rewrite app_nil_r.
    split_and!; try done. unfold kvs_persistence_force_flush. rewrite Ho. cbn [negb].
    cbv zeta. destruct (_ && _); simpl; rewrite ?fd_open_trigger; by rewrite fd_open_check.
Qed.

Lemma aof_steps_ok base a os ds a' :
  aof_ok base a -> aof_fd_open a = true -> aof_steps a os ds a' ->
  aof_ok base a' /\ aof_logged a' = aof_logged a ++ ds.
Proof.
  intros Hok Ho Hs. induction Hs as [a|a o d a1 os ds a2 H1 _ IH].
  - by rewrite app_nil_r.
  - destruct (aof_step_ok base a o d a1 Hok Ho H1) as (Hok1 & Ho1 & Hl1).
    destruct (IH Hok1 Ho1) as [Hok2 Hl2]. split; [done|]. by rewrite Hl2, Hl1, app_assoc.
Qed.

Lemma aof_init_ok e n a :
  kvs_persistence_init e true true n = (Some a, 0) ->
  aof_ok n a /\ aof_fd_open a = true /\ aof_logged a = [].
Proof.
  unfold kvs_persistence_init. destruct (_ && _); [|done]. intros [= <-].
  split; [by split|done].
Qed.

(** ** The shutdown *)

Lemma close_wait_blocks us a :
  is_io_uring_busy a = true -> Forall (fun u => u_wait u = 0) us ->
  (aof_inflight a <= length us)%nat -> aof_close_wait us a = Blocks.
Proof.
  intros Hb Hus. revert a Hb. induction Hus as [|u us Hu Hus IH]; intros a Hb Hn;
    cbn [aof_close_wait]; rewrite Hb; cbn [negb].
  - simpl in Hn. destruct (Nat.eqb_spec (aof_inflight a) 0); [done|lia].
  - destruct (Nat.eqb_spec (aof_inflight a) 0); [done|]. rewrite Hu. simpl in Hn |- *.
    apply IH; simpl; [done|lia].
Qed.

(** ** What the log guarantees *)

(** *** The file *)

(** A write at the offset [p] of which the kernel carries out the first [n]
    bytes; a gap reads as zeros. *)
Definition file_write (f : bytes) (w : Z * bytes) (n : nat) : bytes :=
  let d := take n w.2 in
  if (length d =? 0)%nat then f
  else take (Z.to_nat w.1) f ++ replicate (Z.to_nat w.1 - length f) x00 ++ d
         ++ drop (Z.to_nat w.1 + length d) f.

(** The file after the writes, with what the kernel carries out of each. *)
Fixpoint file_after (f : bytes) (ws : list (Z * bytes)) (counts : list nat) : bytes :=
  match ws, counts with
  | w :: ws, n :: counts => file_after (file_write f w n) ws counts
  | _, _ => f
  end.

Lemma file_write_end f d n : (length d <= n)%nat -> file_write f (zlen f, d) n = f ++ d.
Proof.
  intros Hn. unfold file_write, zlen. cbn [fst snd]. rewrite take_ge, Nat2Z.id by lia.
  destruct d as [|b d]; [by rewrite app_nil_r|]. cbn [length Nat.eqb].
  rewrite firstn_all, Nat.sub_diag, drop_ge by (simpl; lia). cbn [replicate app].
  by rewrite app_nil_r.
Qed.

Lemma file_after_full f ws counts :
  contiguous (zlen f) ws -> Forall2 (fun w n => length w.2 <= n)%nat ws counts ->
  file_after f ws counts = f ++ concat ws.*2.
Proof.
  intros Hc Hn. revert f Hc. induction Hn as [|[p d] n ws counts Hd Hn IH]; intros f Hc.
  - by rewrite app_nil_r.
  - destruct Hc as [-> Hc]. cbn [file_after]. rewrite file_write_end by done.
    rewrite IH; [|unfold zlen in *; by rewrite length_app, Nat2Z.inj_add].
    rewrite fmap_cons. cbn [concat snd]. by rewrite app_assoc.
Qed.

(** C30.  Whatever writes and flushes follow the opening of a log of [n] bytes,
    and whatever io_uring answers: every byte logged is submitted or waits in
    the active buffer, in order and once; the submissions are contiguous from
    the old end of the file; at most one is in flight, whose buffer is not
    touched; and the active buffer never overflows.  When the kernel carries
    every submission out in full, the file followed by the active buffer is
    the old file followed by what was logged. *)
Theorem aof_logs_in_order e n a os ds a' :
  kvs_persistence_init e true true n = (Some a, 0) -> aof_steps a os ds a' ->
  concat (aof_submitted a').*2 ++ aof_buf_active a' = ds /\
  contiguous n (aof_submitted a') /\ aof_file_offset a' = end_offset n (aof_submitted a') /\
  (aof_inflight a' <= 1)%nat /\
  (is_io_uring_busy a' = true -> exists p, last (aof_submitted a') = Some (p, aof_buf_flush a')) /\
  zlen (aof_buf_active a') <= AOF_BUF_SIZE /\
  forall f counts, zlen f = n ->
    Forall2 (fun w c => length w.2 <= c)%nat (aof_submitted a') counts ->
    file_after f (aof_submitted a') counts ++ aof_buf_active a' = f ++ ds.
Proof.
  intros Hi Hs. destruct (aof_init_ok e n a Hi) as (Hok & Ho & Hl).
  destruct (aof_steps_ok n a os ds a' Hok Ho Hs) as [Hok' Hl']. rewrite Hl in Hl'.
  pose proof Hok' as [Hf Hst Hc Hoff Hz]. split_and!; try done.
  - rewrite Hf. destruct (is_io_uring_busy a'); lia.
  - intros f counts <- Hn. rewrite file_after_full, <- app_assoc by done. by f_equal.
Qed.

(** A write of up to 64 MB returns after at most one wait when io_uring
    has a free slot and reports the completion: the command is then logged. *)
Theorem aof_write_progress base u a data :
  aof_ok base a -> aof_fd_open a = true -> uring_ok u a -> u_sqe u = true -> u_wait u = 0 ->
  0 < zlen data <= AOF_BUF_SIZE ->
  exists a', kvs_persistence_write [u] a data = Done a' /\ aof_ok base a' /\
    aof_logged a' = aof_logged a ++ data.
Proof.
  intros Hok Ho Hu Hs Hw Hd.
  destruct (make_room_progress base u (zlen data) a Hok Hu Hs Hw ltac:(lia)) as [a1 Ha1].
  assert (Hus : urings_ok [u] a) by done.
  pose proof (write_ok base [u] a data Hok Hus Ho Hd) as Hwr.
  unfold kvs_persistence_write in *. rewrite Ho in *. cbn [negb orb] in *.
  rewrite (proj2 (Z.leb_gt _ _)), (proj2 (Z.ltb_ge _ _)) in * by lia.
  rewrite Ha1 in *. by eexists.
Qed.

(** Closing the log while a write is in flight blocks for ever: the loop
    that waits for its completion consumes it and never clears the flag it
    tests, so it waits for a second one. *)
Theorem aof_close_blocks base u us a :
  aof_ok base a -> is_io_uring_busy a = true -> u_peek u = [] ->
  us <> [] -> Forall (fun u => u_wait u = 0) us ->
  kvs_persistence_close u us a = Blocks.
Proof.
  intros Hok Hb Hp Hne Hus. unfold kvs_persistence_close.
  assert (Hc : aof_check_cqe_nonblock u a = a)
    by (unfold aof_check_cqe_nonblock; by rewrite Hb, Hp).
  rewrite Hc, Hb. cbn [negb andb]. rewrite close_wait_blocks; [done|done|done|].
  rewrite (ao_flight _ _ Hok), Hb. destruct us; [done|simpl; lia].
Qed.

(** ** Witnesses *)

Definition aof_env : cenv := CEnv true 0 (fun _ _ => true) 1.
Definition answer : uring := Uring true [] 0.
Definition aof_start : aof := Aof true [] [] false 100 0 0 [].

(** Two writes and a timed flush between them. *)
Definition aof_end : aof :=
  Aof true [x62] [x61] true 101 50 1 [(100, [x61])].

Lemma sample_steps :
  aof_steps aof_start [AofWrite [] [x61]; AofFlushPending answer 50; AofWrite [] [x62]]
    ([x61] ++ [] ++ [x62] ++ []) aof_end.
Proof.
  eapply steps_cons; [apply step_write; [done|by vm_compute|reflexivity]|].
  eapply steps_cons; [apply step_flush; vm_compute; lia|].
  eapply steps_cons; [apply step_write; [done|by vm_compute|reflexivity]|]. apply steps_nil.
Qed.

Lemma aof_logs_in_order_witness :
  kvs_persistence_init aof_env true true 100 = (Some aof_start, 0) /\
  concat (aof_submitted aof_end).*2 ++ aof_buf_active aof_end = [x61; x62] /\
  contiguous 100 (aof_submitted aof_end) /\
  aof_file_offset aof_end = end_offset 100 (aof_submitted aof_end) /\
  (aof_inflight aof_end <= 1)%nat /\
  (is_io_uring_busy aof_end = true ->
   exists p, last (aof_submitted aof_end) = Some (p, aof_buf_flush aof_end)) /\
  zlen (aof_buf_active aof_end) <= AOF_BUF_SIZE /\
  forall f counts, zlen f = 100 ->
    Forall2 (fun w c => length w.2 <= c)%nat (aof_submitted aof_end) counts ->
    file_after f (aof_submitted aof_end) counts ++ aof_buf_active aof_end = f ++ [x61; x62].
Proof.
  split; [done|]. exact (aof_logs_in_order aof_env 100 aof_start
    [AofWrite [] [x61]; AofFlushPending answer 50; AofWrite [] [x62]] ([x61] ++ [] ++ [x62] ++ [])
    aof_end eq_refl sample_steps).
Defined.

Lemma aof_end_ok : aof_ok 100 aof_end.
Proof. split; simpl; try done. intros _. by exists 100. Qed.

Lemma aof_write_progress_witness :
  exists a', kvs_persistence_write [answer] aof_end [x63] = Done a' /\ aof_ok 100 a' /\
    aof_logged a' = aof_logged aof_end ++ [x63].
Proof.
  apply (aof_write_progress 100 answer); try done; [exact aof_end_ok|vm_compute; lia].
Defined.

Lemma aof_close_blocks_witness :
  aof_ok 100 aof_end /\ kvs_persistence_close answer [answer; answer] aof_end = Blocks.
Proof.
  split; [exact aof_end_ok|].
  apply (aof_close_blocks 100); [exact aof_end_ok|done|done|done|by repeat constructor].
Defined.

(** A write that fails is reported and forgotten: the next one leaves a gap
    where its bytes should be. *)
Example failed_write_leaves_gap :
  file_after [x61] [(1, [x62; x63]); (3, [x64])] [0; 1]%nat = [x61; x00; x00; x64].
Proof. reflexivity. Qed.
