(* ===== verification/ExpireQueue.v ===== *)
(** * The expiry queues (expire.c, expire.h)

    The two single-producer single-consumer rings between the main thread and
    the expiry thread, as the sequential functions [queue_push] and
    [queue_pop] and as the atomic steps of two concurrent threads.  The file
    proves that a ring is a FIFO for every interleaving. *)

From S2P Require Import Prelude KvData Engine.

Open Scope Z_scope.
Open Scope kvs_scope.

Definition EXPIRE_TYPE_ARRAY : Z := 0.
Definition EXPIRE_TYPE_HASH : Z := 1.
Definition EXPIRE_TYPE_RBTREE : Z := 2.
Definition EXPIRE_TYPE_SKIPLIST : Z := 3.
Definition EXPIRE_TYPE_HASH2 : Z := 4.

(** [expire_item_t]; [ei_hash] is the [hash_cache] of its key. *)
Record expire_item := ExpireItem {
  ei_key : bytes;
  ei_hash : Z;
  ei_expire_time : Z;
  ei_version : Z;
  ei_type : Z
}.

Definition EXPIRE_QUEUE_SIZE : Z := 65536.
Definition EXPIRE_QUEUE_MASK : Z := EXPIRE_QUEUE_SIZE - 1.

(** [expire_queue_t] *)
Record expire_queue := ExpireQueue {
  eq_items : gmap Z expire_item;
  eq_head : Z;
  eq_tail : Z
}.

Definition queue_zero : expire_queue := ExpireQueue ∅ 0 0.

Definition queue_next (i : Z) : Z := Z.land (i + 1) EXPIRE_QUEUE_MASK.

Definition queue_push (q : expire_queue) (item : expire_item) : expire_queue * Z :=
  let head := eq_head q in
  let tail := eq_tail q in
  if queue_next head =? tail then (q, -1)
  else (ExpireQueue (<[head := item]> (eq_items q)) (queue_next head) (eq_tail q), 0).

(** The slots are written before they are read, so the default never shows. *)
Definition item_zero : expire_item := ExpireItem [] 0 0 0 0.

Definition queue_pop (q : expire_queue) : expire_queue * option expire_item :=
  let tail := eq_tail q in
  let head := eq_head q in
  if tail =? head then (q, None)
  else
    (ExpireQueue (eq_items q) (eq_head q) (queue_next tail),
     Some (default item_zero (eq_items q !! tail))).

(** [expire_push_cmd]; an empty key makes the allocation fail.  The item is
    built on the stack and the [hash_cache] of its key is never set: [stale] is
    the value the stack holds there. *)
Definition expire_push_cmd (e : cenv) (i : nat) (stale : Z) (q : expire_queue) (type : Z)
  (key : bytes) (expire_time version : Z) : expire_queue * Z :=
  if alloc_ok e i (Z.of_nat (length key)) then
    queue_push q (ExpireItem key stale expire_time version type)
  else (q, -1).

(** ** The ring as a queue *)

Lemma queue_next_mod i : queue_next (i mod EXPIRE_QUEUE_SIZE) = (i + 1) mod EXPIRE_QUEUE_SIZE.
Proof.
  unfold queue_next, EXPIRE_QUEUE_MASK, EXPIRE_QUEUE_SIZE.
  change (65536 - 1) with (Z.ones 16). rewrite Z.land_ones by lia. change (2 ^ 16) with 65536.
  by rewrite Zplus_mod_idemp_l.
Qed.

Lemma ring_index_inj i j :
  Z.abs (i - j) < EXPIRE_QUEUE_SIZE ->
  i mod EXPIRE_QUEUE_SIZE = j mod EXPIRE_QUEUE_SIZE -> i = j.
Proof.
  unfold EXPIRE_QUEUE_SIZE. intros Hd He.
  pose proof (Z.div_mod i 65536). pose proof (Z.div_mod j 65536). lia.
Qed.

(** [q] holds the items [l], the oldest first. *)
Definition queue_rep (q : expire_queue) (l : list expire_item) : Prop :=
  exists c, eq_tail q = c mod EXPIRE_QUEUE_SIZE /\
    eq_head q = (c + Z.of_nat (length l)) mod EXPIRE_QUEUE_SIZE /\
    Z.of_nat (length l) < EXPIRE_QUEUE_SIZE /\
    forall j x, l !! j = Some x -> eq_items q !! ((c + Z.of_nat j) mod EXPIRE_QUEUE_SIZE) = Some x.

Lemma queue_zero_rep : queue_rep queue_zero [].
Proof. by exists 0. Qed.

Lemma queue_push_rep q l item :
  queue_rep q l ->
  if decide (Z.of_nat (length l) + 1 < EXPIRE_QUEUE_SIZE) then
    exists q', queue_push q item = (q', 0) /\ queue_rep q' (l ++ [item])
  else queue_push q item = (q, -1).
Proof.
  intros (c & Ht & Hh & Hlt & Hl). unfold queue_push. rewrite Ht, Hh, queue_next_mod.
  case_decide as Hroom.
  - destruct (Z.eqb_spec ((c + Z.of_nat (length l) + 1) mod EXPIRE_QUEUE_SIZE)
      (c mod EXPIRE_QUEUE_SIZE)) as [He|_].
    { apply ring_index_inj in He; unfold EXPIRE_QUEUE_SIZE in *; lia. }
    eexists. split; [done|]. exists c. rewrite length_app. simpl.
    split_and!; [done|f_equal; lia|lia|]. intros j x Hj.
    apply lookup_app_Some in Hj as [Hj|[Hj Hx]].
    + rewrite lookup_insert_ne; [by apply Hl|]. intros He. apply lookup_lt_Some in Hj.
      apply ring_index_inj in He; unfold EXPIRE_QUEUE_SIZE in *; lia.
    + apply list_lookup_singleton_Some in Hx as [Hx <-].
      replace j with (length l) by lia. by rewrite lookup_insert_eq.
  - replace (c + Z.of_nat (length l) + 1) with (c + EXPIRE_QUEUE_SIZE)
      by (unfold EXPIRE_QUEUE_SIZE in *; lia).
    rewrite <- (Z.mul_1_l EXPIRE_QUEUE_SIZE) at 1. rewrite Z.mod_add by done.
    by rewrite Z.eqb_refl.
Qed.

Lemma queue_pop_rep q l :
  queue_rep q l ->
  match l with
  | [] => queue_pop q = (q, None)
  | x :: l => exists q', queue_pop q = (q', Some x) /\ queue_rep q' l
  end.
Proof.
  intros (c & Ht & Hh & Hlt & Hl). unfold queue_pop. rewrite Ht, Hh.
  destruct l as [|x l].
  - simpl. by rewrite Z.add_0_r, Z.eqb_refl.
  - destruct (Z.eqb_spec (c mod EXPIRE_QUEUE_SIZE)
      ((c + Z.of_nat (length (x :: l))) mod EXPIRE_QUEUE_SIZE)) as [He|_].
    { simpl in He, Hlt. apply ring_index_inj in He; lia. }
    pose proof (Hl 0%nat x eq_refl) as Hx. rewrite Z.add_0_r in Hx. rewrite Hx.
    eexists. split; [done|]. exists (c + 1). simpl. simpl in Hlt. rewrite queue_next_mod.
    split_and!; [done|f_equal; lia|lia|]. intros j y Hj.
    replace (c + 1 + Z.of_nat j) with (c + Z.of_nat (S j)) by lia. by apply Hl.
Qed.

(** ** The ring under interleaving *)

(** Where the producer is within [queue_push], with what it has loaded. *)
Inductive prod_pc :=
| PIdle
| PLoaded (item : expire_item) (head tail : Z)
| PWritten (item : expire_item) (head : Z).

(** Where the consumer is within [queue_pop]. *)
Inductive cons_pc :=
| CIdle
| CLoaded (tail head : Z)
| CRead (tail : Z) (item : expire_item).

(** The shared ring, the two threads, and what they pushed and popped. *)
Record spsc := Spsc {
  sp_queue : expire_queue;
  sp_prod : prod_pc;
  sp_cons : cons_pc;
  sp_pushed : list expire_item;
  sp_popped : list expire_item
}.

Inductive spsc_step : spsc -> spsc -> Prop :=
| p_load q c pu po item :
  spsc_step (Spsc q PIdle c pu po) (Spsc q (PLoaded item (eq_head q) (eq_tail q)) c pu po)
| p_full q c pu po item h t :
  queue_next h = t -> spsc_step (Spsc q (PLoaded item h t) c pu po) (Spsc q PIdle c pu po)
| p_write q c pu po item h t :
  queue_next h <> t ->
  spsc_step (Spsc q (PLoaded item h t) c pu po)
    (Spsc (ExpireQueue (<[h := item]> (eq_items q)) (eq_head q) (eq_tail q))
       (PWritten item h) c pu po)
| p_publish q c pu po item h :
  spsc_step (Spsc q (PWritten item h) c pu po)
    (Spsc (ExpireQueue (eq_items q) (queue_next h) (eq_tail q)) PIdle c (pu ++ [item]) po)
| c_load q p pu po :
  spsc_step (Spsc q p CIdle pu po) (Spsc q p (CLoaded (eq_tail q) (eq_head q)) pu po)
| c_empty q p pu po t h :
  t = h -> spsc_step (Spsc q p (CLoaded t h) pu po) (Spsc q p CIdle pu po)
| c_read q p pu po t h :
  t <> h ->
  spsc_step (Spsc q p (CLoaded t h) pu po)
    (Spsc q p (CRead t (default item_zero (eq_items q !! t))) pu po)
| c_publish q p pu po t item :
  spsc_step (Spsc q p (CRead t item) pu po)
    (Spsc (ExpireQueue (eq_items q) (eq_head q) (queue_next t)) p CIdle pu (po ++ [item])).

Definition spsc_init : spsc := Spsc queue_zero PIdle CIdle [] [].

Definition ilen (l : list expire_item) : Z := Z.of_nat (length l).

Definition prod_ok (q : expire_queue) (P C : Z) (p : prod_pc) : Prop :=
  match p with
  | PIdle => True
  | PLoaded item h t => h = P mod EXPIRE_QUEUE_SIZE /\
    exists c, c <= C /\ t = c mod EXPIRE_QUEUE_SIZE /\ 0 <= P - c < EXPIRE_QUEUE_SIZE
  | PWritten item h => h = P mod EXPIRE_QUEUE_SIZE /\ eq_items q !! h = Some item /\
    P + 1 - C < EXPIRE_QUEUE_SIZE
  end.

Definition cons_ok (pu : list expire_item) (P C : Z) (c : cons_pc) : Prop :=
  match c with
  | CIdle => True
  | CLoaded t h => t = C mod EXPIRE_QUEUE_SIZE /\
    exists p, C <= p <= P /\ h = p mod EXPIRE_QUEUE_SIZE
  | CRead t item => t = C mod EXPIRE_QUEUE_SIZE /\ pu !! Z.to_nat C = Some item
  end.

Record spsc_ok (s : spsc) : Prop := {
  so_head : eq_head (sp_queue s) = ilen (sp_pushed s) mod EXPIRE_QUEUE_SIZE;
  so_tail : eq_tail (sp_queue s) = ilen (sp_popped s) mod EXPIRE_QUEUE_SIZE;
  so_size : 0 <= ilen (sp_pushed s) - ilen (sp_popped s) < EXPIRE_QUEUE_SIZE;
  so_prefix : sp_popped s = take (length (sp_popped s)) (sp_pushed s);
  so_slots j x : (length (sp_popped s) <= j)%nat -> sp_pushed s !! j = Some x ->
    eq_items (sp_queue s) !! (Z.of_nat j mod EXPIRE_QUEUE_SIZE) = Some x;
  so_prod : prod_ok (sp_queue s) (ilen (sp_pushed s)) (ilen (sp_popped s)) (sp_prod s);
  so_cons : cons_ok (sp_pushed s) (ilen (sp_pushed s)) (ilen (sp_popped s)) (sp_cons s)
}.

Lemma ilen_snoc l x : ilen (l ++ [x]) = ilen l + 1.
Proof. unfold ilen. rewrite length_app. simpl. lia. Qed.

Lemma spsc_init_ok : spsc_ok spsc_init.
Proof. split; try done; simpl; unfold ilen, EXPIRE_QUEUE_SIZE; simpl; lia. Qed.

Lemma spsc_step_ok s s' : spsc_ok s -> spsc_step s s' -> spsc_ok s'.
Proof.
  intros [Hh Ht Hs Hp Hsl Hpr Hco] Hst. destruct Hst as
    [q c pu po item|q c pu po item h t Hf|q c pu po item h t Hf|q c pu po item h
    |q p pu po|q p pu po t h He|q p pu po t h Hne|q p pu po t item]; simpl in *.
  - split; simpl; try done. split; [done|]. exists (ilen po). done || (split_and!; [lia|done|lia]).
  - by split.
  - destruct Hpr as (-> & c0 & Hc0 & -> & Hr). rewrite queue_next_mod in Hf.
    assert (Hroom : ilen pu + 1 - ilen po < EXPIRE_QUEUE_SIZE).
    { destruct (decide (ilen pu + 1 - c0 = EXPIRE_QUEUE_SIZE)) as [He|]; [|lia].
      destruct Hf. replace (ilen pu + 1) with (c0 + 1 * EXPIRE_QUEUE_SIZE) by lia.
      by rewrite Z.mod_add. }
    split; simpl; try done.
    + intros j x Hj Hx. rewrite lookup_insert_ne; [by apply Hsl|]. intros He.
      apply lookup_lt_Some in Hx. unfold ilen in *.
      apply ring_index_inj in He; unfold EXPIRE_QUEUE_SIZE in *; lia.
    + split_and!; [done|by rewrite lookup_insert_eq|done].
  - destruct Hpr as (-> & Hx & Hroom). split; simpl; try done; rewrite ?ilen_snoc.
    + by rewrite queue_next_mod.
    + unfold EXPIRE_QUEUE_SIZE in *. lia.
    + rewrite take_app_le; [done|]. unfold ilen in Hs. lia.
    + intros j y Hj Hy. apply lookup_app_Some in Hy as [Hy|[Hj' Hy]]; [by apply Hsl|].
      apply list_lookup_singleton_Some in Hy as [Hj0 <-].
      replace (Z.of_nat j) with (ilen pu) by (unfold ilen; lia). done.
    + destruct c as [|t h|t y]; [done| |].
      * destruct Hco as (-> & p & Hp1 & ->). split; [done|]. exists p. split; [lia|done].
      * destruct Hco as [-> Hy]. split; [done|]. by apply lookup_app_l_Some.
  - split; simpl; try done. split; [done|]. exists (ilen pu). split; [lia|done].
  - by split.
  - destruct Hco as (-> & p0 & Hp0 & ->). split; simpl; try done. split; [done|].
    assert (Hlt : ilen po < ilen pu).
    { destruct (decide (p0 = ilen po)) as [->|]; [done|]. lia. }
    destruct (lookup_lt_is_Some_2 pu (length po)) as [x Hx]; [unfold ilen in Hlt; lia|].
    pose proof (Hsl _ x (le_n _) Hx) as Hi. unfold ilen. rewrite Nat2Z.id, Hi. done.
  - destruct Hco as [-> Hx]. unfold ilen in Hx. rewrite Nat2Z.id in Hx.
    assert (Hlt : ilen po < ilen pu) by (apply lookup_lt_Some in Hx; unfold ilen; lia).
    split; simpl; try done; rewrite ?ilen_snoc.
    + by rewrite queue_next_mod.
    + lia.
    + rewrite length_app. simpl. rewrite Nat.add_1_r, (take_S_r _ _ _ Hx). by f_equal.
    + intros j y Hj Hy. rewrite length_app in Hj. simpl in Hj. apply Hsl; [lia|done].
    + destruct p as [|it h0 t0|it h0]; simpl in *; [done| |].
      * destruct Hpr as (-> & c0 & Hc0 & -> & Hr). split; [done|]. exists c0. split_and!; [lia|done|lia..].
      * destruct Hpr as (-> & Hi & Hr). split_and!; [done|done|lia].
Qed.

(** A call that the other thread does not disturb is the function. *)
Lemma queue_push_steps q c pu po item :
  let '(q', r) := queue_push q item in
  rtc spsc_step (Spsc q PIdle c pu po) (Spsc q' PIdle c (if r =? 0 then pu ++ [item] else pu) po).
Proof.
  unfold queue_push. destruct (Z.eqb_spec (queue_next (eq_head q)) (eq_tail q)) as [E|E].
  - eapply rtc_l; [apply (p_load _ _ _ _ item)|]. apply rtc_once, p_full, E.
  - eapply rtc_l; [apply (p_load _ _ _ _ item)|]. eapply rtc_l; [by apply p_write|].
    apply rtc_once.
    exact (p_publish (ExpireQueue (<[eq_head q := item]> (eq_items q)) (eq_head q) (eq_tail q)) _ _ _ _ _).
Qed.

Lemma queue_pop_steps q p pu po :
  let '(q', x) := queue_pop q in
  rtc spsc_step (Spsc q p CIdle pu po) (Spsc q' p CIdle pu (po ++ option_list x)).
Proof.
  unfold queue_pop. destruct (Z.eqb_spec (eq_tail q) (eq_head q)) as [E|E].
  - rewrite app_nil_r. eapply rtc_l; [apply c_load|]. by apply rtc_once, c_empty.
  - eapply rtc_l; [apply c_load|]. eapply rtc_l; [by apply c_read|]. apply rtc_once, c_publish.
Qed.

Lemma spsc_reachable_ok s : rtc spsc_step spsc_init s -> spsc_ok s.
Proof.
  intros Hr. eapply (rtc_ind_r (fun x => spsc_ok x)); [exact spsc_init_ok| |exact Hr].
  intros y z _ Hyz Hy. by eapply spsc_step_ok.
Qed.

(** C23.  Whatever the interleaving of the two threads' accesses to the ring,
    the consumer has popped a prefix of what the producer pushed, in order, no
    more than [EXPIRE_QUEUE_SIZE - 1] items are in between, and both indices
    stay in the ring.  From where a thread is idle a call of [queue_push] or
    [queue_pop] that the other does not disturb is a run of these accesses, with
    the result of the function. *)
Theorem spsc_fifo s :
  rtc spsc_step spsc_init s ->
  sp_popped s `prefix_of` sp_pushed s /\
  0 <= Z.of_nat (length (sp_pushed s)) - Z.of_nat (length (sp_popped s)) < EXPIRE_QUEUE_SIZE /\
  0 <= eq_head (sp_queue s) < EXPIRE_QUEUE_SIZE /\
  0 <= eq_tail (sp_queue s) < EXPIRE_QUEUE_SIZE /\
  (forall item, sp_prod s = PIdle ->
     let '(q, r) := queue_push (sp_queue s) item in
     rtc spsc_step s (Spsc q PIdle (sp_cons s) (if r =? 0 then sp_pushed s ++ [item] else sp_pushed s)
                        (sp_popped s))) /\
  (sp_cons s = CIdle ->
     let '(q, x) := queue_pop (sp_queue s) in
     rtc spsc_step s (Spsc q (sp_prod s) CIdle (sp_pushed s) (sp_popped s ++ option_list x))).
Proof.
  intros Hr. pose proof (spsc_reachable_ok s Hr) as Hok. split_and!.
  - rewrite (so_prefix _ Hok). by exists (drop (length (sp_popped s)) (sp_pushed s));
      rewrite take_drop.
  - apply Hok.
  - apply Hok.
  - rewrite (so_head _ Hok). by apply Z.mod_pos_bound.
  - rewrite (so_head _ Hok). by apply Z.mod_pos_bound.
  - rewrite (so_tail _ Hok). by apply Z.mod_pos_bound.
  - rewrite (so_tail _ Hok). by apply Z.mod_pos_bound.
  - intros item Hp. destruct s as [q p c pu po]. cbn in Hp |- *. subst p. apply queue_push_steps.
  - intros Hc. destruct s as [q p c pu po]. cbn in Hc |- *. subst c. apply queue_pop_steps.
Qed.

(** A push that overlaps a pop: the consumer has loaded an empty ring, the
    producer publishes, the consumer returns and then finds the item. *)
Definition sample_item : expire_item := ExpireItem (str "k") 0 10 10 EXPIRE_TYPE_HASH.

Definition sample_spsc : spsc :=
  Spsc (ExpireQueue {[0 := sample_item]} 1 1) PIdle CIdle [sample_item] [sample_item].

Lemma sample_spsc_reached : rtc spsc_step spsc_init sample_spsc.
Proof.
  unfold spsc_init. eapply rtc_l; [apply c_load|]. eapply rtc_l; [apply (p_load _ _ _ _ sample_item)|].
  eapply rtc_l; [apply p_write; vm_compute; done|]. eapply rtc_l; [apply p_publish|].
  eapply rtc_l; [apply c_empty; done|]. eapply rtc_l; [apply c_load|].
  eapply rtc_l; [apply c_read; vm_compute; done|]. eapply rtc_l; [apply c_publish|].
  apply rtc_refl.
Qed.

Lemma spsc_fifo_witness :
  rtc spsc_step spsc_init sample_spsc /\
  sp_popped sample_spsc `prefix_of` sp_pushed sample_spsc /\
  0 <= eq_head (sp_queue sample_spsc) < EXPIRE_QUEUE_SIZE.
Proof.
  split; [exact sample_spsc_reached|].
  destruct (spsc_fifo sample_spsc sample_spsc_reached) as (Hp & _ & Hh & _).
  split; [exact Hp|exact Hh].
Defined.
