(* ===== verification/Expire.v ===== *)
(** * Expiry timers (expire.c)

    The heap of the expiry thread and the thread's turn: the command queue is
    drained into the heap and what is due goes to the delete queue.  The file
    proves that the heap keeps its order and its content and that a turn
    delivers exactly the items that are due, the earliest first. *)

From Stdlib Require Import ZifyNat.
From S2P Require Import Prelude KvData Engine ExpireQueue.

Open Scope Z_scope.
Open Scope kvs_scope.

(** ** The heap *)

(** [min_heap_t]: [hp_data] holds the [size] first entries of [data]. *)
Record min_heap := MinHeap {
  hp_data : list expire_item;
  hp_capacity : Z
}.

Definition heap_init (init_cap : Z) : min_heap :=
  MinHeap [] (if 1024 <? init_cap then init_cap else 1024).

(** [g_heap.data[i].expire_time] *)
Definition hexp (d : list expire_item) (i : nat) : Z :=
  match d !! i with Some it => ei_expire_time it | None => 0 end.

Definition heap_swap (d : list expire_item) (i j : nat) : list expire_item :=
  match d !! i, d !! j with
  | Some x, Some y => <[j := x]> (<[i := y]> d)
  | _, _ => d
  end.

(** The [while (curr > 0)] of [heap_push]. *)
Fixpoint heap_up (fuel : nat) (d : list expire_item) (curr : nat) : list expire_item :=
  match fuel with
  | O => d
  | S fuel =>
    if (0 <? curr)%nat then
      let parent := ((curr - 1) / 2)%nat in
      if hexp d parent <=? hexp d curr then d
      else heap_up fuel (heap_swap d curr parent) parent
    else d
  end.

(** [ok] tells whether the reallocation of a full heap succeeds; its result
    is not tested.  The capacity is an [int]. *)
Definition heap_push (ok : bool) (h : min_heap) (item : expire_item) : res min_heap :=
  let full := hp_capacity h <=? Z.of_nat (length (hp_data h)) in
  if full && (negb ok || (2 ^ 31 <=? hp_capacity h * 2)) then UB
  else
    let cap := if full then hp_capacity h * 2 else hp_capacity h in
    let d := hp_data h ++ [item] in
    Ok (MinHeap (heap_up (length d) d (length (hp_data h))) cap).

Definition smaller_child (d : list expire_item) (curr : nat) : nat :=
  let left := (2 * curr + 1)%nat in
  let right := (2 * curr + 2)%nat in
  let smallest := if (left <? length d)%nat && (hexp d left <? hexp d curr)
                  then left else curr in
  if (right <? length d)%nat && (hexp d right <? hexp d smallest) then right else smallest.

(** The [while (1)] of [heap_pop]. *)
Fixpoint heap_down (fuel : nat) (d : list expire_item) (curr : nat) : list expire_item :=
  match fuel with
  | O => d
  | S fuel =>
    let smallest := smaller_child d curr in
    if (smallest =? curr)%nat then d
    else heap_down fuel (heap_swap d curr smallest) smallest
  end.

(** [heap_pop]: the last entry takes the place of the first one. *)
Definition heap_pop (h : min_heap) : min_heap * option expire_item :=
  match hp_data h with
  | [] => (h, None)
  | x :: _ =>
    let n := (length (hp_data h) - 1)%nat in
    let l := default x (hp_data h !! n) in
    let d := take n (<[0%nat := l]> (hp_data h)) in
    (MinHeap (heap_down (length d) d 0) (hp_capacity h), Some x)
  end.

(** ** The expiry thread *)

Fixpoint drain_commands (fuel : nat) (ok : bool) (q : expire_queue) (h : min_heap)
  : res (expire_queue * min_heap) :=
  match fuel with
  | O => Ok (q, h)
  | S fuel =>
    match queue_pop q with
    | (_, None) => Ok (q, h)
    | (q, Some item) => let* h := heap_push ok h item in drain_commands fuel ok q h
    end
  end.

(** The due items go to the delete queue; the thread stops, holding an item,
    while the queue is full. *)
Fixpoint deliver_due (fuel : nat) (now : Z) (h : min_heap) (dq : expire_queue)
  : min_heap * expire_queue * option expire_item :=
  match fuel with
  | O => (h, dq, None)
  | S fuel =>
    match hp_data h with
    | [] => (h, dq, None)
    | x :: _ =>
      if ei_expire_time x <=? now then
        match heap_pop h with
        | (h, Some item) =>
          match queue_push dq item with
          | (dq, 0) => deliver_due fuel now h dq
          | (dq, _) => (h, dq, Some item)
          end
        | (h, None) => (h, dq, None)
        end
      else (h, dq, None)
    end
  end.

(** One turn of [expire_thread_routine]. *)
Definition expire_turn (ok : bool) (now : Z) (q : expire_queue) (h : min_heap)
  (dq : expire_queue) : res (expire_queue * min_heap * expire_queue * option expire_item) :=
  let* r := drain_commands (Z.to_nat EXPIRE_QUEUE_SIZE) ok q h in
  let '(q, h) := r in
  let '(h, dq, held) := deliver_due (length (hp_data h)) now h dq in
  Ok (q, h, dq, held).

(** ** The heap's order *)

#[local] Arguments Nat.div : simpl never.
#[local] Ltac Zify.zify_post_hook ::= Z.to_euclidean_division_equations.

Abbreviation parent i := (((i - 1) / 2)%nat).

Definition heap_ok (d : list expire_item) : Prop :=
  forall i, (0 < i < length d)%nat -> hexp d (parent i) <= hexp d i.

(** The order holds but for the item at [c], which may be too small. *)
Definition up_ok (d : list expire_item) (c : nat) : Prop :=
  (forall i, (0 < i < length d)%nat -> i <> c -> hexp d (parent i) <= hexp d i) /\
  (forall i, (0 < i < length d)%nat -> parent i = c -> (0 < c)%nat ->
     hexp d (parent c) <= hexp d i).

(** The order holds but for the item at [c], which may be too large. *)
Definition down_ok (d : list expire_item) (c : nat) : Prop :=
  (forall i, (0 < i < length d)%nat -> parent i <> c -> hexp d (parent i) <= hexp d i) /\
  (forall i, (0 < i < length d)%nat -> parent i = c -> (0 < c)%nat ->
     hexp d (parent c) <= hexp d i).

Lemma heap_swap_length d i j : length (heap_swap d i j) = length d.
Proof. unfold heap_swap. destruct (d !! i), (d !! j); rewrite ?length_insert; done. Qed.

Lemma heap_swap_perm d i j : heap_swap d i j ≡ₚ d.
Proof.
  unfold heap_swap. destruct (d !! i) eqn:Ei, (d !! j) eqn:Ej; try done.
  by apply Permutation_insert_swap.
Qed.

Lemma heap_swap_hexp d i j k :
  (i < length d)%nat -> (j < length d)%nat ->
  hexp (heap_swap d i j) k
  = if decide (k = j) then hexp d i else if decide (k = i) then hexp d j else hexp d k.
Proof.
  intros Hi Hj. destruct (lookup_lt_is_Some_2 d i Hi) as [x Hx].
  destruct (lookup_lt_is_Some_2 d j Hj) as [y Hy].
  unfold heap_swap. rewrite Hx, Hy. unfold hexp. rewrite Hx, Hy.
  destruct (decide (k = j)) as [->|Hkj].
  - rewrite list_lookup_insert_eq by by rewrite length_insert. done.
  - rewrite list_lookup_insert_ne by congruence. destruct (decide (k = i)) as [->|Hki].
    + by rewrite list_lookup_insert_eq.
    + by rewrite list_lookup_insert_ne by congruence.
Qed.

Lemma heap_up_perm fuel d c : heap_up fuel d c ≡ₚ d.
Proof.
  revert d c. induction fuel as [|fuel IH]; intros d c; simpl; [done|].
  destruct (0 <? c)%nat; [|done]. destruct (_ <=? _); [done|]. rewrite IH. apply heap_swap_perm.
Qed.

Lemma heap_up_ok fuel d c :
  up_ok d c -> (c < length d)%nat -> (c < fuel)%nat -> heap_ok (heap_up fuel d c).
Proof.
  revert d c. induction fuel as [|fuel IH]; intros d c [H1 H2] Hc Hf; [lia|].
  cbn [heap_up]. cbv zeta.
  destruct (Nat.ltb_spec 0 c) as [Hpos|Hz].
  - destruct (Z.leb_spec (hexp d (parent c)) (hexp d c)) as [Hle|Hgt].
    + intros i Hi. destruct (decide (i = c)) as [->|]; [done|]. by apply H1.
    + pose proof (H1 (parent c)) as Hp.
      apply IH; rewrite ?heap_swap_length; [|lia..].
      split; rewrite heap_swap_length; intros i Hi; rewrite !heap_swap_hexp by lia.
      * intros Hip. rewrite (decide_False (P := i = parent c)) by done.
        destruct (decide (i = c)) as [->|Hic]; [rewrite decide_True by done; lia|].
        specialize (H1 i Hi Hic). specialize (H2 i Hi).
        destruct (decide (parent i = parent c)) as [Hpp|Hpp]; [rewrite Hpp in H1; lia|].
        destruct (decide (parent i = c)) as [Hpc|Hpc]; [apply H2; lia|done].
      * intros Hip Hpp. rewrite (decide_False (P := parent (parent c) = parent c)) by lia.
        rewrite (decide_False (P := parent (parent c) = c)) by lia.
        rewrite (decide_False (P := i = parent c)) by lia.
        destruct (decide (i = c)) as [->|Hic]; [apply Hp; lia|].
        specialize (H1 i Hi Hic). rewrite Hip in H1. etransitivity; [|exact H1]. apply Hp; lia.
  - intros i Hi. apply H1; lia.
Qed.

Lemma heap_push_any ok h item h' :
  heap_ok (hp_data h) -> heap_push ok h item = Ok h' ->
  heap_ok (hp_data h') /\ hp_data h' ≡ₚ hp_data h ++ [item].
Proof.
  intros Hok. unfold heap_push. destruct (_ && _); [done|]. intros [= <-].
  simpl. split; [|apply heap_up_perm].
  assert (Hx : forall i, (i < length (hp_data h))%nat ->
    hexp (hp_data h ++ [item]) i = hexp (hp_data h) i).
  { intros i Hi. unfold hexp. by rewrite lookup_app_l. }
  rewrite length_app. simpl. apply heap_up_ok; rewrite ?length_app; simpl; [|lia..].
  split; rewrite length_app; simpl; intros i Hi.
  - intros Hne. rewrite !Hx by lia. apply Hok. lia.
  - intros Hp. lia.
Qed.

Lemma heap_push_ok h item :
  heap_ok (hp_data h) -> Z.of_nat (length (hp_data h)) < 2 ^ 30 ->
  exists h', heap_push true h item = Ok h' /\ heap_ok (hp_data h') /\
    hp_data h' ≡ₚ hp_data h ++ [item].
Proof.
  intros Hok Hl. destruct (heap_push true h item) as [h'|] eqn:Hp.
  - exists h'. split; [done|]. by eapply heap_push_any.
  - exfalso. revert Hp. unfold heap_push.
    destruct (Z.leb_spec (hp_capacity h) (Z.of_nat (length (hp_data h)))); [|done].
    rewrite (proj2 (Z.leb_gt _ _)) by lia. done.
Qed.

(** ** Taking the first item *)

Lemma heap_root_min d i : heap_ok d -> (i < length d)%nat -> hexp d 0 <= hexp d i.
Proof.
  intros Hok. induction i as [i IH] using lt_wf_ind. intros Hi.
  destruct (decide (i = 0%nat)) as [->|Hne]; [done|].
  etransitivity; [apply (IH (parent i)); lia|]. apply Hok. lia.
Qed.

Lemma smaller_child_spec d c :
  (c < length d)%nat ->
  let s := smaller_child d c in
  (s < length d)%nat /\ hexp d s <= hexp d c /\
  (forall i, (0 < i < length d)%nat -> parent i = c -> hexp d s <= hexp d i) /\
  (s <> c -> (0 < s)%nat /\ parent s = c /\ hexp d s < hexp d c).
Proof.
  intros Hc. unfold smaller_child.
  assert (Hch : forall i, (0 < i)%nat -> parent i = c -> i = (2 * c + 1)%nat \/ i = (2 * c + 2)%nat)
    by lia.
  destruct (Nat.ltb_spec (2 * c + 1) (length d)) as [Hl|Hl],
    (Nat.ltb_spec (2 * c + 2) (length d)) as [Hr|Hr]; cbn [andb]; try lia.
  - destruct (Z.ltb_spec (hexp d (2 * c + 1)) (hexp d c)) as [H1|H1].
    + destruct (Z.ltb_spec (hexp d (2 * c + 2)) (hexp d (2 * c + 1))) as [H2|H2];
        (split_and!; [lia..| |]); [|lia| |lia]; intros i Hi Hp;
        destruct (Hch i ltac:(lia) Hp) as [-> | ->]; lia.
    + destruct (Z.ltb_spec (hexp d (2 * c + 2)) (hexp d c)) as [H2|H2];
        (split_and!; [lia..| |]); [|lia| |lia]; intros i Hi Hp;
        destruct (Hch i ltac:(lia) Hp) as [-> | ->]; lia.
  - destruct (Z.ltb_spec (hexp d (2 * c + 1)) (hexp d c)) as [H1|H1];
      (split_and!; [lia..| |]); [|lia| |lia]; intros i Hi Hp;
      destruct (Hch i ltac:(lia) Hp) as [-> | ->]; lia.
  - split_and!; [lia..| |lia]. intros i Hi Hp. destruct (Hch i ltac:(lia) Hp) as [-> | ->]; lia.
Qed.

Lemma heap_down_perm fuel d c : heap_down fuel d c ≡ₚ d.
Proof.
  revert d c. induction fuel as [|fuel IH]; intros d c; cbn [heap_down]; [done|].
  cbv zeta. destruct (_ =? _)%nat; [done|]. rewrite IH. apply heap_swap_perm.
Qed.

Lemma heap_down_ok fuel d c :
  down_ok d c -> (c < length d)%nat -> (length d <= c + fuel)%nat -> heap_ok (heap_down fuel d c).
Proof.
  revert d c. induction fuel as [|fuel IH]; intros d c [H1 H2] Hc Hf; [lia|].
  cbn [heap_down]. cbv zeta.
  destruct (smaller_child_spec d c Hc) as (Hs & Hle & Hmin & Hstep).
  set (s := smaller_child d c) in *. destruct (Nat.eqb_spec s c) as [He|Hne].
  - intros i Hi. destruct (decide (parent i = c)) as [Hp|Hp]; [|by apply H1].
    rewrite Hp. rewrite <- He at 1. by apply Hmin.
  - destruct (Hstep Hne) as (Hs0 & Hps & Hlt).
    apply IH; rewrite ?heap_swap_length; [|lia..].
    split; rewrite heap_swap_length; intros i Hi; rewrite !heap_swap_hexp by lia.
    + intros Hpi. rewrite (decide_False (P := parent i = s)) by done.
      destruct (decide (i = s)) as [->|His].
      { rewrite decide_True by done. lia. }
      destruct (decide (i = c)) as [->|Hic].
      * rewrite decide_False by lia. apply H2; lia.
      * destruct (decide (parent i = c)) as [Hpc|Hpc]; [by apply Hmin|by apply H1].
    + intros Hpi _. rewrite (decide_False (P := parent s = s)) by lia.
      rewrite (decide_True (P := parent s = c)) by done.
      rewrite (decide_False (P := i = s)) by lia. rewrite (decide_False (P := i = c)) by lia.
      rewrite <- Hpi. apply H1; [done|]. lia.
Qed.

Lemma heap_pop_ok h x d :
  heap_ok (hp_data h) -> hp_data h = x :: d ->
  exists h', heap_pop h = (h', Some x) /\ heap_ok (hp_data h') /\
    x :: hp_data h' ≡ₚ hp_data h /\
    Forall (fun y => ei_expire_time x <= ei_expire_time y) (hp_data h').
Proof.
  intros Hok Hd. unfold heap_pop. rewrite Hd.
  set (n := (length (x :: d) - 1)%nat). assert (Hn : n = length d) by (unfold n; simpl; lia).
  set (l := default x ((x :: d) !! n)). set (d1 := take n (<[0%nat := l]> (x :: d))).
  assert (Hl1 : length d1 = n) by (unfold d1; rewrite length_take; simpl; lia).
  assert (Hperm : x :: d1 ≡ₚ x :: d).
  { unfold d1, l. rewrite Hn. destruct (decide (d = [])) as [->|Hne]; [done|].
    destruct (exists_last Hne) as (d0 & z & ->). rewrite length_app. simpl.
    replace (length d0 + 1)%nat with (S (length d0)) by lia. simpl.
    rewrite list_lookup_middle by done. simpl. rewrite take_app_length.
    by rewrite <- Permutation_cons_append. }
  eexists. split; [done|]. simpl.
  assert (Hp : heap_down (length d1) d1 0 ≡ₚ d1) by apply heap_down_perm.
  split_and!.
  - destruct (decide (n = 0%nat)) as [Hz|Hz].
    { rewrite Hl1, Hz. simpl. intros i Hi. lia. }
    apply heap_down_ok; [|lia..].
    assert (Hx : forall i, (0 < i < length d1)%nat -> hexp d1 i = hexp (x :: d) i).
    { intros i Hi. unfold hexp, d1. rewrite lookup_take_lt by lia.
      by rewrite list_lookup_insert_ne by lia. }
    split; intros i Hi; [|lia]. intros Hpi. rewrite !Hx by lia. rewrite <- Hd. apply Hok.
    rewrite Hd. simpl. lia.
  - by rewrite Hp.
  - rewrite Hp. assert (Hd1 : Forall (fun y => ei_expire_time x <= ei_expire_time y) (x :: d1)).
    { rewrite Hperm. apply Forall_lookup. intros i y Hy.
      pose proof (heap_root_min (hp_data h) i Hok) as Hr. rewrite Hd in Hr.
      unfold hexp in Hr. rewrite Hy in Hr. apply Hr. by eapply lookup_lt_Some. }
    by apply Forall_cons in Hd1 as [_ ?].
Qed.

(** ** A turn of the thread *)

Definition due_before (x y : expire_item) : Prop := ei_expire_time x <= ei_expire_time y.

Lemma drain_commands_ok fuel q h l :
  queue_rep q l -> heap_ok (hp_data h) -> (length l <= fuel)%nat ->
  Z.of_nat (length (hp_data h)) + Z.of_nat (length l) <= 2 ^ 30 ->
  exists q' h', drain_commands fuel true q h = Ok (q', h') /\ queue_rep q' [] /\
    heap_ok (hp_data h') /\ hp_data h' ≡ₚ hp_data h ++ l.
Proof.
  revert q h l. induction fuel as [|fuel IH]; intros q h l Hq Hh Hf Hl; cbn [drain_commands].
  - destruct l; [|simpl in Hf; lia]. exists q, h. by rewrite app_nil_r.
  - pose proof (queue_pop_rep q l Hq) as Hp. destruct l as [|x l].
    + rewrite Hp. exists q, h. by rewrite app_nil_r.
    + destruct Hp as (q1 & -> & Hq1).
      simpl in Hf, Hl. destruct (heap_push_ok h x Hh ltac:(lia)) as (h1 & -> & Hh1 & Hp1).
      cbn [rbind]. pose proof (Permutation_length Hp1) as Hlen. rewrite length_app in Hlen.
      simpl in Hlen. destruct (IH q1 h1 l Hq1 Hh1 ltac:(lia) ltac:(lia)) as (q2 & h2 & Hd & Hq2 & Hh2 & Hp2).
      exists q2, h2. split_and!; [done..|]. rewrite Hp2, Hp1. app_eq.
Qed.

Lemma deliver_due_ok fuel now h dq l :
  heap_ok (hp_data h) -> (length (hp_data h) <= fuel)%nat -> queue_rep dq l ->
  Z.of_nat (length l) + Z.of_nat (length (hp_data h)) < EXPIRE_QUEUE_SIZE ->
  exists out h' dq', deliver_due fuel now h dq = (h', dq', None) /\ heap_ok (hp_data h') /\
    queue_rep dq' (l ++ out) /\ out ++ hp_data h' ≡ₚ hp_data h /\
    Forall (fun x => ei_expire_time x <= now) out /\
    Forall (fun x => now < ei_expire_time x) (hp_data h') /\ StronglySorted due_before out.
Proof.
  revert h dq l. induction fuel as [|fuel IH]; intros h dq l Hh Hf Hq Hroom; cbn [deliver_due].
  { destruct (hp_data h) eqn:Hd; [|simpl in Hf; lia]. exists [], h, dq.
    rewrite app_nil_r, Hd. repeat constructor; done. }
  destruct (hp_data h) as [|x d] eqn:Hd.
  { exists [], h, dq. rewrite app_nil_r, Hd. repeat constructor; done. }
  destruct (Z.leb_spec (ei_expire_time x) now) as [Hdue|Hlate].
  - rewrite <- Hd in Hh. destruct (heap_pop_ok h x d Hh Hd) as (h1 & -> & Hh1 & Hp1 & Hmin).
    rewrite Hd in Hp1. simpl in Hf, Hroom. pose proof (Permutation_length Hp1) as Hlen. simpl in Hlen.
    pose proof (queue_push_rep dq l x Hq) as Hpu. rewrite decide_True in Hpu by lia.
    destruct Hpu as (dq1 & -> & Hq1).
    destruct (IH h1 dq1 (l ++ [x]) Hh1) as (out & h2 & dq2 & -> & Hh2 & Hq2 & Hp2 & Ho & Hr & Hs);
      [lia|done|rewrite length_app; simpl; lia|].
    exists (x :: out), h2, dq2. split_and!; [done..| | |by constructor|done|].
    + by rewrite <- app_assoc in Hq2.
    + simpl. by rewrite Hp2.
    + constructor; [done|]. rewrite <- Hp2, Forall_app in Hmin. apply Hmin.
  - exists [], h, dq. rewrite app_nil_r. split_and!; try done; [by rewrite Hd|by rewrite Hd| |constructor].
    apply Forall_lookup. intros i y Hy. rewrite <- Hd in Hh.
    pose proof (heap_root_min (hp_data h) i Hh ltac:(by eapply lookup_lt_Some)) as Hr.
    unfold hexp in Hr. rewrite Hd in Hr. simpl in Hr. rewrite Hd in Hy. rewrite Hy in Hr. lia.
Qed.

Lemma expire_turn_ok now q h dq cmds dels :
  queue_rep q cmds -> heap_ok (hp_data h) -> queue_rep dq dels ->
  Z.of_nat (length dels) + Z.of_nat (length cmds) + Z.of_nat (length (hp_data h))
    < EXPIRE_QUEUE_SIZE ->
  exists due q' h' dq', expire_turn true now q h dq = Ok (q', h', dq', None) /\
    queue_rep q' [] /\ queue_rep dq' (dels ++ due) /\ heap_ok (hp_data h') /\
    due ++ hp_data h' ≡ₚ hp_data h ++ cmds /\
    Forall (fun x => ei_expire_time x <= now) due /\
    Forall (fun x => now < ei_expire_time x) (hp_data h') /\ StronglySorted due_before due.
Proof.
  intros Hq Hh Hdq Hroom. unfold expire_turn.
  destruct (drain_commands_ok (Z.to_nat EXPIRE_QUEUE_SIZE) q h cmds Hq Hh)
    as (q1 & h1 & -> & Hq1 & Hh1 & Hp1); [lia|unfold EXPIRE_QUEUE_SIZE in Hroom; lia|].
  cbn [rbind]. pose proof (Permutation_length Hp1) as Hlen. rewrite length_app in Hlen.
  destruct (deliver_due_ok (length (hp_data h1)) now h1 dq dels Hh1 (le_n _) Hdq)
    as (out & h2 & dq2 & -> & Hh2 & Hq2 & Hp2 & Ho & Hr & Hs); [lia|].
  exists out, q1, h2, dq2. split_and!; try done. by rewrite Hp2.
Qed.

(** C22.  A turn of the expiry thread empties the command queue and appends to
    the delete queue exactly the items that are due, the earliest first; the
    heap keeps the others. *)
Theorem expire_turn_delivers now q h dq cmds dels :
  queue_rep q cmds -> heap_ok (hp_data h) -> queue_rep dq dels ->
  Z.of_nat (length dels) + Z.of_nat (length cmds) + Z.of_nat (length (hp_data h))
    < EXPIRE_QUEUE_SIZE ->
  exists due q' h' dq', expire_turn true now q h dq = Ok (q', h', dq', None) /\
    queue_rep q' [] /\ queue_rep dq' (dels ++ due) /\ heap_ok (hp_data h') /\
    due ++ hp_data h' ≡ₚ hp_data h ++ cmds /\
    Forall (fun x => ei_expire_time x <= now) due /\
    Forall (fun x => now < ei_expire_time x) (hp_data h') /\ StronglySorted due_before due.
Proof. apply expire_turn_ok. Qed.

(** Three timers are waiting, two of them are due. *)
Definition sample_timer (k : string) (t : Z) : expire_item :=
  ExpireItem (str k) 0 t t EXPIRE_TYPE_HASH.

Definition sample_timers : list expire_item :=
  [sample_timer "late" 90; sample_timer "second" 20; sample_timer "first" 10].

Definition push_all (q : expire_queue) (l : list expire_item) : expire_queue :=
  fold_left (fun q x => (queue_push q x).1) l q.

Lemma push_all_rep q l l' :
  queue_rep q l -> Z.of_nat (length l + length l') < EXPIRE_QUEUE_SIZE ->
  queue_rep (push_all q l') (l ++ l').
Proof.
  revert q l. induction l' as [|x l' IH]; intros q l Hq Hlt; simpl; [by rewrite app_nil_r|].
  simpl in Hlt. pose proof (queue_push_rep q l x Hq) as Hp.
  rewrite decide_True in Hp by lia. destruct Hp as (q' & -> & Hq'). simpl.
  rewrite cons_middle, app_assoc. apply IH; [done|]. rewrite length_app. simpl. lia.
Qed.

Lemma expire_turn_delivers_witness :
  exists due q' h' dq',
    expire_turn true 50 (push_all queue_zero sample_timers) (heap_init 4096) queue_zero
      = Ok (q', h', dq', None) /\
    queue_rep q' [] /\ queue_rep dq' ([] ++ due) /\ heap_ok (hp_data h') /\
    due ++ hp_data h' ≡ₚ hp_data (heap_init 4096) ++ sample_timers /\
    Forall (fun x => ei_expire_time x <= 50) due /\
    Forall (fun x => 50 < ei_expire_time x) (hp_data h') /\ StronglySorted due_before due.
Proof.
  apply (expire_turn_delivers 50).
  - apply (push_all_rep _ []); [apply queue_zero_rep|by vm_compute].
  - intros i Hi. simpl in Hi. lia.
  - apply queue_zero_rep.
  - by vm_compute.
Defined.

Example expire_turn_sample :
  match expire_turn true 50 (push_all queue_zero sample_timers) (heap_init 4096) queue_zero with
  | Ok (_, h, dq, held) =>
    (ei_key <$> hp_data h, [ei_key <$> eq_items dq !! 0; ei_key <$> eq_items dq !! 1],
     eq_head dq, ei_key <$> held)
  | UB => ([], [], 0, None)
  end = ([str "late"], [Some (str "first"); Some (str "second")], 2, None).
Proof. vm_compute. done. Qed.
