(* ===== verification/Timers.v ===== *)
(** * Main thread and expiry thread (expire.c)

    The two threads share nothing but the two rings.  Here they are
    interleaved at every access to a ring: the main thread pushes timers and
    takes deletions whenever it likes, the expiry thread goes through its loop
    on its own heap.  The file proves that no timer is lost, doubled or made up
    on the way, that what is handed back was due when the thread looked at the
    clock, and that a turn of the thread as System.v takes it, in one step, is
    a sequence of these steps.  The end of the thread is not modelled: the
    server never stops it. *)

From S2P Require Import Prelude KvData Engine ExpireQueue Expire.
From stdpp Require Import relations.

Open Scope Z_scope.
Open Scope kvs_scope.

(** ** Steps *)

(** A step of [queue_push] or of [queue_pop] on one ring. *)
Definition prod_step (q q' : spsc) : Prop := spsc_step q q' /\ sp_cons q' = sp_cons q.
Definition cons_step (q q' : spsc) : Prop := spsc_step q q' /\ sp_prod q' = sp_prod q.

(** Where [expire_thread_routine] is: in the loop that takes the new timers, at
    the head of the loop over the due ones, or in [queue_push] with one of
    them. *)
Inductive expire_pc :=
| TDrain
| TDue (now : Z)
| TPush (now : Z) (item : expire_item).

(** [g_cmd_queue], [g_delete_queue], [g_heap], the thread's place and what it
    read from the clock so far. *)
Record timers := Timers {
  tm_cmd : spsc;
  tm_del : spsc;
  tm_heap : min_heap;
  tm_pc : expire_pc;
  tm_clock : list Z
}.

(** The producer of the second ring works on the item the thread holds. *)
Definition pushing (p : prod_pc) (item : expire_item) : Prop :=
  match p with PIdle => False | PLoaded it _ _ | PWritten it _ => it = item end.

Inductive timer_step : timers -> timers -> Prop :=
(** The main thread in [expire_push_cmd] and in [expire_process_deletes]. *)
| tm_main_push q q' d h pc ck :
  prod_step q q' -> timer_step (Timers q d h pc ck) (Timers q' d h pc ck)
| tm_main_pop q d d' h pc ck :
  cons_step d d' -> timer_step (Timers q d h pc ck) (Timers q d' h pc ck)
(** [queue_pop] of the command ring: on its way, with an item for the heap,
    and empty, after which the thread looks at the clock. *)
| tm_pop_on q q' d h ck :
  cons_step q q' -> sp_cons q' <> CIdle ->
  timer_step (Timers q d h TDrain ck) (Timers q' d h TDrain ck)
| tm_pop_item ok q q' d h h' item ck :
  cons_step q q' -> sp_popped q' = sp_popped q ++ [item] -> heap_push ok h item = Ok h' ->
  timer_step (Timers q d h TDrain ck) (Timers q' d h' TDrain ck)
| tm_pop_empty q q' d h now ck :
  cons_step q q' -> sp_popped q' = sp_popped q -> sp_cons q' = CIdle ->
  timer_step (Timers q d h TDrain ck) (Timers q' d h (TDue now) (ck ++ [now]))
(** The first timer is due, or none is. *)
| tm_due q d h h' now item ck :
  heap_pop h = (h', Some item) -> ei_expire_time item <= now ->
  timer_step (Timers q d h (TDue now) ck) (Timers q d h' (TPush now item) ck)
| tm_not_due q d h now ck :
  (forall item, hp_data h !! 0%nat = Some item -> now < ei_expire_time item) ->
  timer_step (Timers q d h (TDue now) ck) (Timers q d h TDrain ck)
(** [queue_push] to the delete ring: on its way, full, and done. *)
| tm_push_on q d d' h now item ck :
  prod_step d d' -> pushing (sp_prod d') item ->
  timer_step (Timers q d h (TPush now item) ck) (Timers q d' h (TPush now item) ck)
| tm_push_full q d d' h now item ck :
  prod_step d d' -> sp_prod d' = PIdle -> sp_pushed d' = sp_pushed d ->
  timer_step (Timers q d h (TPush now item) ck) (Timers q d' h (TPush now item) ck)
| tm_push_done q d d' h now item ck :
  prod_step d d' -> sp_prod d' = PIdle -> sp_pushed d' = sp_pushed d ++ [item] ->
  timer_step (Timers q d h (TPush now item) ck) (Timers q d' h (TDue now) ck).

Definition timers_init : timers := Timers spsc_init spsc_init (heap_init 4096) TDrain [].

(** ** What a step does to the histories *)

Lemma prod_step_history q q' :
  prod_step q q' -> sp_popped q' = sp_popped q /\
  (sp_pushed q' = sp_pushed q \/ exists x, sp_pushed q' = sp_pushed q ++ [x] /\ pushing (sp_prod q) x).
Proof.
  intros [Hst Hc]. destruct Hst; simpl in *; try done; (split; [done|]); try (by left).
  right. by eexists.
Qed.

Lemma cons_step_history q q' :
  cons_step q q' -> sp_pushed q' = sp_pushed q /\
  (sp_popped q' = sp_popped q \/ exists x, sp_popped q' = sp_popped q ++ [x]).
Proof.
  intros [Hst Hp]. destruct Hst; simpl in *; try done; (split; [done|]); try (by left).
  right. by eexists.
Qed.

(** ** The invariant *)

Definition held (pc : expire_pc) : list expire_item :=
  match pc with TPush _ item => [item] | _ => [] end.

Definition was_due (ck : list Z) (x : expire_item) : Prop :=
  exists now, now ∈ ck /\ ei_expire_time x <= now.

Definition pc_ok (ck : list Z) (d : spsc) (pc : expire_pc) : Prop :=
  match pc with
  | TDrain => sp_prod d = PIdle
  | TDue now => sp_prod d = PIdle /\ now ∈ ck
  | TPush now item => now ∈ ck /\ ei_expire_time item <= now /\
      (sp_prod d = PIdle \/ pushing (sp_prod d) item)
  end.

Record timers_ok (s : timers) : Prop := {
  to_cmd : spsc_ok (tm_cmd s);
  to_del : spsc_ok (tm_del s);
  to_heap : heap_ok (hp_data (tm_heap s));
  to_all : sp_popped (tm_cmd s) ≡ₚ
    sp_pushed (tm_del s) ++ held (tm_pc s) ++ hp_data (tm_heap s);
  to_due : Forall (was_due (tm_clock s)) (sp_pushed (tm_del s));
  to_pc : pc_ok (tm_clock s) (tm_del s) (tm_pc s)
}.

Lemma timers_init_ok : timers_ok timers_init.
Proof. by split; try apply spsc_init_ok. Qed.

Lemma heap_pop_any h h' item :
  heap_ok (hp_data h) -> heap_pop h = (h', Some item) ->
  heap_ok (hp_data h') /\ item :: hp_data h' ≡ₚ hp_data h.
Proof.
  intros Hh Hp. destruct (hp_data h) as [|x d] eqn:Hd; [unfold heap_pop in Hp; by rewrite Hd in Hp|].
  rewrite <- Hd in Hh. destruct (heap_pop_ok h x d Hh Hd) as (h1 & H1 & Hok & Hperm & _).
  rewrite Hp in H1. injection H1 as <- <-. by rewrite <- Hd.
Qed.

Lemma was_due_more ck now l : Forall (was_due ck) l -> Forall (was_due (ck ++ [now])) l.
Proof.
  intros Hl. eapply Forall_impl; [exact Hl|]. intros x (n & Hn & Hx). exists n. split; [|done]. apply elem_of_app. by left.
Qed.

Lemma pc_ok_pop ck d d' pc : sp_prod d' = sp_prod d -> pc_ok ck d pc -> pc_ok ck d' pc.
Proof. intros Hp. destruct pc; simpl; by rewrite Hp. Qed.

Lemma timer_step_ok s s' : timers_ok s -> timer_step s s' -> timers_ok s'.
Proof.
  intros [Hc Hd Hh Ha Hdue Hpc] Hst.
  destruct Hst as [q q' d h pc ck Hq|q d d' h pc ck Hq|q q' d h ck Hq Hn|ok q q' d h h' item ck Hq Hpo Hpush
    |q q' d h now ck Hq Hpo Hi|q d h h' now item ck Hpop Hle|q d h now ck Hnd|q d d' h now item ck Hq Hpu
    |q d d' h now item ck Hq Hi Hpu|q d d' h now item ck Hq Hi Hpu]; cbn [tm_cmd tm_del tm_heap tm_pc tm_clock] in *.
  - destruct (prod_step_history _ _ Hq) as [Hpo _]. split; cbn; try done; [|by rewrite Hpo].
    eapply spsc_step_ok, Hq. done.
  - destruct (cons_step_history _ _ Hq) as [Hpu _]. split; cbn; try done; rewrite ?Hpu; try done.
    + eapply spsc_step_ok, Hq. done.
    + eapply pc_ok_pop; [apply Hq|done].
  - destruct (cons_step_history _ _ Hq) as [_ Hpo].
    assert (Hsame : sp_popped q' = sp_popped q).
    { destruct Hq as [Hst Hpr]. by destruct Hst; simpl in *. }
    split; cbn; try done; [|by rewrite Hsame]. eapply spsc_step_ok, Hq. done.
  - destruct (heap_push_any _ _ _ _ Hh Hpush) as [Hh' Hperm].
    split; cbn; try done; [eapply spsc_step_ok, Hq; done|].
    rewrite Hpo, Ha, Hperm. cbn [held app]. by rewrite app_assoc.
  - split; cbn; try done; [eapply spsc_step_ok, Hq; done|by rewrite Hpo|by apply was_due_more|].
    split; [done|]. apply elem_of_app. right. by apply list_elem_of_singleton.
  - destruct (heap_pop_any _ _ _ Hh Hpop) as [Hh' Hperm]. split; cbn; try done.
    + rewrite Ha. cbn [held app]. by rewrite Hperm.
    + destruct Hpc as [Hpr Hnow]. split_and!; [done|done|by left].
  - split; cbn; try done. by destruct Hpc.
  - destruct (prod_step_history _ _ Hq) as [_ Hpush].
    assert (Hsame : sp_pushed d' = sp_pushed d).
    { destruct Hq as [Hst Hco]. by destruct Hst; simpl in *. }
    split; cbn; try done; rewrite ?Hsame; try done; [eapply spsc_step_ok, Hq; done|].
    destruct Hpc as (Hnow & Hle & _). split_and!; [done|done|by right].
  - split; cbn; try done; rewrite ?Hpu; try done; [eapply spsc_step_ok, Hq; done|].
    destruct Hpc as (Hnow & Hle & _). split_and!; [done|done|by left].
  - destruct Hpc as (Hnow & Hle & _).
    split; cbn; try done; rewrite ?Hpu; [eapply spsc_step_ok, Hq; done| |].
    + rewrite Ha. cbn [held app]. by rewrite <- app_assoc.
    + apply Forall_app_2; [done|]. constructor; [|done]. by exists now.
Qed.

(** ** No timer is lost *)

(** What is on its way: in the first ring, in the heap, in the thread's hand,
    in the second ring. *)
Definition on_the_way (s : timers) : list expire_item :=
  drop (length (sp_popped (tm_cmd s))) (sp_pushed (tm_cmd s)) ++ hp_data (tm_heap s) ++
  held (tm_pc s) ++ drop (length (sp_popped (tm_del s))) (sp_pushed (tm_del s)).

Lemma spsc_ok_split q : spsc_ok q -> sp_pushed q = sp_popped q ++ drop (length (sp_popped q)) (sp_pushed q).
Proof.
  intros Hq. rewrite <- (take_drop (length (sp_popped q)) (sp_pushed q)) at 1. f_equal.
  symmetry. by apply so_prefix.
Qed.

(** C24.  However the main thread and the expiry thread interleave at their
    accesses to the two rings, the timers that were queued are those that were
    handed back and those still on their way, each once; every timer that was
    handed back was due when the expiry thread read the clock; and neither ring
    ever holds more than it has room for. *)
Theorem timers_conserved s :
  rtc timer_step timers_init s ->
  sp_pushed (tm_cmd s) ≡ₚ sp_popped (tm_del s) ++ on_the_way s /\
  Forall (was_due (tm_clock s)) (sp_popped (tm_del s)) /\
  ilen (sp_pushed (tm_cmd s)) - ilen (sp_popped (tm_cmd s)) < EXPIRE_QUEUE_SIZE /\
  ilen (sp_pushed (tm_del s)) - ilen (sp_popped (tm_del s)) < EXPIRE_QUEUE_SIZE.
Proof.
  intros Hr. assert (Hok : timers_ok s).
  { eapply (rtc_ind_r timers_ok); [exact timers_init_ok| |exact Hr].
    intros y z _ Hyz Hy. by eapply timer_step_ok. }
  destruct Hok as [Hc Hd Hh Ha Hdue _]. pose proof (so_size _ Hc). pose proof (so_size _ Hd).
  split_and!; [|by rewrite (so_prefix _ Hd); apply Forall_take|lia|lia].
  rewrite (spsc_ok_split _ Hc) at 1. rewrite Ha, (spsc_ok_split _ Hd) at 1. unfold on_the_way.
  solve_Permutation.
Qed.

(** ** A turn of the thread *)

(** [queue_pop] and [queue_push] undisturbed are the functions of
    ExpireQueue.v. *)
Lemma pop_steps q d h ck ok Q x h' :
  sp_cons q = CIdle -> queue_pop (sp_queue q) = (Q, Some x) -> heap_push ok h x = Ok h' ->
  rtc timer_step (Timers q d h TDrain ck)
    (Timers (Spsc Q (sp_prod q) CIdle (sp_pushed q) (sp_popped q ++ [x])) d h' TDrain ck).
Proof.
  destruct q as [Q0 p c pu po]. cbn [sp_cons sp_queue sp_prod sp_pushed sp_popped]. intros -> Hpop Hpush.
  unfold queue_pop in Hpop. destruct (Z.eqb_spec (eq_tail Q0) (eq_head Q0)) as [|Hne]; [done|].
  injection Hpop as <- <-.
  eapply rtc_l; [eapply tm_pop_on; [split; [apply c_load|done]|done]|].
  eapply rtc_l; [eapply tm_pop_on; [split; [by apply c_read|done]|done]|].
  apply rtc_once. eapply tm_pop_item; [split; [apply c_publish|done]|done|done].
Qed.

Lemma pop_empty_steps q d h ck Q now :
  sp_cons q = CIdle -> queue_pop (sp_queue q) = (Q, None) ->
  rtc timer_step (Timers q d h TDrain ck) (Timers q d h (TDue now) (ck ++ [now])).
Proof.
  destruct q as [Q0 p c pu po]. cbn [sp_cons sp_queue]. intros -> Hpop.
  unfold queue_pop in Hpop. destruct (Z.eqb_spec (eq_tail Q0) (eq_head Q0)) as [He|]; [|done].
  eapply rtc_l; [eapply tm_pop_on; [split; [apply c_load|done]|done]|].
  apply rtc_once. eapply tm_pop_empty; [split; [by apply c_empty|done]|done|done].
Qed.

Lemma push_steps q d h ck now item D :
  sp_prod d = PIdle -> queue_push (sp_queue d) item = (D, 0) ->
  rtc timer_step (Timers q d h (TPush now item) ck)
    (Timers q (Spsc D PIdle (sp_cons d) (sp_pushed d ++ [item]) (sp_popped d)) h (TDue now) ck).
Proof.
  destruct d as [D0 p c pu po]. cbn [sp_prod sp_queue sp_cons sp_pushed sp_popped]. intros -> Hpush.
  unfold queue_push in Hpush.
  destruct (Z.eqb_spec (queue_next (eq_head D0)) (eq_tail D0)) as [|Hne]; [done|].
  injection Hpush as <-.
  eapply rtc_l; [eapply tm_push_on; [split; [apply (p_load _ _ _ _ item)|done]|done]|].
  eapply rtc_l; [eapply tm_push_on; [split; [by apply p_write|done]|done]|].
  apply rtc_once. eapply tm_push_done; [|done|done]. split; [|done].
  exact (p_publish (ExpireQueue (<[eq_head D0 := item]> (eq_items D0)) (eq_head D0) (eq_tail D0))
           c pu po item (eq_head D0)).
Qed.

Lemma drain_steps fuel ok q d h ck Q h' :
  sp_cons q = CIdle -> drain_commands fuel ok (sp_queue q) h = Ok (Q, h') ->
  exists po, rtc timer_step (Timers q d h TDrain ck)
    (Timers (Spsc Q (sp_prod q) CIdle (sp_pushed q) po) d h' TDrain ck).
Proof.
  revert q h. induction fuel as [|fuel IH]; intros q h Hc; cbn [drain_commands].
  { intros [= <- <-]. exists (sp_popped q). by destruct q; simpl in *; subst. }
  destruct (queue_pop (sp_queue q)) as [Q1 [x|]] eqn:Hpop.
  2: { intros [= <- <-]. exists (sp_popped q). by destruct q; simpl in *; subst. }
  destruct (heap_push ok h x) as [h1|] eqn:Hpush; [|done]. cbn [rbind]. intros Hd.
  pose proof (pop_steps q d h ck ok Q1 x h1 Hc Hpop Hpush) as Hst.
  destruct (IH (Spsc Q1 (sp_prod q) CIdle (sp_pushed q) (sp_popped q ++ [x])) h1 eq_refl Hd) as [po Hrest].
  exists po. by etrans.
Qed.

Lemma heap_pop_shorter h h' item :
  heap_pop h = (h', Some item) ->
  length (hp_data h) = S (length (hp_data h')) /\ hp_data h !! 0%nat = Some item.
Proof.
  unfold heap_pop. destruct (hp_data h) as [|x l] eqn:E; [done|]. intros [= <- <-]. split; [|done].
  cbn [hp_data]. rewrite (Permutation_length (heap_down_perm _ _ _)), length_take. simpl. lia.
Qed.

Lemma deliver_steps fuel q d h ck now h' D hold :
  sp_prod d = PIdle -> (length (hp_data h) <= fuel)%nat ->
  deliver_due fuel now h (sp_queue d) = (h', D, hold) ->
  exists pu, rtc timer_step (Timers q d h (TDue now) ck)
    (Timers q (Spsc D PIdle (sp_cons d) pu (sp_popped d)) h'
       (match hold with Some item => TPush now item | None => TDrain end) ck).
Proof.
  revert d h. induction fuel as [|fuel IH]; intros d h Hp Hf; cbn [deliver_due].
  { intros [= <- <- <-]. exists (sp_pushed d). destruct d as [D0 p c pu po]; simpl in *; subst p.
    apply rtc_once, tm_not_due. intros item Hi. destruct (hp_data h); [done|simpl in Hf; lia]. }
  destruct (hp_data h) as [|x l] eqn:Hh.
  { intros [= <- <- <-]. exists (sp_pushed d). destruct d as [D0 p c pu po]; simpl in *; subst p.
    apply rtc_once, tm_not_due. by rewrite Hh. }
  destruct (Z.leb_spec (ei_expire_time x) now) as [Hle|Hgt].
  2: { intros [= <- <- <-]. exists (sp_pushed d). destruct d as [D0 p c pu po]; simpl in *; subst p.
       apply rtc_once, tm_not_due. rewrite Hh. by intros item [= <-]. }
  destruct (heap_pop h) as [h1 [item|]] eqn:Hpop.
  2: { unfold heap_pop in Hpop. by rewrite Hh in Hpop. }
  destruct (heap_pop_shorter _ _ _ Hpop) as [Hlen Htop]. rewrite Hh in Hlen, Htop. injection Htop as ->.
  pose proof (tm_due q d h h1 now item ck Hpop Hle) as Hdue.
  destruct (queue_push (sp_queue d) item) as [D1 r] eqn:Hpush.
  assert (Hr : r = 0 \/ (r = -1 /\ D1 = sp_queue d)).
  { unfold queue_push in Hpush. destruct (queue_next _ =? _); injection Hpush as <- <-; [by right|by left]. }
  destruct Hr as [->|[-> ->]].
  - intros Hd. pose proof (push_steps q d h1 ck now item D1 Hp Hpush) as Hst.
    destruct (IH (Spsc D1 PIdle (sp_cons d) (sp_pushed d ++ [item]) (sp_popped d)) h1 eq_refl
                ltac:(simpl in *; lia) Hd) as [pu Hrest].
    exists pu. eapply rtc_l; [exact Hdue|]. by etrans.
  - intros [= <- <- <-]. exists (sp_pushed d). destruct d as [D0 p c pu po]; simpl in *; subst p.
    by apply rtc_once.
Qed.

Lemma drain_empties fuel ok Q h l Q' h' :
  queue_rep Q l -> (length l <= fuel)%nat -> drain_commands fuel ok Q h = Ok (Q', h') -> queue_rep Q' [].
Proof.
  revert Q h l. induction fuel as [|fuel IH]; intros Q h l Hq Hf; cbn [drain_commands].
  { intros [= <- <-]. by destruct l; [|simpl in Hf; lia]. }
  pose proof (queue_pop_rep Q l Hq) as Hpop. destruct l as [|x l].
  { rewrite Hpop. by intros [= <- <-]. }
  destruct Hpop as (Q1 & -> & Hq1). destruct (heap_push ok h x); [|done]. cbn [rbind].
  apply (IH _ _ l Hq1). simpl in Hf. lia.
Qed.

(** A turn of the thread that nobody interrupts, the step that System.v takes,
    is a sequence of its steps: the queues, the heap and the thread's place are
    those that [expire_turn] computes, and the main thread's sides of the rings
    are where they were. *)
Theorem expire_turn_steps q d h ck ok now l Q h' D hold :
  sp_cons q = CIdle -> sp_prod d = PIdle -> queue_rep (sp_queue q) l ->
  expire_turn ok now (sp_queue q) h (sp_queue d) = Ok (Q, h', D, hold) ->
  exists po pu, rtc timer_step (Timers q d h TDrain ck)
    (Timers (Spsc Q (sp_prod q) CIdle (sp_pushed q) po) (Spsc D PIdle (sp_cons d) pu (sp_popped d)) h'
       (match hold with Some item => TPush now item | None => TDrain end) (ck ++ [now])).
Proof.
  intros Hc Hp Hq. unfold expire_turn.
  destruct (drain_commands _ ok (sp_queue q) h) as [[Q1 h1]|] eqn:Hdr; [|done]. cbn [rbind].
  destruct (deliver_due _ now h1 (sp_queue d)) as [[h2 D2] o] eqn:Hdl. intros [= <- <- <- <-].
  destruct (drain_steps _ _ q d h ck _ _ Hc Hdr) as [po Hs1].
  assert (Hlen : (length l <= Z.to_nat EXPIRE_QUEUE_SIZE)%nat).
  { destruct Hq as (c & _ & _ & Hlt & _). unfold EXPIRE_QUEUE_SIZE in *. lia. }
  pose proof (queue_pop_rep _ _ (drain_empties _ _ _ _ _ _ _ Hq Hlen Hdr)) as Hempty. cbn beta iota in Hempty.
  pose proof (pop_empty_steps (Spsc Q1 (sp_prod q) CIdle (sp_pushed q) po) d h1 ck Q1 now eq_refl Hempty) as Hs2.
  destruct (deliver_steps _ (Spsc Q1 (sp_prod q) CIdle (sp_pushed q) po) d h1 (ck ++ [now]) now _ _ _ Hp
              (le_n _) Hdl) as [pu Hs3].
  exists po, pu. etrans; [exact Hs1|]. by etrans.
Qed.

(** ** One timer from the main thread and back *)

Definition one_timer : expire_item := ExpireItem (str "k") 0 10 10 EXPIRE_TYPE_HASH.

(** The ring after one item has passed through it. *)
Definition passed : spsc :=
  Spsc (ExpireQueue {[0 := one_timer]} 1 1) PIdle CIdle [one_timer] [one_timer].

Definition timer_back : timers :=
  Timers passed passed (MinHeap [] 4096) (TDue 50) [50].

Lemma timer_goes_round : rtc timer_step timers_init timer_back.
Proof.
  eapply rtc_l; [apply tm_main_push; split; [apply (p_load _ _ _ _ one_timer)|done]|].
  eapply rtc_l; [apply tm_main_push; split; [by apply p_write|done]|].
  eapply rtc_l; [apply tm_main_push; split; [apply p_publish|done]|].
  etrans; [by eapply (pop_steps _ _ _ _ true); [| |vm_compute; reflexivity]|].
  etrans; [by eapply (pop_empty_steps _ _ _ _ _ 50)|].
  eapply rtc_l; [by eapply tm_due|].
  etrans; [by eapply push_steps|].
  do 2 (eapply rtc_l; [apply tm_main_pop; split; [by constructor|done]|]).
  apply rtc_once. apply tm_main_pop. split; [constructor|done].
Qed.

Lemma timers_conserved_witness :
  rtc timer_step timers_init timer_back /\ sp_popped (tm_del timer_back) = [one_timer] /\
  sp_pushed (tm_cmd timer_back) ≡ₚ sp_popped (tm_del timer_back) ++ on_the_way timer_back /\
  Forall (was_due [50]) [one_timer].
Proof.
  split; [exact timer_goes_round|]. split; [done|].
  destruct (timers_conserved timer_back timer_goes_round) as (H & Hdue & _). by split.
Defined.
