(* ===== verification/Store.v ===== *)
(** * The global stores (kvstore.c, server.c)

    The eight engines of the server as one record, the environment a command
    runs in, and the view of the record as a family of key-value maps indexed
    by [db]: a [slot] is the access path to one engine, and its laws say that
    changing an engine changes its map and leaves the others alone. *)

From S2P Require Import Prelude KvData Engine EngineSpec Config.
From S2P Require Import ArrayEngine HashEngine RbTree SkipList Engines.

Open Scope Z_scope.
Open Scope kvs_scope.

(** The globals [global_array] to [global_skip]. *)
Record engines := Engines {
  global_array : kvs_array;
  global_rbtree : kvs_rbtree;
  global_hash : kvs_hash;
  global_hash1 : kvs_hash;
  global_hash2 : kvs_hash;
  global_hash3 : kvs_hash;
  global_hash4 : kvs_hash;
  global_skip : kvs_skip
}.

(** The environment of a command: the global switches; for each of the calls
    the command makes, numbered in order, the clock and the allocator's
    answers; [time(NULL)]; the generator's seed; the results of [fork] and
    [waitpid]; the embedding service's answer to a text; and what the stack
    holds where a timer's item is built. *)
Record cmdenv := CmdEnv {
  c_glob : globals;
  c_now : nat -> Z;
  c_malloc : nat -> nat -> Z -> bool;
  c_time : Z;
  c_seed : Z;
  c_fork : Z;
  c_waitpid : Z;
  c_embed : bytes -> option (list Z);
  c_stale : Z
}.

Definition c_ttl (c : cmdenv) : bool := g_enable_ttl (c_glob c).

(** The environment of the [n]-th call. *)
Definition call (c : cmdenv) (n : nat) : cenv := CEnv (c_ttl c) (c_now c n) (c_malloc c n) (c_seed c).

(** ** Access to one engine *)

Record slot (T : Type) := Slot {
  sl_get : engines -> T;
  sl_put : T -> engines -> engines
}.
Arguments Slot {T}.
Arguments sl_get {T}.
Arguments sl_put {T}.

Definition slot_array : slot kvs_array :=
  Slot global_array (fun x s => Engines x (global_rbtree s) (global_hash s) (global_hash1 s)
    (global_hash2 s) (global_hash3 s) (global_hash4 s) (global_skip s)).
Definition slot_rbtree : slot kvs_rbtree :=
  Slot global_rbtree (fun x s => Engines (global_array s) x (global_hash s) (global_hash1 s)
    (global_hash2 s) (global_hash3 s) (global_hash4 s) (global_skip s)).
Definition slot_hash : slot kvs_hash :=
  Slot global_hash (fun x s => Engines (global_array s) (global_rbtree s) x (global_hash1 s)
    (global_hash2 s) (global_hash3 s) (global_hash4 s) (global_skip s)).
Definition slot_hash1 : slot kvs_hash :=
  Slot global_hash1 (fun x s => Engines (global_array s) (global_rbtree s) (global_hash s) x
    (global_hash2 s) (global_hash3 s) (global_hash4 s) (global_skip s)).
Definition slot_hash2 : slot kvs_hash :=
  Slot global_hash2 (fun x s => Engines (global_array s) (global_rbtree s) (global_hash s)
    (global_hash1 s) x (global_hash3 s) (global_hash4 s) (global_skip s)).
Definition slot_hash3 : slot kvs_hash :=
  Slot global_hash3 (fun x s => Engines (global_array s) (global_rbtree s) (global_hash s)
    (global_hash1 s) (global_hash2 s) x (global_hash4 s) (global_skip s)).
Definition slot_hash4 : slot kvs_hash :=
  Slot global_hash4 (fun x s => Engines (global_array s) (global_rbtree s) (global_hash s)
    (global_hash1 s) (global_hash2 s) (global_hash3 s) x (global_skip s)).
Definition slot_skip : slot kvs_skip :=
  Slot global_skip (fun x s => Engines (global_array s) (global_rbtree s) (global_hash s)
    (global_hash1 s) (global_hash2 s) (global_hash3 s) (global_hash4 s) x).

(** ** The stores as maps *)

Inductive db := DbArray | DbRbtree | DbHash | DbHash1 | DbHash2 | DbHash3 | DbHash4 | DbSkip.

#[export] Instance db_eq_dec : EqDecision db.
Proof. solve_decision. Defined.

Definition store_abs (s : engines) (d : db) : kvmap :=
  match d with
  | DbArray => eng_abs (global_array s)
  | DbRbtree => eng_abs (global_rbtree s)
  | DbHash => eng_abs (global_hash s)
  | DbHash1 => eng_abs (global_hash1 s)
  | DbHash2 => eng_abs (global_hash2 s)
  | DbHash3 => eng_abs (global_hash3 s)
  | DbHash4 => eng_abs (global_hash4 s)
  | DbSkip => eng_abs (global_skip s)
  end.

Definition store_inv_at (s : engines) (d : db) : Prop :=
  match d with
  | DbArray => eng_inv (global_array s)
  | DbRbtree => eng_inv (global_rbtree s)
  | DbHash => eng_inv (global_hash s)
  | DbHash1 => eng_inv (global_hash1 s)
  | DbHash2 => eng_inv (global_hash2 s)
  | DbHash3 => eng_inv (global_hash3 s)
  | DbHash4 => eng_inv (global_hash4 s)
  | DbSkip => eng_inv (global_skip s)
  end.

Definition store_inv (s : engines) : Prop := forall d, store_inv_at s d.

(** The content of all the stores. *)
Abbreviation dbs := (db -> kvmap).

Definition db_upd (m : dbs) (d : db) (x : kvmap) : dbs :=
  fun d' => if decide (d' = d) then x else m d'.

(** When a store must accept a key, and the keys it stores properly. *)
Definition db_fits (d : db) : kvmap -> bytes -> Prop :=
  match d with
  | DbArray => array_fits
  | DbRbtree | DbSkip => always_fits
  | _ => hash_fits
  end.

Definition db_key (d : db) (k : bytes) : Prop := d = DbArray -> k <> [].

(** A slot is the access path to the store [d]. *)
Class SlotOf {T} `{KvEngineLaws T} (sl : slot T) (d : db) : Prop := {
  slot_abs s : eng_abs (sl_get sl s) = store_abs s d;
  slot_inv s : store_inv s -> eng_inv (sl_get sl s);
  slot_put_abs s t d' : store_abs (sl_put sl t s) d' = db_upd (store_abs s) d (eng_abs t) d';
  slot_put_inv s t : store_inv s -> eng_inv t -> store_inv (sl_put sl t s);
  slot_put_get s : sl_put sl (sl_get sl s) s = s;
  slot_key k : db_key d k -> eng_key k;
  slot_room t k : eng_inv t -> eng_key k -> db_fits d (eng_abs t) k -> eng_room t k
}.

Lemma array_fits_room (s : kvs_array) k :
  eng_inv s -> eng_key (T := kvs_array) k -> array_fits (eng_abs s) k -> eng_room s k.
Proof. intros Hs _. unfold array_fits. simpl. unfold array_room. by rewrite array_size_abs. Qed.

Lemma hash_fits_room (s : kvs_hash) k :
  eng_inv s -> eng_key (T := kvs_hash) k -> hash_fits (eng_abs s) k -> eng_room s k.
Proof. intros Hs _. unfold hash_fits. simpl. unfold hash_room. by rewrite hash_size_abs. Qed.

Ltac solve_slot d :=
  split; [done|intros s Hs; exact (Hs d)|intros s t d'; by destruct d'
         |intros s t Hs Ht d'; specialize (Hs d'); by destruct d'|by intros []
         |intros k Hk; try exact (Hk eq_refl); exact I
         |intros t k; first [exact (array_fits_room t k)|exact (hash_fits_room t k)|done]].

#[export] Instance slot_array_of : SlotOf slot_array DbArray.
Proof. solve_slot DbArray. Qed.
#[export] Instance slot_rbtree_of : SlotOf slot_rbtree DbRbtree.
Proof. solve_slot DbRbtree. Qed.
#[export] Instance slot_hash_of : SlotOf slot_hash DbHash.
Proof. solve_slot DbHash. Qed.
#[export] Instance slot_hash1_of : SlotOf slot_hash1 DbHash1.
Proof. solve_slot DbHash1. Qed.
#[export] Instance slot_hash2_of : SlotOf slot_hash2 DbHash2.
Proof. solve_slot DbHash2. Qed.
#[export] Instance slot_hash3_of : SlotOf slot_hash3 DbHash3.
Proof. solve_slot DbHash3. Qed.
#[export] Instance slot_hash4_of : SlotOf slot_hash4 DbHash4.
Proof. solve_slot DbHash4. Qed.
#[export] Instance slot_skip_of : SlotOf slot_skip DbSkip.
Proof. solve_slot DbSkip. Qed.

(** ** Creation *)

(** The engines [init_kvengine] creates; the results are not tested: a red-
    black tree or skip list that could not be created is left unusable. *)
Definition init_engines (c : cmdenv) (seed : Z) : res engines :=
  match (kvs_rbtree_create (call c 1)).1, (kvs_skip_create (call c 7) seed).1 with
  | Some rb, Some sk =>
    Ok (Engines (kvs_array_create (call c 0) array_zero).1 rb
      (kvs_hash_create (call c 2) hash_zero).1 (kvs_hash_create (call c 3) hash_zero).1
      (kvs_hash_create (call c 4) hash_zero).1 (kvs_hash_create (call c 5) hash_zero).1
      (kvs_hash_create (call c 6) hash_zero).1 sk)
  | _, _ => UB
  end.

(** Every allocation of the command succeeds. *)
Definition cmd_mem_ok (c : cmdenv) : Prop := forall n, mem_ok (call c n).

Lemma init_engines_ok c seed :
  cmd_mem_ok c ->
  exists s, init_engines c seed = Ok s /\ store_inv s /\ forall d, store_abs s d = ∅.
Proof.
  intros Hm. unfold init_engines.
  destruct (kvs_rbtree_create_ok _ (Hm 1%nat)) as (rb & -> & Hrb & Hrba).
  destruct (kvs_skip_create_ok _ seed (Hm 7%nat)) as (sk & -> & Hsk & Hska).
  eexists. split; [done|]. split; intros d; destruct d; simpl; try done;
    (apply kvs_array_create_ok || apply kvs_hash_create_ok); apply Hm.
Qed.

(** ** An environment and engines for the examples *)

Definition sample_globals : globals := Globals true false true false true false false true false.

Definition sample_cmdenv (now : Z) : cmdenv :=
  CmdEnv sample_globals (fun _ => now) (fun _ _ _ => true) (now / 1000) 1 42 0 (fun _ => None) 0.

Lemma sample_cmdenv_mem_ok now : cmd_mem_ok (sample_cmdenv now).
Proof. done. Qed.

Definition no_engines : engines :=
  Engines array_zero (RbOk Nil) hash_zero hash_zero hash_zero hash_zero hash_zero SkCorrupt.

Definition sample_engines : engines :=
  match init_engines (sample_cmdenv 0) 7 with Ok s => s | UB => no_engines end.

Lemma sample_engines_ok : store_inv sample_engines /\ forall d, store_abs sample_engines d = ∅.
Proof.
  unfold sample_engines.
  by destruct (init_engines_ok _ 7 (sample_cmdenv_mem_ok 0)) as (s & -> & Hi & Ha).
Qed.
