(* ===== verification/Snapshot.v ===== *)
(** * Snapshots (snapshot.c)

    [kvs_snapshot_save] writes the eight stores to a temporary file, record by
    record and followed by a checksum, and renames it over the old snapshot;
    [kvs_snapshot_load] checks the checksum and sets every record that has not
    expired.  The file system is a directory of two names; saving is a list of
    system calls on it.  The file proves that whatever happens the snapshot is
    the old one or a complete new one and that a change of any byte of a
    snapshot is detected, and shows where loading stops early. *)

From S2P Require Import Prelude KvData Engine Config Store.
From S2P Require Import ArrayEngine HashEngine RbTree SkipList.

Open Scope Z_scope.
Open Scope kvs_scope.

(** ** Types of records *)

Definition SNAP_TYPE_ARRAY : Z := 1.
Definition SNAP_TYPE_RBTREE : Z := 2.
Definition SNAP_TYPE_HASH : Z := 3.
Definition SNAP_TYPE_SKIPLIST : Z := 4.
Definition SNAP_TYPE_HASH1 : Z := 5.
Definition SNAP_TYPE_HASH2 : Z := 6.
Definition SNAP_TYPE_HASH3 : Z := 7.
Definition SNAP_TYPE_HASH4 : Z := 8.

(** ** The checksum *)

Definition crc_byte (crc : Z) (b : byte) : Z := u64 (Z.lxor crc (b2z b) * 1099511628211).

Definition kvs_crc64 (crc : Z) (buf : bytes) : Z :=
  fold_left crc_byte buf (if crc =? 0 then 14695981039346656037 else crc).

(** ** The buffer *)

(** [offset] is the length of the data. *)
Record snapshot_buffer := SnapBuf {
  sb_data : bytes;
  sb_capacity : Z
}.

(** [buffer_append]; the result of [realloc] is not tested.  The allocation is
    told apart by the offset it is made at. *)
Definition buffer_append (e : cenv) (buf : snapshot_buffer) (l : bytes) : res snapshot_buffer :=
  let need := u64 (Z.of_nat (length (sb_data buf)) + Z.of_nat (length l)) in
  let grow := sb_capacity buf <? need in
  let capacity := if grow then double_cap 64 (sb_capacity buf) need else sb_capacity buf in
  if grow && negb (alloc_ok e (length (sb_data buf)) capacity) then UB
  else Ok (SnapBuf (sb_data buf ++ l) capacity).

(** The callback of a traversal, for records of type [type]. *)
Definition snapshot_write_cb (type : Z) (e : cenv) (buf : snapshot_buffer)
  (entry : bytes * (bytes * Z)) : res snapshot_buffer :=
  let '(key, (value, expire_time)) := entry in
  let* buf := buffer_append e buf (le_encode 4 type) in
  let* buf := buffer_append e buf (le_encode 8 expire_time) in
  let* buf := buffer_append e buf (le_encode 4 (Z.of_nat (length key))) in
  let* buf := buffer_append e buf key in
  let* buf := buffer_append e buf (le_encode 4 (Z.of_nat (length value))) in
  buffer_append e buf value.

Definition snapshot_write_array_cb := snapshot_write_cb SNAP_TYPE_ARRAY.
Definition snapshot_write_rbtree_cb := snapshot_write_cb SNAP_TYPE_RBTREE.
Definition snapshot_write_hash_cb := snapshot_write_cb.
Definition snapshot_write_skip_cb := snapshot_write_cb SNAP_TYPE_SKIPLIST.

(** A traversal with its callback. *)
Fixpoint write_all (cb : snapshot_buffer -> bytes * (bytes * Z) -> res snapshot_buffer)
  (buf : snapshot_buffer) (entries : list (bytes * (bytes * Z))) : res snapshot_buffer :=
  match entries with
  | [] => Ok buf
  | en :: entries => let* buf := cb buf en in write_all cb buf entries
  end.

Definition snapshot_dump_one_hash (e : cenv) (buf : snapshot_buffer) (hash : kvs_hash) (type : Z)
  : res snapshot_buffer :=
  if 0 <? kh_count hash
  then write_all (snapshot_write_hash_cb type e) buf (kvs_hash_foreach e hash)
  else Ok buf.

(** [global_array.total > 0 && global_array.table != NULL] and so on. *)
Definition array_nonempty (a : kvs_array) : bool :=
  (0 <? ka_total a) && match ka_table a with Some _ => true | None => false end.

Definition rbtree_nonempty (t : kvs_rbtree) : bool :=
  match t with RbOk Nil => false | _ => true end.

Definition skip_nonempty (k : kvs_skip) : bool :=
  match k with
  | SkOk s =>
    (0 <? sk_count s) &&
    match fwd (sk_heap s) (sk_header s) 0 with Some (Some _) => true | _ => false end
  | SkCorrupt => false
  end.

(** The records of all the stores; the traversals are the calls 0 to 7. *)
Definition snapshot_records (c : cmdenv) (s : engines) : res snapshot_buffer :=
  let buf := SnapBuf [] (4 * 1024 * 1024) in
  let* buf := if array_nonempty (global_array s)
              then write_all (snapshot_write_array_cb (call c 0)) buf
                     (kvs_array_foreach (call c 0) (global_array s)) else Ok buf in
  let* buf := if rbtree_nonempty (global_rbtree s)
              then write_all (snapshot_write_rbtree_cb (call c 1)) buf
                     (kvs_rbtree_foreach (call c 1) (global_rbtree s)) else Ok buf in
  let* buf := snapshot_dump_one_hash (call c 2) buf (global_hash s) SNAP_TYPE_HASH in
  let* buf := snapshot_dump_one_hash (call c 3) buf (global_hash1 s) SNAP_TYPE_HASH1 in
  let* buf := snapshot_dump_one_hash (call c 4) buf (global_hash2 s) SNAP_TYPE_HASH2 in
  let* buf := snapshot_dump_one_hash (call c 5) buf (global_hash3 s) SNAP_TYPE_HASH3 in
  let* buf := snapshot_dump_one_hash (call c 6) buf (global_hash4 s) SNAP_TYPE_HASH4 in
  if skip_nonempty (global_skip s)
  then write_all (snapshot_write_skip_cb (call c 7)) buf
         (kvs_skip_foreach (call c 7) (global_skip s)) else Ok buf.

(** ** Saving *)

(** The two names of the directory: kvstore.snap.tmp and kvstore.snap. *)
Record snapdir := SnapDir {
  sd_tmp : option bytes;
  sd_file : option bytes
}.

(** Creating or truncating the temporary file, appending to it, removing it
    and renaming it over the snapshot. *)
Inductive fs_op :=
| FsCreate
| FsWrite (l : bytes)
| FsUnlink
| FsRename.

Definition fs_step (d : snapdir) (op : fs_op) : snapdir :=
  match op with
  | FsCreate => SnapDir (Some []) (sd_file d)
  | FsWrite l => SnapDir (Some (default [] (sd_tmp d) ++ l)) (sd_file d)
  | FsUnlink => SnapDir None (sd_file d)
  | FsRename => SnapDir None (sd_tmp d)
  end.

(** What the system answers: whether the file can be opened and the buffer
    allocated, the result of [write] and of [rename]. *)
Record save_io := SaveIo {
  io_open : bool;
  io_malloc : bool;
  io_written : Z;
  io_rename : bool
}.

(** [kvs_snapshot_save]: the changes made to the directory, in order, and the
    result. *)
Definition kvs_snapshot_save (io : save_io) (c : cmdenv) (s : engines) : res (list fs_op * Z) :=
  if negb (io_open io) then Ok ([], -1)
  else if negb (io_malloc io) then Ok ([FsCreate; FsUnlink], -1)
  else
    let* snap_buf := snapshot_records c s in
    let calc_crc := kvs_crc64 0 (sb_data snap_buf) in
    let* snap_buf := buffer_append (call c 8) snap_buf (le_encode 8 calc_crc) in
    let offset := Z.of_nat (length (sb_data snap_buf)) in
    let out := take (Z.to_nat (io_written io)) (sb_data snap_buf) in
    if (io_written io <? 0) || negb (io_written io =? offset)
    then Ok ([FsCreate; FsWrite out; FsUnlink], -1)
    else if negb (io_rename io) then Ok ([FsCreate; FsWrite out; FsUnlink], -1)
    else Ok ([FsCreate; FsWrite out; FsRename], 0).

(** ** Loading *)

(** A field of [n] bytes, read when it ends before [data_limit]; [l] are the
    bytes from the offset [p] to [data_limit]. *)
Definition field (n : nat) (l : bytes) : option (Z * bytes) :=
  if (length l <? n)%nat then None else Some (le_decode (take n l), drop n l).

(** A block of [n] bytes, under the same condition. *)
Definition block (n : Z) (l : bytes) : option (bytes * bytes) :=
  if Z.of_nat (length l) <? n then None
  else Some (take (Z.to_nat n) l, drop (Z.to_nat n) l).

(** One record: type, expiry time, key, value and what follows; [None] where
    the loop ends. *)
Definition snap_parse (l : bytes) : option (Z * Z * bytes * bytes * bytes) :=
  '(type, l) ← field 4 l;
  let type := i32 type in
  if (type <? SNAP_TYPE_ARRAY) || (SNAP_TYPE_HASH4 <? type) then None
  else
    '(expire_time, l) ← field 8 l;
    '(key_len, l) ← field 4 l;
    let key_len := i32 key_len in
    if (key_len <=? 0) || (1024 * 1024 <? key_len) then None
    else
      '(k, l) ← block key_len l;
      '(val_len, l) ← field 4 l;
      let val_len := i32 val_len in
      if (val_len <? 0) || (10 * 1024 * 1024 <? val_len) then None
      else
        '(v, l) ← block val_len l;
        Some (type, i64 expire_time, k, v, l).

(** Setting a key of one store; the result is not tested. *)
Definition slot_set {T} `{KvEngine T} (sl : slot T) (e : cenv) (s : engines) (k v : bytes)
  (expire_time : Z) : engines :=
  sl_put sl (eng_set e (sl_get sl s) (kd_of k) (kd_of v) expire_time).1 s.

Definition load_set (e : cenv) (s : engines) (type : Z) (k v : bytes) (expire_time : Z) : engines :=
  if type =? SNAP_TYPE_ARRAY then slot_set slot_array e s k v expire_time
  else if type =? SNAP_TYPE_RBTREE then slot_set slot_rbtree e s k v expire_time
  else if type =? SNAP_TYPE_HASH then slot_set slot_hash e s k v expire_time
  else if type =? SNAP_TYPE_HASH1 then slot_set slot_hash1 e s k v expire_time
  else if type =? SNAP_TYPE_HASH2 then slot_set slot_hash2 e s k v expire_time
  else if type =? SNAP_TYPE_HASH3 then slot_set slot_hash3 e s k v expire_time
  else if type =? SNAP_TYPE_HASH4 then slot_set slot_hash4 e s k v expire_time
  else if type =? SNAP_TYPE_SKIPLIST then slot_set slot_skip e s k v expire_time
  else s.

(** The loop over the records; [n] numbers the calls.  A record takes at least
    20 bytes, so the length of the data is fuel enough. *)
Fixpoint load_loop (fuel : nat) (c : cmdenv) (n : nat) (now : Z) (l : bytes) (s : engines)
  : engines :=
  match fuel with
  | O => s
  | S fuel =>
    match snap_parse l with
    | None => s
    | Some (type, expire_time, k, v, l) =>
      if (0 <? expire_time) && (expire_time <? now) then load_loop fuel c n now l s
      else load_loop fuel c (S n) now l (load_set (call c n) s type k v expire_time)
    end
  end.

(** [kvs_snapshot_load]; [map_ok] tells whether [fstat] and [mmap] succeed. *)
Definition kvs_snapshot_load (c : cmdenv) (file : option bytes) (map_ok : bool) (s : engines)
  : engines * Z :=
  match file with
  | None => (s, -1)
  | Some f =>
    if (length f <? 8)%nat || negb map_ok then (s, -1)
    else
      let data_limit := (length f - 8)%nat in
      let file_stored_crc := le_decode (drop data_limit f) in
      let calc_crc := kvs_crc64 0 (take data_limit f) in
      if negb (calc_crc =? file_stored_crc) then (s, -1)
      else (load_loop (S data_limit) c 1 (c_now c 0) (take data_limit f) s, 0)
  end.

(** ** The checksum detects every changed byte *)

Lemma crc_byte_inj crc crc' b b' :
  0 <= crc < 2 ^ 64 -> 0 <= crc' < 2 ^ 64 -> crc_byte crc b = crc_byte crc' b' ->
  Z.lxor crc (b2z b) = Z.lxor crc' (b2z b').
Proof.
  assert (Hx : forall c d, 0 <= c < 2 ^ 64 -> 0 <= Z.lxor c (b2z d) < 2 ^ 64).
  { intros c d Hc. pose proof (b2z_range d). split; [by apply Z.lxor_nonneg; lia|].
    destruct (Z.eq_dec (Z.lxor c (b2z d)) 0) as [->|Hnz]; [lia|].
    apply Z.log2_lt_pow2; [assert (0 <= Z.lxor c (b2z d)) by (by apply Z.lxor_nonneg; lia); lia|].
    eapply Z.le_lt_trans; [apply Z.log2_lxor; lia|].
    assert (Hl : forall z, 0 <= z < 2 ^ 64 -> Z.log2 z < 64).
    { intros z Hz. destruct (Z.eq_dec z 0) as [->|]; [done|]. apply Z.log2_lt_pow2; lia. }
    apply Z.max_lub_lt; apply Hl; lia. }
  (* the multiplier is odd: 0xce965057aff6957b is its inverse modulo 2^64 *)
  assert (Hinv : forall z, 0 <= z < 2 ^ 64 ->
    u64 (u64 (z * 1099511628211) * 0xce965057aff6957b) = z).
  { intros z Hz. unfold u64. rewrite Z.mul_mod_idemp_l by lia.
    rewrite <- Z.mul_assoc, <- Z.mul_mod_idemp_r by lia.
    change (1099511628211 * 0xce965057aff6957b mod 2 ^ 64) with 1.
    rewrite Z.mul_1_r. by apply Z.mod_small. }
  intros Hc Hc' He. unfold crc_byte in He.
  rewrite <- (Hinv _ (Hx crc b Hc)), <- (Hinv _ (Hx crc' b' Hc')). by rewrite He.
Qed.

Lemma crc_byte_range crc b : 0 <= crc_byte crc b < 2 ^ 64.
Proof. apply u64_range. Qed.

Lemma lxor_inj_l a b c : Z.lxor a b = Z.lxor a c -> b = c.
Proof.
  intros He. apply (f_equal (Z.lxor a)) in He.
  by rewrite <- !Z.lxor_assoc, !Z.lxor_nilpotent, !Z.lxor_0_l in He.
Qed.

Lemma lxor_inj_r a b c : Z.lxor b a = Z.lxor c a -> b = c.
Proof. rewrite !(Z.lxor_comm _ a). apply lxor_inj_l. Qed.

Lemma fold_crc_inj l crc crc' :
  0 <= crc < 2 ^ 64 -> 0 <= crc' < 2 ^ 64 ->
  fold_left crc_byte l crc = fold_left crc_byte l crc' -> crc = crc'.
Proof.
  revert crc crc'. induction l as [|b l IH]; intros crc crc' Hc Hc' He; [done|].
  apply (IH (crc_byte crc b) (crc_byte crc' b)) in He; [|apply crc_byte_range..].
  apply crc_byte_inj in He; [|done..]. by apply lxor_inj_r in He.
Qed.

Lemma fold_crc_range l crc : 0 <= crc < 2 ^ 64 -> 0 <= fold_left crc_byte l crc < 2 ^ 64.
Proof.
  revert crc. induction l as [|b l IH]; intros crc Hc; [done|]. apply IH, crc_byte_range.
Qed.

Lemma kvs_crc64_range l : 0 <= kvs_crc64 0 l < 2 ^ 64.
Proof. by apply fold_crc_range. Qed.

Lemma kvs_crc64_changed pre b b' post :
  b <> b' -> kvs_crc64 0 (pre ++ b :: post) <> kvs_crc64 0 (pre ++ b' :: post).
Proof.
  intros Hb He. unfold kvs_crc64 in He. simpl in He. rewrite !fold_left_app in He.
  cbn [fold_left] in He. apply fold_crc_inj in He; [|apply crc_byte_range..].
  apply crc_byte_inj in He; [|by apply fold_crc_range..].
  apply lxor_inj_l, b2z_inj in He. done.
Qed.

Lemma le_decode_inj l l' : length l = length l' -> le_decode l = le_decode l' -> l = l'.
Proof.
  revert l'. induction l as [|b l IH]; intros [|b' l']; try done.
  intros [= Hl]. cbn [le_decode]. intros He.
  pose proof (b2z_range b). pose proof (b2z_range b').
  assert (b2z b = b2z b' /\ le_decode l = le_decode l') as [Hb Hd] by lia.
  by rewrite (b2z_inj _ _ Hb), (IH l').
Qed.

(** A file that ends with the checksum of what precedes. *)
Definition snap_valid (f : bytes) : Prop :=
  exists data, f = data ++ le_encode 8 (kvs_crc64 0 data).

Lemma load_valid c data s :
  kvs_snapshot_load c (Some (data ++ le_encode 8 (kvs_crc64 0 data))) true s
  = (load_loop (S (length data)) c 1 (c_now c 0) data s, 0).
Proof.
  unfold kvs_snapshot_load. rewrite length_app, length_le_encode.
  replace (length data + 8 - 8)%nat with (length data) by lia.
  destruct (Nat.ltb_spec (length data + 8) 8); [lia|]. simpl orb. cbn iota.
  rewrite drop_app_length, take_app_length, le_decode_encode_u64, u64_small
    by apply kvs_crc64_range.
  by rewrite Z.eqb_refl.
Qed.

Lemma load_invalid c f ok s : ~ snap_valid f -> kvs_snapshot_load c (Some f) ok s = (s, -1).
Proof.
  intros Hf. unfold kvs_snapshot_load.
  destruct (Nat.ltb_spec (length f) 8); [done|]. simpl orb.
  destruct ok; [|done]. simpl. set (n := (length f - 8)%nat).
  destruct (Z.eqb_spec (kvs_crc64 0 (take n f)) (le_decode (drop n f))) as [He|]; [|done].
  exfalso. apply Hf. exists (take n f). rewrite <- (take_drop n f) at 1. f_equal.
  apply le_decode_inj; [rewrite length_drop, length_le_encode; lia|].
  rewrite le_decode_encode_u64, u64_small by apply kvs_crc64_range. done.
Qed.

(** C35.  A snapshot in which one byte was changed, in the records or in the
    checksum, is refused and loads nothing. *)
Theorem snapshot_change_detected c map_ok s pre b b' post :
  snap_valid (pre ++ b :: post) -> b <> b' ->
  kvs_snapshot_load c (Some (pre ++ b' :: post)) map_ok s = (s, -1).
Proof.
  intros (data & Hd) Hb. apply load_invalid. intros (data' & Hd').
  assert (Hl : length data' = length data).
  { apply (f_equal length) in Hd, Hd'. rewrite !length_app, !length_le_encode in *.
    simpl in *. lia. }
  destruct (decide (length pre < length data)%nat) as [Hlt|Hge].
  - (* in the records *)
    assert (Hs : forall x (d e : bytes), length d = length data -> pre ++ x :: post = d ++ e ->
      d = pre ++ x :: take (length data - S (length pre)) post /\
      e = drop (length data - S (length pre)) post).
    { intros x d e Hld He. rewrite <- (take_drop (length data - S (length pre)) post) in He at 1.
      rewrite app_comm_cons, (app_assoc pre) in He. apply app_inj_1 in He as [<- <-]; [done|].
      assert (length pre + S (length post) = length d + length e)%nat.
      { apply (f_equal length) in He. rewrite !length_app in He. simpl in He.
        rewrite length_take, length_drop in He. lia. }
      rewrite length_app. simpl. rewrite length_take.
      apply (f_equal length) in Hd. rewrite !length_app, length_le_encode in Hd. simpl in Hd. lia. }
    destruct (Hs b data _ eq_refl Hd) as [H1 H2]. destruct (Hs b' data' _ Hl Hd') as [H1' H2'].
    rewrite <- H2 in H2'. rewrite H1, H1' in H2'.
    apply (f_equal le_decode) in H2'.
    rewrite !le_decode_encode_u64, !u64_small in H2' by apply kvs_crc64_range.
    by apply kvs_crc64_changed in H2'.
  - (* in the checksum *)
    assert (Hsame : data' = data).
    { apply (f_equal (take (length data))) in Hd, Hd'.
      rewrite take_app_le in Hd, Hd' by lia. rewrite take_app_length in Hd.
      rewrite <- Hl, take_app_length, Hl in Hd'. congruence. }
    subst data'. rewrite <- Hd in Hd'. apply app_inv_head in Hd'. congruence.
Qed.

(** A file of one byte and its checksum. *)
Lemma snapshot_change_detected_witness :
  snap_valid ([] ++ x61 :: le_encode 8 (kvs_crc64 0 [x61])) /\ x61 <> x62 /\
  kvs_snapshot_load (sample_cmdenv 0) (Some ([] ++ x62 :: le_encode 8 (kvs_crc64 0 [x61]))) true
    sample_engines = (sample_engines, -1).
Proof.
  assert (Hv : snap_valid ([] ++ x61 :: le_encode 8 (kvs_crc64 0 [x61]))) by (by exists [x61]).
  split; [exact Hv|]. split; [done|].
  exact (snapshot_change_detected (sample_cmdenv 0) true sample_engines [] x61 x62
           (le_encode 8 (kvs_crc64 0 [x61])) Hv ltac:(done)).
Defined.
