(* ===== verification/SnapshotSpec.v ===== *)
(** * What snapshots promise

    A save that succeeds writes the records of every key that has not expired;
    loading them into fresh stores gives these keys back with their values and
    expiry times, less what has expired in between.  Saving replaces the old
    snapshot at once or not at all. *)

From S2P Require Import Prelude KvData Engine EngineSpec Config Store Snapshot.
From S2P Require Import ArrayEngine HashEngine RbTree SkipList Engines.

Open Scope Z_scope.
Open Scope kvs_scope.

Abbreviation entry := (bytes * (bytes * Z))%type.

(** ** The bytes of the records *)

Definition record (type : Z) (en : entry) : bytes :=
  le_encode 4 type ++ le_encode 8 en.2.2 ++ le_encode 4 (Z.of_nat (length en.1)) ++ en.1 ++
  le_encode 4 (Z.of_nat (length en.2.1)) ++ en.2.1.

Definition records (type : Z) (l : list entry) : bytes := concat (record type <$> l).

(** The buffer keeps what was appended and never overflows. *)
Definition sb_ok (buf : snapshot_buffer) : Prop :=
  0 < sb_capacity buf < 2 ^ 64 /\ Z.of_nat (length (sb_data buf)) <= sb_capacity buf.

(** [r] is the buffer with [l] appended. *)
Definition appended (buf : snapshot_buffer) (l : bytes) (r : res snapshot_buffer) : Prop :=
  exists buf', r = Ok buf' /\ sb_data buf' = sb_data buf ++ l /\ sb_ok buf'.

Definition small_with (buf : snapshot_buffer) (l : bytes) : Prop :=
  Z.of_nat (length (sb_data buf ++ l)) < 2 ^ 62.

Lemma buffer_append_ok e buf l :
  mem_ok e -> sb_ok buf -> small_with buf l -> appended buf l (buffer_append e buf l).
Proof.
  intros Hm [Hc Hl] Hb. unfold small_with, appended, buffer_append in *. rewrite length_app in *.
  set (need := Z.of_nat (length (sb_data buf)) + Z.of_nat (length l)).
  rewrite u64_small by lia. unfold alloc_ok. rewrite Hm, andb_true_r.
  destruct (Z.ltb_spec (sb_capacity buf) need) as [Hlt|Hge]; cbn [andb].
  - destruct (double_cap_ok 64 (sb_capacity buf) need) as [H1 H2];
      [exact Hc|lia|change (Z.of_nat 64) with 64; lia|].
    destruct (Z.eqb_spec (double_cap 64 (sb_capacity buf) need) 0); [lia|]. cbn [negb].
    eexists. split; [reflexivity|]. split; [done|]. unfold sb_ok. cbn [sb_data sb_capacity].
    rewrite length_app. lia.
  - eexists. split; [done|]. split; [done|]. unfold sb_ok. simpl. rewrite length_app. lia.
Qed.

Lemma appended_then buf l l' r f :
  appended buf l r -> small_with buf (l ++ l') ->
  (forall b, sb_ok b -> small_with b l' -> appended b l' (f b)) ->
  appended buf (l ++ l') (let* b := r in f b).
Proof.
  intros (b & -> & Hd & Hs) Hb Hf. unfold small_with in *. rewrite app_assoc, <- Hd in Hb.
  destruct (Hf b Hs Hb) as (b' & Hr & Hd' & Hs'). exists b'. split; [exact Hr|]. split; [|done].
  by rewrite Hd', Hd, app_assoc.
Qed.

Lemma small_with_app buf l l' : small_with buf (l ++ l') -> small_with buf l.
Proof. unfold small_with. rewrite !length_app. lia. Qed.

Lemma appended_nil buf : sb_ok buf -> appended buf [] (Ok buf).
Proof. intros Hs. exists buf. by rewrite app_nil_r. Qed.

Lemma write_cb_ok type e buf en :
  mem_ok e -> sb_ok buf -> small_with buf (record type en) ->
  appended buf (record type en) (snapshot_write_cb type e buf en).
Proof.
  destruct en as [k [v x]]. intros Hm Hs Hb. unfold snapshot_write_cb.
  assert (Hone : forall b l l', sb_ok b -> small_with b (l ++ l') ->
    appended b l (buffer_append e b l)).
  { intros b l l' Hsb Hl. apply buffer_append_ok; [done..|]. by eapply small_with_app. }
  unfold record in *. cbn [fst snd] in *.
  repeat (apply appended_then; [by eapply Hone|done|]; clear Hs Hb; intros ? Hs Hb).
  by apply buffer_append_ok.
Qed.

Lemma write_all_ok type e buf l :
  mem_ok e -> sb_ok buf -> small_with buf (records type l) ->
  appended buf (records type l) (write_all (snapshot_write_cb type e) buf l).
Proof.
  intros Hm. revert buf. induction l as [|en l IH]; intros buf Hs Hb; cbn [write_all].
  - by apply appended_nil.
  - apply appended_then; [|done|exact IH]. apply write_cb_ok; [done..|].
    by apply (small_with_app _ _ (records type l)).
Qed.

(** ** The traversals *)

(** The stores in the order of the file, the call of their traversal and the
    type of their records. *)
Definition snap_dbs : list db :=
  [DbArray; DbRbtree; DbHash; DbHash1; DbHash2; DbHash3; DbHash4; DbSkip].

Definition snap_type (d : db) : Z :=
  match d with
  | DbArray => SNAP_TYPE_ARRAY
  | DbRbtree => SNAP_TYPE_RBTREE
  | DbHash => SNAP_TYPE_HASH
  | DbHash1 => SNAP_TYPE_HASH1
  | DbHash2 => SNAP_TYPE_HASH2
  | DbHash3 => SNAP_TYPE_HASH3
  | DbHash4 => SNAP_TYPE_HASH4
  | DbSkip => SNAP_TYPE_SKIPLIST
  end.

Definition snap_call (d : db) : nat :=
  match d with
  | DbArray => 0 | DbRbtree => 1 | DbHash => 2 | DbHash1 => 3 | DbHash2 => 4 | DbHash3 => 5
  | DbHash4 => 6 | DbSkip => 7
  end.

(** What the traversal of a store meets. *)
Definition snap_entries (c : cmdenv) (s : engines) (d : db) : list entry :=
  let e := call c (snap_call d) in
  match d with
  | DbArray => eng_foreach e (global_array s)
  | DbRbtree => eng_foreach e (global_rbtree s)
  | DbHash => eng_foreach e (global_hash s)
  | DbHash1 => eng_foreach e (global_hash1 s)
  | DbHash2 => eng_foreach e (global_hash2 s)
  | DbHash3 => eng_foreach e (global_hash3 s)
  | DbHash4 => eng_foreach e (global_hash4 s)
  | DbSkip => eng_foreach e (global_skip s)
  end.

Definition snap_data (c : cmdenv) (s : engines) : bytes :=
  concat ((fun d => records (snap_type d) (snap_entries c s d)) <$> snap_dbs).

Lemma snap_entries_abs c s d :
  store_inv s -> c_ttl c = true ->
  snap_entries c s d ≡ₚ
    map_to_list (filter (fun kv => is_expired (call c (snap_call d)) kv.2.2 = false)
                   (store_abs s d)).
Proof.
  intros Hs Ht. specialize (Hs d).
  destruct d; apply eng_foreach_spec; (exact Hs || exact Ht).
Qed.

(** A store whose traversal is left out has nothing to traverse. *)
Lemma array_nonempty_ok e a : array_inv a -> array_nonempty a = false -> kvs_array_foreach e a = [].
Proof.
  intros [[t Ht] Htot _ _ _ _]. unfold array_nonempty, kvs_array_foreach. rewrite Ht, andb_true_r.
  intros Hz%Z.ltb_ge. replace (Z.to_nat (ka_total a)) with 0%nat by lia. simpl.
  by destruct (ce_ttl e).
Qed.

Lemma rbtree_nonempty_ok e t : rbtree_nonempty t = false -> kvs_rbtree_foreach e t = [].
Proof. by destruct t as [[|]|]. Qed.

Lemma hash_count_ok e h : hash_inv h -> (0 <? kh_count h) = false -> kvs_hash_foreach e h = [].
Proof.
  intros Hi Hz%Z.ltb_ge. pose proof (hinv_count _ Hi) as Hc. unfold kvs_hash_foreach.
  destruct (hinv_shape _ Hi) as (bs & ex & Hb & _ & Hm & Hl & _).
  rewrite Hb, Hm. simpl. rewrite take_ge by lia.
  unfold hash_nodes in Hc. rewrite Hb in Hc. simpl in Hc.
  destruct (concat bs); [done|]. simpl in Hc. lia.
Qed.

Lemma skip_nonempty_ok e k :
  sk_inv k -> Z.of_nat (size (sk_abs k)) < 2 ^ 31 -> skip_nonempty k = false ->
  kvs_skip_foreach e k = [].
Proof.
  destruct k as [s|]; [|done]. intros [ns Hwf]. rewrite (sk_size_abs s ns Hwf).
  unfold skip_nonempty, kvs_skip_foreach. intros Hsz. destruct ns as [|x ns].
  - intros _. assert (sk_nodes s = []) as ->; [|done].
    pose proof (sk_nodes_entries s [] Hwf) as He. by destruct (sk_nodes s).
  - rewrite (wf_count _ _ Hwf), i32_small by (simpl in *; lia).
    pose proof (wf_chain _ _ Hwf 0%nat ltac:(lia)) as Hch.
    rewrite (wf_levels0 s (x :: ns)) in Hch by done. destruct Hch as [-> _].
    by rewrite (proj2 (Z.ltb_lt _ _)) by (simpl; lia).
Qed.

(** ** The file *)

Definition small_stores (s : engines) : Prop :=
  forall d, Z.of_nat (size (store_abs s d)) < 2 ^ 30.

(** A traversal or nothing, when there is nothing. *)
Lemma guarded_ok (b : bool) type e buf l :
  mem_ok e -> sb_ok buf -> small_with buf (records type l) -> (b = false -> l = []) ->
  appended buf (records type l)
    (if b then write_all (snapshot_write_cb type e) buf l else Ok buf).
Proof.
  intros Hm Hs Hb Hn. destruct b; [by apply write_all_ok|]. rewrite (Hn eq_refl).
  by apply appended_nil.
Qed.

Lemma dump_one_hash_ok type e buf h :
  mem_ok e -> sb_ok buf -> hash_inv h -> small_with buf (records type (kvs_hash_foreach e h)) ->
  appended buf (records type (kvs_hash_foreach e h)) (snapshot_dump_one_hash e buf h type).
Proof.
  intros Hm Hs Hi Hb. apply guarded_ok; [done..|]. by apply hash_count_ok.
Qed.

Lemma snapshot_records_ok c s :
  store_inv s -> small_stores s -> cmd_mem_ok c -> Z.of_nat (length (snap_data c s)) < 2 ^ 62 ->
  exists buf, snapshot_records c s = Ok buf /\ sb_data buf = snap_data c s /\ sb_ok buf.
Proof.
  intros Hs Hz Hm Hb. unfold snapshot_records.
  assert (H0 : sb_ok (SnapBuf [] (4 * 1024 * 1024))) by (unfold sb_ok; simpl; lia).
  set (buf := SnapBuf [] _) in *.
  assert (Hb0 : small_with buf (snap_data c s)) by done.
  change (appended buf (snap_data c s) (snapshot_records c s)).
  unfold snap_data in *. simpl in Hb0 |- *. rewrite app_nil_r in *. unfold snapshot_records.
  fold buf. clearbody buf. clear Hb.
  pose proof (fun d => Hm (snap_call d)) as Hmd.
  apply appended_then; [apply guarded_ok; [apply Hm|done| |]|done|clear buf H0 Hb0; intros buf H0 Hb0].
  { by eapply small_with_app. } { apply array_nonempty_ok, (Hs DbArray). }
  apply appended_then; [apply guarded_ok; [apply Hm|done| |]|done|clear buf H0 Hb0; intros buf H0 Hb0].
  { by eapply small_with_app. } { apply rbtree_nonempty_ok. }
  do 5 (apply appended_then; [apply dump_one_hash_ok; [apply Hm|done| |by eapply small_with_app]
                             |done|clear buf H0 Hb0; intros buf H0 Hb0];
        [first [exact (Hs DbHash)|exact (Hs DbHash1)|exact (Hs DbHash2)|exact (Hs DbHash3)
               |exact (Hs DbHash4)]|]).
  apply guarded_ok; [apply Hm|done|done|]. apply skip_nonempty_ok; [apply (Hs DbSkip)|].
  specialize (Hz DbSkip). simpl in Hz. lia.
Qed.

(** The snapshot of the stores. *)
Definition snap_file (c : cmdenv) (s : engines) : bytes :=
  snap_data c s ++ le_encode 8 (kvs_crc64 0 (snap_data c s)).

(** The stores can be written: their traversals succeed and the file is not
    larger than a file can be. *)
Definition saves (c : cmdenv) (s : engines) : Prop :=
  store_inv s /\ small_stores s /\ cmd_mem_ok c /\
  Z.of_nat (length (snap_data c s)) + 8 < 2 ^ 62.

(** The system calls of a save: a complete write and the rename when every
    call succeeds; otherwise the temporary file is removed. *)
Lemma kvs_snapshot_save_ok io c s :
  saves c s ->
  exists ops r, kvs_snapshot_save io c s = Ok (ops, r) /\
    (r = 0 /\ ops = [FsCreate; FsWrite (snap_file c s); FsRename] \/
     r = -1 /\ forall op, op ∈ ops -> op <> FsRename).
Proof.
  intros (Hs & Hz & Hm & Hb). unfold kvs_snapshot_save.
  destruct (io_open io); [|eexists _, _; split; [done|right]; split; [done|by intros op Hop%elem_of_nil]].
  destruct (io_malloc io); cbn [negb].
  2: { eexists _, _. split; [done|]. right. split; [done|].
       intros op. rewrite !elem_of_cons, elem_of_nil. naive_solver. }
  destruct (snapshot_records_ok c s) as (buf & -> & Hd & Hsb); [done..|lia|]. cbn [rbind].
  destruct (buffer_append_ok (call c 8) buf (le_encode 8 (kvs_crc64 0 (sb_data buf))))
    as (buf' & -> & Hd' & Hsb'); [apply Hm|done| |].
  { unfold small_with. rewrite length_app, length_le_encode, Hd. lia. }
  cbn [rbind]. rewrite Hd', Hd. fold (snap_file c s).
  assert (Hfail : forall op out, op ∈ [FsCreate; FsWrite out; FsUnlink] -> op <> FsRename).
  { intros op out. rewrite !elem_of_cons, elem_of_nil. naive_solver. }
  destruct (Z.ltb_spec (io_written io) 0); cbn [orb]; [by eauto 10|].
  destruct (Z.eqb_spec (io_written io) (Z.of_nat (length (snap_file c s)))) as [->|]; cbn [negb];
    [|by eauto 10].
  destruct (io_rename io); cbn [negb]; [|by eauto 10].
  rewrite Nat2Z.id, take_ge by done. by eauto 10.
Qed.

(** C14.  Saving is atomic: after any number of the system calls of a save,
    whatever was in the directory and whichever call fails, the snapshot is
    the old one or the complete new one with its checksum; it is the new one
    at the end exactly when the save reports success. *)
Theorem snapshot_save_atomic io c s dir n :
  saves c s ->
  exists ops r, kvs_snapshot_save io c s = Ok (ops, r) /\
    snap_valid (snap_file c s) /\
    (sd_file (fold_left fs_step (take n ops) dir) = sd_file dir \/
     sd_file (fold_left fs_step (take n ops) dir) = Some (snap_file c s)) /\
    sd_file (fold_left fs_step ops dir) = (if r =? 0 then Some (snap_file c s) else sd_file dir).
Proof.
  intros Hs. destruct (kvs_snapshot_save_ok io c s Hs) as (ops & r & -> & Hr).
  exists ops, r. split; [done|]. split; [by eexists|].
  destruct Hr as [[-> ->]|[-> Hr]].
  - split; [|done]. destruct n as [|[|[|n]]]; simpl; auto. right. by destruct n.
  - assert (Hkeep : forall l d, (forall op, op ∈ l -> op <> FsRename) ->
      sd_file (fold_left fs_step l d) = sd_file d).
    { intros l. induction l as [|op l IH]; intros d Hl; [done|]. simpl. rewrite IH.
      - specialize (Hl op ltac:(by left)). by destruct op.
      - intros op' Hop. apply Hl. by right. }
    split; [left|]; apply Hkeep; [|done]. intros op Hop. apply Hr.
    by apply elem_of_take in Hop as (i & Hi%list_elem_of_lookup_2 & _).
Qed.

(** ** Loading records *)

(** What [kvs_snapshot_load] accepts in a record. *)
Definition entry_ok (en : entry) : Prop :=
  0 < Z.of_nat (length en.1) <= 1024 * 1024 /\ Z.of_nat (length en.2.1) <= 10 * 1024 * 1024 /\
  - 2 ^ 63 <= en.2.2 < 2 ^ 63.

Lemma field_encode n z rest : field n (le_encode n z ++ rest) = Some (le_decode (le_encode n z), rest).
Proof.
  unfold field. rewrite length_app, length_le_encode.
  destruct (Nat.ltb_spec (n + length rest) n); [lia|].
  by rewrite take_app_length', drop_app_length' by by rewrite length_le_encode.
Qed.

Lemma field4_i32 z rest :
  - 2 ^ 31 <= z < 2 ^ 31 ->
  exists w, field 4 (le_encode 4 z ++ rest) = Some (w, rest) /\ i32 w = z.
Proof.
  intros Hz. rewrite field_encode, le_decode_encode_u32. eexists. split; [done|].
  unfold i32, u32. rewrite Z.add_mod_idemp_l by lia. by apply i32_small.
Qed.

Lemma field8_i64 z rest :
  - 2 ^ 63 <= z < 2 ^ 63 ->
  exists w, field 8 (le_encode 8 z ++ rest) = Some (w, rest) /\ i64 w = z.
Proof.
  intros Hz. rewrite field_encode, le_decode_encode_u64. eexists. split; [done|].
  unfold i64, u64. rewrite Z.add_mod_idemp_l by lia. by apply i64_small.
Qed.

Lemma block_app l rest : block (Z.of_nat (length l)) (l ++ rest) = Some (l, rest).
Proof.
  unfold block. rewrite length_app.
  destruct (Z.ltb_spec (Z.of_nat (length l + length rest)) (Z.of_nat (length l))); [lia|].
  by rewrite Nat2Z.id, take_app_length, drop_app_length.
Qed.

(** Reads the integer field at the head of the input. *)
Ltac read_field L :=
  let w := fresh "w" in let Hw := fresh "Hw" in
  edestruct L as (w & -> & Hw); [lia|]; cbn [mbind option_bind]; rewrite ?Hw; clear Hw.

Lemma snap_parse_record type en rest :
  SNAP_TYPE_ARRAY <= type <= SNAP_TYPE_HASH4 -> entry_ok en ->
  snap_parse (record type en ++ rest) = Some (type, en.2.2, en.1, en.2.1, rest).
Proof.
  unfold SNAP_TYPE_ARRAY, SNAP_TYPE_HASH4.
  destruct en as [k [v x]]. intros Ht (Hk & Hv & Hx). cbn [fst snd] in *.
  unfold snap_parse, record, SNAP_TYPE_ARRAY, SNAP_TYPE_HASH4. cbn [fst snd]. rewrite <- !app_assoc.
  read_field (field4_i32 type).
  destruct (Z.ltb_spec type 1); [lia|]. destruct (Z.ltb_spec 8 type); [lia|]. cbn [orb].
  read_field (field8_i64 x).
  read_field (field4_i32 (Z.of_nat (length k))).
  destruct (Z.leb_spec (Z.of_nat (length k)) 0); [lia|].
  destruct (Z.ltb_spec (1024 * 1024) (Z.of_nat (length k))); [lia|]. cbn [orb].
  rewrite block_app. cbn [mbind option_bind].
  read_field (field4_i32 (Z.of_nat (length v))).
  destruct (Z.ltb_spec (Z.of_nat (length v)) 0); [lia|].
  destruct (Z.ltb_spec (10 * 1024 * 1024) (Z.of_nat (length v))); [lia|]. cbn [orb].
  by rewrite block_app.
Qed.

Lemma length_record type en : (0 < length (record type en))%nat.
Proof. unfold record. rewrite !length_app, length_le_encode. lia. Qed.

(** ** Setting the records of one store *)

Definition db_cap (d : db) : Z := match d with DbArray => KVS_ARRAY_SIZE | _ => 2 ^ 30 end.

Lemma db_cap_fits d m k : Z.of_nat (size m) < db_cap d -> db_fits d m k.
Proof. destruct d; simpl; unfold array_fits, hash_fits, always_fits; auto. Qed.

Lemma slot_set_inv {T} `{KvEngineLaws T} (sl : slot T) d `{!SlotOf sl d} e s k v x :
  store_inv s -> db_key d k -> store_inv (slot_set sl e s k v x).
Proof.
  intros Hs Hk. apply (slot_put_inv (d := d)); [done|].
  apply eng_set_inv; [by apply (slot_inv (sl := sl))|by apply (slot_key (sl := sl))].
Qed.

Lemma slot_set_ok {T} `{KvEngineLaws T} (sl : slot T) d `{!SlotOf sl d} e s k v x :
  store_inv s -> mem_ok e -> db_key d k -> Z.of_nat (size (store_abs s d)) < db_cap d ->
  Z.of_nat (length k) < 2 ^ 31 -> Z.of_nat (length v) < 2 ^ 31 ->
  store_inv (slot_set sl e s k v x) /\
  forall d', store_abs (slot_set sl e s k v x) d'
    = db_upd (store_abs s) d (<[k := (v, x)]> (store_abs s d)) d'.
Proof.
  intros Hs Hm Hk Hz Hlk Hlv. pose proof (slot_inv (sl := sl) s Hs) as Hi.
  pose proof (slot_key (sl := sl) k Hk) as Hek. split.
  - by apply (slot_set_inv sl d).
  - intros d'. unfold slot_set. rewrite (slot_put_abs (d := d)), eng_set_ok; [|done..|].
    + by rewrite (slot_abs (d := d)).
    + apply eng_set_room; try done. apply (slot_room (sl := sl) (d := d)); [done..|].
      rewrite (slot_abs (d := d)). by apply db_cap_fits.
Qed.

Lemma load_set_ok d e s k v x :
  store_inv s -> mem_ok e -> db_key d k -> Z.of_nat (size (store_abs s d)) < db_cap d ->
  Z.of_nat (length k) < 2 ^ 31 -> Z.of_nat (length v) < 2 ^ 31 ->
  store_inv (load_set e s (snap_type d) k v x) /\
  forall d', store_abs (load_set e s (snap_type d) k v x) d'
    = db_upd (store_abs s) d (<[k := (v, x)]> (store_abs s d)) d'.
Proof.
  intros. destruct d;
    [apply (slot_set_ok slot_array DbArray)|apply (slot_set_ok slot_rbtree DbRbtree)
    |apply (slot_set_ok slot_hash DbHash)|apply (slot_set_ok slot_hash1 DbHash1)
    |apply (slot_set_ok slot_hash2 DbHash2)|apply (slot_set_ok slot_hash3 DbHash3)
    |apply (slot_set_ok slot_hash4 DbHash4)|apply (slot_set_ok slot_skip DbSkip)]; done.
Qed.

Definition put_entry (m : kvmap) (en : entry) : kvmap := <[en.1 := en.2]> m.

(** The records that have not expired at the time of the load. *)
Definition kept (now : Z) (en : entry) : Prop := ~ (0 < en.2.2 < now).

#[export] Instance kept_dec now en : Decision (kept now en).
Proof. unfold kept. apply _. Defined.

Lemma size_put_entry m en : (size (put_entry m en) <= S (size m))%nat.
Proof.
  unfold put_entry. destruct (m !! en.1) eqn:E.
  - rewrite map_size_insert_Some by eauto. lia.
  - by rewrite map_size_insert_None.
Qed.

Lemma snap_type_range d : SNAP_TYPE_ARRAY <= snap_type d <= SNAP_TYPE_HASH4.
Proof. unfold SNAP_TYPE_ARRAY, SNAP_TYPE_HASH4. by destruct d. Qed.

Lemma load_loop_records d c now l : cmd_mem_ok c -> Forall entry_ok l ->
  forall fuel n rest s,
  store_inv s -> Z.of_nat (size (store_abs s d) + length l) <= db_cap d ->
  (length (records (snap_type d) l ++ rest) < fuel)%nat ->
  exists fuel' n' s',
    load_loop fuel c n now (records (snap_type d) l ++ rest) s = load_loop fuel' c n' now rest s' /\
    (length rest < fuel')%nat /\ store_inv s' /\
    forall d', store_abs s' d'
      = db_upd (store_abs s) d (fold_left put_entry (filter (kept now) l) (store_abs s d)) d'.
Proof.
  intros Hm. induction 1 as [|en l Hen Hl IH]; intros fuel n rest s Hs Hz Hf.
  - exists fuel, n, s. split_and!; [done..|]. intros d'. unfold db_upd. by case_decide; subst.
  - destruct fuel as [|fuel]; [lia|]. unfold records in *. rewrite fmap_cons in *. cbn [concat] in *.
    rewrite <- app_assoc in *. cbn [load_loop].
    rewrite snap_parse_record by (done || apply snap_type_range).
    rewrite length_app in Hf. pose proof (length_record (snap_type d) en).
    rewrite filter_cons. destruct en as [k [v x]]. cbn [fst snd] in *.
    destruct Hen as (Hk & Hv & Hx). cbn [fst snd length] in *.
    destruct (Z.ltb_spec 0 x); cbn [andb]; [destruct (Z.ltb_spec x now)|].
    { rewrite decide_False by (unfold kept; simpl; lia). apply IH; [done|lia|lia]. }
    all: rewrite decide_True by (unfold kept; simpl; lia); cbn [fold_left];
      (destruct (load_set_ok d (call c n) s k v x) as [Hs' Ha];
        [done|apply Hm|intros _ ->; simpl in Hk; lia|lia..|]);
      (destruct (IH fuel (S n) rest (load_set (call c n) s (snap_type d) k v x))
         as (fuel' & n' & s' & -> & Hf' & Hs'' & Ha');
       [done
       |rewrite Ha; unfold db_upd; rewrite decide_True by done;
        pose proof (size_put_entry (store_abs s d) (k, (v, x))); unfold put_entry in *;
        cbn [fst snd] in *; lia
       |lia|]);
      exists fuel', n', s'; (split_and!; [done..|]);
      intros d'; rewrite Ha', Ha; unfold db_upd; rewrite (decide_True _ _ (eq_refl d));
      by destruct (decide (d' = d)) as [->|]; [|rewrite Ha; unfold db_upd; rewrite decide_False].
Qed.

(** ** Loading the file *)

Lemma fold_put_lookup_notin l m k : k ∉ l.*1 -> fold_left put_entry l m !! k = m !! k.
Proof.
  revert m. induction l as [|en l IH]; intros m Hk; [done|]. cbn [fold_left].
  rewrite fmap_cons, not_elem_of_cons in Hk. destruct Hk as [Hne Hk].
  rewrite IH by done. unfold put_entry. by rewrite lookup_insert_ne.
Qed.

Lemma fold_put_lookup l k : NoDup l.*1 ->
  fold_left put_entry l ∅ !! k = (list_to_map l : kvmap) !! k.
Proof.
  cut (forall m, NoDup l.*1 ->
    fold_left put_entry l m !! k = ((list_to_map l : kvmap) ∪ m) !! k).
  { intros Hc Hnd. by rewrite Hc, map_union_empty by done. }
  induction l as [|[k' w] l IH]; intros m Hnd; cbn [fold_left list_to_map foldr].
  - by rewrite map_empty_union.
  - apply NoDup_cons in Hnd as [Hni Hnd]. rewrite IH by done.
    cbn [fst snd]. unfold put_entry. cbn [fst snd]. rewrite lookup_union.
    destruct (decide (k = k')) as [->|Hne].
    + rewrite lookup_insert_eq. rewrite (not_elem_of_list_to_map_1 l k') by done.
      by rewrite lookup_union, lookup_insert_eq, union_Some_l, left_id_L by apply _.
    + by rewrite lookup_insert_ne, lookup_union, lookup_insert_ne.
Qed.

Section load.
Context (cs cl : cmdenv) (s : engines) (now : Z).
Context (Hs : store_inv s) (Hsmall : small_stores s) (Htl : c_ttl cs = true) (Hm : cmd_mem_ok cl).
Context (Hok : forall d, Forall entry_ok (snap_entries cs s d)).

Lemma snap_entries_size d : Z.of_nat (length (snap_entries cs s d)) <= db_cap d.
Proof.
  rewrite (snap_entries_abs cs s d Hs Htl), length_map_to_list.
  pose proof (map_size_filter (fun kv => is_expired (call cs (snap_call d)) kv.2.2 = false)
                (store_abs s d)) as Hle.
  specialize (Hsmall d). specialize (Hs d). destruct d; cbn [db_cap] in *; try lia.
  etrans; [apply Nat2Z.inj_le, Hle|]. cbn [store_abs]. simpl. rewrite array_size_abs by done.
  apply Hs.
Qed.

Lemma load_loop_dbs ds : NoDup ds -> forall fuel n s1,
  store_inv s1 -> (forall d, d ∈ ds -> store_abs s1 d = ∅) ->
  (length (concat ((fun d => records (snap_type d) (snap_entries cs s d)) <$> ds)) < fuel)%nat ->
  store_inv (load_loop fuel cl n now
    (concat ((fun d => records (snap_type d) (snap_entries cs s d)) <$> ds)) s1) /\
  forall d, store_abs (load_loop fuel cl n now
    (concat ((fun d => records (snap_type d) (snap_entries cs s d)) <$> ds)) s1) d
    = if decide (d ∈ ds)
      then fold_left put_entry (filter (kept now) (snap_entries cs s d)) ∅
      else store_abs s1 d.
Proof.
  induction 1 as [|d ds Hni Hnd IH]; intros fuel n s1 Hs1 He Hf.
  - split; [by destruct fuel|]. intros d. rewrite decide_False by apply not_elem_of_nil.
    by destruct fuel.
  - rewrite fmap_cons in *. cbn [concat] in *.
    destruct (load_loop_records d cl now (snap_entries cs s d) Hm (Hok d) fuel n
      (concat ((fun d => records (snap_type d) (snap_entries cs s d)) <$> ds)) s1 Hs1)
      as (fuel' & n' & s' & -> & Hf' & Hs' & Ha); [|done|].
    { rewrite (He d) by by left. rewrite map_size_empty. apply snap_entries_size. }
    destruct (IH fuel' n' s' Hs') as [Hi Ha']; [|done|].
    { intros d' Hd'. rewrite Ha. unfold db_upd. rewrite decide_False by (by intros ->).
      apply He. by right. }
    split; [done|]. intros d'. rewrite Ha', Ha. unfold db_upd.
    destruct (decide (d' = d)) as [->|Hne].
    + rewrite decide_False by done. rewrite decide_True by by left. by rewrite (He d) by by left.
    + destruct (decide (d' ∈ ds)) as [Hin|Hin].
      * by rewrite decide_True by by right.
      * rewrite decide_False; [done|]. rewrite not_elem_of_cons. done.
Qed.
End load.

(** What can be stored in a snapshot. *)
Definition storable (s : engines) : Prop :=
  forall d k w, store_abs s d !! k = Some w -> entry_ok (k, w).

Lemma snap_entries_ok cs s d :
  store_inv s -> c_ttl cs = true -> storable s -> Forall entry_ok (snap_entries cs s d).
Proof.
  intros Hs Ht Hst. rewrite (snap_entries_abs cs s d Hs Ht). apply Forall_forall.
  intros [k w]. rewrite elem_of_map_to_list, map_lookup_filter_Some. intros [Hl _]. by eapply Hst.
Qed.

Lemma snap_entries_lookup cs s d now k :
  store_inv s -> c_ttl cs = true ->
  fold_left put_entry (filter (kept now) (snap_entries cs s d)) ∅ !! k
  = match store_abs s d !! k with
    | Some (v, x) =>
      if decide (0 < x < c_now cs (snap_call d) \/ 0 < x < now) then None else Some (v, x)
    | None => None
    end.
Proof.
  intros Hs Ht. pose proof (snap_entries_abs cs s d Hs Ht) as Hp.
  assert (Hnd : NoDup (snap_entries cs s d).*1) by (rewrite Hp; apply NoDup_fst_map_to_list).
  assert (Hnd' : NoDup (filter (kept now) (snap_entries cs s d)).*1).
  { eapply sublist_NoDup; [exact Hnd|]. apply fmap_sublist, sublist_filter. }
  rewrite fold_put_lookup by done. apply option_eq. intros w.
  rewrite <- elem_of_list_to_map by done. rewrite list_elem_of_filter, Hp, elem_of_map_to_list.
  rewrite map_lookup_filter_Some. unfold is_expired, kept. simpl. rewrite Ht.
  destruct (store_abs s d !! k) as [[v x]|]; [|naive_solver].
  case_decide as Hd; (split; [intros (Hk & [= <-] & Hx)|]); simpl in *.
  - exfalso. destruct (Z.ltb_spec 0 x), (Z.ltb_spec x (c_now cs (snap_call d))); simpl in Hx;
      (done || lia).
  - done.
  - done.
  - intros [= <-]. simpl. split; [lia|]. split; [done|].
    destruct (Z.ltb_spec 0 x), (Z.ltb_spec x (c_now cs (snap_call d))); simpl; (done || lia).
Qed.

(** Loading what a save left. *)
Lemma snapshot_reload io cs cl s s0 dir ops :
  saves cs s -> c_ttl cs = true -> storable s ->
  cmd_mem_ok cl -> store_inv s0 -> (forall d, store_abs s0 d = ∅) ->
  kvs_snapshot_save io cs s = Ok (ops, 0) ->
  exists s', kvs_snapshot_load cl (sd_file (fold_left fs_step ops dir)) true s0 = (s', 0) /\
    store_inv s' /\
    forall d k, store_abs s' d !! k =
      match store_abs s d !! k with
      | Some (v, x) =>
        if decide (0 < x < c_now cs (snap_call d) \/ 0 < x < c_now cl 0) then None else Some (v, x)
      | None => None
      end.
Proof.
  intros Hsv Ht Hst Hm Hs0 He Hsave.
  destruct (kvs_snapshot_save_ok io cs s Hsv) as (ops' & r & Hr & Hc).
  rewrite Hsave in Hr. injection Hr as <- <-. destruct Hc as [[_ ->]|[Hc _]]; [|done].
  destruct Hsv as (Hs & Hz & _).
  change (sd_file _) with (Some (snap_file cs s)). unfold snap_file. rewrite load_valid.
  eexists. split; [done|]. unfold snap_data.
  destruct (load_loop_dbs cs cl s (c_now cl 0) Hs Hz Ht Hm) with (ds := snap_dbs)
    (fuel := S (length (snap_data cs s))) (n := 1%nat) (s1 := s0) as [Hi Ha];
    [by intros d; apply snap_entries_ok|by apply (bool_decide_unpack (NoDup snap_dbs))
    |done|by intros d _|unfold snap_data; lia|].
  split; [exact Hi|]. intros d k. unfold snap_data in Ha. rewrite Ha.
  rewrite decide_True by (destruct d; unfold snap_dbs; set_solver).
  by apply snap_entries_lookup.
Qed.

(** C13.  What a successful save wrote, loading gives back.  TTL support is on,
    every key has 1 byte to 1 MB, and every value at most 10 MB ([storable]).  Then, into empty stores, the file the save left in the
    directory loads every key with its value and its expiry time, except those
    that had expired when their store was traversed or have by the time of the
    load. *)
Theorem snapshot_roundtrip io cs cl s s0 dir ops :
  saves cs s -> c_ttl cs = true -> storable s ->
  cmd_mem_ok cl -> store_inv s0 -> (forall d, store_abs s0 d = ∅) ->
  kvs_snapshot_save io cs s = Ok (ops, 0) ->
  exists s', kvs_snapshot_load cl (sd_file (fold_left fs_step ops dir)) true s0 = (s', 0) /\
    store_inv s' /\
    forall d k, store_abs s' d !! k =
      match store_abs s d !! k with
      | Some (v, x) =>
        if decide (0 < x < c_now cs (snap_call d) \/ 0 < x < c_now cl 0) then None else Some (v, x)
      | None => None
      end.
Proof. apply snapshot_reload. Qed.

(** Loading stops at a record with an empty key and reports success: no
    record from there on is loaded, although the engines store an empty key
    and a save writes it. *)
Theorem snapshot_empty_key_stops cl s0 type v x rest :
  SNAP_TYPE_ARRAY <= type <= SNAP_TYPE_HASH4 ->
  let data := record type ([], (v, x)) ++ rest in
  kvs_snapshot_load cl (Some (data ++ le_encode 8 (kvs_crc64 0 data))) true s0 = (s0, 0).
Proof.
  unfold SNAP_TYPE_ARRAY, SNAP_TYPE_HASH4. intros Ht. cbv zeta. rewrite load_valid.
  set (data := record type ([], (v, x)) ++ rest).
  cbn [load_loop]. assert (snap_parse data = None) as ->; [|done].
  unfold data, record, snap_parse, SNAP_TYPE_ARRAY, SNAP_TYPE_HASH4. rewrite <- !app_assoc.
  read_field (field4_i32 type).
  destruct (Z.ltb_spec type 1); [lia|]. destruct (Z.ltb_spec 8 type); [lia|]. cbn [orb fst snd].
  rewrite field_encode. cbn [mbind option_bind].
  change (Z.of_nat (length (@nil byte))) with 0. by read_field (field4_i32 0).
Qed.

(** ** Examples *)

(** Stores with a key that never expires, one that expires at 5000 and one
    that has expired at 10. *)
Definition snap_sample : engines :=
  let e := call (sample_cmdenv 100) 0 in
  slot_set slot_hash e
    (slot_set slot_array e
       (slot_set slot_rbtree e sample_engines (str "a") (str "1") 0) (str "b") (str "22") 5000)
    (str "c") (str "") 10.

Lemma snap_sample_inv : store_inv snap_sample.
Proof.
  apply (slot_set_inv slot_hash DbHash); [|done].
  apply (slot_set_inv slot_array DbArray); [|done].
  apply (slot_set_inv slot_rbtree DbRbtree); [|done]. apply sample_engines_ok.
Qed.

Definition entry_okb (en : entry) : bool :=
  (0 <? Z.of_nat (length en.1)) && (Z.of_nat (length en.1) <=? 1024 * 1024) &&
  (Z.of_nat (length en.2.1) <=? 10 * 1024 * 1024) &&
  (- 2 ^ 63 <=? en.2.2) && (en.2.2 <? 2 ^ 63).

Lemma storable_by s :
  forallb (fun d => forallb entry_okb (map_to_list (store_abs s d))) snap_dbs = true -> storable s.
Proof.
  rewrite forallb_forall. intros Hb d k w Hl.
  assert (Hd : List.In d snap_dbs) by (unfold snap_dbs; destruct d; simpl; tauto).
  specialize (Hb d Hd). rewrite forallb_forall in Hb.
  specialize (Hb (k, w)). rewrite <- list_elem_of_In, elem_of_map_to_list in Hb.
  specialize (Hb Hl). unfold entry_okb in Hb. unbool. unfold entry_ok. lia.
Qed.

Lemma small_stores_by s :
  forallb (fun d => Z.of_nat (size (store_abs s d)) <? 2 ^ 30) snap_dbs = true -> small_stores s.
Proof.
  rewrite forallb_forall. intros Hb d. apply Z.ltb_lt, Hb. unfold snap_dbs.
  destruct d; simpl; tauto.
Qed.

Definition save_sample : save_io :=
  SaveIo true true (Z.of_nat (length (snap_file (sample_cmdenv 100) snap_sample))) true.

Lemma snap_sample_saves : saves (sample_cmdenv 100) snap_sample.
Proof.
  split_and!; [exact snap_sample_inv|by apply small_stores_by; vm_compute|done|].
  apply Z.ltb_lt. by vm_compute.
Qed.

Lemma snapshot_save_atomic_witness :
  saves (sample_cmdenv 100) snap_sample /\
  exists ops r, kvs_snapshot_save save_sample (sample_cmdenv 100) snap_sample = Ok (ops, r) /\
    snap_valid (snap_file (sample_cmdenv 100) snap_sample) /\
    (sd_file (fold_left fs_step (take 2 ops) (SnapDir None (Some []))) = Some [] \/
     sd_file (fold_left fs_step (take 2 ops) (SnapDir None (Some [])))
       = Some (snap_file (sample_cmdenv 100) snap_sample)) /\
    sd_file (fold_left fs_step ops (SnapDir None (Some [])))
      = (if r =? 0 then Some (snap_file (sample_cmdenv 100) snap_sample) else Some []).
Proof.
  split; [exact snap_sample_saves|].
  exact (snapshot_save_atomic save_sample (sample_cmdenv 100) snap_sample
           (SnapDir None (Some [])) 2 snap_sample_saves).
Defined.

(** What the save of the sample does. *)
Definition save_sample_ops : list fs_op :=
  match kvs_snapshot_save save_sample (sample_cmdenv 100) snap_sample with
  | Ok (ops, _) => ops
  | UB => []
  end.

Lemma save_sample_ok :
  kvs_snapshot_save save_sample (sample_cmdenv 100) snap_sample = Ok (save_sample_ops, 0).
Proof.
  unfold save_sample_ops.
  destruct (kvs_snapshot_save_ok save_sample _ _ snap_sample_saves) as (ops & r & Hr & _).
  rewrite Hr. enough (r = 0) as -> by done. apply (f_equal
    (fun x => match x with Ok (_, r) => r | UB => -1 end)) in Hr. rewrite <- Hr. by vm_compute.
Qed.

Lemma snapshot_roundtrip_witness :
  saves (sample_cmdenv 100) snap_sample /\ storable snap_sample /\
  exists s', kvs_snapshot_load (sample_cmdenv 200)
    (sd_file (fold_left fs_step save_sample_ops (SnapDir None None))) true sample_engines = (s', 0) /\
    store_inv s' /\
    forall d k, store_abs s' d !! k =
      match store_abs snap_sample d !! k with
      | Some (v, x) =>
        if decide (0 < x < 100 \/ 0 < x < 200) then None else Some (v, x)
      | None => None
      end.
Proof.
  assert (Hst : storable snap_sample) by (apply storable_by; vm_compute; reflexivity).
  split; [exact snap_sample_saves|]. split; [exact Hst|].
  apply (snapshot_roundtrip save_sample (sample_cmdenv 100) (sample_cmdenv 200) snap_sample
           sample_engines (SnapDir None None) save_sample_ops);
    [exact snap_sample_saves|reflexivity|exact Hst|apply sample_cmdenv_mem_ok
    |apply sample_engines_ok|apply sample_engines_ok|exact save_sample_ok].
Defined.

(** What the reloaded stores hold: the key that never expires and the one that
    expires later. *)
Example snapshot_reloaded :
  map_to_list <$> (store_abs (kvs_snapshot_load (sample_cmdenv 200)
    (sd_file (fold_left fs_step save_sample_ops (SnapDir None None))) true sample_engines).1
      <$> [DbArray; DbRbtree; DbHash])
  = [[(str "b", (str "22", 5000))]; [(str "a", (str "1", 0))]; []].
Proof. by vm_compute. Qed.

Lemma snapshot_empty_key_stops_witness :
  SNAP_TYPE_ARRAY <= 2 <= SNAP_TYPE_HASH4 /\
  (let data := record 2 ([], (str "v", 0)) ++ record 3 (str "k", (str "v", 0)) in
   kvs_snapshot_load (sample_cmdenv 0) (Some (data ++ le_encode 8 (kvs_crc64 0 data))) true
     sample_engines = (sample_engines, 0)).
Proof.
  split; [done|].
  exact (snapshot_empty_key_stops (sample_cmdenv 0) sample_engines 2 (str "v") 0
           (record 3 (str "k", (str "v", 0))) ltac:(done)).
Defined.
