(* ===== verification/Ai.v ===== *)
(** * The semantic index (ai_chat.c)

    KEEP stores the vector of a key in an index and MATCH looks for the key
    whose vector is the most similar to the question's.  A [float] is its
    32-bit pattern.  The vector of a text comes from an HTTP service or, when
    embedding is off, from a hash of the text; the service's answer is an
    argument, and the scaling of a vector to length 1 and the similarity are an
    interface, which AiFloat.v implements.  The file proves that the search
    returns the best key seen before it stops, and that it stops early only on
    a near-exact match. *)

From S2P Require Import Prelude KvData.

Open Scope Z_scope.

(** ** Comparison of floats *)

Definition f32_nan (b : Z) : bool := 2139095040 <? Z.land b (2 ^ 31 - 1).

(** The order of the values: sign and magnitude. *)
Definition f32_key (b : Z) : Z :=
  if Z.testbit b 31 then - Z.land b (2 ^ 31 - 1) else Z.land b (2 ^ 31 - 1).

Definition f32_lt (a b : Z) : bool :=
  negb (f32_nan a) && negb (f32_nan b) && (f32_key a <? f32_key b).
Definition f32_ge (a b : Z) : bool :=
  negb (f32_nan a) && negb (f32_nan b) && (f32_key b <=? f32_key a).

Definition f32_zero : Z := 0.
Definition f32_one : Z := 1065353216.
Definition f32_m1 : Z := 3212836864.
Definition f32_09999 : Z := 1065351538.
Definition DEFAULT_MATCH_THRESHOLD : Z := 1063675494.

(** ** The index *)

Definition MAX_KEY_LEN : Z := 128.
Definition MAX_VECTOR_INDEX : Z := 10000.
Definition MATCH_VECTOR_DIM : nat := 512.

(** [vector_index_entry_t]: the key up to its NUL. *)
Record vector_entry := VectorEntry {
  ve_key : bytes;
  ve_vector : list Z
}.

(** [global_vector_index] up to its count, and [g_match_threshold]. *)
Record ai_index := AiIndex {
  ai_entries : list vector_entry;
  ai_threshold : Z
}.

Definition keep_index_init (x : ai_index) : ai_index := AiIndex [] (ai_threshold x).
Definition keep_index_destroy (x : ai_index) : ai_index := AiIndex [] (ai_threshold x).

Definition match_set_threshold (threshold : Z) (x : ai_index) : ai_index :=
  let t := if f32_lt threshold f32_zero then f32_zero else threshold in
  let t := if f32_lt f32_one t then f32_one else t in
  AiIndex (ai_entries x) t.

Definition match_get_threshold (x : ai_index) : Z := ai_threshold x.

(** [strncpy] into a buffer of [MAX_KEY_LEN] bytes, closed by a NUL. *)
Definition key_copy (key : bytes) : bytes := take (Z.to_nat (MAX_KEY_LEN - 1)) (cstr key).

(** [i] numbers the allocation. *)
Definition keep_add_vector_index (e : cenv) (i : nat) (x : ai_index) (key : bytes)
  (vector : list Z) : ai_index * Z :=
  if (length vector =? 0)%nat then (x, -1)
  else if MAX_VECTOR_INDEX <=? Z.of_nat (length (ai_entries x)) then (x, -1)
  else if alloc_ok e i (4 * Z.of_nat (length vector)) then
    (AiIndex (ai_entries x ++ [VectorEntry (key_copy key) vector]) (ai_threshold x), 0)
  else (x, -1).

(** ** The vector of a text *)

(** The hash of the text that seeds the vector when embedding is off. *)
Definition text_hash (text : bytes) : Z :=
  fold_left (fun h b => u32 (Z.lxor h (b2z b) * 16777619)) (cstr text) 2166136261.

(** The numerators, over 65536, of the components before scaling. *)
Fixpoint fake_components (dim : nat) (h : Z) : list Z :=
  match dim with
  | O => []
  | S dim =>
    let h := u32 (h * 1103515245 + 12345) in
    (Z.land (Z.shiftr h 8) 65535 - 32768) :: fake_components dim h
  end.

(** The floating-point part: the floats [l2_normalise] makes of the
    components, none when their norm is too small, and the similarity of two
    vectors. *)
Class AiOps := {
  l2_normalise : list Z -> option (list Z);
  ai_cosine_similarity : list Z -> list Z -> Z
}.

Section ai.
Context `{AiOps}.

(** [embed] is the answer of the service, none when the request or the
    decoding of its answer failed. *)
Definition ai_text_to_vector (use_embedding : bool) (embed : bytes -> option (list Z))
  (text : bytes) : option (list Z) :=
  if use_embedding then embed (cstr text)
  else l2_normalise (fake_components MATCH_VECTOR_DIM (text_hash text)).

Definition keep_build_index (e : cenv) (i : nat) (vector_of : bytes -> option (list Z))
  (x : ai_index) (key : bytes) : ai_index * Z :=
  match vector_of key with
  | None => (x, -1)
  | Some v => keep_add_vector_index e i x key v
  end.

(** The loop of [match_find_best_key]: the best key and its score so far. *)
Fixpoint find_best (q : list Z) (entries : list vector_entry) (best : option bytes * Z)
  : option bytes * Z :=
  match entries with
  | [] => best
  | en :: entries =>
    if negb (length (ve_vector en) =? MATCH_VECTOR_DIM)%nat then find_best q entries best
    else
      let score := ai_cosine_similarity q (ve_vector en) in
      if f32_lt score f32_zero then find_best q entries best
      else
        let best :=
          match best with
          | (None, _) => (Some (ve_key en), score)
          | (Some _, m) => if f32_lt m score then (Some (ve_key en), score) else best
          end in
        if f32_ge best.2 f32_09999 then best else find_best q entries best
  end.

(** The status, with the key and score of a success. *)
Definition match_find_best_key (vector_of : bytes -> option (list Z)) (x : ai_index)
  (question : bytes) : Z * option (bytes * Z) :=
  if (length (ai_entries x) =? 0)%nat then (1, None)
  else
    match vector_of question with
    | None => (-1, None)
    | Some q =>
      match find_best q (ai_entries x) (None, f32_m1) with
      | (None, _) => (1, None)
      | (Some k, m) => if f32_lt m (ai_threshold x) then (1, None) else (0, Some (k, m))
      end
    end.
End ai.

(** ** The search *)

Section search.
Context `{AiOps}.

(** An entry the search takes into account, with its score. *)
Definition candidate (q : list Z) (en : vector_entry) : option (bytes * Z) :=
  if (length (ve_vector en) =? MATCH_VECTOR_DIM)%nat then
    let score := ai_cosine_similarity q (ve_vector en) in
    if f32_lt score f32_zero then None else Some (ve_key en, score)
  else None.

(** Similarities that are numbers. *)
Definition scores_ok (q : list Z) (entries : list vector_entry) : Prop :=
  Forall (fun en => f32_nan (ai_cosine_similarity q (ve_vector en)) = false) entries.

Lemma f32_lt_spec a b :
  f32_nan a = false -> f32_nan b = false -> f32_lt a b = (f32_key a <? f32_key b).
Proof. unfold f32_lt. by intros -> ->. Qed.

Lemma f32_ge_spec a b :
  f32_nan a = false -> f32_nan b = false -> f32_ge a b = (f32_key b <=? f32_key a).
Proof. unfold f32_ge. by intros -> ->. Qed.

Lemma candidates_cons q en entries :
  omap (candidate q) (en :: entries) =
  if (length (ve_vector en) =? MATCH_VECTOR_DIM)%nat then
    if f32_lt (ai_cosine_similarity q (ve_vector en)) f32_zero then omap (candidate q) entries
    else (ve_key en, ai_cosine_similarity q (ve_vector en)) :: omap (candidate q) entries
  else omap (candidate q) entries.
Proof.
  simpl. unfold candidate at 1. destruct (_ =? _)%nat; [|done]. by destruct (f32_lt _ _).
Qed.

(** The search from a current best: the result is the current best or a
    candidate; it is at least as good as the current best; and unless it is
    a near-exact match it is at least as good as every candidate. *)
Lemma find_best_spec q entries k m :
  scores_ok q entries -> f32_nan m = false ->
  exists k' m', find_best q entries (Some k, m) = (Some k', m') /\ f32_nan m' = false /\
    f32_key m <= f32_key m' /\
    ((k', m') = (k, m) \/ (k', m') ∈ omap (candidate q) entries) /\
    (f32_key f32_09999 <= f32_key m' \/
     Forall (fun c => f32_key c.2 <= f32_key m') (omap (candidate q) entries)).
Proof.
  revert k m. induction entries as [|en entries IH]; intros k m Hs Hm.
  { exists k, m. split_and!; auto; lia. }
  apply Forall_cons in Hs as [Hen Hs]. rewrite candidates_cons. cbn [find_best]. cbv zeta.
  destruct (length (ve_vector en) =? MATCH_VECTOR_DIM)%nat; cbn [negb]; [|by apply IH].
  set (score := ai_cosine_similarity q (ve_vector en)) in *. rewrite !f32_lt_spec by done.
  destruct (Z.ltb_spec (f32_key score) (f32_key f32_zero)) as [_|_]; [by apply IH|].
  assert (Hstep : forall k1 m1, f32_nan m1 = false -> f32_key m <= f32_key m1 ->
    f32_key score <= f32_key m1 ->
    ((k1, m1) = (k, m) \/ (k1, m1) = (ve_key en, score)) ->
    exists k' m', (if f32_ge (k1, m1).2 f32_09999 then (Some k1, m1)
                   else find_best q entries (Some k1, m1)) = (Some k', m') /\
      f32_nan m' = false /\ f32_key m <= f32_key m' /\
      ((k', m') = (k, m) \/ (k', m') ∈ (ve_key en, score) :: omap (candidate q) entries) /\
      (f32_key f32_09999 <= f32_key m' \/
       Forall (fun c => f32_key c.2 <= f32_key m')
         ((ve_key en, score) :: omap (candidate q) entries))).
  { intros k1 m1 Hn1 Hle Hsc Hor. cbn [snd]. rewrite f32_ge_spec by done.
    destruct (Z.leb_spec (f32_key f32_09999) (f32_key m1)) as [Hhi|Hlo].
    - exists k1, m1. split_and!; [done..| |by left].
      destruct Hor as [->| ->]; [by left|right; by left].
    - destruct (IH k1 m1 Hs Hn1) as (k' & m' & -> & Hn' & Hle' & Hor' & Hmax).
      exists k', m'. split_and!; [done..|lia| |].
      + destruct Hor' as [->|Hin]; [|right; by right].
        destruct Hor as [->| ->]; [by left|right; by left].
      + destruct Hmax as [Hhi|Hmax]; [by left|right]. constructor; [simpl; lia|done]. }
  destruct (Z.ltb_spec (f32_key m) (f32_key score)) as [Hlt|Hge].
  - apply (Hstep (ve_key en) score); auto; lia.
  - apply (Hstep k m); auto; lia.
Qed.

Lemma find_best_start q entries :
  scores_ok q entries ->
  match find_best q entries (None, f32_m1) with
  | (None, _) => omap (candidate q) entries = []
  | (Some k, m) => f32_nan m = false /\ (k, m) ∈ omap (candidate q) entries /\
    (f32_key f32_09999 <= f32_key m \/
     Forall (fun c => f32_key c.2 <= f32_key m) (omap (candidate q) entries))
  end.
Proof.
  induction entries as [|en entries IH]; intros Hs; [done|].
  apply Forall_cons in Hs as [Hen Hs]. rewrite candidates_cons. cbn [find_best]. cbv zeta.
  destruct (length (ve_vector en) =? MATCH_VECTOR_DIM)%nat; cbn [negb]; [|by apply IH].
  set (score := ai_cosine_similarity q (ve_vector en)) in *. rewrite f32_lt_spec by done.
  destruct (Z.ltb_spec (f32_key score) (f32_key f32_zero)) as [_|_]; [by apply IH|].
  cbn [snd]. rewrite f32_ge_spec by done.
  destruct (Z.leb_spec (f32_key f32_09999) (f32_key score)) as [Hhi|Hlo].
  - split_and!; [done|by left|by left].
  - destruct (find_best_spec q entries (ve_key en) score Hs Hen)
      as (k' & m' & -> & Hn' & Hle & Hor & Hmax).
    split_and!; [done| |].
    + destruct Hor as [->|Hin]; [by left|by right].
    + destruct Hmax as [?|?]; [by left|right; by constructor].
Qed.
End search.

(** C34.  MATCH finds the best key: when it answers with a key, the key's
    vector is in the index, its score reaches the threshold, and no other key
    scores more unless the match is near-exact; when it answers that there is
    none, every key is below the threshold. *)
Theorem match_find_best_key_best `{AiOps} vector_of x question q :
  vector_of question = Some q -> scores_ok q (ai_entries x) ->
  f32_nan (ai_threshold x) = false -> f32_key (ai_threshold x) <= f32_key f32_09999 ->
  match match_find_best_key vector_of x question with
  | (0, Some (k, m)) =>
    (k, m) ∈ omap (candidate q) (ai_entries x) /\ f32_key (ai_threshold x) <= f32_key m /\
    (f32_key f32_09999 <= f32_key m \/
     Forall (fun c => f32_key c.2 <= f32_key m) (omap (candidate q) (ai_entries x)))
  | (1, None) =>
    Forall (fun c => f32_key c.2 < f32_key (ai_threshold x)) (omap (candidate q) (ai_entries x))
  | _ => False
  end.
Proof.
  intros Hv Hs Hn Ht. unfold match_find_best_key. rewrite Hv.
  destruct (ai_entries x) as [|en entries] eqn:E; [constructor|]. rewrite <- E in *.
  replace (length (ai_entries x) =? 0)%nat with false by (by rewrite E).
  pose proof (find_best_start q (ai_entries x) Hs) as Hb.
  destruct (find_best q (ai_entries x) (None, f32_m1)) as [[k|] m]; [|by rewrite Hb].
  destruct Hb as (Hnm & Hin & Hmax). rewrite f32_lt_spec by done.
  destruct (Z.ltb_spec (f32_key m) (f32_key (ai_threshold x))) as [Hlt|Hge]; [|done].
  destruct Hmax as [?|Hmax]; [lia|]. eapply Forall_impl; [exact Hmax|]. simpl. lia.
Qed.

(** A similarity for the examples: 1 for equal vectors and 0.5 otherwise. *)
#[local] Instance sample_ai : AiOps := {
  l2_normalise := Some;
  ai_cosine_similarity a b := if bool_decide (a = b) then f32_one else 1056964608
}.

Definition sample_vector (text : bytes) : option (list Z) :=
  ai_text_to_vector false (fun _ => None) text.

Definition sample_env : cenv := CEnv true 0 (fun _ _ => true) 1.

Definition sample_index : ai_index :=
  fold_left (fun x k => (keep_build_index sample_env 0 sample_vector x (str k)).1)
    ["what is a map"; "what is a tree"]%string (AiIndex [] DEFAULT_MATCH_THRESHOLD).

Lemma match_find_best_key_best_witness :
  match match_find_best_key sample_vector sample_index (str "what is a tree") with
  | (0, Some (k, m)) =>
    (k, m) ∈ omap (candidate (default [] (sample_vector (str "what is a tree"))))
      (ai_entries sample_index) /\
    f32_key (ai_threshold sample_index) <= f32_key m /\
    (f32_key f32_09999 <= f32_key m \/
     Forall (fun c => f32_key c.2 <= f32_key m)
       (omap (candidate (default [] (sample_vector (str "what is a tree"))))
          (ai_entries sample_index)))
  | (1, None) =>
    Forall (fun c => f32_key c.2 < f32_key (ai_threshold sample_index))
      (omap (candidate (default [] (sample_vector (str "what is a tree"))))
         (ai_entries sample_index))
  | _ => False
  end.
Proof.
  apply (match_find_best_key_best sample_vector sample_index (str "what is a tree")).
  - by vm_compute.
  - repeat constructor; by vm_compute.
  - by vm_compute.
  - by vm_compute.
Defined.

Example match_sample :
  match_find_best_key sample_vector sample_index (str "what is a tree")
    = (0, Some (str "what is a tree", f32_one)) /\
  match_find_best_key sample_vector sample_index (str "who") = (1, None).
Proof. vm_compute. done. Qed.
