(* ===== verification/AiFloat.v ===== *)
(** * The floating-point part of the semantic index (ai_chat.c)

    [cosine_avx2], the scalar loop beside it and the scaling of a vector to
    length 1, on the Standard Library's specification of IEEE 754 arithmetic:
    a [float] has 24 bits of precision and a [double] 53, every operation
    rounds to the nearest, ties to even.  A compiler may contract the scalar
    products and sums into fused operations; the products of two floats are
    exact in a [double], so that changes no result.  The file discharges the
    interface [AiOps] of Ai.v and proves that the similarity does not depend
    on the order of the two vectors. *)

From Stdlib Require Import SpecFloat.
From S2P Require Import Prelude KvData Ai.

Open Scope Z_scope.

(** ** Floats and their bits *)

Abbreviation f32_prec := 24.
Abbreviation f32_emax := 128.
Abbreviation f64_prec := 53.
Abbreviation f64_emax := 1024.

Definition float_of_bits (b : Z) : spec_float :=
  let s := Z.testbit b 31 in
  let e := Z.land (Z.shiftr b 23) 255 in
  let m := Z.land b (2 ^ 23 - 1) in
  if e =? 255 then (if m =? 0 then S754_infinity s else S754_nan)
  else if e =? 0 then
    match m with
    | Zpos p => S754_finite s p (-149)
    | _ => S754_zero s
    end
  else S754_finite s (Z.to_pos (m + 2 ^ 23)) (e - 150).

(** The processor's NaN stands for all of them: no code looks at the others'
    bits. *)
Definition bits_of_float (x : spec_float) : Z :=
  let sign (s : bool) := if s then 2 ^ 31 else 0 in
  match x with
  | S754_zero s => sign s
  | S754_infinity s => sign s + Z.shiftl 255 23
  | S754_nan => 2 ^ 31 + Z.shiftl 511 22
  | S754_finite s m e =>
    sign s + (if 2 ^ 23 <=? Zpos m then Z.shiftl (e + 150) 23 + (Zpos m - 2 ^ 23) else Zpos m)
  end.

(** Conversions. *)
Definition to_double (x : spec_float) : spec_float :=
  match x with
  | S754_finite s m e => binary_round f64_prec f64_emax s m e
  | _ => x
  end.

Definition to_float (x : spec_float) : spec_float :=
  match x with
  | S754_finite s m e => binary_round f32_prec f32_emax s m e
  | _ => x
  end.

Definition add64 : spec_float -> spec_float -> spec_float := SFadd f64_prec f64_emax.
Definition mul64 : spec_float -> spec_float -> spec_float := SFmul f64_prec f64_emax.
Definition div64 : spec_float -> spec_float -> spec_float := SFdiv f64_prec f64_emax.
Definition sqrt64 : spec_float -> spec_float := SFsqrt f64_prec f64_emax.
Definition div32 : spec_float -> spec_float -> spec_float := SFdiv f32_prec f32_emax.

(** The exact product, which is not rounded. *)
Definition exact_mul (x y : spec_float) : spec_float :=
  match x, y with
  | S754_finite sx mx ex, S754_finite sy my ey => S754_finite (xorb sx sy) (mx * my) (ex + ey)
  | _, _ => SFmul f32_prec f32_emax x y
  end.

(** One lane of [_mm256_fmadd_ps]: the sum of the exact product and [z],
    rounded once. *)
Definition fma32 (x y z : spec_float) : spec_float := SFadd f32_prec f32_emax (exact_mul x y) z.

Definition zero : spec_float := S754_zero false.

(** The double nearest to 1e-12. *)
Definition tiny : spec_float := S754_finite false 4951760157141521 (-92).

(** ** The similarity *)

(** The three sums of a lane. *)
Abbreviation sums := (spec_float * spec_float * spec_float)%type.

Definition lane_step (s : sums) (ab : spec_float * spec_float) : sums :=
  let '(dot, na, nb) := s in
  (fma32 ab.1 ab.2 dot, fma32 ab.1 ab.1 na, fma32 ab.2 ab.2 nb).

(** The vectors in groups of eight; the rest does not fill one. *)
Fixpoint groups_of_8 (n : nat) (l : list (spec_float * spec_float))
  : list (list (spec_float * spec_float)) * list (spec_float * spec_float) :=
  match n with
  | O => ([], l)
  | S n =>
    if (8 <=? length l)%nat then
      let '(gs, rest) := groups_of_8 n (drop 8 l) in (take 8 l :: gs, rest)
    else ([], l)
  end.

Definition add_sums (s : sums) (lane : sums) : sums :=
  let '(dot, na, nb) := s in
  (add64 dot (to_double lane.1.1), add64 na (to_double lane.1.2), add64 nb (to_double lane.2)).

(** A turn of the scalar loops. *)
Definition scalar_step (s : sums) (ab : spec_float * spec_float) : sums :=
  let '(dot, na, nb) := s in
  let a := to_double ab.1 in
  let b := to_double ab.2 in
  (add64 dot (mul64 a b), add64 na (mul64 a a), add64 nb (mul64 b b)).

(** The quotient at the end of both. *)
Definition quotient (s : sums) : spec_float :=
  let '(dot, na, nb) := s in
  if SFltb na tiny || SFltb nb tiny then S754_finite true 8388608 (-23)
  else to_float (div64 dot (mul64 (sqrt64 na) (sqrt64 nb))).

Definition cosine_avx2 (l : list (spec_float * spec_float)) : spec_float :=
  let '(gs, rest) := groups_of_8 (length l) l in
  let lanes := fold_left (fun ls g => zip_with lane_step ls g) gs (replicate 8 (zero, zero, zero)) in
  quotient (fold_left scalar_step rest (fold_left add_sums lanes (zero, zero, zero))).

Definition cosine_scalar (l : list (spec_float * spec_float)) : spec_float :=
  quotient (fold_left scalar_step l (zero, zero, zero)).

(** [ai_cosine_similarity]; [avx2] is [cpu_supports_avx2]. *)
Definition cosine_similarity (avx2 : bool) (a b : list Z) : Z :=
  let l := zip (float_of_bits <$> a) (float_of_bits <$> b) in
  match l with
  | [] => f32_m1
  | _ => bits_of_float (if avx2 then cosine_avx2 l else cosine_scalar l)
  end.

(** ** The scaling *)

(** A component before scaling: the [float] of [n] over 65536. *)
Definition component (n : Z) : spec_float := binary_normalize f32_prec f32_emax n (-16) false.

(** The second half of the branch without the service. *)
Definition normalise (l : list Z) : option (list Z) :=
  let v := component <$> l in
  let norm := sqrt64 (fold_left (fun s x => add64 s (mul64 (to_double x) (to_double x))) v zero) in
  if SFltb norm tiny then None
  else Some ((fun x => bits_of_float (div32 x (to_float norm))) <$> v).

#[export] Instance float_ops (avx2 : bool) : AiOps := {
  l2_normalise := normalise;
  ai_cosine_similarity := cosine_similarity avx2
}.

(** ** The order of the vectors *)

Lemma SFmul_comm prec emax x y : SFmul prec emax x y = SFmul prec emax y x.
Proof.
  destruct x as [sx|sx| |sx mx ex], y as [sy|sy| |sy my ey]; try done; cbn [SFmul];
    rewrite ?(xorb_comm sx); try done. by rewrite (Pos.mul_comm mx), (Z.add_comm ex).
Qed.

Lemma exact_mul_comm x y : exact_mul x y = exact_mul y x.
Proof.
  destruct x as [sx|sx| |sx mx ex], y as [sy|sy| |sy my ey]; try apply SFmul_comm.
  cbn [exact_mul]. by rewrite (xorb_comm sx), (Pos.mul_comm mx), (Z.add_comm ex).
Qed.

(** The sums with the norms exchanged, and the pairs. *)
Definition swap_sums (s : sums) : sums := (s.1.1, s.2, s.1.2).
Definition swaps (l : list (spec_float * spec_float)) : list (spec_float * spec_float) :=
  (fun ab => (ab.2, ab.1)) <$> l.

Lemma lane_step_swap s ab : lane_step (swap_sums s) (ab.2, ab.1) = swap_sums (lane_step s ab).
Proof.
  destruct s as [[dot na] nb]. unfold lane_step, swap_sums, fma32. cbn [fst snd].
  by rewrite (exact_mul_comm ab.2 ab.1).
Qed.

Lemma scalar_step_swap s ab : scalar_step (swap_sums s) (ab.2, ab.1) = swap_sums (scalar_step s ab).
Proof.
  destruct s as [[dot na] nb]. unfold scalar_step, swap_sums, mul64. cbn [fst snd].
  by rewrite (SFmul_comm _ _ (to_double ab.2) (to_double ab.1)).
Qed.

Lemma scalar_fold_swap l s :
  fold_left scalar_step (swaps l) (swap_sums s) = swap_sums (fold_left scalar_step l s).
Proof.
  revert s. induction l as [|ab l IH]; intros s; [done|].
  cbn [swaps fmap list_fmap fold_left]. by rewrite scalar_step_swap, IH.
Qed.

Lemma add_sums_swap (ls : list sums) s :
  fold_left add_sums (swap_sums <$> ls) (swap_sums s) = swap_sums (fold_left add_sums ls s).
Proof.
  revert s. induction ls as [|x ls IH]; intros s; [done|]. cbn [fmap list_fmap fold_left].
  rewrite <- IH. f_equal. by destruct s as [[dot na] nb], x as [[? ?] ?].
Qed.

Lemma lanes_swap (ls : list sums) g :
  zip_with lane_step (swap_sums <$> ls) (swaps g) = swap_sums <$> zip_with lane_step ls g.
Proof.
  revert g. induction ls as [|s ls IH]; intros [|ab g]; try done.
  cbn [swaps fmap list_fmap zip_with]. by rewrite lane_step_swap, <- IH.
Qed.

Lemma lanes_fold_swap (gs : list (list (spec_float * spec_float))) (ls : list sums) :
  fold_left (fun ls g => zip_with lane_step ls g) (swaps <$> gs) (swap_sums <$> ls)
  = swap_sums <$> fold_left (fun ls g => zip_with lane_step ls g) gs ls.
Proof.
  revert ls. induction gs as [|g gs IH]; intros ls; [done|]. cbn [fmap list_fmap fold_left].
  by rewrite <- IH, <- lanes_swap.
Qed.

Lemma swaps_length l : length (swaps l) = length l.
Proof. apply length_fmap. Qed.

Lemma swaps_drop n l : drop n (swaps l) = swaps (drop n l).
Proof. symmetry. apply fmap_drop. Qed.

Lemma swaps_take n l : take n (swaps l) = swaps (take n l).
Proof. symmetry. apply fmap_take. Qed.

Lemma groups_swap n l :
  groups_of_8 n (swaps l) = (swaps <$> (groups_of_8 n l).1, swaps (groups_of_8 n l).2).
Proof.
  revert l. induction n as [|n IH]; intros l; [done|]. cbn [groups_of_8]. rewrite swaps_length.
  destruct (8 <=? length l)%nat; [|done]. rewrite swaps_drop, swaps_take, IH.
  by destruct (groups_of_8 n (drop 8 l)).
Qed.

Lemma quotient_swap s : quotient (swap_sums s) = quotient s.
Proof.
  destruct s as [[dot na] nb]. unfold quotient, swap_sums, mul64. cbn [fst snd].
  by rewrite (orb_comm (SFltb nb tiny)), (SFmul_comm _ _ (sqrt64 nb)).
Qed.

Lemma zip_swap (a b : list spec_float) : zip b a = swaps (zip a b).
Proof. revert b. induction a as [|x a IH]; intros [|y b]; try done. cbn. by rewrite IH. Qed.

(** The similarity of two vectors does not depend on their order, to the last
    bit, on either kind of processor. *)
Theorem cosine_symmetric avx2 a b : cosine_similarity avx2 a b = cosine_similarity avx2 b a.
Proof.
  unfold cosine_similarity. rewrite (zip_swap (float_of_bits <$> a)).
  destruct (zip (float_of_bits <$> a) (float_of_bits <$> b)) as [|ab l]; [done|].
  remember (ab :: l) as l' eqn:El. assert (Hne : exists x t, swaps l' = x :: t) by (subst; by do 2 eexists).
  destruct Hne as (x & t & Hne). rewrite Hne. rewrite <- Hne. clear Hne x t El. f_equal. destruct avx2.
  - unfold cosine_avx2. rewrite swaps_length, groups_swap. destruct (groups_of_8 _ l') as [gs rest].
    cbn [fst snd].
    rewrite <- quotient_swap, <- scalar_fold_swap, <- add_sums_swap, <- lanes_fold_swap. done.
  - unfold cosine_scalar. by rewrite <- quotient_swap, <- scalar_fold_swap.
Qed.

(** A text without embedding has a vector of the dimension of the index. *)
Lemma normalise_length l v : normalise l = Some v -> length v = length l.
Proof.
  unfold normalise. cbv zeta. destruct (SFltb _ _); [done|]. intros [= <-].
  by rewrite !length_fmap.
Qed.

(** ** Examples *)

Definition text_vector (t : bytes) : list Z :=
  default [] (@ai_text_to_vector (float_ops true) false (fun _ => None) t).

(** A text is as similar to itself as can be, whatever the processor. *)
Example same_text :
  cosine_similarity true (text_vector (str "hello")) (text_vector (str "hello")) = f32_one /\
  cosine_similarity false (text_vector (str "hello")) (text_vector (str "hello")) = f32_one.
Proof. vm_compute. split; reflexivity. Qed.

(** KEEP and MATCH with these vectors: the text is found again, another is
    not. *)
Example keep_match :
  let vector_of := @ai_text_to_vector (float_ops true) false (fun _ => None) in
  let x := (keep_build_index (CEnv true 0 (fun _ _ => true) 1) 0 vector_of
              (AiIndex [] DEFAULT_MATCH_THRESHOLD) (str "hello")).1 in
  @match_find_best_key (float_ops true) vector_of x (str "hello") = (0, Some (str "hello", f32_one)) /\
  @match_find_best_key (float_ops true) vector_of x (str "hella") = (1, None).
Proof. vm_compute. split; reflexivity. Qed.
