(* ===== verification/Embed.v ===== *)
(** * The embedding service (ai_chat.c)

    With embedding on, the vector of a text is asked for over HTTP: the
    request and the answer are JSON texts.  libcurl and cJSON are not part of
    the program: what a transfer delivers is an argument, and the JSON
    library is an interface.  The file
    proves that a vector is only ever what a complete answer holds, whatever
    pieces it arrives in, and that every vector of the index has the index's
    dimension. *)

From Stdlib Require Import SpecFloat.
From S2P Require Import Prelude KvData Ai AiFloat.

Open Scope Z_scope.

(** ** The JSON library *)

(** A parsed value; [cJSON_Parse] reads a C string; [cJSON_object_text] is the
    text of the object whose only member is [text], none when one of the three
    calls that make it fails. *)
Class CJson := {
  json : Type;
  cJSON_Parse : bytes -> option json;
  cJSON_GetObjectItem : json -> bytes -> option json;
  cJSON_IsNumber : json -> bool;
  cJSON_IsArray : json -> bool;
  valueint : json -> Z;
  valuedouble : json -> spec_float;
  cJSON_GetArraySize : json -> Z;
  cJSON_GetArrayItem : json -> Z -> option json;
  cJSON_object_text : bytes -> option bytes
}.

(** ** The answer's body *)

(** [http_buffer_t]: the bytes up to the NUL, none while [data] is NULL. *)
Abbreviation http_buffer := (option bytes).

(** [embedding_write_callback]: what it returns, and the buffer; [room] is the
    answer of [realloc] to a size. *)
Definition embedding_write_callback (room : Z -> bool) (contents : bytes) (buffer : http_buffer)
  : Z * http_buffer :=
  let total := Z.of_nat (length contents) in
  let old := default [] buffer in
  if room (Z.of_nat (length old) + total + 1) then (total, Some (old ++ contents))
  else (0, buffer).

(** What libcurl documents of a transfer: the pieces of the body go to the
    callback until it returns another number than the piece's length, which
    breaks the transfer; then the result is its own. *)
Fixpoint curl_deliver (room : nat -> Z -> bool) (i : nat) (pieces : list bytes) (buffer : http_buffer)
  : http_buffer * bool :=
  match pieces with
  | [] => (buffer, true)
  | p :: pieces =>
    let '(n, buffer) := embedding_write_callback (room i) p buffer in
    if n =? Z.of_nat (length p) then curl_deliver room (S i) pieces buffer else (buffer, false)
  end.

(** The answers of libcurl: whether a handle is given, the pieces of the body
    of the response to a request, whether the transfer ends well, the status
    of the response; and those of [realloc]. *)
Record curl_answers := CurlAnswers {
  cu_init : bool;
  cu_pieces : bytes -> list bytes;
  cu_ok : bytes -> bool;
  cu_code : bytes -> Z;
  cu_room : nat -> Z -> bool
}.

Section embed.
Context `{CJson}.

(** ** Decoding *)

(** The loop over the items from the [i]-th on. *)
Fixpoint embedding_items (embedding : json) (i n : nat) : option (list Z) :=
  match n with
  | O => Some []
  | S n =>
    match cJSON_GetArrayItem embedding (Z.of_nat i) with
    | Some item =>
      if cJSON_IsNumber item then
        cons (bits_of_float (to_float (valuedouble item))) <$> embedding_items embedding (S i) n
      else None
    | None => None
    end
  end.

(** From [cJSON_Parse] on. *)
Definition decode_embedding (data : bytes) (dim : nat) : option (list Z) :=
  match cJSON_Parse (cstr data) with
  | None => None
  | Some root =>
    match cJSON_GetObjectItem root (str "dimension") with
    | None => None
    | Some dimension =>
      if negb (cJSON_IsNumber dimension) then None
      else if negb (valueint dimension =? Z.of_nat dim) then None
      else
        match cJSON_GetObjectItem root (str "embedding") with
        | None => None
        | Some embedding =>
          if negb (cJSON_IsArray embedding) then None
          else if negb (cJSON_GetArraySize embedding =? Z.of_nat dim) then None
          else embedding_items embedding 0 dim
        end
    end
  end.

(** ** The request *)

(** The branch of [ai_text_to_vector] with the service; [g_curl] tells whether
    a handle is kept from an earlier call. *)
Definition embed_text (u : curl_answers) (g_curl : bool) (text : bytes) (dim : nat)
  : option (list Z) * bool :=
  if negb (g_curl || cu_init u) then (None, false)
  else
    match cJSON_object_text text with
    | None => (None, true)
    | Some request_body =>
      let '(buffer, delivered) := curl_deliver (cu_room u) 0 (cu_pieces u request_body) None in
      if negb (delivered && cu_ok u request_body) then (None, true)
      else if (cu_code u request_body <? 200) || (300 <=? cu_code u request_body) then (None, true)
      else
        match buffer with
        | None => (None, true)
        | Some data => (decode_embedding data dim, true)
        end
    end.

(** The service as the argument Ai.v asks for. *)
Definition embed_service (u : curl_answers) (g_curl : bool) (text : bytes) : option (list Z) :=
  (embed_text u g_curl text MATCH_VECTOR_DIM).1.

(** ** Pieces *)

(** When memory lasts, the buffer holds the pieces, in order. *)
Lemma curl_deliver_all room i pieces buffer :
  (forall j n, room j n = true) ->
  curl_deliver room i pieces buffer
  = (match pieces with [] => buffer | _ => Some (default [] buffer ++ concat pieces) end, true).
Proof.
  intros Hroom. revert i buffer. induction pieces as [|p pieces IH]; intros i buffer; [done|].
  cbn [curl_deliver]. unfold embedding_write_callback. rewrite Hroom, Z.eqb_refl, IH.
  destruct pieces as [|q pieces]; cbn [concat default]; [by rewrite app_nil_r|].
  unfold id. by rewrite <- app_assoc.
Qed.

(** Whatever memory does, what a completed transfer leaves is all of the
    pieces: a piece that does not fit breaks the transfer unless it is
    empty. *)
Lemma curl_deliver_complete room i pieces buffer buffer' :
  curl_deliver room i pieces buffer = (buffer', true) ->
  default [] buffer' = default [] buffer ++ concat pieces.
Proof.
  revert i buffer. induction pieces as [|p pieces IH]; intros i buffer; cbn [curl_deliver concat].
  { intros [= <-]. by rewrite app_nil_r. }
  unfold embedding_write_callback.
  destruct (room i _) eqn:Hroom; cbn [fst snd].
  - rewrite Z.eqb_refl. intros H0%IH. rewrite H0. cbn [default]. unfold id. by rewrite app_assoc.
  - destruct (Z.eqb_spec 0 (Z.of_nat (length p))) as [Hp|Hp]; [|done]. intros H0%IH.
    destruct p; [done|simpl in Hp; lia].
Qed.

(** ** Results *)

Lemma embedding_items_sound a i n v :
  embedding_items a i n = Some v ->
  length v = n /\
  forall k x, v !! k = Some x -> exists item, cJSON_GetArrayItem a (Z.of_nat (i + k)) = Some item /\
    cJSON_IsNumber item = true /\ x = bits_of_float (to_float (valuedouble item)).
Proof.
  revert i v. induction n as [|n IH]; intros i v; cbn [embedding_items]; [by intros [= <-]|].
  destruct (cJSON_GetArrayItem a (Z.of_nat i)) as [item|] eqn:Hi; [|done].
  destruct (cJSON_IsNumber item) eqn:Hn; [|done].
  destruct (embedding_items a (S i) n) as [w|] eqn:Hw; [|done]. intros [= <-].
  destruct (IH _ _ Hw) as [Hlen Hx]. split; [by cbn; rewrite Hlen|]. intros [|k] x; cbn [lookup list_lookup].
  - intros [= <-]. exists item. by rewrite Nat.add_0_r.
  - intros Hk. destruct (Hx k x Hk) as (it & Hit & Hrest). exists it. split; [|done].
    by rewrite <- Hit; do 2 f_equal; lia.
Qed.

Lemma decode_embedding_length data dim v : decode_embedding data dim = Some v -> length v = dim.
Proof.
  unfold decode_embedding. intros Hd. repeat case_match; try done.
  by apply embedding_items_sound in Hd as [Hl _].
Qed.

(** A vector is only made of a complete answer: the transfer was not broken,
    its status is a success, and the vector is what its body decodes to,
    of the dimension asked for, whatever pieces the body came in. *)
Theorem embed_only_complete u g_curl text dim v :
  (embed_text u g_curl text dim).1 = Some v ->
  exists body, cJSON_object_text text = Some body /\ cu_ok u body = true /\
    200 <= cu_code u body < 300 /\
    decode_embedding (concat (cu_pieces u body)) dim = Some v /\ length v = dim.
Proof.
  unfold embed_text. destruct (negb (g_curl || cu_init u)); [done|].
  destruct (cJSON_object_text text) as [body|]; [|done].
  destruct (curl_deliver _ _ _ _) as [buffer delivered] eqn:Hd.
  destruct delivered; [|done]. destruct (cu_ok u body) eqn:Hok; [|done]. cbn [andb negb].
  destruct (Z.ltb_spec (cu_code u body) 200) as [|Hlo]; [done|].
  destruct (Z.leb_spec 300 (cu_code u body)) as [|Hhi]; [done|]. cbn [orb].
  destruct buffer as [data|]; [|done]. cbn [fst]. intros Hv. exists body.
  apply curl_deliver_complete in Hd. cbn [default] in Hd. unfold id in Hd. cbn [app] in Hd. subst data.
  split_and!; try done. by eapply decode_embedding_length.
Qed.

(** How the network cuts an answer does not change the vector, as long as
    memory lasts and the answer is not empty. *)
Theorem embed_pieces_irrelevant u pieces' g_curl text dim :
  (forall j n, cu_room u j n = true) ->
  (forall body, concat (pieces' body) = concat (cu_pieces u body)) ->
  (forall body, concat (cu_pieces u body) <> []) ->
  embed_text (CurlAnswers (cu_init u) pieces' (cu_ok u) (cu_code u) (cu_room u)) g_curl text dim
  = embed_text u g_curl text dim.
Proof.
  intros Hroom Hcat Hne. unfold embed_text. cbn [cu_init cu_pieces cu_ok cu_code cu_room].
  destruct (negb (g_curl || cu_init u)); [done|].
  destruct (cJSON_object_text text) as [body|]; [|done].
  rewrite !curl_deliver_all by done. specialize (Hcat body). specialize (Hne body).
  destruct (pieces' body) as [|p ps], (cu_pieces u body) as [|q qs]; try done.
  by rewrite Hcat.
Qed.

(** ** The index *)

Context `{AiOps}.

Definition dims_ok (x : ai_index) : Prop :=
  Forall (fun en => length (ve_vector en) = MATCH_VECTOR_DIM) (ai_entries x).

(** Every vector that KEEP stores has the dimension of the index, with the
    service as without it, so MATCH compares the question with all of them;
    [normalise_length] is the hypothesis for the floats of the program. *)
Theorem keep_dims_ok e i u g_curl use x key :
  (forall l v, l2_normalise l = Some v -> length v = length l) -> dims_ok x ->
  dims_ok (keep_build_index e i (ai_text_to_vector use (embed_service u g_curl)) x key).1.
Proof.
  intros Hl2 Hx. unfold keep_build_index.
  destruct (ai_text_to_vector use (embed_service u g_curl) key) as [v|] eqn:Hv; [|done].
  assert (Hlen : length v = MATCH_VECTOR_DIM).
  { unfold ai_text_to_vector in Hv. destruct use.
    - unfold embed_service in Hv. destruct (embed_only_complete _ _ _ _ _ Hv) as (_ & _ & _ & _ & _ & Hl).
      exact Hl.
    - apply Hl2 in Hv as ->. generalize (text_hash key). induction MATCH_VECTOR_DIM as [|n IH]; [done|].
      intros h. cbn [fake_components length]. by rewrite IH. }
  unfold keep_add_vector_index. repeat case_match; try done. cbn [fst]. unfold dims_ok. cbn [ai_entries].
  apply Forall_app_2; [done|]. by repeat constructor.
Qed.
End embed.


(** ** Examples *)

(** A JSON library that knows one text, with an array of two numbers. *)
Inductive small_json := SNum (z : Z) | SArray (l : list Z) | SObject (dim : Z) (l : list Z).

Definition small_text : bytes := str "{...}".

#[local] Instance small_cjson : CJson := {
  json := small_json;
  cJSON_Parse t := if bool_decide (t = small_text) then Some (SObject 2 [1; -3]) else None;
  cJSON_GetObjectItem j name :=
    match j with
    | SObject d l => if bool_decide (name = str "dimension") then Some (SNum d)
                     else if bool_decide (name = str "embedding") then Some (SArray l) else None
    | _ => None
    end;
  cJSON_IsNumber j := match j with SNum _ => true | _ => false end;
  cJSON_IsArray j := match j with SArray _ => true | _ => false end;
  valueint j := match j with SNum z => z | _ => 0 end;
  valuedouble j := match j with SNum z => binary_normalize 53 1024 z 0 false | _ => S754_zero false end;
  cJSON_GetArraySize j := match j with SArray l => Z.of_nat (length l) | _ => 0 end;
  cJSON_GetArrayItem j i := match j with SArray l => SNum <$> l !! Z.to_nat i | _ => None end;
  cJSON_object_text := Some
}.

Definition answers (pieces : list bytes) (code : Z) (room : nat -> Z -> bool) : curl_answers :=
  CurlAnswers true (fun _ => pieces) (fun _ => true) (fun _ => code) room.

(** 1 and -3 as floats, from an answer in two pieces. *)
Example two_pieces :
  embed_text (answers [str "{.."; str ".}"] 200 (fun _ _ => true)) false (str "q") 2
  = (Some [1065353216; 3225419776], true).
Proof. vm_compute. reflexivity. Qed.

(** Another dimension, another status, no memory for the second piece. *)
Example other_dimension :
  (embed_text (answers [small_text] 200 (fun _ _ => true)) false (str "q") 3).1 = None.
Proof. vm_compute. reflexivity. Qed.

Example other_status :
  (embed_text (answers [small_text] 500 (fun _ _ => true)) false (str "q") 2).1 = None.
Proof. vm_compute. reflexivity. Qed.

Example no_room :
  (embed_text (answers [str "{.."; str ".}"] 200 (fun i _ => (i =? 0)%nat)) false (str "q") 2).1 = None.
Proof. vm_compute. reflexivity. Qed.
