(* ===== verification/Commands.v ===== *)
(** * The command handlers (kvstore.c)

    Each [cmd_*] handler of kvstore.c is a function from the server's state
    and a parsed request to the new state and the reply.  [UB] is the outcome
    of a request that makes the handler read outside the receive buffer or
    overflow a signed integer; an argument whose announced length is negative
    becomes a [size_t] larger than any object, and the model stops there.  The
    numbers given to [call] tell the calls a handler makes apart. *)

From S2P Require Import Prelude KvData Engine Config Resp Repl ExpireQueue Store Ai.
From S2P Require Import ArrayEngine HashEngine RbTree SkipList ZSet.

Open Scope Z_scope.
Open Scope kvs_scope.

(** ** The state of the server *)

(** The engines, the command queue of the expiry thread, the replication
    state, [g_save_pid], the engines as the child of the last SAVE sees them,
    the semantic index, and whether [g_rdma_ctx] is set. *)
Record server := Server {
  sv_eng : engines;
  sv_cmdq : expire_queue;
  sv_repl : repl;
  sv_save_pid : Z;
  sv_child : option engines;
  sv_ai : ai_index;
  sv_rdma_ctx : bool
}.

Definition with_eng (x : engines) (s : server) : server :=
  Server x (sv_cmdq s) (sv_repl s) (sv_save_pid s) (sv_child s) (sv_ai s) (sv_rdma_ctx s).
Definition with_cmdq (x : expire_queue) (s : server) : server :=
  Server (sv_eng s) x (sv_repl s) (sv_save_pid s) (sv_child s) (sv_ai s) (sv_rdma_ctx s).
Definition with_repl (x : repl) (s : server) : server :=
  Server (sv_eng s) (sv_cmdq s) x (sv_save_pid s) (sv_child s) (sv_ai s) (sv_rdma_ctx s).
Definition with_save (pid : Z) (child : option engines) (s : server) : server :=
  Server (sv_eng s) (sv_cmdq s) (sv_repl s) pid child (sv_ai s) (sv_rdma_ctx s).
Definition with_ai (x : ai_index) (s : server) : server :=
  Server (sv_eng s) (sv_cmdq s) (sv_repl s) (sv_save_pid s) (sv_child s) x (sv_rdma_ctx s).
Definition with_rdma_ctx (x : bool) (s : server) : server :=
  Server (sv_eng s) (sv_cmdq s) (sv_repl s) (sv_save_pid s) (sv_child s) (sv_ai s) x.

(** A handler; the reply it is given has the status [KVS_RESP_ERROR] and no
    body. *)
Abbreviation handler := (cmdenv -> server -> resp_request -> res (server * resp_reply)).

Definition status_reply (st : kvs_status) : resp_reply := RespReply st None.

Definition done (s : server) (st : kvs_status) : res (server * resp_reply) :=
  Ok (s, status_reply st).

(** ** Arguments *)

(** [argv[i]] *)
Definition argn (req : resp_request) (i : nat) : res arg :=
  match req_argv req !! i with Some a => Ok a | None => UB end.

(** [kv_data_t d = {argv[i], (size_t)argv_len[i]}], about to be read. *)
Definition arg_data (req : resp_request) (i : nat) : res kv_data :=
  let* a := argn req i in
  if (0 <=? arg_len a) && (arg_len a <=? Z.of_nat (length (arg_ptr a)))
  then Ok (kd_of (arg_bytes a)) else UB.

(** [get_current_ms() + v * unit] for a positive [v], and 0 otherwise. *)
Definition ttl_from_now (now v unit : Z) : res Z :=
  if 0 <? v then let* d := i64_res (v * unit) in i64_res (now + d) else Ok 0.

(** [parse_ttl] *)
Definition parse_ttl (now : Z) (req : resp_request) : res Z :=
  if req_argc req <? 4 then Ok 0
  else
    let* a3 := argn req 3 in
    let plain :=
      let* val := strtol (arg_ptr a3) in
      if val <? 1000000000 then ttl_from_now now val 1000 else Ok val in
    if 5 <=? req_argc req then
      let* a4 := argn req 4 in
      if cmd_is (str "EX") (arg_ptr a3) (arg_len a3) then
        let* sec := strtol (arg_ptr a4) in ttl_from_now now sec 1000
      else if cmd_is (str "PX") (arg_ptr a3) (arg_len a3) then
        let* ms := strtol (arg_ptr a4) in ttl_from_now now ms 1
      else plain
    else plain.

(** [kvs_set_reply_body]; [e] is the environment of its allocation. *)
Definition kvs_set_reply_body (e : cenv) (result : option kv_data) : resp_reply :=
  match result with
  | Some d =>
    match kd_data d with
    | Some (b :: l) =>
      if alloc_ok e 0 (u64 (kd_len d + 1)) then RespReply KVS_RESP_GET_OK (Some (b :: l))
      else status_reply KVS_RESP_ERROR
    | _ => status_reply KVS_RESP_NO_EXISTS
    end
  | None => status_reply KVS_RESP_NO_EXISTS
  end.

(** ** The handlers of an engine *)

Section engine_cmds.
Context {T : Type} `{KvEngine T} (sl : slot T).
Implicit Types (c : cmdenv) (s : server) (req : resp_request).

(** [timer expire] tells when a stored key gets a timer of type [type]. *)
Definition cmd_set (type : Z) (timer : Z -> bool) : handler := fun c s req =>
  if req_argc req <? 3 then done s KVS_RESP_PARSE_ERROR
  else
    let* k := arg_data req 1 in
    let* v := arg_data req 2 in
    let* expire := if c_ttl c then parse_ttl (c_now c 0) req else Ok 0 in
    let '(t, ret) := eng_set (call c 1) (sl_get sl (sv_eng s)) k v expire in
    let s := with_eng (sl_put sl t (sv_eng s)) s in
    let s := if c_ttl c && (ret =? 0) && timer expire
             then with_cmdq (expire_push_cmd (call c 2) 0 (c_stale c) (sv_cmdq s) type (kd_bytes k)
                               expire (u64 expire)).1 s
             else s in
    done s (if ret =? 0 then KVS_RESP_OK else KVS_RESP_ERROR).

Definition cmd_get : handler := fun c s req =>
  if req_argc req <? 2 then done s KVS_RESP_PARSE_ERROR
  else
    let* k := arg_data req 1 in
    let '(t, r) := eng_get (call c 0) (sl_get sl (sv_eng s)) k in
    Ok (with_eng (sl_put sl t (sv_eng s)) s, kvs_set_reply_body (call c 1) r).

Definition cmd_del : handler := fun c s req =>
  if req_argc req <? 2 then done s KVS_RESP_PARSE_ERROR
  else
    let* k := arg_data req 1 in
    let '(t, r) := eng_del (call c 0) (sl_get sl (sv_eng s)) k in
    done (with_eng (sl_put sl t (sv_eng s)) s)
      (if r =? 0 then KVS_RESP_OK else KVS_RESP_NO_EXISTS).

Definition cmd_mod : handler := fun c s req =>
  if req_argc req <? 3 then done s KVS_RESP_PARSE_ERROR
  else
    let* k := arg_data req 1 in
    let* v := arg_data req 2 in
    let '(t, r) := eng_mod (call c 0) (sl_get sl (sv_eng s)) k v 0 in
    done (with_eng (sl_put sl t (sv_eng s)) s)
      (if r =? 0 then KVS_RESP_OK else KVS_RESP_NO_EXISTS).

Definition cmd_exists : handler := fun c s req =>
  if req_argc req <? 2 then done s KVS_RESP_PARSE_ERROR
  else
    let* k := arg_data req 1 in
    let '(t, r) := eng_exist (call c 0) (sl_get sl (sv_eng s)) k in
    done (with_eng (sl_put sl t (sv_eng s)) s)
      (if r =? 0 then KVS_RESP_EXISTS else KVS_RESP_NO_EXISTS).
End engine_cmds.

Definition cmd_array_set : handler := cmd_set slot_array EXPIRE_TYPE_ARRAY (fun _ => true).
Definition cmd_array_get : handler := cmd_get slot_array.
Definition cmd_array_del : handler := cmd_del slot_array.
Definition cmd_array_mod : handler := cmd_mod slot_array.
Definition cmd_array_exists : handler := cmd_exists slot_array.

Definition cmd_rbtree_set : handler := cmd_set slot_rbtree EXPIRE_TYPE_RBTREE (Z.ltb 0).
Definition cmd_rbtree_get : handler := cmd_get slot_rbtree.
Definition cmd_rbtree_del : handler := cmd_del slot_rbtree.
Definition cmd_rbtree_mod : handler := cmd_mod slot_rbtree.
Definition cmd_rbtree_exists : handler := cmd_exists slot_rbtree.

Definition cmd_hash_set : handler := cmd_set slot_hash EXPIRE_TYPE_HASH (Z.ltb 0).
Definition cmd_hash_get : handler := cmd_get slot_hash.
Definition cmd_hash_del : handler := cmd_del slot_hash.
Definition cmd_hash_mod : handler := cmd_mod slot_hash.
Definition cmd_hash_exists : handler := cmd_exists slot_hash.

Definition cmd_skip_set : handler := cmd_set slot_skip EXPIRE_TYPE_SKIPLIST (Z.ltb 0).
Definition cmd_skip_get : handler := cmd_get slot_skip.
Definition cmd_skip_del : handler := cmd_del slot_skip.
Definition cmd_skip_mod : handler := cmd_mod slot_skip.
Definition cmd_skip_exists : handler := cmd_exists slot_skip.

(** ** System commands *)

(** The child runs [kvs_snapshot_save] on its copy of the engines. *)
Definition cmd_sys_save : handler := fun c s req =>
  if negb (req_argc req =? 1) then done s KVS_RESP_PARSE_ERROR
  else
    let s := if negb (sv_save_pid s =? -1) && (c_waitpid c =? sv_save_pid s)
             then with_save (-1) (sv_child s) s else s in
    if negb (sv_save_pid s =? -1) then done s KVS_RESP_ERR
    else if c_fork c <? 0 then done s KVS_RESP_ERR
    else done (with_save (c_fork c) (Some (sv_eng s)) s) KVS_RESP_SUCCESS.

(** SYNC leaves the reply as it is; the transfer of the log to the slave
    changes no state of the server. *)
Definition cmd_sys_sync : handler := fun c s req =>
  done (with_repl (backlog_sync (sv_repl s)) s) KVS_RESP_ERROR.

(** [repl_destroy] releases the RDMA context. *)
Definition cmd_sys_sync_done : handler := fun c s req =>
  done (with_rdma_ctx false (with_repl (backlog_sync_done (sv_repl s)) s)) KVS_RESP_ERROR.

(** Trimming gives memory back to the system and changes no content. *)
Definition cmd_sys_memtrim : handler := fun c s req =>
  if negb (req_argc req =? 1) then done s KVS_RESP_PARSE_ERROR else done s KVS_RESP_OK.

(** ** The semantic cache *)

Section ai_cmds.
Context `{AiOps}.

Definition vector_of (c : cmdenv) : bytes -> option (list Z) :=
  ai_text_to_vector (g_use_embedding (c_glob c)) (c_embed c).

Definition cmd_keep : handler := fun c s req =>
  if req_argc req <? 3 then done s KVS_RESP_PARSE_ERROR
  else
    let* key := arg_data req 1 in
    let* value := arg_data req 2 in
    let '(t, ret) := kvs_hash_set (call c 0) (global_hash1 (sv_eng s)) key value 0 in
    let s := with_eng (sl_put slot_hash1 t (sv_eng s)) s in
    if negb (ret =? 0) then done s KVS_RESP_ERROR
    else if negb (alloc_ok (call c 1) 0 (u64 (kd_len key + 1))) then done s KVS_RESP_ERROR
    else
      let '(x, ret) := keep_build_index (call c 2) 0 (vector_of c) (sv_ai s) (kd_bytes key) in
      done (with_ai x s) (if ret =? 0 then KVS_RESP_OK else KVS_RESP_ERROR).

(** [match_find_answer]: the status and the answer; the key it looks up is
    the index's copy. *)
Definition match_find_answer (c : cmdenv) (s : server) (question : bytes)
  : server * (Z * option bytes) :=
  match match_find_best_key (vector_of c) (sv_ai s) question with
  | (0, Some (best_key, _)) =>
    let '(t, result) := kvs_hash_get (call c 1) (global_hash1 (sv_eng s)) (kd_of best_key) in
    let s := with_eng (sl_put slot_hash1 t (sv_eng s)) s in
    match result with
    | Some d =>
      match kd_data d with
      | Some (b :: l) =>
        if alloc_ok (call c 2) 0 (u64 (kd_len d + 1)) then (s, (0, Some (b :: l)))
        else (s, (-1, None))
      | _ => (s, (-1, None))
      end
    | None => (s, (-1, None))
    end
  | (ret, _) => (s, (if ret <? 0 then -1 else 1, None))
  end.

Definition cmd_match : handler := fun c s req =>
  if negb (req_argc req =? 2) then done s KVS_RESP_PARSE_ERROR
  else
    let* q := arg_data req 1 in
    if negb (alloc_ok (call c 0) 0 (u64 (kd_len q + 1))) then done s KVS_RESP_ERROR
    else
      let '(s, (ret, answer)) := match_find_answer c s (kd_bytes q) in
      if ret <? 0 then done s KVS_RESP_ERROR
      else
        match answer with
        | None => done s KVS_RESP_NO_EXISTS
        | Some a =>
          if alloc_ok (call c 3) 0 (u64 (Z.of_nat (length a) + 1))
          then Ok (s, RespReply KVS_RESP_GET_OK (Some a))
          else done s KVS_RESP_ERROR
        end.
End ai_cmds.

(** ** Contexts, records and the keyword index *)

Definition cmd_setctx : handler := fun c s req =>
  if req_argc req <? 4 then done s KVS_RESP_PARSE_ERROR
  else
    let* k := arg_data req 1 in
    let* v := arg_data req 2 in
    let* a3 := argn req 3 in
    let* ttl_sec := strtol (arg_ptr a3) in
    let* expire := if 0 <? ttl_sec
                   then let* d := i64_res (ttl_sec * 1000) in i64_res (c_time c * 1000 + d)
                   else Ok 0 in
    let '(t, ret) := kvs_hash_set (call c 0) (global_hash2 (sv_eng s)) k v expire in
    let s := with_eng (sl_put slot_hash2 t (sv_eng s)) s in
    if negb (ret =? 0) then done s KVS_RESP_ERROR
    else
      done (if c_ttl c && (0 <? expire)
            then with_cmdq (expire_push_cmd (call c 1) 0 (c_stale c) (sv_cmdq s) EXPIRE_TYPE_HASH2
                              (kd_bytes k) expire (u64 expire)).1 s
            else s) KVS_RESP_OK.

(** The body of GETCTX, GETREC and GETIDX. *)
Definition hash_reply (sl : slot kvs_hash) : handler := fun c s req =>
  if negb (req_argc req =? 2) then done s KVS_RESP_PARSE_ERROR
  else
    let* k := arg_data req 1 in
    let '(t, r) := kvs_hash_get (call c 0) (sl_get sl (sv_eng s)) k in
    Ok (with_eng (sl_put sl t (sv_eng s)) s, kvs_set_reply_body (call c 1) r).

Definition cmd_getctx : handler := hash_reply slot_hash2.
Definition cmd_getrec : handler := hash_reply slot_hash3.
Definition cmd_getidx : handler := hash_reply slot_hash4.

Definition cmd_delctx : handler := fun c s req =>
  if negb (req_argc req =? 2) then done s KVS_RESP_PARSE_ERROR
  else
    let* k := arg_data req 1 in
    let '(t, ret) := kvs_hash_del (call c 0) (global_hash2 (sv_eng s)) k in
    done (with_eng (sl_put slot_hash2 t (sv_eng s)) s)
      (if ret =? 0 then KVS_RESP_OK else KVS_RESP_NO_EXISTS).

Definition cmd_setrec : handler := fun c s req =>
  if negb (req_argc req =? 3) then done s KVS_RESP_PARSE_ERROR
  else
    let* k := arg_data req 1 in
    let* v := arg_data req 2 in
    let '(t, ret) := kvs_hash_set (call c 0) (global_hash3 (sv_eng s)) k v 0 in
    done (with_eng (sl_put slot_hash3 t (sv_eng s)) s)
      (if ret =? 0 then KVS_RESP_OK else KVS_RESP_ERROR).

Definition cmd_setidx : handler := fun c s req =>
  if negb (req_argc req =? 3) then done s KVS_RESP_PARSE_ERROR
  else
    let* k := arg_data req 1 in
    let* id := arg_data req 2 in
    let '(t, ret) := kvs_hash_append (call c 0) (global_hash4 (sv_eng s)) k id in
    done (with_eng (sl_put slot_hash4 t (sv_eng s)) s)
      (if ret =? 0 then KVS_RESP_OK else KVS_RESP_ERROR).

(** ** The time index *)

Definition cmd_zadd : handler := fun c s req =>
  if negb (req_argc req =? 3) then done s KVS_RESP_PARSE_ERROR
  else
    let* a1 := argn req 1 in
    let* ts := strtol (arg_ptr a1) in
    if ts <=? 0 then done s KVS_RESP_PARSE_ERROR
    else
      let* id := arg_data req 2 in
      let '(t, ret) := kvs_zset_add (call c 0) (global_skip (sv_eng s)) ts id in
      done (with_eng (sl_put slot_skip t (sv_eng s)) s)
        (if ret =? 0 then KVS_RESP_OK else KVS_RESP_ERROR).

(** Joining the ids; each is a C string. *)
Fixpoint join (sep : byte) (l : list bytes) : bytes :=
  match l with
  | [] => []
  | [x] => x
  | x :: l => x ++ sep :: join sep l
  end.

(** The common beginning of ZRANGE and ZRANGEREC: the ids of the last
    [stop + 1] entries, or the status of an early return; [stop - start + 1]
    is computed in [long] and cut to [int]. *)
Definition zrange_ids (c : cmdenv) (s : server) (req : resp_request)
  : res (list bytes + kvs_status) :=
  if negb (req_argc req =? 3) then Ok (inr KVS_RESP_PARSE_ERROR)
  else
    let* a1 := argn req 1 in
    let* start := strtol (arg_ptr a1) in
    let* a2 := argn req 2 in
    let* stop := strtol (arg_ptr a2) in
    if negb (start =? 0) || (stop <? 0) then Ok (inr KVS_RESP_PARSE_ERROR)
    else
      let* m := i64_res (stop - start + 1) in
      let n := i32 m in
      if n <=? 0 then Ok (inr KVS_RESP_NO_EXISTS)
      else
        let '(ret, ids) := kvs_zset_recent (call c 0) (global_skip (sv_eng s)) n in
        Ok (if negb (ret =? 0) then inr KVS_RESP_ERROR
            else if (length ids =? 0)%nat then inr KVS_RESP_NO_EXISTS else inl ids).

Definition cmd_zrange : handler := fun c s req =>
  let* r := zrange_ids c s req in
  match r with
  | inr st => done s st
  | inl ids =>
    let total := list_sum ((fun id => length (cstr id) + 1)%nat <$> ids) in
    if alloc_ok (call c 1) 0 (Z.of_nat total + 1) then
      Ok (s, RespReply KVS_RESP_GET_OK (Some (join COMMA (cstr <$> ids))))
    else done s KVS_RESP_ERROR
  end.

(** ** Records joined by newlines *)

(** The reply under construction: the table the records are read from, the
    buffer, its capacity and the number of records written. *)
Record recbuf := RecBuf {
  rb_hash : kvs_hash;
  rb_buf : bytes;
  rb_cap : Z;
  rb_written : nat
}.

(** One id; [None] when the buffer cannot be enlarged.  [k] numbers the call. *)
Definition add_record (c : cmdenv) (k : nat) (b : recbuf) (id : bytes) : recbuf * bool :=
  let '(t, r) := kvs_hash_get (call c k) (rb_hash b) (kd_of (cstr id)) in
  match r with
  | None => (RecBuf t (rb_buf b) (rb_cap b) (rb_written b), true)
  | Some d =>
    match kd_bytes d with
    | [] => (RecBuf t (rb_buf b) (rb_cap b) (rb_written b), true)
    | rec =>
      let need := u64 (Z.of_nat (length (rb_buf b)) + Z.of_nat (length rec) + 2) in
      let cap := if rb_cap b <? need then double_cap 64 (rb_cap b) need else rb_cap b in
      if (rb_cap b <? need) && negb (alloc_ok (call c k) 2 cap)
      then (RecBuf t (rb_buf b) cap (rb_written b), false)
      else
        let buf := if (0 <? rb_written b)%nat then rb_buf b ++ [LF] else rb_buf b in
        (RecBuf t (buf ++ rec) cap (S (rb_written b)), true)
    end
  end.

Fixpoint add_records (c : cmdenv) (k : nat) (b : recbuf) (ids : list bytes) : recbuf * bool :=
  match ids with
  | [] => (b, true)
  | id :: ids =>
    let '(b, ok) := add_record c k b id in
    if ok : bool then add_records c (S k) b ids else (b, false)
  end.

(** [build_records_newline]; its calls are numbered from [k]. *)
Definition build_records_newline (c : cmdenv) (k : nat) (s : server) (ids : list bytes)
  : server * resp_reply :=
  if (length ids =? 0)%nat then (s, status_reply KVS_RESP_NO_EXISTS)
  else if negb (alloc_ok (call c k) 0 4096) then (s, status_reply KVS_RESP_ERROR)
  else
    let '(b, ok) := add_records c (S k) (RecBuf (global_hash3 (sv_eng s)) [] 4096 0) ids in
    let s := with_eng (sl_put slot_hash3 (rb_hash b) (sv_eng s)) s in
    (s, if negb ok then status_reply KVS_RESP_ERROR
        else if (rb_written b =? 0)%nat then status_reply KVS_RESP_NO_EXISTS
        else RespReply KVS_RESP_GET_OK (Some (rb_buf b))).

(** The scan of the id list: the non-empty pieces between commas; [count] and
    [cap] are the entries and the size of the array of pointers, which
    doubles when it is full. *)
Fixpoint copy_ids (e : cenv) (i : nat) (count cap : Z) (pieces : list bytes)
  : option (list bytes) :=
  match pieces with
  | [] => Some []
  | [] :: pieces => copy_ids e i count cap pieces
  | id :: pieces =>
    let grow := cap <=? count in
    let cap := if grow then cap * 2 else cap in
    if grow && negb (alloc_ok e i (8 * cap)) then None
    else if negb (alloc_ok e (S i) (Z.of_nat (length id) + 1)) then None
    else
      match copy_ids e (S (S i)) (count + 1) cap pieces with
      | Some ids => Some (id :: ids)
      | None => None
      end
  end.

Definition cmd_getidxrec : handler := fun c s req =>
  if negb (req_argc req =? 2) then done s KVS_RESP_PARSE_ERROR
  else
    let* k := arg_data req 1 in
    let '(t, r) := kvs_hash_get (call c 0) (global_hash4 (sv_eng s)) k in
    let s := with_eng (sl_put slot_hash4 t (sv_eng s)) s in
    match kd_bytes <$> r with
    | None | Some [] => done s KVS_RESP_NO_EXISTS
    | Some l =>
      if negb (alloc_ok (call c 1) 0 64) then done s KVS_RESP_ERROR
      else
        match copy_ids (call c 1) 1 0 8 (split_comma l) with
        | None => done s KVS_RESP_ERROR
        | Some ids => Ok (build_records_newline c 2 s ids)
        end
    end.

Definition cmd_zrangerec : handler := fun c s req =>
  let* r := zrange_ids c s req in
  match r with
  | inr st => done s st
  | inl ids => Ok (build_records_newline c 1 s ids)
  end.

(** ** The command table *)

(** [command_t]; the code never looks at [minargc]. *)
Record command := Command {
  cmd_name : bytes;
  cmd_minargc : Z;
  cmd_proc : handler
}.

Section table.
Context `{AiOps}.

Definition g_cmd_table : list command := [
  Command (str "SET") 3 cmd_array_set;
  Command (str "GET") 2 cmd_array_get;
  Command (str "DEL") 2 cmd_array_del;
  Command (str "MOD") 3 cmd_array_mod;
  Command (str "EXISTS") 2 cmd_array_exists;
  Command (str "RSET") 3 cmd_rbtree_set;
  Command (str "RGET") 2 cmd_rbtree_get;
  Command (str "RDEL") 2 cmd_rbtree_del;
  Command (str "RMOD") 3 cmd_rbtree_mod;
  Command (str "REXISTS") 2 cmd_rbtree_exists;
  Command (str "HSET") 3 cmd_hash_set;
  Command (str "HGET") 2 cmd_hash_get;
  Command (str "HDEL") 2 cmd_hash_del;
  Command (str "HMOD") 3 cmd_hash_mod;
  Command (str "HEXISTS") 2 cmd_hash_exists;
  Command (str "KEEP") 3 cmd_keep;
  Command (str "MATCH") 2 cmd_match;
  Command (str "SETCTX") 4 cmd_setctx;
  Command (str "GETCTX") 2 cmd_getctx;
  Command (str "DELCTX") 2 cmd_delctx;
  Command (str "SETREC") 3 cmd_setrec;
  Command (str "GETREC") 2 cmd_getrec;
  Command (str "GETIDXREC") 2 cmd_getidxrec;
  Command (str "SETIDX") 3 cmd_setidx;
  Command (str "GETIDX") 2 cmd_getidx;
  Command (str "SSET") 3 cmd_skip_set;
  Command (str "SGET") 2 cmd_skip_get;
  Command (str "SDEL") 2 cmd_skip_del;
  Command (str "SMOD") 3 cmd_skip_mod;
  Command (str "SEXISTS") 2 cmd_skip_exists;
  Command (str "ZADD") 3 cmd_zadd;
  Command (str "ZRANGE") 3 cmd_zrange;
  Command (str "ZRANGEREC") 3 cmd_zrangerec;
  Command (str "SAVE") 1 cmd_sys_save;
  Command (str "SYNC") 1 cmd_sys_sync;
  Command (str "SYNC_DONE") 1 cmd_sys_sync_done;
  Command (str "MEMTRIM") 1 cmd_sys_memtrim ].
End table.

(** ** A server for the examples *)

Definition sample_server : server :=
  Server sample_engines queue_zero repl_zero (-1) None (AiIndex [] DEFAULT_MATCH_THRESHOLD) false.

(** A request whose arguments are followed by CR LF in the buffer. *)
Definition request_of (args : list bytes) : resp_request :=
  RespRequest (Z.of_nat (length args))
    ((fun a => Arg (a ++ CRLF) (Z.of_nat (length a))) <$> args).
