(* ===== verification/Lookup.v ===== *)
(** * Looking a command up (kvstore.c)

    The command table is indexed by an open-addressing hash table of 64 slots
    keyed by the upper-case name.  The file proves that the lookup returns the
    entry of the table whose name is the given one up to case, or nothing, and
    that the probing always ends. *)

From S2P Require Import Prelude KvData Engine Resp Store Ai Commands.

Open Scope Z_scope.
Open Scope kvs_scope.

(** [(unsigned char)toupper(c)] in the C locale *)
Definition toupper (b : byte) : Z :=
  let c := b2z b in if (97 <=? c) && (c <=? 122) then c - 32 else c.

Definition CMD_HASH_SIZE : Z := 64.

Definition hash_char (hash : Z) (b : byte) : Z := u32 (u32 (u32 (Z.shiftl hash 5) + hash) + toupper b).

(** [cmd_hash] *)
Definition cmd_hash (name : bytes) : Z := fold_left hash_char (cstr name) 5381.

Definition next_slot (idx : Z) : Z := Z.land (idx + 1) (CMD_HASH_SIZE - 1).

Definition slot_of_hash (hash : Z) : Z := Z.land hash (CMD_HASH_SIZE - 1).

(** [g_cmd_hash]: the index in the table of the entry a slot points to. *)
Abbreviation cmd_slots := (list (option nat)).

Definition slot_at (g : cmd_slots) (idx : Z) : option nat := default None (g !! Z.to_nat idx).

Fixpoint free_slot (fuel : nat) (g : cmd_slots) (idx : Z) : Z :=
  match fuel with
  | O => idx
  | S fuel =>
    match slot_at g idx with
    | None => idx
    | Some _ => free_slot fuel g (next_slot idx)
    end
  end.

(** [kvs_cmd_init]; 64 probes visit every slot. *)
Definition kvs_cmd_init (names : list bytes) : cmd_slots :=
  fold_left (fun g '(i, name) =>
      <[Z.to_nat (free_slot 64 g (slot_of_hash (cmd_hash name))) := Some i]> g)
    (zip (seq 0 (length names)) names) (replicate 64 None).

(** The loop over the characters of the name, up to [n] or a NUL. *)
Fixpoint hash_name (name : bytes) (n : nat) (hash : Z) {struct n} : res Z :=
  match n with
  | O => Ok hash
  | S n =>
    match name with
    | [] => UB
    | b :: name => if b2z b =? 0 then Ok hash else hash_name name n (hash_char hash b)
    end
  end.

(** [strlen(name)] *)
Fixpoint strlen (name : bytes) : res Z :=
  match name with
  | [] => UB
  | b :: name => if b2z b =? 0 then Ok 0 else let* n := strlen name in Ok (n + 1)
  end.

(** The probing loop, from [idx]. *)
Fixpoint probe (fuel : nat) (names : list bytes) (g : cmd_slots) (name : bytes) (len : Z) (idx : Z)
  : option nat :=
  match fuel with
  | O => None
  | S fuel =>
    match slot_at g idx with
    | None => None
    | Some i =>
      if cmd_is (default [] (names !! i)) name len then Some i
      else probe fuel names g name len (next_slot idx)
    end
  end.

(** [lookup_command] for the names of a table; [name] is what follows the
    pointer in memory. *)
Definition lookup_name (names : list bytes) (name : bytes) (len : Z) : res (option nat) :=
  let g := kvs_cmd_init names in
  let* compare_len := if 0 <? len then Ok len else strlen name in
  let* hash := hash_name name (Z.to_nat compare_len) 5381 in
  Ok (probe 64 names g name compare_len (slot_of_hash hash)).

Section lookup.
Context `{AiOps}.

Definition lookup_command (name : bytes) (len : Z) : res (option command) :=
  let* r := lookup_name (cmd_name <$> g_cmd_table) name len in
  Ok (match r with Some i => g_cmd_table !! i | None => None end).

(** [kvs_execute_batch], for its one command. *)
Definition kvs_execute_batch (c : cmdenv) (s : server) (cmd : option command)
  (req : resp_request) : res (server * resp_reply) :=
  match cmd with
  | Some cm => cmd_proc cm c s req
  | None => done s KVS_RESP_UNKNOWN
  end.
End lookup.

(** ** Names up to case *)

Definition table_names : list bytes :=
  map str ["SET"; "GET"; "DEL"; "MOD"; "EXISTS"; "RSET"; "RGET"; "RDEL"; "RMOD"; "REXISTS";
    "HSET"; "HGET"; "HDEL"; "HMOD"; "HEXISTS"; "KEEP"; "MATCH"; "SETCTX"; "GETCTX"; "DELCTX";
    "SETREC"; "GETREC"; "GETIDXREC"; "SETIDX"; "GETIDX"; "SSET"; "SGET"; "SDEL"; "SMOD";
    "SEXISTS"; "ZADD"; "ZRANGE"; "ZRANGEREC"; "SAVE"; "SYNC"; "SYNC_DONE"; "MEMTRIM"]%string.

Lemma table_names_ok `{AiOps} : cmd_name <$> g_cmd_table = table_names.
Proof. done. Qed.

Definition table_slots : cmd_slots := Eval vm_compute in kvs_cmd_init table_names.

Lemma table_slots_ok : kvs_cmd_init table_names = table_slots.
Proof. by vm_compute. Qed.

(** Two bytes that differ only in case have the same upper case. *)
Lemma toupper_tolower a b : tolower a = tolower b -> toupper a = toupper b.
Proof.
  unfold tolower, toupper. cbv zeta.
  destruct ((65 <=? b2z a) && (b2z a <=? 90)) eqn:E1, ((65 <=? b2z b) && (b2z b <=? 90)) eqn:E2,
    ((97 <=? b2z a) && (b2z a <=? 122)) eqn:E3, ((97 <=? b2z b) && (b2z b <=? 122)) eqn:E4;
  intros Hab; repeat match goal with
  | H : _ && _ = true |- _ => apply andb_true_iff in H as [?%Z.leb_le ?%Z.leb_le]
  | H : _ && _ = false |- _ => apply andb_false_iff in H as [?%Z.leb_gt|?%Z.leb_gt]
  end; lia.
Qed.

(** A name that matches an entry has the entry's hash. *)
Lemma hash_name_match name key hash :
  no_nul key -> (length key <= length name)%nat -> strncaseeq name key (length key) = true ->
  hash_name name (length key) hash = Ok (fold_left hash_char key hash).
Proof.
  revert name hash. induction key as [|b key IH]; intros name hash Hn Hl Hm; [done|].
  destruct name as [|a name]; [simpl in Hl; lia|]. apply Forall_cons in Hn as [Hb Hn].
  cbn [length strncaseeq nth drop] in Hm. apply andb_true_iff in Hm as [Hab%Z.eqb_eq Hm].
  assert (Ha : b2z a <> 0).
  { intros Ha. apply Hb. unfold tolower in Hab. cbv zeta in Hab. rewrite Ha in Hab. simpl in Hab.
    pose proof (b2z_range b). destruct ((65 <=? b2z b) && (b2z b <=? 90)); lia. }
  cbn [length hash_name]. rewrite (proj2 (Z.eqb_neq _ _) Ha) in *. simpl in Hm, Hl.
  cbn [fold_left]. rewrite IH by (done || lia). unfold hash_char.
  by rewrite (toupper_tolower _ _ Hab).
Qed.

Lemma hash_name_total name n hash : (n <= length name)%nat -> exists h, hash_name name n hash = Ok h.
Proof.
  revert name hash. induction n as [|n IH]; intros name hash Hl; [by eexists|].
  destruct name as [|b name]; [simpl in Hl; lia|]. cbn [hash_name].
  destruct (b2z b =? 0); [by eexists|]. apply IH. simpl in Hl. lia.
Qed.

Lemma strncaseeq_tolower a b :
  no_nul b -> (length b <= length a)%nat ->
  strncaseeq a b (length b) = bool_decide (tolower <$> take (length b) a = tolower <$> b).
Proof.
  revert a. induction b as [|y b IH]; intros a Hn Hl; [done|].
  destruct a as [|x a]; [simpl in Hl; lia|]. apply Forall_cons in Hn as [Hy Hn].
  simpl in Hl. cbn [length strncaseeq nth skipn firstn fmap list_fmap].
  destruct (Z.eqb_spec (tolower x) (tolower y)) as [He|Hne]; cbn [andb].
  - assert (Hx : b2z x <> 0).
    { intros Hx. apply Hy. unfold tolower in He. rewrite Hx in He. simpl in He.
      pose proof (b2z_range y). destruct ((65 <=? b2z y) && (b2z y <=? 90)); lia. }
    rewrite !drop_0, (proj2 (Z.eqb_neq _ _) Hx), (IH a) by (done || lia). cbn [orb].
    rewrite He. apply bool_decide_ext. split; [by intros ->|by intros [= ?]].
  - rewrite bool_decide_false; [done|]. by intros [= ? _].
Qed.

(** [cmd_is] compares lengths and lower-case bytes. *)
Lemma cmd_is_spec key name len :
  no_nul key -> 0 <= len <= Z.of_nat (length name) ->
  cmd_is key name len = bool_decide (tolower <$> take (Z.to_nat len) name = tolower <$> key).
Proof.
  intros Hn Hl. unfold cmd_is. destruct (Z.eqb_spec len (Z.of_nat (length key))) as [->|Hne].
  - simpl. rewrite Nat2Z.id. apply strncaseeq_tolower; [done|lia].
  - simpl. symmetry. apply bool_decide_eq_false. intros He.
    apply (f_equal length) in He. rewrite !length_fmap, length_take in He. lia.
Qed.

(** ** The probed entries *)

Fixpoint probe_path (fuel : nat) (g : cmd_slots) (idx : Z) : list nat :=
  match fuel with
  | O => []
  | S fuel =>
    match slot_at g idx with
    | None => []
    | Some i => i :: probe_path fuel g (next_slot idx)
    end
  end.

Lemma probe_find fuel names g name len idx :
  probe fuel names g name len idx
  = List.find (fun i => cmd_is (default [] (names !! i)) name len) (probe_path fuel g idx).
Proof.
  revert idx. induction fuel as [|fuel IH]; intros idx; simpl; [done|].
  destruct (slot_at g idx) as [i|]; [|done]. simpl. by destruct (cmd_is _ _ _).
Qed.

Lemma find_only {A} (f : A -> bool) (l : list A) x :
  x ∈ l -> f x = true -> (forall y, y ∈ l -> f y = true -> y = x) -> List.find f l = Some x.
Proof.
  intros Hx Hfx Hu. destruct (List.find f l) as [y|] eqn:E.
  - apply List.find_some in E as [Hy Hfy]. f_equal. apply Hu; [by apply list_elem_of_In|done].
  - apply list_elem_of_In in Hx. by rewrite (List.find_none _ _ E _ Hx) in Hfx.
Qed.

Lemma find_no {A} (f : A -> bool) (l : list A) :
  (forall y, y ∈ l -> f y = false) -> List.find f l = None.
Proof.
  intros Hf. destruct (List.find f l) as [y|] eqn:E; [|done].
  apply List.find_some in E as [Hy%list_elem_of_In Hfy]. by rewrite Hf in Hfy.
Qed.

(** What the evaluation of the table shows: no name has a NUL, names differ
    up to case, and every entry is on the path of its own hash. *)
Lemma table_no_nul : Forall no_nul table_names.
Proof. apply (bool_decide_unpack _). by vm_compute. Qed.

Lemma table_distinct : NoDup (fmap (M := list) tolower <$> table_names).
Proof. apply (bool_decide_unpack _). by vm_compute. Qed.

Lemma table_reached :
  Forall (fun '(i, key) => i ∈ probe_path 64 table_slots (slot_of_hash (cmd_hash key)))
    (zip (seq 0 (length table_names)) table_names).
Proof.
  apply Forall_forall. intros [i key] Hin. revert i key Hin.
  assert (Hall : forallb (fun '(i, key) =>
      bool_decide (i ∈ probe_path 64 table_slots (slot_of_hash (cmd_hash key))))
    (zip (seq 0 (length table_names)) table_names) = true) by by vm_compute.
  intros i key Hin. rewrite forallb_forall in Hall.
  apply list_elem_of_In, Hall in Hin. by apply bool_decide_eq_true in Hin.
Qed.

(** Every path of the table ends at an empty slot. *)
Lemma table_paths_end :
  Forall (fun idx => (length (probe_path 64 table_slots idx) < 64)%nat) (seqZ 0 64).
Proof. apply (bool_decide_unpack _). by vm_compute. Qed.

Lemma probe_path_more fuel k g idx :
  (length (probe_path fuel g idx) < fuel)%nat -> probe_path (fuel + k) g idx = probe_path fuel g idx.
Proof.
  revert idx. induction fuel as [|fuel IH]; intros idx; [simpl; lia|].
  cbn [probe_path plus]. destruct (slot_at g idx) as [i|]; [|done]. cbn [length].
  intros Hl. f_equal. apply IH. lia.
Qed.

Lemma slot_of_hash_range h : 0 <= slot_of_hash h < 64.
Proof.
  unfold slot_of_hash, CMD_HASH_SIZE. change (64 - 1) with (Z.ones 6).
  rewrite Z.land_ones by lia. apply Z.mod_pos_bound. lia.
Qed.

(** The fuel of the probing never matters. *)
Lemma probe_fuel names name len h k :
  probe (64 + k) names table_slots name len (slot_of_hash h)
  = probe 64 names table_slots name len (slot_of_hash h).
Proof.
  rewrite !probe_find, probe_path_more; [done|].
  pose proof table_paths_end as Hp. rewrite Forall_forall in Hp. apply Hp.
  apply elem_of_seqZ. pose proof (slot_of_hash_range h). lia.
Qed.

Lemma match_unique name len i j key key' :
  0 <= len <= Z.of_nat (length name) ->
  table_names !! i = Some key -> table_names !! j = Some key' ->
  cmd_is key name len = true -> cmd_is key' name len = true -> i = j.
Proof.
  intros Hl Hi Hj Hmi Hmj.
  assert (Hk : no_nul key /\ no_nul key').
  { pose proof table_no_nul as Hn. rewrite Forall_lookup in Hn. eauto. }
  rewrite cmd_is_spec in Hmi, Hmj by (done || apply Hk).
  apply bool_decide_eq_true in Hmi, Hmj. eapply NoDup_lookup; [exact table_distinct| |].
  - rewrite list_lookup_fmap, Hi. simpl. by rewrite <- Hmi.
  - rewrite list_lookup_fmap, Hj. simpl. by rewrite <- Hmj.
Qed.

(** ** The lookup *)

Lemma lookup_name_spec name len :
  0 < len <= Z.of_nat (length name) ->
  lookup_name table_names name len
  = Ok (List.find (fun i => cmd_is (default [] (table_names !! i)) name len)
          (seq 0 (length table_names))).
Proof.
  intros Hlen. unfold lookup_name. rewrite table_slots_ok.
  rewrite (proj2 (Z.ltb_lt 0 len)) by lia. cbn [rbind].
  destruct (hash_name_total name (Z.to_nat len) 5381) as [h Hh]; [lia|]. rewrite Hh. cbn [rbind].
  f_equal. rewrite probe_find. set (f := fun i => cmd_is (default [] (table_names !! i)) name len).
  destruct (List.find f (seq 0 (length table_names))) as [i|] eqn:E.
  - apply List.find_some in E as [Hi Hf]. apply in_seq in Hi.
    destruct (lookup_lt_is_Some_2 table_names i ltac:(lia)) as [key Hkey].
    assert (Hfk : cmd_is key name len = true) by (unfold f in Hf; by rewrite Hkey in Hf).
    assert (Hn : no_nul key) by (pose proof table_no_nul as Hn; rewrite Forall_lookup in Hn; eauto).
    apply find_only; [|done|].
    + assert (He : h = cmd_hash key).
      { unfold cmd_is in Hfk. apply andb_true_iff in Hfk as [Hl%Z.eqb_eq Hm].
        rewrite Hl, Nat2Z.id, hash_name_match in Hh by (done || lia). injection Hh as <-.
        unfold cmd_hash. by rewrite cstr_no_nul. }
      subst h. pose proof table_reached as Hr. rewrite Forall_lookup in Hr.
      apply (Hr i (i, key)). apply lookup_zip_with_Some. exists i, key.
      split_and!; [done|apply lookup_seq_lt; lia|done].
    + intros j Hj Hfj. unfold f in Hfj. destruct (table_names !! j) as [key'|] eqn:Hk'.
      * by apply (match_unique name len j i key' key); [lia|..].
      * unfold cmd_is in Hfj. simpl in Hfj. apply andb_true_iff in Hfj as [?%Z.eqb_eq _]. lia.
  - apply find_no. intros j Hj. destruct (f j) eqn:Hfj; [|done]. exfalso.
    destruct (decide (j < length table_names)%nat) as [Hlt|Hge].
    + rewrite (List.find_none _ _ E j) in Hfj; [done|]. apply in_seq. lia.
    + unfold f in Hfj. rewrite (lookup_ge_None_2 table_names j) in Hfj by lia.
      unfold cmd_is in Hfj. simpl in Hfj. apply andb_true_iff in Hfj as [?%Z.eqb_eq _]. lia.
Qed.

Lemma find_fmap_index {A B} (g : A -> B) (f : B -> bool) (l : list A) (d : B) k :
  (match List.find (fun i => f (default d ((g <$> l) !! (i - k)%nat))) (seq k (length l)) with
   | Some i => l !! (i - k)%nat
   | None => None
   end) = List.find (fun x => f (g x)) l.
Proof.
  revert k. induction l as [|x l IH]; intros k; [done|].
  cbn [length seq List.find].
  replace (default d ((g <$> x :: l) !! (k - k)%nat)) with (g x) by (by rewrite Nat.sub_diag).
  destruct (f (g x)); [by rewrite Nat.sub_diag|].
  rewrite <- (IH (S k)).
  assert (Hs : forall i, i ∈ seq (S k) (length l) -> (i - k = S (i - S k))%nat).
  { intros i Hi%elem_of_seq. lia. }
  set (f1 := fun i => f (default d ((g <$> x :: l) !! (i - k)%nat))).
  set (f2 := fun i => f (default d ((g <$> l) !! (i - S k)%nat))).
  assert (Hf : forall i, i ∈ seq (S k) (length l) -> f1 i = f2 i).
  { intros i Hi. unfold f1, f2. by rewrite (Hs i Hi). }
  clearbody f1 f2. revert Hs Hf. generalize (seq (S k) (length l)) as js.
  induction js as [|j js IHj]; intros Hs Hf; [done|]. simpl. rewrite Hf by (by left).
  destruct (f2 j); [by rewrite (Hs j) by (by left)|].
  apply IHj; intros i Hi; [apply Hs|apply Hf]; by right.
Qed.

(** C25.  The lookup finds the command the table has under the name, up to
    case, and nothing when there is none, although it only probes the slots
    from the name's hash on. *)
Theorem lookup_command_find `{AiOps} name len :
  0 < len <= Z.of_nat (length name) ->
  lookup_command name len
  = Ok (List.find (fun cm => cmd_is (cmd_name cm) name len) g_cmd_table).
Proof.
  intros Hlen. unfold lookup_command. rewrite table_names_ok, lookup_name_spec by done.
  cbn [rbind]. f_equal.
  rewrite <- (find_fmap_index cmd_name (fun key => cmd_is key name len) g_cmd_table [] 0).
  change (length g_cmd_table) with (length table_names).
  assert (Hf : forall js,
    List.find (fun i => cmd_is (default [] ((cmd_name <$> g_cmd_table) !! (i - 0)%nat)) name len) js
    = List.find (fun i => cmd_is (default [] (table_names !! i)) name len) js).
  { induction js as [|j js IH]; [done|]. cbn [List.find]. by rewrite Nat.sub_0_r, IH. }
  rewrite Hf. destruct (List.find _ _) as [i|]; [by rewrite Nat.sub_0_r|done].
Qed.

Lemma lookup_command_find_witness :
  @lookup_command sample_ai (str "hGet" ++ CRLF) 4
  = Ok (List.find (fun cm => cmd_is (cmd_name cm) (str "hGet" ++ CRLF) 4) (@g_cmd_table sample_ai)).
Proof. apply (lookup_command_find (H := sample_ai)). split; by vm_compute. Defined.

Example lookup_samples :
  lookup_name table_names (str "rGet") 4 = Ok (Some 6%nat) /\
  lookup_name table_names (str "RGETS") 5 = Ok None.
Proof. vm_compute. done. Qed.

(** The lookup of a command with an empty name (or a negative length)
    runs [strlen] on the receive buffer: without a NUL in what was received it
    reads past the data. *)
Theorem lookup_empty_name_reads_past `{AiOps} name len :
  len <= 0 -> no_nul name -> lookup_command name len = UB.
Proof.
  intros Hlen Hn. unfold lookup_command, lookup_name.
  rewrite (proj2 (Z.ltb_ge 0 len)) by done.
  replace (strlen name) with (@UB Z); [done|].
  induction Hn as [|b name Hb Hn IH]; [done|]. simpl.
  by rewrite (proj2 (Z.eqb_neq _ _) Hb), <- IH.
Qed.

Lemma lookup_empty_name_reads_past_witness :
  no_nul (CRLF ++ str "*1") /\ @lookup_command sample_ai (CRLF ++ str "*1") 0 = UB.
Proof.
  assert (Hn : no_nul (CRLF ++ str "*1")) by (apply (bool_decide_unpack _); by vm_compute).
  split; [exact Hn|]. by apply (lookup_empty_name_reads_past (H := sample_ai)).
Defined.
