(* ===== verification/CommandSpec.v ===== *)
(** * The basic commands implement the key-value maps

    The twenty commands SET, GET, DEL, MOD and EXISTS of the four engines run
    the operation of [EngineSpec] their arguments name on their own store: the
    content of that store and the reply are the specification's and the other
    stores are left alone. *)

From S2P Require Import Prelude KvData Engine EngineSpec Config Resp Repl ExpireQueue Store Ai.
From S2P Require Import Commands Lookup ArrayEngine HashEngine RbTree SkipList Engines.

Open Scope Z_scope.
Open Scope kvs_scope.

Inductive kind := KSet | KGet | KDel | KMod | KExists.

(** The operation a request stands for. *)
Definition op_of (kd : kind) (c : cmdenv) (req : resp_request) : res op :=
  match kd with
  | KSet =>
    if req_argc req <? 3 then UB
    else
      let* k := arg_data req 1 in
      let* v := arg_data req 2 in
      let* x := if c_ttl c then parse_ttl (c_now c 0) req else Ok 0 in
      Ok (OSet (kd_bytes k) v x)
  | KMod =>
    if req_argc req <? 3 then UB
    else
      let* k := arg_data req 1 in
      let* v := arg_data req 2 in Ok (OMod (kd_bytes k) v 0)
  | KGet => if req_argc req <? 2 then UB else let* k := arg_data req 1 in Ok (OGet (kd_bytes k))
  | KDel => if req_argc req <? 2 then UB else let* k := arg_data req 1 in Ok (ODel (kd_bytes k))
  | KExists =>
    if req_argc req <? 2 then UB else let* k := arg_data req 1 in Ok (OExist (kd_bytes k))
  end.

(** The call the operation is made in. *)
Definition op_env (kd : kind) (c : cmdenv) : cenv :=
  match kd with KSet => call c 1 | _ => call c 0 end.

(** The reply to a client for the reply of the engine; an empty value reads
    as an absent one. *)
Definition render (kd : kind) (c : cmdenv) (r : reply) : resp_reply :=
  match kd, r with
  | KSet, RInt z => status_reply (if z =? 0 then KVS_RESP_OK else KVS_RESP_ERROR)
  | KMod, RInt z => status_reply (if z =? 0 then KVS_RESP_OK else KVS_RESP_NO_EXISTS)
  | KDel, RInt z => status_reply (if z =? 0 then KVS_RESP_OK else KVS_RESP_NO_EXISTS)
  | KExists, RInt z => status_reply (if z =? 0 then KVS_RESP_EXISTS else KVS_RESP_NO_EXISTS)
  | KGet, RVal (Some (b :: v)) =>
    if alloc_ok (call c 1) 0 (u64 (Z.of_nat (length (b :: v)) + 1))
    then RespReply KVS_RESP_GET_OK (Some (b :: v)) else status_reply KVS_RESP_ERROR
  | _, _ => status_reply KVS_RESP_NO_EXISTS
  end.

Lemma arg_data_kd req i d : arg_data req i = Ok d -> d = kd_of (kd_bytes d).
Proof.
  unfold arg_data. destruct (argn req i) as [a|]; simpl; [|done].
  destruct (_ && _); [|done]. by intros [= <-].
Qed.

(** ** One command on one slot *)

(** The operation is within the store's keys. *)
Definition db_key_ok (d : db) (o : op) : Prop :=
  match op_key o with Some k => db_key d k | None => True end.

Section slot.
Context {T : Type} `{KvEngineLaws T} (sl : slot T) (d : db).
Context `{!SlotOf sl d}.
Implicit Types (c : cmdenv) (s : server) (req : resp_request).

(** What the handlers have in common: the operation is run on the slot. *)
Definition runs (kd : kind) c s (o : op) (out : res (server * resp_reply)) : Prop :=
  exists s', out = Ok (s', render kd c (run_op (op_env kd c) (sl_get sl (sv_eng s)) o).2) /\
    sv_eng s' = sl_put sl (run_op (op_env kd c) (sl_get sl (sv_eng s)) o).1 (sv_eng s) /\
    sv_repl s' = sv_repl s.

Definition handler_of (kd : kind) (type : Z) (timer : Z -> bool) : handler :=
  match kd with
  | KSet => cmd_set sl type timer
  | KGet => cmd_get sl
  | KDel => cmd_del sl
  | KMod => cmd_mod sl
  | KExists => cmd_exists sl
  end.

Lemma set_reply_body_render c r :
  kvs_set_reply_body (call c 1) r = render KGet c (RVal (kd_bytes <$> r)).
Proof.
  destruct r as [r|]; simpl; [|done]. unfold kd_len, kd_bytes.
  destruct (kd_data r) as [[|b l]|]; done.
Qed.

Lemma handler_runs kd type timer c s req o :
  op_of kd c req = Ok o -> runs kd c s o (handler_of kd type timer c s req).
Proof.
  intros Ho. unfold runs. destruct kd; cbn [op_of handler_of op_env] in *;
    [unfold cmd_set|unfold cmd_get|unfold cmd_del|unfold cmd_mod|unfold cmd_exists];
    (destruct (req_argc req <? _); [done|]);
    (destruct (arg_data req 1) as [k|] eqn:Ek; [|done]); cbn [rbind] in *;
    try (destruct (arg_data req 2) as [v|]; [|done]; cbn [rbind] in * );
    pose proof (arg_data_kd _ _ _ Ek) as Hk.
  - destruct (if c_ttl c then _ else _) as [x|]; [|done]. cbn [rbind] in *.
    injection Ho as <-. cbn [run_op]. rewrite <- Hk.
    destruct (eng_set _ _ k v x) as [t ret]. cbn [fst snd].
    eexists. split; [done|]. by destruct (c_ttl c && (ret =? 0) && timer x).
  - injection Ho as <-. cbn [run_op]. rewrite <- Hk. destruct (eng_get _ _ k) as [t r].
    cbn [fst snd]. rewrite set_reply_body_render. by eexists.
  - injection Ho as <-. cbn [run_op]. rewrite <- Hk. destruct (eng_del _ _ k) as [t r]. by eexists.
  - injection Ho as <-. cbn [run_op]. rewrite <- Hk. destruct (eng_mod _ _ k v 0) as [t r].
    by eexists.
  - injection Ho as <-. cbn [run_op]. rewrite <- Hk. destruct (eng_exist _ _ k) as [t r].
    by eexists.
Qed.

(** The handler refines the specification of its operation. *)
Definition refines (kd : kind) c s (o : op) (out : res (server * resp_reply)) : Prop :=
  exists s' r m', out = Ok (s', render kd c r) /\
    spec_step (op_env kd c) (db_fits d) (store_abs (sv_eng s) d) o m' r /\
    store_inv (sv_eng s') /\ sv_repl s' = sv_repl s /\
    forall d', store_abs (sv_eng s') d' = db_upd (store_abs (sv_eng s)) d m' d'.

Lemma handler_refines kd type timer c s req o :
  op_of kd c req = Ok o -> db_key_ok d o -> store_inv (sv_eng s) ->
  refines kd c s o (handler_of kd type timer c s req).
Proof.
  intros Ho Hok Hinv. destruct (handler_runs kd type timer c s req o Ho) as (s' & -> & He & Hrp).
  destruct (run_op_refines (db_fits d) (slot_room (sl := sl)) (op_env kd c)
              (sl_get sl (sv_eng s)) o) as [Hi Hs];
    [by apply (slot_inv (d := d))|unfold op_ok, db_key_ok in *; by destruct (op_key o);
                                  [apply (slot_key (sl := sl) (d := d))|]|].
  rewrite (slot_abs (d := d)) in Hs. eexists s', _, _.
  split_and!; [done|exact Hs| |done|].
  - rewrite He. by apply (slot_put_inv (d := d)).
  - intros d'. rewrite He. apply slot_put_abs.
Qed.
End slot.

(** ** The twenty commands *)

Definition basic_commands : list (string * db * kind) :=
  [("SET", DbArray, KSet); ("GET", DbArray, KGet); ("DEL", DbArray, KDel);
   ("MOD", DbArray, KMod); ("EXISTS", DbArray, KExists);
   ("RSET", DbRbtree, KSet); ("RGET", DbRbtree, KGet); ("RDEL", DbRbtree, KDel);
   ("RMOD", DbRbtree, KMod); ("REXISTS", DbRbtree, KExists);
   ("HSET", DbHash, KSet); ("HGET", DbHash, KGet); ("HDEL", DbHash, KDel);
   ("HMOD", DbHash, KMod); ("HEXISTS", DbHash, KExists);
   ("SSET", DbSkip, KSet); ("SGET", DbSkip, KGet); ("SDEL", DbSkip, KDel);
   ("SMOD", DbSkip, KMod); ("SEXISTS", DbSkip, KExists)]%string.

(** The handlers of the basic commands. *)
Definition basic_handler (d : db) (kd : kind) : handler :=
  match d with
  | DbArray => handler_of slot_array kd EXPIRE_TYPE_ARRAY (fun _ => true)
  | DbRbtree => handler_of slot_rbtree kd EXPIRE_TYPE_RBTREE (Z.ltb 0)
  | DbSkip => handler_of slot_skip kd EXPIRE_TYPE_SKIPLIST (Z.ltb 0)
  | _ => handler_of slot_hash kd EXPIRE_TYPE_HASH (Z.ltb 0)
  end.

(** Evaluates the lookup of a name, whatever follows it in memory. *)
Ltac find_command :=
  unfold lookup_command; rewrite table_names_ok;
  match goal with |- context [lookup_name table_names ?p ?n] =>
    let r := eval vm_compute in (lookup_name table_names p n) in
    replace (lookup_name table_names p n) with r by (vm_compute; reflexivity) end;
  eexists; split; reflexivity.

Lemma basic_lookup `{AiOps} name d kd rest :
  (name, d, kd) ∈ basic_commands ->
  exists cmd,
    lookup_command (str name ++ rest) (Z.of_nat (length (str name))) = Ok (Some cmd) /\
    cmd_proc cmd = basic_handler d kd.
Proof.
  intros Hin. unfold basic_commands in Hin.
  repeat (apply elem_of_cons in Hin as [[= -> -> ->]|Hin]; [find_command|]). inversion Hin.
Qed.

(** A basic command's handler on its own store. *)
Lemma basic_handler_refines name d kd c s req o :
  (name, d, kd) ∈ basic_commands -> op_of kd c req = Ok o -> db_key_ok d o ->
  store_inv (sv_eng s) -> refines d kd c s o (basic_handler d kd c s req).
Proof.
  intros Hin Ho Hk Hinv.
  assert (Hd : d = DbArray \/ d = DbRbtree \/ d = DbHash \/ d = DbSkip).
  { unfold basic_commands in Hin. clear - Hin.
    repeat (apply elem_of_cons in Hin as [[= -> -> ->]|Hin]; [tauto|]). inversion Hin. }
  destruct Hd as [->|[->|[->| ->]]]; simpl;
    [apply (handler_refines slot_array DbArray)|apply (handler_refines slot_rbtree DbRbtree)
    |apply (handler_refines slot_hash DbHash)|apply (handler_refines slot_skip DbSkip)]; done.
Qed.

(** C10.  Each of the twenty basic commands, with a key its store can hold (an
    array cannot hold the empty one), is looked up by its name and runs the
    operation its arguments name on its own store: the reply and the new
    content are the specification's and no other store changes. *)
Theorem basic_command_refines `{AiOps} name d kd c s req o rest :
  (name, d, kd) ∈ basic_commands -> op_of kd c req = Ok o -> db_key_ok d o ->
  store_inv (sv_eng s) ->
  exists cmd,
    lookup_command (str name ++ rest) (Z.of_nat (length (str name))) = Ok (Some cmd) /\
    refines d kd c s o (kvs_execute_batch c s (Some cmd) req).
Proof.
  intros Hin Ho Hk Hinv. destruct (basic_lookup name d kd rest Hin) as (cmd & Hc & Hp).
  exists cmd. split; [done|]. simpl. rewrite Hp. by apply (basic_handler_refines name).
Qed.

Definition sample_request : resp_request :=
  request_of [str "RSET"; str "k"; str "v"; str "EX"; str "10"].

Lemma basic_command_refines_witness :
  ("RSET"%string, DbRbtree, KSet) ∈ basic_commands /\
  exists cmd,
    @lookup_command sample_ai (str "RSET" ++ CRLF) 4 = Ok (Some cmd) /\
    refines DbRbtree KSet (sample_cmdenv 1000) sample_server
      (OSet (str "k") (kd_of (str "v")) 11000)
      (kvs_execute_batch (sample_cmdenv 1000) sample_server (Some cmd) sample_request).
Proof.
  split; [by repeat constructor|].
  apply (basic_command_refines (H := sample_ai) "RSET" DbRbtree KSet (sample_cmdenv 1000)
    sample_server sample_request (OSet (str "k") (kd_of (str "v")) 11000) CRLF).
  - by repeat constructor.
  - by vm_compute.
  - done.
  - apply sample_engines_ok.
Defined.
