(* ===== verification/Records.v ===== *)
(** * Replies made of several records (kvstore.c)

    GETIDXREC and ZRANGEREC join the records of a list of ids with newlines in
    a buffer that doubles when it is full.  The file proves that the buffer is
    never overrun and that the reply holds the records that exist, in the
    order of the ids. *)

From S2P Require Import Prelude KvData Engine Resp Store Ai Commands HashEngine.

Open Scope Z_scope.

(** ** One record *)

(** The records in the order of the ids, each after a newline but the
    [first]. *)
Fixpoint lines (first : bool) (recs : list bytes) : bytes :=
  match recs with
  | [] => []
  | r :: recs => (if first then r else LF :: r) ++ lines false recs
  end.

Lemma lines_join recs : lines true recs = join LF recs.
Proof.
  assert (Hj : forall recs, recs <> [] -> lines false recs = LF :: join LF recs).
  { induction recs0 as [|r [|r' l] IH]; intros Hne; simpl; [done|by rewrite app_nil_r|].
    simpl in IH. rewrite IH by done. done. }
  destruct recs as [|r [|r' l]]; [done|simpl; by rewrite app_nil_r|].
  cbn [lines]. change ((LF :: r') ++ lines false l) with (lines false (r' :: l)).
  by rewrite Hj.
Qed.

(** The record a client reads under an id: none when it is absent, expired or
    empty. *)
Definition record_of (e : cenv) (m : kvmap) (id : bytes) : option bytes :=
  match live e m (cstr id) with
  | Some (b :: l) => Some (b :: l)
  | _ => None
  end.

Definition rec_size (l : list bytes) : Z := Z.of_nat (length (lines false l)).

(** The capacity bounds the buffer. *)
Definition recbuf_ok (b : recbuf) : Prop :=
  hash_inv (rb_hash b) /\ 0 < rb_cap b < 2 ^ 64 /\ 4096 <= rb_cap b /\
  Z.of_nat (length (rb_buf b)) <= rb_cap b.

Definition first_of (b : recbuf) : bool := (rb_written b =? 0)%nat.

Section records.
Context (c : cmdenv) (now : Z) (Hnow : forall k, c_now c k = now).
Context (m : kvmap).

Let e : cenv := call c 0.

Lemma live_call k m' id : live (call c k) m' id = live e m' id.
Proof. unfold live, is_expired, e. simpl. by rewrite !Hnow. Qed.

(** The table still gives the records of [m]. *)
Definition same_live (t : kvs_hash) : Prop := forall k, live e (hash_abs t) k = live e m k.

Lemma add_record_spec k b id :
  recbuf_ok b -> same_live (rb_hash b) ->
  Z.of_nat (length (rb_buf b))
    + rec_size (option_list (record_of e m id)) < 2 ^ 62 ->
  exists b' ok, add_record c k b id = (b', ok) /\ recbuf_ok b' /\ same_live (rb_hash b') /\
    (cmd_mem_ok c -> ok = true) /\
    (ok = true ->
     rb_buf b' = rb_buf b ++ lines (first_of b) (option_list (record_of e m id)) /\
     rb_written b' = (rb_written b + length (option_list (record_of e m id)))%nat).
Proof.
  intros (Hh & Hc & Hc4 & Hlen) Hsame Hsz.
  pose proof (eng_get_live (T := kvs_hash) (call c k) (rb_hash b) (cstr id) Hh I) as Hl.
  pose proof (eng_get_keeps_live (T := kvs_hash) (call c k) (rb_hash b) (cstr id)) as Hkeep.
  pose proof (eng_get_inv (T := kvs_hash) (call c k) (rb_hash b) (cstr id) Hh I) as Hinv.
  change (eng_get (T := kvs_hash)) with kvs_hash_get in *.
  change (eng_abs (T := kvs_hash)) with hash_abs in *.
  change (eng_inv (T := kvs_hash)) with hash_inv in *.
  unfold add_record. rewrite live_call, Hsame in Hl. unfold record_of in *.
  destruct (kvs_hash_get (call c k) (rb_hash b) (kd_of (cstr id))) as [t r]. cbn [fst snd] in *.
  assert (Hsame' : same_live t).
  { intros k'. specialize (Hkeep k' Hh I). rewrite !live_call in Hkeep. by rewrite Hkeep. }
  rewrite <- Hl in *. destruct r as [d|]; cbn [fmap option_fmap option_map] in *.
  2: { eexists _, true. split; [done|]. split_and!; try done. intros _. simpl.
       by rewrite app_nil_r, Nat.add_0_r. }
  destruct (kd_bytes d) as [|x rec]; cbn [option_list] in *.
  { eexists _, true. split; [done|]. split_and!; try done. intros _. simpl.
    by rewrite app_nil_r, Nat.add_0_r. }
  change (option_list (Some (x :: rec))) with [x :: rec] in *.
  assert (Hrc : rec_size [x :: rec] = Z.of_nat (length (x :: rec)) + 1).
  { unfold rec_size. simpl. rewrite app_nil_r. lia. }
  rewrite Hrc in Hsz. clear Hrc. set (rc := x :: rec) in *. clearbody rc. rewrite (u64_small (_ + _ + 2)) by lia.
  remember (Z.of_nat (length (rb_buf b)) + Z.of_nat (length rc) + 2) as need eqn:Hneed.
  set (cap := if rb_cap b <? need then double_cap 64 (rb_cap b) need else rb_cap b).
  assert (Hcap : need <= cap /\ rb_cap b <= cap < 2 ^ 64).
  { unfold cap. destruct (Z.ltb_spec (rb_cap b) need); [|lia].
    apply double_cap_ok; [done|lia|]. change (Z.of_nat 64) with 64. lia. }
  destruct ((rb_cap b <? need) && negb (alloc_ok (call c k) 2 cap)) eqn:Ea.
  - eexists _, false. split; [done|]. unfold recbuf_ok. split_and!; simpl; try done; try lia.
    intros Hm. exfalso. apply andb_true_iff in Ea as [_ Ea]. apply negb_true_iff in Ea.
    unfold alloc_ok in Ea. rewrite (Hm k 2%nat cap), (proj2 (Z.eqb_neq cap 0)) in Ea by lia. done.
  - eexists _, true. split; [done|]. unfold recbuf_ok. split_and!; simpl; try done; try lia.
    + rewrite length_app. destruct (0 <? rb_written b)%nat; rewrite ?length_app; simpl; lia.
    + intros _. rewrite app_nil_r, Nat.add_1_r. split; [|done]. unfold first_of.
      destruct (rb_written b); simpl; [done|]. by rewrite <- app_assoc.
Qed.

Lemma lines_app first l1 l2 :
  lines first (l1 ++ l2) = lines first l1 ++ lines (first && (length l1 =? 0)%nat) l2.
Proof.
  revert first. induction l1 as [|r l1 IH]; intros first; simpl; [by rewrite andb_true_r|].
  rewrite IH, andb_false_r, app_assoc. done.
Qed.

Lemma lines_le first l : (length (lines first l) <= length (lines false l))%nat.
Proof. destruct l as [|r l]; simpl; [done|]. rewrite !length_app. destruct first; simpl; lia. Qed.

(** The whole loop. *)
Lemma add_records_spec k b ids :
  recbuf_ok b -> same_live (rb_hash b) ->
  Z.of_nat (length (rb_buf b)) + rec_size (omap (record_of e m) ids) < 2 ^ 62 ->
  exists b' ok, add_records c k b ids = (b', ok) /\ recbuf_ok b' /\ same_live (rb_hash b') /\
    (cmd_mem_ok c -> ok = true) /\
    (ok = true ->
     rb_buf b' = rb_buf b ++ lines (first_of b) (omap (record_of e m) ids) /\
     rb_written b' = (rb_written b + length (omap (record_of e m) ids))%nat).
Proof.
  revert k b. induction ids as [|id ids IH]; intros k b Hok Hs Hsz; cbn [add_records].
  { exists b, true. split_and!; try done. intros _. simpl. by rewrite app_nil_r, Nat.add_0_r. }
  assert (Hom : omap (record_of e m) (id :: ids)
    = option_list (record_of e m id) ++ omap (record_of e m) ids).
  { simpl. by destruct (record_of e m id). }
  unfold rec_size in Hsz. rewrite Hom in *. rewrite lines_app, length_app in Hsz. cbn [andb] in Hsz.
  destruct (add_record_spec k b id Hok Hs) as (b1 & ok & -> & Hok1 & Hs1 & Hm1 & Hb1);
    [unfold rec_size; lia|].
  destruct ok; [|exists b1, false; split_and!; try done; intros Hm; by specialize (Hm1 Hm)].
  destruct (Hb1 eq_refl) as [Hbuf Hw].
  destruct (IH (S k) b1 Hok1 Hs1) as (b2 & ok & -> & Hok2 & Hs2 & Hm2 & Hb2).
  { rewrite Hbuf, length_app. unfold rec_size.
    pose proof (lines_le (first_of b) (option_list (record_of e m id))). lia. }
  exists b2, ok. split_and!; try done. intros ->. destruct (Hb2 eq_refl) as [-> ->].
  rewrite Hbuf, Hw, lines_app, <- app_assoc. split.
  - do 2 f_equal. unfold first_of. rewrite Hw. by destruct (rb_written b), (record_of e m id).
  - rewrite length_app. lia.
Qed.
End records.

(** ** The replies *)

(** A client reads the same under every key of every store. *)
Definition same_reads (e : cenv) (s s' : engines) : Prop :=
  forall d k, live e (store_abs s' d) k = live e (store_abs s d) k.

(** The reply made of the records [recs]. *)
Definition records_reply (recs : list bytes) : resp_reply :=
  match recs with
  | [] => status_reply KVS_RESP_NO_EXISTS
  | _ => RespReply KVS_RESP_GET_OK (Some (join LF recs))
  end.

Lemma put_same_reads (sl : slot kvs_hash) d `{!SlotOf sl d} e s t :
  (forall k, live e (hash_abs t) k = live e (store_abs s d) k) ->
  same_reads e s (sl_put sl t s).
Proof.
  intros Ht d' k. rewrite slot_put_abs. unfold db_upd. case_decide as Hd; [|done].
  subst d'. apply Ht.
Qed.

Section replies.
Context (c : cmdenv) (now : Z) (Hnow : forall k, c_now c k = now) (Hmem : cmd_mem_ok c).
Context (s : server) (Hinv : store_inv (sv_eng s)).

Let e : cenv := call c 0.
Let recs_of (ids : list bytes) : list bytes :=
  omap (record_of e (store_abs (sv_eng s) DbHash3)) ids.

Lemma build_records_spec k ids :
  rec_size (recs_of ids) < 2 ^ 62 ->
  exists s', build_records_newline c k s ids = (s', records_reply (recs_of ids)) /\
    store_inv (sv_eng s') /\ same_reads e (sv_eng s) (sv_eng s').
Proof.
  intros Hsz. unfold build_records_newline. destruct ids as [|id ids]; [by eexists|].
  set (l := id :: ids) in *. replace (length l =? 0)%nat with false by done.
  clearbody l.
  assert (Hb : recbuf_ok (RecBuf (global_hash3 (sv_eng s)) [] 4096 0)).
  { unfold recbuf_ok. split_and!; simpl; try done; try lia. exact (Hinv DbHash3). }
  destruct (add_records_spec c now Hnow (store_abs (sv_eng s) DbHash3) (S k) _ l Hb)
    as (b' & ok & -> & Hok & Hs & Hm & Hbuf); [done|exact Hsz|].
  specialize (Hm Hmem). subst ok. destruct (Hbuf eq_refl) as [Hd Hw].
  unfold alloc_ok. rewrite (Hmem k). cbn [negb andb Z.eqb].
  eexists. split; [|split].
  - do 2 f_equal. rewrite Hw, Hd. simpl. unfold first_of. simpl. rewrite lines_join.
    unfold records_reply, recs_of, e. by destruct (omap _ l).
  - apply (slot_put_inv (d := DbHash3)); [done|]. apply Hok.
  - apply (put_same_reads slot_hash3 DbHash3). exact Hs.
Qed.
End replies.

Lemma copy_ids_ok e i count cap pieces :
  mem_ok e -> 0 < cap -> copy_ids e i count cap pieces = Some (filter (fun p => p <> []) pieces).
Proof.
  intros Hm. revert i count cap. induction pieces as [|[|b p] pieces IH]; intros i count cap Hc;
    cbn [copy_ids]; [done|rewrite filter_cons_False by tauto; by apply IH|].
  rewrite filter_cons_True by done. unfold alloc_ok. rewrite !Hm, !andb_true_r.
  destruct (cap <=? count).
  - rewrite (proj2 (Z.eqb_neq (8 * (cap * 2)) 0)) by lia. cbn [negb andb].
    rewrite (proj2 (Z.eqb_neq _ 0)) by lia. cbn [negb]. by rewrite IH by lia.
  - cbn [andb]. rewrite (proj2 (Z.eqb_neq _ 0)) by lia. cbn [negb]. by rewrite IH.
Qed.

(** The ids a keyword has. *)
Definition keyword_ids (e : cenv) (m : kvmap) (k : bytes) : list bytes :=
  match live e m k with
  | Some l => filter (fun p => p <> []) (split_comma l)
  | None => []
  end.

(** The answer as the client gets it. *)
Lemma records_reply_text recs :
  rec_size recs < 2 ^ 31 ->
  resp_pack (records_reply recs)
  = Ok (match recs with [] => str "$-1" ++ CRLF | _ => resp_bulk (join LF recs) end).
Proof.
  intros Hsz. assert (Hl : (length (join LF recs) <= length (lines false recs))%nat).
  { rewrite <- lines_join. destruct recs; [done|]. simpl. rewrite !length_app. simpl. lia. }
  rewrite resp_pack_ok; [by destruct recs|]. unfold body_ok, rec_size in *.
  destruct recs as [|r recs]; [done|]. cbn [records_reply rep_body]. lia.
Qed.

(** C32.  With memory and the clock standing still during the command,
    GETIDXREC answers with the records of the keyword's ids that exist, in the
    order of the index, joined by newlines, or with nil when there is none;
    reading changes nothing a client can see.  The records are shorter than
    2 GB together, so that the [int] that counts them holds their length and
    the client is sent exactly this text. *)
Theorem cmd_getidxrec_records c now s req k :
  (forall n, c_now c n = now) -> cmd_mem_ok c -> store_inv (sv_eng s) ->
  req_argc req = 2 -> arg_data req 1 = Ok k ->
  let e := call c 0 in
  let recs := omap (record_of e (store_abs (sv_eng s) DbHash3))
                (keyword_ids e (store_abs (sv_eng s) DbHash4) (kd_bytes k)) in
  rec_size recs < 2 ^ 31 ->
  exists s', cmd_getidxrec c s req = Ok (s', records_reply recs) /\
    resp_pack (records_reply recs)
      = Ok (match recs with [] => str "$-1" ++ CRLF | _ => resp_bulk (join LF recs) end) /\
    store_inv (sv_eng s') /\ same_reads e (sv_eng s) (sv_eng s').
Proof.
  intros Hnow Hmem Hinv Hargc Hk e recs Hsz.
  enough (exists s', cmd_getidxrec c s req = Ok (s', records_reply recs) /\
    store_inv (sv_eng s') /\ same_reads e (sv_eng s) (sv_eng s')) as (s' & ? & ? & ?).
  { exists s'. by split_and!; [|apply records_reply_text| |]. }
  assert (Hsz' : rec_size recs < 2 ^ 62) by lia. clear Hsz. rename Hsz' into Hsz. unfold cmd_getidxrec. rewrite Hargc, Hk. cbn [rbind].
  replace k with (kd_of (kd_bytes k)).
  2: { revert Hk. unfold arg_data. destruct (argn req 1); simpl; [|done].
       destruct (_ && _); [|done]. by intros [= <-]. }
  pose proof (eng_get_live (T := kvs_hash) (call c 0) (global_hash4 (sv_eng s)) (kd_bytes k)
    (Hinv DbHash4) I) as Hl.
  pose proof (eng_get_keeps_live (T := kvs_hash) (call c 0) (global_hash4 (sv_eng s)) (kd_bytes k))
    as Hkeep.
  pose proof (eng_get_inv (T := kvs_hash) (call c 0) (global_hash4 (sv_eng s)) (kd_bytes k)
    (Hinv DbHash4) I) as Hi.
  change (eng_get (T := kvs_hash)) with kvs_hash_get in *.
  change (eng_abs (global_hash4 (sv_eng s))) with (store_abs (sv_eng s) DbHash4) in *.
  unfold keyword_ids in *. fold e in Hl, Hkeep, Hi |- *.
  destruct (kvs_hash_get e (global_hash4 (sv_eng s)) (kd_of (kd_bytes k))) as [t r].
  cbn [fst snd] in *. unfold recs in *. clear recs. rewrite <- Hl in *.
  set (s1 := with_eng (sl_put slot_hash4 t (sv_eng s)) s).
  assert (Hs1 : same_reads e (sv_eng s) (sv_eng s1)).
  { apply (put_same_reads slot_hash4 DbHash4). intros k'. apply Hkeep; [exact (Hinv DbHash4)|done]. }
  assert (Hi1 : store_inv (sv_eng s1)) by by apply (slot_put_inv (d := DbHash4)).
  destruct (kd_bytes <$> r) as [[|b l]|]; [by exists s1| |by exists s1].
  rewrite copy_ids_ok by (done || apply Hmem).
  unfold alloc_ok. rewrite (Hmem 1%nat). cbn [negb andb Z.eqb].
  destruct (build_records_spec c now Hnow Hmem s1 Hi1 2
    (filter (fun p => p <> []) (split_comma (b :: l)))) as (s2 & Hb & Hi2 & Hs2); [exact Hsz|].
  exists s2. rewrite Hb. split_and!; [done|done|]. intros d k'. by rewrite Hs2, Hs1.
Qed.

(** One record and an index entry that names it and a missing one. *)
Definition add_sample (s : engines) : engines :=
  let e := call (sample_cmdenv 5) 0 in
  let s3 := sl_put slot_hash3 (kvs_hash_set e (global_hash3 s) (kd_of (str "a"))
                                 (kd_of (str "record a")) 0).1 s in
  sl_put slot_hash4 (kvs_hash_set e (global_hash4 s3) (kd_of (str "word"))
                       (kd_of (str "b,a")) 0).1 s3.

Lemma add_sample_ok s : store_inv s -> store_inv (add_sample s).
Proof.
  intros Hi. unfold add_sample.
  pose proof (eng_set_inv (T := kvs_hash) (call (sample_cmdenv 5) 0) (global_hash3 s)
    (str "a") (kd_of (str "record a")) 0 (Hi DbHash3) I) as H3.
  pose proof (slot_put_inv (sl := slot_hash3) (d := DbHash3) s _ Hi H3) as Hs3.
  apply (slot_put_inv (sl := slot_hash4) (d := DbHash4)); [exact Hs3|].
  exact (eng_set_inv (T := kvs_hash) (call (sample_cmdenv 5) 0) (global_hash4 s)
    (str "word") (kd_of (str "b,a")) 0 (Hi DbHash4) I).
Qed.

Definition sample_index_server : server := with_eng (add_sample sample_engines) sample_server.

Lemma sample_index_ok : store_inv (sv_eng sample_index_server).
Proof. apply add_sample_ok, sample_engines_ok. Qed.

Lemma cmd_getidxrec_records_witness :
  let recs := omap (record_of (call (sample_cmdenv 5) 0) (store_abs (sv_eng sample_index_server) DbHash3))
    (keyword_ids (call (sample_cmdenv 5) 0) (store_abs (sv_eng sample_index_server) DbHash4)
       (str "word")) in
  exists s', cmd_getidxrec (sample_cmdenv 5) sample_index_server
      (request_of [str "GETIDXREC"; str "word"]) = Ok (s', records_reply recs) /\
    resp_pack (records_reply recs)
      = Ok (match recs with [] => str "$-1" ++ CRLF | _ => resp_bulk (join LF recs) end) /\
    store_inv (sv_eng s') /\
    same_reads (call (sample_cmdenv 5) 0) (sv_eng sample_index_server) (sv_eng s').
Proof.
  apply (cmd_getidxrec_records (sample_cmdenv 5) 5 sample_index_server
    (request_of [str "GETIDXREC"; str "word"]) (kd_of (str "word"))).
  - done.
  - done.
  - exact sample_index_ok.
  - done.
  - by vm_compute.
  - by vm_compute.
Defined.

Example getidxrec_sample :
  match cmd_getidxrec (sample_cmdenv 5) sample_index_server
          (request_of [str "GETIDXREC"; str "word"]) with
  | Ok (_, r) => Some r
  | UB => None
  end = Some (RespReply KVS_RESP_GET_OK (Some (str "record a"))).
Proof. vm_compute. done. Qed.
