(* ===== verification/Protocol.v ===== *)
(** * The protocol layer (resp.c, expire.c)

    [protocol_process_stream] cuts the receive buffer into requests, logs the
    write commands, feeds the replication backlog, runs each command and packs
    its reply; [protocol_process_recover] replays a log;
    [protocol_handle_internal_del] logs the deletions the expiry thread asks
    for and [expire_process_deletes] runs them.  Each turn of a loop has its
    own environment. *)

From S2P Require Import Prelude KvData Engine Config Resp Repl Aof ExpireQueue Store Ai.
From S2P Require Import Commands Lookup ArrayEngine HashEngine RbTree SkipList.

Open Scope Z_scope.
Open Scope kvs_scope.

(** ** Outcomes *)

Definition of_outcome (o : outcome) : run aof :=
  match o with Done a => Ret a | Blocks => Hangs | OutOfEvents => MoreAnswers end.

(** ** State and environment *)

(** The server with its log. *)
Record node := Node {
  nd_sv : server;
  nd_aof : aof
}.

(** The environment of one turn: the command's and the kernel's answers to
    the write of the log. *)
Record turn := Turn {
  tn_cmd : cmdenv;
  tn_uring : list uring
}.

Definition tn_glob (t : turn) : globals := c_glob (tn_cmd t).

(** Where the replies go: the code passes three NULL pointers when the client
    gets none. *)
Definition pack_to (e : cenv) (w : option wbuf) (r : resp_reply) : res (option wbuf) :=
  match w with
  | Some w => let* w := resp_pack_with_realloc e 0 w r in Ok (Some w)
  | None => Ok None
  end.

(** ** Special commands *)

(** [temp_req.argc > 0 && argv_len[0] == len && strncasecmp(argv[0], ...)] *)
Definition req_is (name : bytes) (req : resp_request) : bool :=
  (0 <? req_argc req) &&
  match req_argv req !! 0%nat with
  | Some a => cmd_is name (arg_ptr a) (arg_len a)
  | None => false
  end.

(** RDMA_CONNECT makes its sender the slave; its arguments and the RDMA
    context are used without being tested.  The configuration of the queue
    pair and the acknowledgement change no state of the model. *)
Definition handle_slave_rdma_connect (s : server) (fd : Z) (req : resp_request) : run server :=
  if (req_argc req <? 5) || negb (sv_rdma_ctx s) then Undef
  else Ret (with_repl (set_slave_fd fd (sv_repl s)) s).

(** The branch for a master: the new state, and whether the command is done. *)
Definition special_repl (t : turn) (fd : Z) (s : server) (req : resp_request)
  : run (server * bool) :=
  if g_enable_repl_master (tn_glob t) then
    if req_is (str "RDMA_CONNECT") req then
      let! s := handle_slave_rdma_connect s fd req in Ret (s, true)
    else if g_use_tcp_sync (tn_glob t) && req_is (str "SYNC") req then
      Ret (with_repl (set_slave_fd fd (sv_repl s)) s, false)
    else Ret (s, false)
  else Ret (s, false).

(** The reply to PING; the copy of its argument is made without testing the
    allocation, and an empty argument gives a NULL body. *)
Definition ping_reply (t : turn) (req : resp_request) : run resp_reply :=
  if req_argc req =? 1 then Ret (status_reply KVS_RESP_PONG)
  else if req_argc req =? 2 then
    let! d := of_res (arg_data req 1) in
    match kd_bytes d with
    | [] => Ret (RespReply KVS_RESP_GET_OK None)
    | b :: l =>
      if alloc_ok (call (tn_cmd t) 51) 0 (kd_len d)
      then Ret (RespReply KVS_RESP_GET_OK (Some (b :: l))) else Undef
    end
  else Ret (status_reply KVS_RESP_PARSE_ERROR).

(** ** Logging *)

(** The log and the backlog get the bytes of a write command. *)
Definition log_write (t : turn) (nd : node) (raw : bytes) : run node :=
  let! a := if aof_enabled (tn_glob t)
            then of_outcome (kvs_persistence_write (tn_uring t) (nd_aof nd) raw)
            else Ret (nd_aof nd) in
  let! r := if backlog_wanted (tn_glob t) (sv_repl (nd_sv nd))
            then of_res (backlog_push (call (tn_cmd t) 52) 0 (sv_repl (nd_sv nd)) raw)
            else Ret (sv_repl (nd_sv nd)) in
  Ret (Node (with_repl r (nd_sv nd)) a).

Section protocol.
Context `{AiOps}.

(** ** One request *)

(** The body of the loop after the request was unpacked; [raw] are its
    bytes. *)
Definition process_request (t : turn) (fd : Z) (nd : node) (w : option wbuf) (raw : bytes)
  (req : resp_request) : run (node * option wbuf) :=
  let! r := special_repl t fd (nd_sv nd) req in
  let '(s, rdma_done) := r in
  let nd := Node s (nd_aof nd) in
  let ping := req_is (str "PING") req in
  let! w := if ping then
              let! p := ping_reply t req in of_res (pack_to (call (tn_cmd t) 53) w p)
            else Ret w in
  if rdma_done || ping then Ret (nd, w)
  else
    let! cmd := if 0 <? req_argc req then
                  let! a := of_res (argn req 0) in
                  of_res (lookup_command (arg_ptr a) (arg_len a))
                else Ret None in
    let is_write := (0 <? req_argc req) &&
      match req_argv req !! 0%nat with
      | Some a => is_write_command (arg_ptr a) (arg_len a)
      | None => false
      end in
    let! nd := if is_write then log_write t nd raw else Ret nd in
    let! r := of_res (kvs_execute_batch (tn_cmd t) (nd_sv nd) cmd req) in
    let '(s, reply) := r in
    let! w := of_res (pack_to (call (tn_cmd t) 54) w reply) in
    Ret (Node s (nd_aof nd), w).

(** ** The stream *)

(** [in_buf + p .. in_buf + p + len] *)
Definition slice (buf : bytes) (p len : Z) : bytes := take (Z.to_nat len) (drop (Z.to_nat p) buf).

(** The [while (processed < in_len)]; [n] counts its turns.  A request of
    negative length would take [processed] back. *)
Fixpoint stream_loop (fuel : nat) (ts : nat -> turn) (n : nat) (fd : Z) (buf : bytes)
  (processed : Z) (nd : node) (w : option wbuf) : run (Z * node * option wbuf) :=
  match fuel with
  | O => MoreFuel
  | S fuel =>
    let in_len := Z.of_nat (length buf) in
    if processed <? in_len then
      let! found := of_res (has_complete_resp_command buf processed (in_len - processed)) in
      match found with
      | None => Ret (processed, nd, w)
      | Some len =>
        let! req := of_res (resp_unpack_no_modify (call (tn_cmd (ts n)) 50) 0 buf processed len) in
        let! r := process_request (ts n) fd nd w (slice buf processed len) req in
        let '(nd, w) := r in
        stream_loop fuel ts (S n) fd buf (processed + len) nd w
      end
    else Ret (processed, nd, w)
  end.

(** [protocol_process_stream]: the status and the number of bytes parsed,
    none when it is not set. *)
Definition protocol_process_stream (fuel : nat) (ts : nat -> turn) (fd : Z) (buf : bytes)
  (nd : node) (w : option wbuf) : run (Z * option Z * node * option wbuf) :=
  match buf with
  | [] => Ret (0, Some 0, nd, w)
  | b :: _ =>
    if negb (bool_decide (b = STAR)) then Ret (-1, None, nd, w)
    else
      let! r := stream_loop fuel ts 0 fd buf 0 nd w in
      let '(processed, nd, w) := r in
      Ret (0, Some processed, nd, w)
  end.

(** ** Recovery *)

(** One request of the log; the copies of the two argument arrays are made
    without testing the allocations. *)
Definition recover_request (t : turn) (s : server) (req : resp_request) : run server :=
  let e := call (tn_cmd t) 55 in
  if (req_argc req <? 0) ||
     ((0 <? req_argc req) &&
      negb (alloc_ok e 0 (8 * req_argc req) && alloc_ok e 1 (4 * req_argc req))) then Undef
  else
    let! cmd := if 0 <? req_argc req then
                  let! a := of_res (argn req 0) in
                  of_res (lookup_command (arg_ptr a) (arg_len a))
                else Ret None in
    let! r := of_res (kvs_execute_batch (tn_cmd t) s cmd req) in
    Ret r.1.

Fixpoint recover_loop (fuel : nat) (ts : nat -> turn) (n : nat) (buf : bytes) (processed : Z)
  (s : server) : run (Z * server) :=
  match fuel with
  | O => MoreFuel
  | S fuel =>
    let in_len := Z.of_nat (length buf) in
    if processed <? in_len then
      let! found := of_res (has_complete_resp_command buf processed (in_len - processed)) in
      match found with
      | None => Ret (processed, s)
      | Some len =>
        let! req := of_res (resp_unpack_no_modify (call (tn_cmd (ts n)) 50) 0 buf processed len) in
        let! s := recover_request (ts n) s req in
        recover_loop fuel ts (S n) buf (processed + len) s
      end
    else Ret (processed, s)
  end.

(** [protocol_process_recover]; the length of the buffer is an [int]. *)
Definition protocol_process_recover (fuel : nat) (ts : nat -> turn) (buf : bytes) (s : server)
  : run (Z * server) :=
  if Z.of_nat (length buf) <=? 0 then Ret (0, s) else recover_loop fuel ts 0 buf 0 s.
End protocol.

(** ** Deletions by the expiry thread *)

(** The text of the internal delete command. *)
Definition internal_del_text (cmd key : bytes) : bytes := resp_encode [cmd; key].

(** [protocol_handle_internal_del] *)
Definition protocol_handle_internal_del (t : turn) (nd : node) (cmd key : bytes) : run node :=
  let raw := internal_del_text cmd key in
  if alloc_ok (call (tn_cmd t) 0) 0 (Z.of_nat (length raw) + 1) then log_write t nd raw
  else Ret nd.

(** [engine_del_if_expired] *)
Definition engine_del_if_expired (e : cenv) (s : engines) (type : Z) (key : kv_data)
  (expected_expire : Z) : engines * Z :=
  let del {T} `{KvEngine T} (sl : slot T) :=
    let '(t, r) := eng_del_if_expired e (sl_get sl s) key expected_expire in
    (sl_put sl t s, r) in
  if type =? EXPIRE_TYPE_ARRAY then del slot_array
  else if type =? EXPIRE_TYPE_HASH then del slot_hash
  else if type =? EXPIRE_TYPE_HASH2 then del slot_hash2
  else if type =? EXPIRE_TYPE_RBTREE then del slot_rbtree
  else if type =? EXPIRE_TYPE_SKIPLIST then del slot_skip
  else (s, 0).

Definition del_command (type : Z) : bytes :=
  if type =? EXPIRE_TYPE_ARRAY then str "DEL"
  else if type =? EXPIRE_TYPE_HASH then str "HDEL"
  else if type =? EXPIRE_TYPE_HASH2 then str "DELCTX"
  else if type =? EXPIRE_TYPE_RBTREE then str "RDEL"
  else if type =? EXPIRE_TYPE_SKIPLIST then str "SDEL"
  else str "DEL".

(** One item of the delete queue. *)
Definition process_delete (t : turn) (nd : node) (item : expire_item) : run node :=
  let '(en, deleted) := engine_del_if_expired (call (tn_cmd t) 1) (sv_eng (nd_sv nd))
                          (ei_type item) (KvData (Some (ei_key item)) (ei_hash item))
                          (ei_expire_time item) in
  let nd := Node (with_eng en (nd_sv nd)) (nd_aof nd) in
  if deleted =? 0 then Ret nd
  else protocol_handle_internal_del t nd (del_command (ei_type item)) (ei_key item).

(** [expire_process_deletes]: at most 500 items. *)
Fixpoint process_deletes (cnt : nat) (ts : nat -> turn) (n : nat) (q : expire_queue) (nd : node)
  : run (expire_queue * node) :=
  match cnt with
  | O => Ret (q, nd)
  | S cnt =>
    match queue_pop q with
    | (_, None) => Ret (q, nd)
    | (q, Some item) =>
      let! nd := process_delete (ts n) nd item in process_deletes cnt ts (S n) q nd
    end
  end.

Definition expire_process_deletes (ts : nat -> turn) (q : expire_queue) (nd : node)
  : run (expire_queue * node) :=
  process_deletes 500 ts 0 q nd.

(** ** A node for the examples *)

(** A server that keeps a log and has no slave. *)
Definition alone_globals : globals := Globals true false true false false false false false false.

Definition sample_turn (now : Z) : turn :=
  Turn (CmdEnv alone_globals (fun _ => now) (fun _ _ _ => true) (now / 1000) 1 42 0 (fun _ => None) 0)
    [].

Definition sample_node : node := Node sample_server (Aof true [] [] false 0 0 0 []).
