(* ===== verification/ProtocolSpec.v ===== *)
(** * What the protocol layer promises

    A receive buffer that holds any number of encoded requests and the
    beginning of another one is processed request by request, in order, and
    the partial request is left in the buffer; the log of the write commands
    replays to the same server; but a request with a negative bulk length can
    send the loop back to where it was. *)

From S2P Require Import Prelude KvData Engine Config Resp Repl Aof ExpireQueue Store Ai.
From S2P Require Import Commands Lookup Protocol.

Open Scope Z_scope.
Open Scope kvs_scope.

(** ** The requests of a stream *)

Section requests.
Context `{AiOps}.

(** The requests processed one after the other; [tail] is what follows the
    last one in the buffer. *)
Fixpoint run_requests (ts : nat -> turn) (n : nat) (fd : Z) (nd : node) (w : option wbuf)
  (cmds : list (list bytes)) (tail : bytes) : run (node * option wbuf) :=
  match cmds with
  | [] => Ret (nd, w)
  | args :: cmds =>
    let! r := process_request (ts n) fd nd w (resp_encode args)
                (request_at args (concat (resp_encode <$> cmds) ++ tail)) in
    let '(nd, w) := r in run_requests ts (S n) fd nd w cmds tail
  end.

Fixpoint replay_requests (ts : nat -> turn) (n : nat) (s : server) (cmds : list (list bytes))
  (tail : bytes) : run server :=
  match cmds with
  | [] => Ret s
  | args :: cmds =>
    let! s := recover_request (ts n) s
                (request_at args (concat (resp_encode <$> cmds) ++ tail)) in
    replay_requests ts (S n) s cmds tail
  end.
End requests.

(** What may be left in the buffer: the beginning of an encoded request. *)
Definition partial (tail : bytes) : Prop :=
  exists args k, resp_size_ok args /\ (k < length (resp_encode args))%nat /\
    tail = take k (resp_encode args).

Lemma partial_nil : partial [].
Proof. exists [], 0%nat. split_and!; [by repeat constructor|by vm_compute; lia|done]. Qed.

(** The unpacking of every turn gets its memory. *)
Definition unpack_mem (ts : nat -> turn) : Prop := forall n, mem_ok (call (tn_cmd (ts n)) 50).

Lemma resp_encode_head args : exists l, resp_encode args = STAR :: l.
Proof. by eexists. Qed.

Lemma slice_mid pre x r :
  slice (pre ++ x ++ r) (Z.of_nat (length pre)) (Z.of_nat (length x)) = x.
Proof. unfold slice. by rewrite !Nat2Z.id, drop_app_length, take_app_length. Qed.

(** One turn of either loop on an encoded request. *)
Lemma next_request ts n pre args r :
  unpack_mem ts -> resp_size_ok args ->
  let buf := pre ++ resp_encode args ++ r in
  has_complete_resp_command buf (Z.of_nat (length pre))
    (Z.of_nat (length buf) - Z.of_nat (length pre))
    = Ok (Some (Z.of_nat (length (resp_encode args)))) /\
  resp_unpack_no_modify (call (tn_cmd (ts n)) 50) 0 buf (Z.of_nat (length pre))
    (Z.of_nat (length (resp_encode args))) = Ok (request_at args r) /\
  (Z.of_nat (length pre) <? Z.of_nat (length buf)) = true.
Proof.
  intros Hm Hs buf. unfold buf. rewrite !length_app. split_and!.
  - apply has_complete_full; [done|lia].
  - apply resp_unpack_full; [apply Hm|done].
  - destruct (resp_encode_head args) as [l ->]. apply Z.ltb_lt. simpl. lia.
Qed.

(** A loop over the buffer ends at [tail]. *)
Definition stops (tail : bytes) : Prop := forall pre,
  (Z.of_nat (length pre) <? Z.of_nat (length (pre ++ tail))) = false \/
  has_complete_resp_command (pre ++ tail) (Z.of_nat (length pre))
    (Z.of_nat (length (pre ++ tail)) - Z.of_nat (length pre)) = Ok None.

Lemma partial_stop tail : partial tail -> stops tail.
Proof.
  intros (args & k & Hs & Hk & ->) pre. right. rewrite length_app, length_take.
  replace (Z.of_nat (length pre + k `min` length (resp_encode args)) - Z.of_nat (length pre))
    with (Z.of_nat k) by lia.
  by apply has_complete_cut.
Qed.

Section stream.
Context `{AiOps}.
Context (ts : nat -> turn) (Hm : unpack_mem ts).

Lemma stream_loop_requests fuel n fd pre cmds tail nd w :
  Forall resp_size_ok cmds -> partial tail -> (length cmds < fuel)%nat ->
  stream_loop fuel ts n fd (pre ++ concat (resp_encode <$> cmds) ++ tail)
    (Z.of_nat (length pre)) nd w
  = let! r := run_requests ts n fd nd w cmds tail in
    Ret (Z.of_nat (length (pre ++ concat (resp_encode <$> cmds))), r.1, r.2).
Proof.
  intros Hs Ht. revert fuel n pre nd w.
  induction Hs as [|args cmds Ha Hs IH]; intros fuel n pre nd w Hf;
    (destruct fuel as [|fuel]; [simpl in Hf; lia|]); cbn [stream_loop run_requests].
  - cbn [fmap list_fmap concat app]. rewrite app_nil_r.
    destruct (partial_stop tail Ht pre) as [-> | ->]; [done|]. by destruct (_ <? _).
  - rewrite fmap_cons. cbn [concat]. rewrite <- app_assoc.
    destruct (next_request ts n pre args (concat (resp_encode <$> cmds) ++ tail) Hm Ha)
      as (Hc & Hu & Hlt).
    cbv zeta in Hc, Hu, Hlt |- *. rewrite Hlt, Hc. cbn [of_res run_bind].
    rewrite Hu. cbn [of_res run_bind]. rewrite slice_mid.
    destruct (process_request _ _ _ _ _ _) as [[nd1 w1]| | | |]; try done. cbn [run_bind].
    specialize (IH fuel (S n) (pre ++ resp_encode args) nd1 w1 ltac:(simpl in Hf; lia)).
    rewrite <- !app_assoc, length_app, Nat2Z.inj_add in IH. rewrite IH.
    destruct (run_requests _ _ _ _ _ _ _) as [[nd2 w2]| | | |]; done.
Qed.

Lemma recover_loop_stops fuel n pre cmds tail s :
  Forall resp_size_ok cmds -> stops tail -> (length cmds < fuel)%nat ->
  recover_loop fuel ts n (pre ++ concat (resp_encode <$> cmds) ++ tail)
    (Z.of_nat (length pre)) s
  = let! s' := replay_requests ts n s cmds tail in
    Ret (Z.of_nat (length (pre ++ concat (resp_encode <$> cmds))), s').
Proof.
  intros Hs Ht. revert fuel n pre s.
  induction Hs as [|args cmds Ha Hs IH]; intros fuel n pre s Hf;
    (destruct fuel as [|fuel]; [simpl in Hf; lia|]); cbn [recover_loop replay_requests].
  - cbn [fmap list_fmap concat app]. rewrite app_nil_r.
    destruct (Ht pre) as [-> | ->]; [done|]. by destruct (_ <? _).
  - rewrite fmap_cons. cbn [concat]. rewrite <- app_assoc.
    destruct (next_request ts n pre args (concat (resp_encode <$> cmds) ++ tail) Hm Ha)
      as (Hc & Hu & Hlt).
    cbv zeta in Hc, Hu, Hlt |- *. rewrite Hlt, Hc. cbn [of_res run_bind].
    rewrite Hu. cbn [of_res run_bind].
    destruct (recover_request _ _ _) as [s1| | | |]; try done. cbn [run_bind].
    specialize (IH fuel (S n) (pre ++ resp_encode args) s1 ltac:(simpl in Hf; lia)).
    rewrite <- !app_assoc, length_app, Nat2Z.inj_add in IH. rewrite IH.
    destruct (replay_requests _ _ _ _ _) as [s2| | | |]; done.
Qed.
Lemma recover_loop_requests fuel n pre cmds tail s :
  Forall resp_size_ok cmds -> partial tail -> (length cmds < fuel)%nat ->
  recover_loop fuel ts n (pre ++ concat (resp_encode <$> cmds) ++ tail)
    (Z.of_nat (length pre)) s
  = let! s' := replay_requests ts n s cmds tail in
    Ret (Z.of_nat (length (pre ++ concat (resp_encode <$> cmds))), s').
Proof. intros Hs Ht. apply recover_loop_stops; [done|by apply partial_stop]. Qed.
End stream.

(** The first byte of the buffer is right. *)
Lemma stream_head cmds tail :
  partial tail ->
  match concat (resp_encode <$> cmds) ++ tail with
  | [] => cmds = [] /\ tail = []
  | b :: _ => b = STAR
  end.
Proof.
  intros (args & k & _ & _ & ->). destruct cmds as [|c cmds].
  - simpl. destruct (resp_encode_head args) as [l ->]. by destruct k.
  - rewrite fmap_cons. cbn [concat]. by destruct (resp_encode_head c) as [l ->].
Qed.

(** All complete requests of a buffer. *)
Lemma stream_all_requests `{AiOps} fuel ts fd cmds tail nd w :
  unpack_mem ts -> Forall resp_size_ok cmds -> partial tail -> (length cmds < fuel)%nat ->
  protocol_process_stream fuel ts fd (concat (resp_encode <$> cmds) ++ tail) nd w
  = let! r := run_requests ts 0 fd nd w cmds tail in
    Ret (0, Some (Z.of_nat (length (concat (resp_encode <$> cmds)))), r.1, r.2).
Proof.
  intros Hm Hs Ht Hf. unfold protocol_process_stream.
  pose proof (stream_head cmds tail Ht) as Hh.
  pose proof (stream_loop_requests ts Hm fuel 0 fd [] cmds tail nd w Hs Ht Hf) as Hl.
  cbn [app length] in Hl. change (Z.of_nat 0) with 0 in Hl.
  destruct (concat (resp_encode <$> cmds) ++ tail) as [|b buf].
  - by destruct Hh as [-> ->].
  - subst b. rewrite bool_decide_true by done. cbn [negb]. rewrite Hl.
    by destruct (run_requests _ _ _ _ _ _ _) as [[nd1 w1]| | | |].
Qed.

(** C5.  A buffer with any number of complete requests and the beginning of
    another is processed request by request in order: every request is run
    with its own arguments and bytes, once, all of the complete ones are
    consumed and the partial one is left for the next call. *)
Theorem process_stream_requests `{AiOps} fuel ts fd cmds tail nd w :
  unpack_mem ts -> Forall resp_size_ok cmds -> partial tail -> (length cmds < fuel)%nat ->
  protocol_process_stream fuel ts fd (concat (resp_encode <$> cmds) ++ tail) nd w
  = let! r := run_requests ts 0 fd nd w cmds tail in
    Ret (0, Some (Z.of_nat (length (concat (resp_encode <$> cmds)))), r.1, r.2).
Proof. apply stream_all_requests. Qed.

(** ** A stream that is never finished *)

(** A PING followed by a request whose bulk length is -12: the end of the
    bulk is the CR LF of the PING, and the request has length 0. *)
Definition stuck_stream : bytes :=
  resp_encode [str "PING"] ++ str "*1" ++ CRLF ++ str "$-12" ++ CRLF.

Lemma stuck_request `{AiOps} t fd nd w raw :
  process_request t fd nd w raw (RespRequest 0 [])
  = let! w := of_res (pack_to (call (tn_cmd t) 54) w (status_reply KVS_RESP_UNKNOWN)) in Ret (nd, w).
Proof.
  unfold process_request, special_repl. destruct nd as [s a], (g_enable_repl_master _); simpl; [|done].
  by rewrite andb_false_r.
Qed.

(** The send buffer has room for [n] more short replies before its sizes
    overflow. *)
Definition short_room (n : Z) (w : option wbuf) : Prop :=
  match w with
  | Some w => wb_len w <= wb_cap w < 2 ^ 30 /\ wb_len w + 32 * n + 1024 < 2 ^ 29
  | None => True
  end.

Lemma pack_short e w st n :
  (length (reply_text (status_reply st)) <= 32)%nat -> 0 <= n -> short_room (n + 1) w ->
  exists w', pack_to e w (status_reply st) = Ok w' /\ short_room n w'.
Proof.
  intros Ht Hn Hw. destruct w as [w|]; [|by exists None]. destruct Hw as [Hw Hl].
  destruct (resp_pack_with_realloc_ok e 0 w (status_reply st)) as (w' & Hp & Hc & Hd);
    [done|done|change (body_len _) with 0; lia|].
  exists (Some w'). cbn [pack_to]. rewrite Hp. split; [done|].
  apply resp_pack_with_realloc_fits in Hp as [Hf _]; [|lia].
  assert (wb_len w' <= wb_len w + 32).
  { unfold wb_len. destruct Hd as [->|[-> _]]; rewrite ?length_app; lia. }
  split; lia.
Qed.

Lemma stuck_step `{AiOps} fuel ts n fd nd w :
  stream_loop (S fuel) ts n fd stuck_stream 14 nd w
  = let! w := of_res (pack_to (call (tn_cmd (ts n)) 54) w (status_reply KVS_RESP_UNKNOWN)) in
    stream_loop fuel ts (S n) fd stuck_stream 14 nd w.
Proof.
  cbn [stream_loop].
  replace (14 <? Z.of_nat (length stuck_stream)) with true by (by vm_compute).
  replace (has_complete_resp_command stuck_stream 14 (Z.of_nat (length stuck_stream) - 14))
    with (Ok (Some 0)) by (by vm_compute).
  cbn [of_res run_bind].
  replace (resp_unpack_no_modify (call (tn_cmd (ts n)) 50) 0 stuck_stream 14 0)
    with (Ok (RespRequest 0 [])) by (by vm_compute).
  cbn [of_res run_bind]. rewrite stuck_request. by destruct (pack_to _ _ _).
Qed.

Lemma stuck_loop `{AiOps} fuel ts n fd nd w :
  (forall x, stream_loop fuel ts n fd stuck_stream 14 nd w <> Ret x) /\
  (short_room (Z.of_nat fuel) w -> stream_loop fuel ts n fd stuck_stream 14 nd w = MoreFuel).
Proof.
  revert n w. induction fuel as [|fuel IH]; intros n w; [done|]. rewrite stuck_step. split.
  - destruct (pack_to _ _ _) as [w'|]; [apply IH|done].
  - intros Hr. destruct (pack_short (call (tn_cmd (ts n)) 54) w KVS_RESP_UNKNOWN (Z.of_nat fuel))
      as (w' & -> & Hr'); [by vm_compute; lia|lia|by replace (Z.of_nat fuel + 1) with (Z.of_nat (S fuel)) by lia|].
    cbn [of_res run_bind]. by apply IH.
Qed.

Lemma ping_runs `{AiOps} t fd nd w raw r :
  exists s, process_request t fd nd w raw (request_at [str "PING"] r)
  = let! w := of_res (pack_to (call (tn_cmd t) 53) w (status_reply KVS_RESP_PONG)) in
    Ret (Node s (nd_aof nd), w).
Proof.
  unfold process_request, special_repl.
  replace (req_is (str "RDMA_CONNECT") (request_at [str "PING"] r)) with false by (by vm_compute).
  replace (req_is (str "SYNC") (request_at [str "PING"] r)) with false by (by vm_compute).
  replace (req_is (str "PING") (request_at [str "PING"] r)) with true by (by vm_compute).
  rewrite andb_false_r. destruct (g_enable_repl_master _); simpl; by eexists.
Qed.

Lemma stuck_first `{AiOps} fuel ts fd nd w :
  stream_loop (S fuel) ts 0 fd stuck_stream 0 nd w
  = let! r := process_request (ts 0%nat) fd nd w (slice stuck_stream 0 14)
                (request_at [str "PING"] (str "*1" ++ CRLF ++ str "$-12" ++ CRLF)) in
    stream_loop fuel ts 1 fd stuck_stream 14 r.1 r.2.
Proof.
  cbn [stream_loop].
  replace (0 <? Z.of_nat (length stuck_stream)) with true by (by vm_compute).
  replace (has_complete_resp_command stuck_stream 0 (Z.of_nat (length stuck_stream) - 0))
    with (Ok (Some 14)) by (by vm_compute).
  cbn [of_res run_bind].
  replace (resp_unpack_no_modify (call (tn_cmd (ts 0%nat)) 50) 0 stuck_stream 0 14)
    with (Ok (request_at [str "PING"] (str "*1" ++ CRLF ++ str "$-12" ++ CRLF)))
    by (by vm_compute).
  cbn [of_res run_bind]. by destruct (process_request _ _ _ _ _ _) as [[nd1 w1]| | | |].
Qed.

(** C36.  Twenty-four bytes keep the server busy for ever: a bulk length of -12 puts
    the end of its request where the request starts, so the loop makes no
    progress however many turns it runs.  The call never returns; it turns on
    and on without a send buffer, and with one, to which each turn adds a reply,
    as long as the sizes of the buffer do not overflow. *)
Theorem negative_length_never_returns `{AiOps} fuel ts fd nd w :
  (forall x, protocol_process_stream fuel ts fd stuck_stream nd w <> Ret x) /\
  (short_room (Z.of_nat fuel) w ->
   protocol_process_stream fuel ts fd stuck_stream nd w = MoreFuel).
Proof.
  assert (Hp : protocol_process_stream fuel ts fd stuck_stream nd w
    = let! r := stream_loop fuel ts 0 fd stuck_stream 0 nd w in
      let '(p, nd, w) := r in Ret (0, Some p, nd, w)).
  { unfold protocol_process_stream.
    replace stuck_stream with (STAR :: drop 1 stuck_stream) at 1 by (by vm_compute).
    by rewrite bool_decide_true by done. }
  rewrite Hp. assert (Hs : (forall x, stream_loop fuel ts 0 fd stuck_stream 0 nd w <> Ret x) /\
    (short_room (Z.of_nat fuel) w -> stream_loop fuel ts 0 fd stuck_stream 0 nd w = MoreFuel)).
  { destruct fuel as [|fuel]; [done|]. rewrite stuck_first.
    destruct (ping_runs (ts 0%nat) fd nd w (slice stuck_stream 0 14)
      (str "*1" ++ CRLF ++ str "$-12" ++ CRLF)) as [s ->]. split.
    - destruct (pack_to _ _ _) as [w'|]; [apply stuck_loop|done].
    - intros Hr. destruct (pack_short (call (tn_cmd (ts 0%nat)) 53) w KVS_RESP_PONG (Z.of_nat fuel))
        as (w' & -> & Hr'); [by vm_compute; lia|lia|by replace (Z.of_nat fuel + 1) with (Z.of_nat (S fuel)) by lia|].
      cbn [of_res run_bind fst snd]. by apply stuck_loop. }
  destruct Hs as [Hn Hm]. split.
  - destruct (stream_loop _ _ _ _ _ _ _ _) as [y| | | |]; try done. by destruct (Hn y).
  - intros Hr. by rewrite (Hm Hr).
Qed.

(** ** The log replays *)

Lemma trigger_logged sqe a : aof_logged (aof_trigger_flush_nolock sqe a) = aof_logged a.
Proof.
  unfold aof_trigger_flush_nolock. destruct (_ || _), sqe; try done. unfold aof_logged. simpl.
  rewrite fmap_app, concat_app. simpl. by rewrite !app_nil_r.
Qed.

Lemma check_logged u a : aof_logged (aof_check_cqe_nonblock u a) = aof_logged a.
Proof.
  unfold aof_check_cqe_nonblock. destruct (negb _), (u_peek u); try done.
  cbv zeta. destruct (_ <=? _); [|done]. by rewrite trigger_logged.
Qed.

Lemma make_room_logged us len a a' : aof_make_room us len a = Done a' -> aof_logged a' = aof_logged a.
Proof.
  revert a. induction us as [|u us IH]; intros a; cbn [aof_make_room];
    destruct (_ <=? _); try by intros [= <-].
  cbv zeta. destruct (_ && _); [done|]. intros Hr%IH. rewrite Hr, trigger_logged.
  destruct (_ && _); by rewrite <- (check_logged u a).
Qed.

Lemma write_logged us a data a' :
  aof_fd_open a = true -> 0 < zlen data <= AOF_BUF_SIZE ->
  kvs_persistence_write us a data = Done a' ->
  aof_logged a' = aof_logged a ++ data /\ aof_fd_open a' = true.
Proof.
  intros Ho Hd. unfold kvs_persistence_write. rewrite Ho. cbn [negb orb].
  rewrite (proj2 (Z.leb_gt _ _)), (proj2 (Z.ltb_ge _ _)) by lia.
  destruct (aof_make_room us (zlen data) a) as [a1| |] eqn:E; [|done..]. intros [= <-].
  pose proof (make_room_logged _ _ _ _ E) as Hl. pose proof (fd_open_make_room _ _ _ _ E) as Ho1.
  unfold aof_logged in *. simpl. rewrite app_assoc, Hl. by rewrite Ho1.
Qed.

Lemma strncaseeq_app a r b n : (n <= length a)%nat -> strncaseeq (a ++ r) b n = strncaseeq a b n.
Proof.
  revert a b. induction n as [|n IH]; intros a b Hn; [done|]. destruct a as [|x a]; [simpl in Hn; lia|].
  cbn [strncaseeq app nth]. rewrite !skipn_cons, !drop_0, IH by (simpl in Hn; lia). done.
Qed.

Lemma cmd_is_app name a r :
  cmd_is name (a ++ r) (Z.of_nat (length a)) = cmd_is name a (Z.of_nat (length a)).
Proof.
  unfold cmd_is. destruct (Z.eqb_spec (Z.of_nat (length a)) (Z.of_nat (length name))); [|done].
  rewrite strncaseeq_app by lia. done.
Qed.

(** A request for a write command, the only ones that are logged. *)
Definition write_request (args : list bytes) : Prop :=
  resp_size_ok args /\ zlen (resp_encode args) <= AOF_BUF_SIZE /\
  match args with
  | a :: _ => is_write_command a (Z.of_nat (length a)) = true
  | [] => False
  end.

Lemma write_commands_nul : Forall no_nul write_commands.
Proof. apply (bool_decide_unpack _). by vm_compute. Qed.

(** The commands the protocol layer treats itself. *)
Definition special_names : list bytes := [str "PING"; str "SYNC"; str "RDMA_CONNECT"].

Lemma write_not_special a name :
  is_write_command a (Z.of_nat (length a)) = true -> name ∈ special_names ->
  cmd_is name a (Z.of_nat (length a)) = false.
Proof.
  intros Hw Hs. unfold is_write_command in Hw. apply existsb_exists in Hw as (wname & Hin & Hm).
  assert (Hn : no_nul wname).
  { pose proof write_commands_nul as Hn. rewrite Forall_forall in Hn. by apply Hn, list_elem_of_In. }
  rewrite cmd_is_spec in Hm by (done || lia). apply bool_decide_eq_true in Hm.
  assert (Hsn : Forall no_nul special_names) by (apply (bool_decide_unpack _); by vm_compute).
  rewrite Forall_forall in Hsn. rewrite cmd_is_spec by (by apply Hsn || lia).
  rewrite Hm. apply bool_decide_eq_false. intros He.
  assert (Hall : forallb (fun name => forallb (fun wname =>
      bool_decide ((tolower <$> wname) <> (tolower <$> name))) write_commands) special_names = true)
    by (by vm_compute).
  rewrite forallb_forall in Hall. specialize (Hall name (proj1 (list_elem_of_In _ _) Hs)).
  rewrite forallb_forall in Hall. by apply Hall, bool_decide_eq_true in Hin.
Qed.

(** A server that keeps a log and has no slave, and whose allocations for a
    replayed request succeed. *)
Definition logs_alone (t : turn) : Prop :=
  aof_enabled (tn_glob t) = true /\ g_enable_repl_master (tn_glob t) = false /\
  mem_ok (call (tn_cmd t) 55).

Lemma log_write_alone t nd raw nd' :
  logs_alone t -> log_write t nd raw = Ret nd' ->
  nd_sv nd' = nd_sv nd /\ kvs_persistence_write (tn_uring t) (nd_aof nd) raw = Done (nd_aof nd').
Proof.
  intros (Ha & Hm & _). unfold log_write. rewrite Ha.
  destruct (kvs_persistence_write _ _ _) as [a| |]; try done. cbn [of_outcome run_bind].
  unfold backlog_wanted. rewrite Hm, andb_false_r. cbn [andb run_bind]. intros [= <-].
  split; [|done]. by destruct nd as [[] ?].
Qed.

Section replay.
Context `{AiOps}.

(** The command a request names. *)
Definition found_command (req : resp_request) : res (option command) :=
  let* a := argn req 0 in lookup_command (arg_ptr a) (arg_len a).

(** A write request logs its bytes and runs its command ... *)
Lemma process_write t fd nd w args r :
  write_request args ->
  process_request t fd nd w (resp_encode args) (request_at args r)
  = let! cmd := of_res (found_command (request_at args r)) in
    let! nd := log_write t nd (resp_encode args) in
    let! x := of_res (kvs_execute_batch (tn_cmd t) (nd_sv nd) cmd (request_at args r)) in
    let! w := of_res (pack_to (call (tn_cmd t) 54) w x.2) in
    Ret (Node x.1 (nd_aof nd), w).
Proof.
  intros (Hs & Hz & Hw). destruct args as [|a args]; [done|].
  assert (Hargc : (0 <? req_argc (request_at (a :: args) r)) = true)
    by (apply Z.ltb_lt; simpl; lia).
  assert (His : forall name, name ∈ special_names -> req_is name (request_at (a :: args) r) = false).
  { intros name Hn. unfold req_is. rewrite Hargc.
    cbn [request_at req_argv argv_at lookup list_lookup arg_ptr arg_len andb].
    by rewrite cmd_is_app, write_not_special by done. }
  assert (Hsp : special_repl t fd (nd_sv nd) (request_at (a :: args) r) = Ret (nd_sv nd, false)).
  { unfold special_repl. rewrite !His, andb_false_r by (apply (bool_decide_unpack _); by vm_compute).
    by destruct (g_enable_repl_master _). }
  unfold process_request. rewrite Hsp, (His (str "PING")) by (apply (bool_decide_unpack _); by vm_compute).
  cbn [run_bind orb]. rewrite Hargc. unfold found_command, argn.
  cbn [request_at req_argv argv_at lookup list_lookup of_res run_bind rbind arg_ptr arg_len andb].
  destruct (lookup_command _ _) as [cmd|]; [|done]. cbn [of_res run_bind].
  assert (Hwr : is_write_command (a ++ CRLF ++ concat (resp_bulk <$> args) ++ r)
    (Z.of_nat (length a)) = true).
  { rewrite <- Hw. unfold is_write_command. generalize write_commands as l.
    induction l as [|x l IHl]; [done|]. cbn [existsb]. by rewrite cmd_is_app, IHl. }
  rewrite Hwr. destruct nd as [sv af]. cbn [nd_sv nd_aof].
  destruct (log_write t _ _) as [nd1| | | |]; try done. cbn [run_bind].
  by destruct (kvs_execute_batch _ _ _ _) as [[s' rep]|].
Qed.

(** ... and replayed it runs its command. *)
Lemma recover_write_request t s args r :
  mem_ok (call (tn_cmd t) 55) -> args <> [] ->
  recover_request t s (request_at args r)
  = let! cmd := of_res (found_command (request_at args r)) in
    let! x := of_res (kvs_execute_batch (tn_cmd t) s cmd (request_at args r)) in Ret x.1.
Proof.
  intros Hmem Hne. destruct args as [|a args]; [done|]. unfold recover_request.
  assert (Hargc : 0 < req_argc (request_at (a :: args) r)) by (simpl; lia).
  assert (Hal : forall i k, 0 < k -> alloc_ok (call (tn_cmd t) 55) i k = true).
  { intros i k Hk. unfold alloc_ok. by rewrite Hmem, (proj2 (Z.eqb_neq k 0)) by lia. }
  rewrite (proj2 (Z.ltb_ge _ 0)), (proj2 (Z.ltb_lt 0 _)), !Hal by lia. cbn [orb andb negb].
  unfold found_command, argn.
  cbn [request_at req_argv argv_at lookup list_lookup of_res run_bind rbind arg_ptr arg_len].
  by destruct (lookup_command _ _).
Qed.

Lemma write_request_nonempty args : write_request args -> args <> [].
Proof. intros (_ & _ & Hw). by destruct args. Qed.

Lemma encode_nonempty args : 0 < zlen (resp_encode args).
Proof. unfold zlen. destruct (resp_encode_head args) as [l ->]. simpl. lia. Qed.

(** Running a write request logs its bytes and does to the server what
    replaying it does. *)
Lemma process_write_request t fd nd w args r nd' w' :
  logs_alone t -> write_request args -> aof_fd_open (nd_aof nd) = true ->
  process_request t fd nd w (resp_encode args) (request_at args r) = Ret (nd', w') ->
  aof_logged (nd_aof nd') = aof_logged (nd_aof nd) ++ resp_encode args /\
  aof_fd_open (nd_aof nd') = true /\
  recover_request t (nd_sv nd) (request_at args r) = Ret (nd_sv nd').
Proof.
  intros Ht Hw Ho. rewrite process_write by done.
  rewrite recover_write_request; [|apply Ht|by apply write_request_nonempty].
  destruct (found_command _) as [cmd|]; [|done]. cbn [of_res run_bind].
  destruct (log_write t _ _) as [nd1| | | |] eqn:El; try done.
  apply log_write_alone in El as [Hsv Haof]; [|done]. cbn [run_bind]. rewrite Hsv.
  destruct (kvs_execute_batch _ _ _ _) as [[s' rep]|]; [|done].
  cbn [of_res run_bind fst snd]. destruct (pack_to _ _ _) as [w1|]; [|done].
  cbn [of_res run_bind]. intros [= <- _]. cbn [nd_sv nd_aof].
  destruct (write_logged (tn_uring t) (nd_aof nd) (resp_encode args) (nd_aof nd1) Ho)
    as [Hl Hop]; [split; [apply encode_nonempty|apply Hw]|exact Haof|done].
Qed.

Lemma run_requests_log ts n fd nd w cmds tail nd' w' :
  (forall k, logs_alone (ts k)) -> Forall write_request cmds ->
  aof_fd_open (nd_aof nd) = true ->
  run_requests ts n fd nd w cmds tail = Ret (nd', w') ->
  aof_logged (nd_aof nd') = aof_logged (nd_aof nd) ++ concat (resp_encode <$> cmds) /\
  replay_requests ts n (nd_sv nd) cmds tail = Ret (nd_sv nd').
Proof.
  intros Ht Hw. revert n nd w. induction Hw as [|args cmds Ha Hw IH]; intros n nd w Ho;
    cbn [run_requests replay_requests].
  { intros [= <- _]. split; [by rewrite app_nil_r|done]. }
  destruct (process_request _ _ _ _ _ _) as [[nd1 w1]| | | |] eqn:E; try done. cbn [run_bind].
  intros Hr. destruct (process_write_request _ _ _ _ _ _ _ _ (Ht n) Ha Ho E) as (Hl & Ho1 & Hrec).
  destruct (IH (S n) nd1 w1 Ho1 Hr) as [Hl2 Hrec2]. rewrite Hrec. cbn [run_bind].
  split; [|done]. rewrite Hl2, Hl, fmap_cons. cbn [concat]. by rewrite app_assoc.
Qed.
End replay.

(** The log replays: what running write commands appends to the log is,
    replayed by the recovery from the server as it was, enough to reach the
    server as it became. *)
Theorem log_replays `{AiOps} fuel ts fd cmds nd w nd' w' :
  (forall n, logs_alone (ts n)) -> unpack_mem ts -> Forall write_request cmds ->
  aof_fd_open (nd_aof nd) = true -> (length cmds < fuel)%nat ->
  run_requests ts 0 fd nd w cmds [] = Ret (nd', w') ->
  exists log, aof_logged (nd_aof nd') = aof_logged (nd_aof nd) ++ log /\
    protocol_process_recover fuel ts log (nd_sv nd) = Ret (Z.of_nat (length log), nd_sv nd').
Proof.
  intros Ht Hm Hw Ho Hf Hr.
  destruct (run_requests_log ts 0 fd nd w cmds [] nd' w' Ht Hw Ho Hr) as [Hl Hrec].
  exists (concat (resp_encode <$> cmds)). split; [done|]. unfold protocol_process_recover.
  assert (Hs : Forall resp_size_ok cmds) by (eapply Forall_impl; [exact Hw|]; by intros ? []).
  pose proof (recover_loop_requests ts Hm fuel 0 [] cmds [] (nd_sv nd) Hs partial_nil Hf) as Hloop.
  rewrite Hrec in Hloop. cbn [app length run_bind] in Hloop. rewrite app_nil_r in Hloop.
  change (Z.of_nat 0) with 0 in Hloop.
  destruct (Z.leb_spec (Z.of_nat (length (concat (resp_encode <$> cmds)))) 0) as [Hz|Hz]; [|done].
  destruct cmds as [|c cmds]; [by injection Hrec as ->|].
  rewrite fmap_cons in Hz. destruct (resp_encode_head c) as [l Hc].
  cbn [concat] in Hz. rewrite Hc in Hz. simpl in Hz. lia.
Qed.

(** ** Examples *)

Definition sample_cmds : list (list bytes) :=
  [[str "rset"; str "k"; str "v1"]; [str "HSET"; str "h"; str "v2"; str "PX"; str "50"];
   [str "RMOD"; str "k"; str "v3"]].

Definition sample_tail : bytes := take 9 (resp_encode [str "RGET"; str "k"]).

Definition sample_buf : wbuf := WBuf [] 4096.

Lemma sample_partial : partial sample_tail.
Proof.
  exists [str "RGET"; str "k"], 9%nat. split_and!; [|vm_compute; lia|done].
  split; [done|]. repeat constructor; done.
Qed.

Lemma sample_cmds_ok : Forall resp_size_ok sample_cmds.
Proof. repeat constructor; done. Qed.

Lemma process_stream_requests_witness :
  Forall resp_size_ok sample_cmds /\ partial sample_tail /\
  @protocol_process_stream sample_ai 4 (fun _ => sample_turn 9) 5
    (concat (resp_encode <$> sample_cmds) ++ sample_tail) sample_node (Some sample_buf)
  = let! r := @run_requests sample_ai (fun _ => sample_turn 9) 0 5 sample_node (Some sample_buf)
                sample_cmds sample_tail in
    Ret (0, Some (Z.of_nat (length (concat (resp_encode <$> sample_cmds)))), r.1, r.2).
Proof.
  split; [exact sample_cmds_ok|]. split; [exact sample_partial|].
  apply (process_stream_requests (H := sample_ai)).
  - intros n. done.
  - exact sample_cmds_ok.
  - exact sample_partial.
  - by vm_compute; lia.
Defined.

(** What the client of the sample receives, and what a later read gives. *)
Definition replies_of (r : run (Z * option Z * node * option wbuf)) : option (Z * bytes) :=
  match r with
  | Ret (st, _, _, Some w) => Some (st, wb_data w)
  | _ => None
  end.

Example stream_sample :
  replies_of (@protocol_process_stream sample_ai 9 (fun _ => sample_turn 9) 5
    (concat (resp_encode <$> sample_cmds ++ [[str "RGET"; str "k"]; [str "hget"; str "h"]; [str "NO"]])
     ++ sample_tail) sample_node (Some sample_buf))
  = Some (0, str "+OK" ++ CRLF ++ str "+OK" ++ CRLF ++ str "+OK" ++ CRLF ++
             str "$2" ++ CRLF ++ str "v3" ++ CRLF ++ str "$2" ++ CRLF ++ str "v2" ++ CRLF ++
             str "-ERR unknown command" ++ CRLF).
Proof. vm_compute. done. Qed.

Lemma sample_write_requests : Forall write_request sample_cmds.
Proof.
  assert (Hw : Forall (fun args => zlen (resp_encode args) <= AOF_BUF_SIZE /\
    match args with a :: _ => is_write_command a (Z.of_nat (length a)) = true | [] => False end)
    sample_cmds) by (repeat constructor; by vm_compute).
  pose proof sample_cmds_ok as Hs. rewrite Forall_forall in *.
  intros args Hin. destruct (Hw _ Hin). split_and!; [by apply Hs|done..].
Qed.

Definition sample_run : run (node * option wbuf) :=
  @run_requests sample_ai (fun _ => sample_turn 9) 0 5 sample_node None sample_cmds [].

Lemma sample_run_returns : exists nd' w', sample_run = Ret (nd', w').
Proof.
  assert (Hb : match sample_run with Ret _ => true | _ => false end = true) by (by vm_compute).
  destruct sample_run as [[nd' w']| | | |]; try discriminate. by exists nd', w'.
Qed.

Lemma log_replays_witness :
  Forall write_request sample_cmds /\
  exists nd' w' log, sample_run = Ret (nd', w') /\
    aof_logged (nd_aof nd') = aof_logged (nd_aof sample_node) ++ log /\
    @protocol_process_recover sample_ai 4 (fun _ => sample_turn 9) log (nd_sv sample_node)
      = Ret (Z.of_nat (length log), nd_sv nd').
Proof.
  split; [exact sample_write_requests|].
  destruct sample_run_returns as (nd' & w' & He). exists nd', w'.
  destruct (log_replays (H := sample_ai) 4 (fun _ => sample_turn 9) 5 sample_cmds sample_node
    None nd' w') as (log & Hl & Hr).
  - intros n. split; [reflexivity|]. split; [reflexivity|]. intros i k. reflexivity.
  - intros n i k. reflexivity.
  - exact sample_write_requests.
  - reflexivity.
  - vm_compute. lia.
  - exact He.
  - exists log. exact (conj He (conj Hl Hr)).
Defined.
