(* ===== verification/DeleteSpec.v ===== *)
(** * What the expiry of a key does (expire.c, resp.c)

    A timer that reaches the main thread deletes its key exactly when the key
    still has the expiry time the timer was made for, and the deletion is
    logged as a command that a replay of the log repeats.  The hash table is
    searched with the hash the timer carries, which the code never sets; and a
    SET without expiry time makes a timer that deletes its key at once. *)

From S2P Require Import ArrayEngine HashEngine RbTree SkipList Engines.
From S2P Require Import Prelude KvData Engine EngineSpec Config Resp Repl Aof ExpireQueue Expire.
From S2P Require Import Store Ai Commands Lookup CommandSpec Protocol ProtocolSpec.

Open Scope Z_scope.
Open Scope kvs_scope.

(** ** Deleting with the timer's key *)

Lemma find_from_key l k h i : find_from l (KvData (Some k) h) i = find_from l (kd_of k) i.
Proof.
  revert i. induction l as [|it l IH]; intros i; [done|]. cbn [find_from].
  destruct (kd_data (ai_key it)); [|apply IH]. rewrite IH. done.
Qed.

Lemma array_del_key e a k h x :
  kvs_array_del_if_expired e a (KvData (Some k) h) x = kvs_array_del_if_expired e a (kd_of k) x.
Proof.
  unfold kvs_array_del_if_expired, kvs_array_del, find_key_index. by rewrite find_from_key.
Qed.

Lemma kv_data_hash_wf k h size :
  kd_wf (KvData (Some k) h) -> 0 < size ->
  kv_data_hash (KvData (Some k) h) size = kv_data_hash (kd_of k) size.
Proof.
  intros Hw Hs. unfold kv_data_hash. cbn [kd_data kd_of].
  destruct (Z.leb_spec size 0); [lia|].
  rewrite !kv_data_hash_calc_spec by (done || apply kd_of_wf). done.
Qed.

Lemma hash_del_key e t k h x :
  hash_inv t -> kd_wf (KvData (Some k) h) ->
  kvs_hash_del_if_expired e t (KvData (Some k) h) x = kvs_hash_del_if_expired e t (kd_of k) x.
Proof.
  intros Hi Hw. destruct (hinv_shape _ Hi) as (bs & ex & Hb & He & Hm & _).
  unfold kvs_hash_del_if_expired, kvs_hash_del, hash_lookup.
  rewrite kv_data_hash_wf; [done..|]. rewrite Hm. lia.
Qed.

Lemma skip_walk_key fuel hp i k h c :
  skip_walk fuel hp i (KvData (Some k) h) c = skip_walk fuel hp i (kd_of k) c.
Proof.
  revert c. induction fuel as [|fuel IH]; intros c; [done|]. cbn [skip_walk].
  destruct (fwd hp c i) as [[n|]|]; [|done..]. cbn [mbind option_bind].
  destruct (hp !! n) as [nd|]; [|done]. cbn [mbind option_bind]. by rewrite IH.
Qed.

Lemma skip_find_key s k h : skip_find_update s (KvData (Some k) h) = skip_find_update s (kd_of k).
Proof.
  unfold skip_find_update.
  assert (Hl : forall i c, skip_find_levels (sk_heap s) (KvData (Some k) h) i c
    = skip_find_levels (sk_heap s) (kd_of k) i c).
  { intros i. induction i as [|i IH]; intros c; cbn [skip_find_levels]; rewrite skip_walk_key;
      [done|]. destruct (skip_walk _ _ _ _ _); [|done]. cbn [mbind option_bind]. by rewrite IH. }
  by rewrite Hl.
Qed.

Lemma skip_del_key e t k h x :
  kvs_skip_del_if_expired e t (KvData (Some k) h) x = kvs_skip_del_if_expired e t (kd_of k) x.
Proof.
  destruct t as [s|]; [|done]. unfold kvs_skip_del_if_expired, sk_run, skip_del_if_expired, skip_del.
  by rewrite skip_find_key.
Qed.

(** The store a timer is for, and the command that logs its deletion. *)
Definition timer_db (type : Z) : option db :=
  if type =? EXPIRE_TYPE_ARRAY then Some DbArray
  else if type =? EXPIRE_TYPE_HASH then Some DbHash
  else if type =? EXPIRE_TYPE_HASH2 then Some DbHash2
  else if type =? EXPIRE_TYPE_RBTREE then Some DbRbtree
  else if type =? EXPIRE_TYPE_SKIPLIST then Some DbSkip
  else None.

(** The key of the item can be looked up: only the hash tables use the hash
    it carries. *)
Definition timer_key_ok (d : db) (item : expire_item) : Prop :=
  db_key d (ei_key item) /\
  (d = DbHash \/ d = DbHash2 -> kd_wf (KvData (Some (ei_key item)) (ei_hash item))).

(** The store still has the key with the expiry time of the item. *)
Definition current (s : engines) (d : db) (item : expire_item) : Prop :=
  snd <$> store_abs s d !! ei_key item = Some (ei_expire_time item).

#[export] Instance current_dec s d item : Decision (current s d item).
Proof. unfold current. apply _. Defined.

(** The outcome of [engine_del_if_expired]. *)
Definition del_outcome (s : engines) (d : db) (item : expire_item) (r : engines * Z) : Prop :=
  if decide (current s d item) then
    r.2 = 1 /\ store_inv r.1 /\
    forall d', store_abs r.1 d' = db_upd (store_abs s) d (delete (ei_key item) (store_abs s d)) d'
  else r = (s, 0).

Lemma slot_del_outcome {T} `{KvEngineLaws T} (sl : slot T) d `{!SlotOf sl d} e s item r :
  store_inv s -> db_key d (ei_key item) ->
  r = eng_del_if_expired e (sl_get sl s) (kd_of (ei_key item)) (ei_expire_time item) ->
  del_outcome s d item (sl_put sl r.1 s, r.2).
Proof.
  intros Hs Hk ->. pose proof (slot_inv (sl := sl) s Hs) as Hi.
  pose proof (slot_key (sl := sl) _ Hk) as Hek.
  rewrite eng_del_if_expired_spec by done. rewrite (slot_abs (sl := sl) (d := d)).
  unfold del_outcome. case_decide as Hd; unfold current in Hd.
  - destruct (store_abs s d !! ei_key item) as [[v x]|]; [|done]. injection Hd as ->.
    rewrite bool_decide_true by done. cbn [fst snd]. split_and!; [done| |].
    + apply (slot_put_inv (d := d)); [done|]. by apply eng_del_inv.
    + intros d'. by rewrite (slot_put_abs (d := d)), eng_del_abs, (slot_abs (d := d)).
  - destruct (store_abs s d !! ei_key item) as [[v x]|];
      [rewrite bool_decide_false by (intros ->; by apply Hd)|];
      cbn [fst snd]; by rewrite (slot_put_get (d := d)).
Qed.

Lemma engine_del_outcome e s d item :
  timer_db (ei_type item) = Some d -> store_inv s -> timer_key_ok d item ->
  del_outcome s d item (engine_del_if_expired e s (ei_type item)
    (KvData (Some (ei_key item)) (ei_hash item)) (ei_expire_time item)).
Proof.
  intros Ht Hs [Hk Hh]. unfold timer_db, engine_del_if_expired in *.
  repeat (case_match; [injection Ht as <-|]); [..|done];
    match goal with |- context [let '(t, r) := ?p in _] => rewrite (surjective_pairing p) end;
    [apply (slot_del_outcome slot_array DbArray e)|apply (slot_del_outcome slot_hash DbHash e)
    |apply (slot_del_outcome slot_hash2 DbHash2 e)|apply (slot_del_outcome slot_rbtree DbRbtree e)
    |apply (slot_del_outcome slot_skip DbSkip e)]; try done.
  - apply array_del_key.
  - apply hash_del_key; [apply (Hs DbHash)|apply Hh; tauto].
  - apply hash_del_key; [apply (Hs DbHash2)|apply Hh; tauto].
  - apply skip_del_key.
Qed.

(** ** A timer that is due *)

(** The log has room for [raw] without a flush, and the text can be built. *)
Definition log_room (t : turn) (a : aof) (raw : bytes) : Prop :=
  aof_fd_open a = true /\ mem_ok (call (tn_cmd t) 0) /\
  0 < zlen raw /\ zlen (aof_buf_active a) + zlen raw <= AOF_BUF_SIZE.

Lemma log_write_room t nd raw :
  logs_alone t -> log_room t (nd_aof nd) raw ->
  log_write t nd raw = Ret (Node (nd_sv nd) (aof_append raw (nd_aof nd))).
Proof.
  intros (Ha & Hm & _) (Ho & _ & Hz & Hr). unfold log_write, kvs_persistence_write. rewrite Ha, Ho.
  destruct (Z.leb_spec (zlen raw) 0); [lia|]. cbn [negb orb].
  assert (0 <= zlen (aof_buf_active (nd_aof nd))) by (unfold zlen; lia).
  destruct (Z.ltb_spec AOF_BUF_SIZE (zlen raw)); [lia|].
  assert (aof_make_room (tn_uring t) (zlen raw) (nd_aof nd) = Done (nd_aof nd)) as ->.
  { destruct (tn_uring t); cbn [aof_make_room];
      by rewrite (proj2 (Z.leb_le _ _) Hr). }
  cbn [of_outcome run_bind]. unfold backlog_wanted. rewrite Hm, andb_false_r. cbn [andb run_bind].
  by destruct (nd_sv nd).
Qed.

Lemma aof_logged_append raw a : aof_logged (aof_append raw a) = aof_logged a ++ raw.
Proof. unfold aof_logged, aof_append. cbn. by rewrite app_assoc. Qed.

Lemma process_delete_ok t nd item d :
  timer_db (ei_type item) = Some d -> store_inv (sv_eng (nd_sv nd)) -> timer_key_ok d item ->
  logs_alone t ->
  log_room t (nd_aof nd) (internal_del_text (del_command (ei_type item)) (ei_key item)) ->
  exists nd', process_delete t nd item = Ret nd' /\
    if decide (current (sv_eng (nd_sv nd)) d item) then
      store_inv (sv_eng (nd_sv nd')) /\
      (forall d', store_abs (sv_eng (nd_sv nd')) d'
         = db_upd (store_abs (sv_eng (nd_sv nd))) d
             (delete (ei_key item) (store_abs (sv_eng (nd_sv nd)) d)) d') /\
      aof_logged (nd_aof nd') = aof_logged (nd_aof nd) ++
        internal_del_text (del_command (ei_type item)) (ei_key item)
    else nd' = nd.
Proof.
  intros Ht Hs Hk Hl Hr. unfold process_delete.
  pose proof (engine_del_outcome (call (tn_cmd t) 1) _ d item Ht Hs Hk) as Ho.
  destruct (engine_del_if_expired _ _ _ _ _) as [en r]. unfold del_outcome in Ho. cbn [fst snd] in Ho.
  case_decide as Hd.
  - destruct Ho as (-> & Hi & Ha). change (1 =? 0) with false. cbn iota.
    unfold protocol_handle_internal_del, alloc_ok. pose proof Hr as (_ & Hm & Hz & _).
    rewrite Hm, (proj2 (Z.eqb_neq _ 0)) by (unfold zlen in Hz; lia). cbn [negb andb].
    rewrite log_write_room by done. eexists. split; [reflexivity|]. cbn [nd_sv nd_aof sv_eng with_eng].
    split_and!; [done|done|by rewrite aof_logged_append].
  - injection Ho as -> ->. exists nd. split; [|done]. change (0 =? 0) with true. cbn iota.
    by destruct nd as [[] ?].
Qed.

(** C12.  On a server that logs and has no slave, a timer whose key can be looked up (not the empty key of an array; for
    a hash table the hash the timer carries is unset or the key's) deletes its
    key exactly when the store still has the key with the expiry time the timer
    was made for, 0 included, so an old timer never removes a newer value with
    another time; the other keys and stores are left alone and the deletion,
    and nothing else, is logged, in a log that has room for it. *)
Theorem timer_deletes_current t nd item d :
  timer_db (ei_type item) = Some d -> store_inv (sv_eng (nd_sv nd)) -> timer_key_ok d item ->
  logs_alone t ->
  log_room t (nd_aof nd) (internal_del_text (del_command (ei_type item)) (ei_key item)) ->
  exists nd', process_delete t nd item = Ret nd' /\
    if decide (current (sv_eng (nd_sv nd)) d item) then
      store_inv (sv_eng (nd_sv nd')) /\
      (forall d', store_abs (sv_eng (nd_sv nd')) d'
         = db_upd (store_abs (sv_eng (nd_sv nd))) d
             (delete (ei_key item) (store_abs (sv_eng (nd_sv nd)) d)) d') /\
      aof_logged (nd_aof nd') = aof_logged (nd_aof nd) ++
        internal_del_text (del_command (ei_type item)) (ei_key item)
    else nd' = nd.
Proof. apply process_delete_ok. Qed.

(** ** Replaying a logged deletion *)

Lemma del_lookup `{AiOps} type d rest :
  timer_db type = Some d ->
  exists cmd,
    lookup_command (del_command type ++ rest) (Z.of_nat (length (del_command type)))
      = Ok (Some cmd) /\
    cmd_proc cmd = match d with
                   | DbArray => cmd_del slot_array | DbRbtree => cmd_del slot_rbtree
                   | DbHash => cmd_del slot_hash | DbSkip => cmd_del slot_skip
                   | _ => cmd_delctx end.
Proof.
  unfold timer_db, del_command. intros Ht.
  repeat (case_match; [injection Ht as <-|]); [..|done].
  - exact (basic_lookup "DEL" DbArray KDel rest ltac:(by repeat constructor)).
  - exact (basic_lookup "HDEL" DbHash KDel rest ltac:(by repeat constructor)).
  - find_command.
  - exact (basic_lookup "RDEL" DbRbtree KDel rest ltac:(by repeat constructor)).
  - exact (basic_lookup "SDEL" DbSkip KDel rest ltac:(by repeat constructor)).
Qed.

(** The text of a deletion, as a request, names its key. *)
Lemma del_request_key cmd key : arg_data (request_at [cmd; key] []) 1 = Ok (kd_of key).
Proof.
  unfold arg_data, argn. cbn [request_at req_argv argv_at lookup list_lookup rbind arg_len arg_ptr].
  rewrite length_app.
  destruct (Z.leb_spec 0 (Z.of_nat (length key))), (Z.leb_spec (Z.of_nat (length key))
    (Z.of_nat (length key + length (CRLF ++ concat (resp_bulk <$> []) ++ []))));
    try lia. cbn [andb]. unfold arg_bytes. cbn [arg_len arg_ptr].
  by rewrite Nat2Z.id, take_app_length.
Qed.

(** The handler removes the key from its store. *)
Definition removes (s : server) (d : db) (key : bytes) (out : res (server * resp_reply)) : Prop :=
  exists s' r, out = Ok (s', r) /\ store_inv (sv_eng s') /\
    forall d', store_abs (sv_eng s') d'
      = db_upd (store_abs (sv_eng s)) d (delete key (store_abs (sv_eng s) d)) d'.

Lemma slot_del_removes {T} `{KvEngineLaws T} (sl : slot T) d `{!SlotOf sl d} c s key r :
  store_inv (sv_eng s) -> db_key d key ->
  removes s d key (Ok (with_eng (sl_put sl (eng_del (call c 0) (sl_get sl (sv_eng s)) (kd_of key)).1
                         (sv_eng s)) s, r)).
Proof.
  intros Hs Hk. pose proof (slot_inv (sl := sl) _ Hs) as Hi.
  pose proof (slot_key (sl := sl) _ Hk) as Hek.
  eexists _, _. split; [done|]. cbn [sv_eng with_eng]. split.
  - apply (slot_put_inv (d := d)); [done|]. by apply eng_del_inv.
  - intros d'. by rewrite (slot_put_abs (d := d)), eng_del_abs, (slot_abs (d := d)).
Qed.

Lemma cmd_del_removes {T} `{KvEngineLaws T} (sl : slot T) d `{!SlotOf sl d} c s cmd key :
  store_inv (sv_eng s) -> db_key d key -> removes s d key (cmd_del sl c s (request_at [cmd; key] [])).
Proof.
  intros Hs Hk. unfold cmd_del. rewrite del_request_key. cbn [rbind].
  pose proof (slot_del_removes sl d c s key) as Hr.
  destruct (eng_del (call c 0) (sl_get sl (sv_eng s)) (kd_of key)) as [t r]. by apply Hr.
Qed.

Lemma cmd_delctx_removes c s cmd key :
  store_inv (sv_eng s) -> removes s DbHash2 key (cmd_delctx c s (request_at [cmd; key] [])).
Proof.
  intros Hs. change (cmd_delctx c s (request_at [cmd; key] []))
    with (cmd_del slot_hash2 c s (request_at [cmd; key] [])).
  by apply (cmd_del_removes slot_hash2 DbHash2).
Qed.

(** Replaying the request looks the command up and runs its handler. *)
Lemma recover_del `{AiOps} t s type d key :
  timer_db type = Some d -> store_inv (sv_eng s) -> db_key d key ->
  mem_ok (call (tn_cmd t) 55) ->
  exists s' r, recover_request t s (request_at [del_command type; key] []) = Ret s' /\
    removes s d key (Ok (s', r)).
Proof.
  intros Ht Hs Hk Hm. destruct (del_lookup type d (CRLF ++ resp_bulk key) Ht) as (cmd & Hc & Hp).
  unfold recover_request, alloc_ok. rewrite !Hm.
  set (req := request_at [del_command type; key] []).
  change (req_argc req) with 2. change (argn req 0) with (Ok (Arg (del_command type ++ CRLF ++
    concat (resp_bulk <$> [key]) ++ []) (Z.of_nat (length (del_command type))))).
  cbn [orb andb negb Z.ltb Z.compare Z.eqb Z.mul Pos.mul of_res run_bind arg_ptr arg_len].
  cbn [fmap list_fmap concat]. rewrite !app_nil_r, Hc. cbn [of_res run_bind].
  unfold kvs_execute_batch. rewrite Hp.
  assert (Hrem : removes s d key (match d with
    | DbArray => cmd_del slot_array | DbRbtree => cmd_del slot_rbtree
    | DbHash => cmd_del slot_hash | DbSkip => cmd_del slot_skip
    | _ => cmd_delctx end (tn_cmd t) s req)).
  { unfold timer_db in Ht. repeat (destruct (type =? _); [injection Ht as <-|]); [..|done].
    - by apply (cmd_del_removes slot_array DbArray).
    - by apply (cmd_del_removes slot_hash DbHash).
    - by apply cmd_delctx_removes.
    - by apply (cmd_del_removes slot_rbtree DbRbtree).
    - by apply (cmd_del_removes slot_skip DbSkip). }
  destruct Hrem as (s' & r & Heq & Hrem). rewrite Heq. exists s', r. split; [reflexivity|].
  exists s', r. by split.
Qed.

(** What the log gets for an expired key deletes that key again when the
    log is replayed, from any state of the stores. *)
Theorem logged_delete_replays `{AiOps} fuel ts s item d :
  timer_db (ei_type item) = Some d -> store_inv (sv_eng s) -> db_key d (ei_key item) ->
  Z.of_nat (length (ei_key item)) < 2 ^ 31 -> unpack_mem ts ->
  mem_ok (call (tn_cmd (ts 0%nat)) 55) -> (1 < fuel)%nat ->
  let text := internal_del_text (del_command (ei_type item)) (ei_key item) in
  exists s', protocol_process_recover fuel ts text s = Ret (Z.of_nat (length text), s') /\
    store_inv (sv_eng s') /\
    forall d', store_abs (sv_eng s') d'
      = db_upd (store_abs (sv_eng s)) d (delete (ei_key item) (store_abs (sv_eng s) d)) d'.
Proof.
  intros Ht Hs Hk Hlen Hun Hmem Hf text. unfold text, internal_del_text.
  set (args := [del_command (ei_type item); ei_key item]).
  assert (Hsz : resp_size_ok args).
  { split; [by vm_compute|]. constructor; [|by repeat constructor].
    unfold del_command. by repeat case_match. }
  unfold protocol_process_recover.
  pose proof (recover_loop_requests ts Hun fuel 0 [] [args] [] s
    (Forall_cons_2 _ _ _ Hsz (Forall_nil_2 _)) partial_nil Hf) as Hloop.
  cbn [app length fmap list_fmap concat] in Hloop. rewrite !app_nil_r in Hloop.
  change (Z.of_nat 0) with 0 in Hloop. rewrite Hloop. clear Hloop.
  destruct (resp_encode_head args) as [l Hl]. rewrite Hl.
  destruct (Z.leb_spec (Z.of_nat (length (STAR :: l))) 0); [simpl in *; lia|].
  cbn [replay_requests]. cbn [concat fmap list_fmap app]. fold args.
  destruct (recover_del (ts 0%nat) s (ei_type item) d (ei_key item) Ht Hs Hk Hmem)
    as (s' & r & Hr & (s1 & r1 & [= <- <-] & Hi & Ha)).
  fold args in Hr. rewrite Hr. by exists s'.
Qed.

(** ** From SET to the deletion *)

(** A timer alone in the command queue and due: the turn of the expiry thread
    hands it over and the main thread runs it. *)
Lemma queued_timer_fires now q item d ts nd :
  queue_rep q [item] -> ei_expire_time item <= now ->
  timer_db (ei_type item) = Some d -> store_inv (sv_eng (nd_sv nd)) -> timer_key_ok d item ->
  current (sv_eng (nd_sv nd)) d item -> logs_alone (ts 0%nat) ->
  log_room (ts 0%nat) (nd_aof nd) (internal_del_text (del_command (ei_type item)) (ei_key item)) ->
  exists q' h' dq q'' nd',
    expire_turn true now q (heap_init 4096) queue_zero = Ok (q', h', dq, None) /\
    expire_process_deletes ts dq nd = Ret (q'', nd') /\
    store_abs (sv_eng (nd_sv nd')) d !! ei_key item = None /\
    aof_logged (nd_aof nd') = aof_logged (nd_aof nd) ++
      internal_del_text (del_command (ei_type item)) (ei_key item).
Proof.
  intros Hq Hdue Ht Hs Hk Hc Hl Hr.
  destruct (expire_turn_ok now q (heap_init 4096) queue_zero [item] [])
    as (due & q' & h' & dq & Hturn & _ & Hdq & _ & Hp & _ & Hlate & _);
    [done|by intros i Hi; simpl in Hi; lia|apply queue_zero_rep|by vm_compute|].
  assert (hp_data h' = [] /\ due = [item]) as [_ ->].
  { cbn [hp_data heap_init app] in Hp. symmetry in Hp.
    destruct (hp_data h') as [|y l]; [rewrite app_nil_r in Hp; by apply Permutation_singleton_l in Hp|].
    exfalso. apply Forall_cons in Hlate as [Hy _].
    assert (Hin : y ∈ [item]) by (rewrite Hp; set_solver). apply list_elem_of_singleton in Hin.
    subst y. lia. }
  destruct (process_delete_ok (ts 0%nat) nd item d Ht Hs Hk Hl Hr) as (nd' & Hpd & Hres).
  rewrite decide_True in Hres by done. destruct Hres as (_ & Ha & Hlog).
  pose proof (queue_pop_rep dq [item] Hdq) as (dq1 & Hpop & Hdq1).
  pose proof (queue_pop_rep dq1 [] Hdq1) as Hpop1.
  exists q', h', dq, dq1, nd'. split_and!; [exact Hturn| | |exact Hlog].
  - unfold expire_process_deletes. change 500%nat with (S (S 498)).
    remember 498%nat as n eqn:Hn. cbn [process_deletes]. rewrite Hpop, Hpd. cbn [run_bind].
    by rewrite Hpop1.
  - rewrite Ha. unfold db_upd. rewrite decide_True by done. apply lookup_delete_eq.
Qed.

(** A SET of [k] to [v] whose arguments give the expiry time [x], on a store
    that accepts the key, with TTL support on, enough memory and no timer
    queued. *)
Record set_ready (d : db) (c : cmdenv) (s : server) (req : resp_request) (k : bytes) (v : kv_data)
    (x : Z) : Prop := {
  sr_argc : 3 <= req_argc req;
  sr_key : arg_data req 1 = Ok (kd_of k);
  sr_value : arg_data req 2 = Ok v;
  sr_ttl : parse_ttl (c_now c 0) req = Ok x;
  sr_on : c_ttl c = true;
  sr_mem : cmd_mem_ok c;
  sr_inv : store_inv (sv_eng s);
  sr_nonempty : k <> [];
  sr_queue : queue_rep (sv_cmdq s) [];
  sr_fits : db_fits d (store_abs (sv_eng s) d) k;
  sr_sizes : Z.of_nat (length k) < 2 ^ 31 /\ kd_len v < 2 ^ 31
}.

(** The timer of [k] comes due at [now] on a server with a log; what the
    stack held when the timer was made does not lead a hash table astray. *)
Record timer_ready (d : db) (type : Z) (c : cmdenv) (k : bytes) (x : Z) (a : aof) (now : Z)
    (ts : nat -> turn) : Prop := {
  tr_type : timer_db type = Some d;
  tr_due : x <= now;
  tr_stale : d = DbHash \/ d = DbHash2 -> kd_wf (KvData (Some k) (c_stale c));
  tr_log : logs_alone (ts 0%nat);
  tr_room : log_room (ts 0%nat) a (internal_del_text (del_command type) k)
}.

Section set_expire.
Context {T : Type} `{KvEngineLaws T} (sl : slot T) (d : db) `{!SlotOf sl d}.
Context (type : Z) (timer : Z -> bool) (c : cmdenv) (s : server) (req : resp_request).
Context (k : bytes) (v : kv_data) (x : Z).
Context (Hset : set_ready d c s req k v x) (Htimer : timer x = true).

(** The key is stored with its expiry time and its timer is queued. *)
Lemma cmd_set_timer :
  exists s', cmd_set sl type timer c s req = Ok (s', status_reply KVS_RESP_OK) /\
    store_inv (sv_eng s') /\ store_abs (sv_eng s') d !! k = Some (kd_bytes v, x) /\
    queue_rep (sv_cmdq s') [ExpireItem k (c_stale c) x (u64 x) type].
Proof.
  destruct Hset as [Hargc Hk Hv Hx Httl Hm Hs Hne Hq Hfits [Hlk Hlv]].
  pose proof (slot_inv (sl := sl) _ Hs) as Hi.
  pose proof (slot_key (sl := sl) k (fun _ => Hne)) as Hek.
  assert (Hret : (eng_set (call c 1) (sl_get sl (sv_eng s)) (kd_of k) v x).2 = 0).
  { apply eng_set_room; try done. apply (slot_room (sl := sl) (d := d)); [done..|].
    by rewrite (slot_abs (d := d)). }
  pose proof (eng_set_inv (call c 1) _ k v x Hi Hek) as Hi'.
  pose proof (eng_set_lookup (call c 1) _ k v x Hi Hek Hret) as Hl.
  unfold cmd_set. destruct (Z.ltb_spec (req_argc req) 3); [lia|].
  rewrite Hk, Hv. cbn [rbind]. rewrite Httl, Hx. cbn [rbind].
  destruct (eng_set _ _ _ _ _) as [t ret]. cbn [fst snd] in *. subst ret.
  change (0 =? 0) with true. rewrite Htimer. cbn [andb].
  unfold expire_push_cmd, alloc_ok. rewrite Hm.
  rewrite (proj2 (Z.eqb_neq _ 0)) by (change (kd_bytes (kd_of k)) with k; destruct k; [done|simpl; lia]).
  cbn [negb andb].
  pose proof (queue_push_rep (sv_cmdq s) [] (ExpireItem k (c_stale c) x (u64 x) type) Hq) as Hp.
  rewrite decide_True in Hp by done. destruct Hp as (q' & Hpush & Hq').
  eexists. split; [reflexivity|]. cbn [sv_eng sv_cmdq with_eng with_cmdq].
  change (kd_bytes (kd_of k)) with k. rewrite Hpush. split_and!; [|  |done].
  - by apply (slot_put_inv (d := d)).
  - rewrite (slot_put_abs (d := d)). unfold db_upd. by rewrite decide_True.
Qed.

(** The key is removed once its time has come. *)
Lemma cmd_set_expires a now ts :
  timer_ready d type c k x a now ts ->
  exists s' q' h' dq q'' nd',
    cmd_set sl type timer c s req = Ok (s', status_reply KVS_RESP_OK) /\
    store_abs (sv_eng s') d !! k = Some (kd_bytes v, x) /\
    expire_turn true now (sv_cmdq s') (heap_init 4096) queue_zero = Ok (q', h', dq, None) /\
    expire_process_deletes ts dq (Node s' a) = Ret (q'', nd') /\
    store_abs (sv_eng (nd_sv nd')) d !! k = None /\
    aof_logged (nd_aof nd') = aof_logged a ++ internal_del_text (del_command type) k.
Proof.
  intros [Ht Hdue Hstale Hl Hr]. destruct cmd_set_timer as (s' & Hc & Hs' & Ha & Hq').
  destruct (queued_timer_fires now (sv_cmdq s') (ExpireItem k (c_stale c) x (u64 x) type) d ts
    (Node s' a)) as (q' & h' & dq & q'' & nd' & H1 & H2 & H3 & H4);
    [exact Hq'|exact Hdue|exact Ht|exact Hs'|split; [intros _; apply Hset|exact Hstale]|
    |exact Hl|exact Hr|].
  { unfold current. cbn [nd_sv ei_key ei_expire_time]. by rewrite Ha. }
  exists s', q', h', dq, q'', nd'. by split_and!.
Qed.
End set_expire.


(** SET on the array queues a timer even without an expiry time: its time
    is 0, so it is due at once, the stored expiry time is the same 0, and the
    key that was to live for ever is removed and its removal logged. *)
Theorem array_set_without_ttl_deleted c s req k v a now ts :
  set_ready DbArray c s req k v 0 -> timer_ready DbArray EXPIRE_TYPE_ARRAY c k 0 a now ts ->
  exists s' q' h' dq q'' nd',
    cmd_array_set c s req = Ok (s', status_reply KVS_RESP_OK) /\
    store_abs (sv_eng s') DbArray !! k = Some (kd_bytes v, 0) /\
    expire_turn true now (sv_cmdq s') (heap_init 4096) queue_zero = Ok (q', h', dq, None) /\
    expire_process_deletes ts dq (Node s' a) = Ret (q'', nd') /\
    store_abs (sv_eng (nd_sv nd')) DbArray !! k = None /\
    aof_logged (nd_aof nd') = aof_logged a ++ internal_del_text (str "DEL") k.
Proof. intros Hset. by apply (cmd_set_expires slot_array DbArray). Qed.

(** ** Examples *)

(** A turn of the main thread of a server with a log. *)
Definition delete_turns (now : Z) (n : nat) : turn := sample_turn now.

Definition delete_aof : aof := Aof true [] [] false 0 0 0 [].

Definition expire_request : resp_request :=
  request_at [str "RSET"; str "k"; str "v"; str "EX"; str "10"] [].

Definition plain_request : resp_request := request_at [str "SET"; str "k"; str "v"] [].

Lemma delete_logs_alone now : logs_alone (sample_turn now).
Proof. done. Qed.

Lemma sample_set_ready d now req x :
  arg_data req 1 = Ok (kd_of (str "k")) ->
  arg_data req 2 = Ok (kd_of (str "v")) -> 3 <= req_argc req -> parse_ttl now req = Ok x ->
  set_ready d (tn_cmd (sample_turn now)) sample_server req (str "k") (kd_of (str "v")) x.
Proof.
  intros Hk Hv Ha Hx. split; try done.
  - apply sample_engines_ok.
  - apply queue_zero_rep.
  - rewrite (proj2 sample_engines_ok). destruct d; simpl;
      unfold array_fits, hash_fits, always_fits; rewrite ?map_size_empty;
      first [done|by right|by vm_compute].
Qed.


Lemma array_set_without_ttl_deleted_witness :
  set_ready DbArray (tn_cmd (sample_turn 1000)) sample_server plain_request (str "k")
    (kd_of (str "v")) 0 /\
  exists s' q' h' dq q'' nd',
    cmd_array_set (tn_cmd (sample_turn 1000)) sample_server plain_request
      = Ok (s', status_reply KVS_RESP_OK) /\
    store_abs (sv_eng s') DbArray !! str "k" = Some (str "v", 0) /\
    expire_turn true 1001 (sv_cmdq s') (heap_init 4096) queue_zero = Ok (q', h', dq, None) /\
    expire_process_deletes (delete_turns 1001) dq (Node s' delete_aof) = Ret (q'', nd') /\
    store_abs (sv_eng (nd_sv nd')) DbArray !! str "k" = None /\
    aof_logged (nd_aof nd') = [] ++ internal_del_text (str "DEL") (str "k").
Proof.
  assert (Hset : set_ready DbArray (tn_cmd (sample_turn 1000)) sample_server plain_request
    (str "k") (kd_of (str "v")) 0) by (by apply sample_set_ready).
  split; [exact Hset|].
  apply (array_set_without_ttl_deleted (tn_cmd (sample_turn 1000)) sample_server plain_request
    (str "k") (kd_of (str "v")) delete_aof 1001 (delete_turns 1001)); [exact Hset|].
  split; [done|done|by intros [|]|done|]. split; [done|]. split; [done|]. split; by vm_compute.
Defined.

(** A server whose tree holds the key "k" with the expiry time 5000. *)
Definition delete_node : node :=
  Node (with_eng (slot_rbtree.(sl_put)
    (kvs_rbtree_set (call (sample_cmdenv 0) 0) (global_rbtree sample_engines) (kd_of (str "k"))
       (kd_of (str "v")) 5000).1 sample_engines) sample_server) delete_aof.

Definition delete_item (x : Z) : expire_item := ExpireItem (str "k") 77 x x EXPIRE_TYPE_RBTREE.

Lemma delete_node_inv : store_inv (sv_eng (nd_sv delete_node)).
Proof.
  apply (slot_put_inv (sl := slot_rbtree) (d := DbRbtree)); [apply sample_engines_ok|].
  exact (eng_set_inv (T := kvs_rbtree) (call (sample_cmdenv 0) 0) (global_rbtree sample_engines)
    (str "k") (kd_of (str "v")) 5000 (proj1 sample_engines_ok DbRbtree) I).
Qed.

(** A timer of an older value finds the key with another expiry time. *)
Lemma timer_deletes_current_witness :
  store_inv (sv_eng (nd_sv delete_node)) /\
  exists nd', process_delete (sample_turn 6000) delete_node (delete_item 4000) = Ret nd' /\
    if decide (current (sv_eng (nd_sv delete_node)) DbRbtree (delete_item 4000)) then
      store_inv (sv_eng (nd_sv nd')) /\
      (forall d', store_abs (sv_eng (nd_sv nd')) d'
         = db_upd (store_abs (sv_eng (nd_sv delete_node))) DbRbtree
             (delete (str "k") (store_abs (sv_eng (nd_sv delete_node)) DbRbtree)) d') /\
      aof_logged (nd_aof nd') = aof_logged (nd_aof delete_node) ++
        internal_del_text (del_command EXPIRE_TYPE_RBTREE) (str "k")
    else nd' = delete_node.
Proof.
  split; [exact delete_node_inv|].
  apply (timer_deletes_current (sample_turn 6000) delete_node (delete_item 4000) DbRbtree);
    [done|exact delete_node_inv|split; [done|by intros [|]]|done|].
  split; [done|]. split; [done|]. split; by vm_compute.
Defined.

Lemma logged_delete_replays_witness :
  store_inv (sv_eng (nd_sv delete_node)) /\
  exists s', protocol_process_recover (H := sample_ai) 2 (delete_turns 0)
    (internal_del_text (str "RDEL") (str "k")) (nd_sv delete_node)
      = Ret (Z.of_nat (length (internal_del_text (str "RDEL") (str "k"))), s') /\
    store_inv (sv_eng s') /\
    forall d', store_abs (sv_eng s') d'
      = db_upd (store_abs (sv_eng (nd_sv delete_node))) DbRbtree
          (delete (str "k") (store_abs (sv_eng (nd_sv delete_node)) DbRbtree)) d'.
Proof.
  split; [exact delete_node_inv|].
  apply (logged_delete_replays (H := sample_ai) 2 (delete_turns 0) (nd_sv delete_node)
    (delete_item 4000) DbRbtree); [done|exact delete_node_inv|done|by vm_compute|done|done|lia].
Defined.

(** The hash table: a timer whose key carries another hash than the key's
    looks in another bucket and leaves the key in place. *)
Example stale_hash_keeps_key :
  let t := (kvs_hash_set (call (sample_cmdenv 0) 0) (kvs_hash_create (call (sample_cmdenv 0) 0)
              hash_zero).1 (kd_of (str "k")) (kd_of (str "v")) 5000).1 in
  let del h := (kvs_hash_del_if_expired (call (sample_cmdenv 6000) 0) t
                  (KvData (Some (str "k")) h) 5000).2 in
  (del 0, del 1, del 2) = (1, 0, 0).
Proof. by vm_compute. Qed.
