(* ===== verification/Server.v ===== *)
(** * Start and stop of the server (server.c, persistence.c)

    [init_kvengine] creates the engines, loads the snapshot, replays the log
    and only then starts the expiry thread and clears the semantic index;
    [dest_kvengine] does the reverse.  What the files hold and what the system
    answers is an argument. *)

From S2P Require Import Prelude KvData Engine Config Resp Repl Aof ExpireQueue Store Snapshot Ai.
From S2P Require Import Commands Lookup Protocol.

Open Scope Z_scope.
Open Scope kvs_scope.

(** What the start finds: the environment of the creation of the engines and
    of the loading, the seed of the skip list, the content of the log and of
    the snapshot (none for a file that cannot be opened), the answers of
    [mmap], io_uring, the reopening of the log, [pthread_create] and the RDMA
    device, and the environments of the replayed requests. *)
Record boot := Boot {
  bt_cmd : cmdenv;
  bt_seed : Z;
  bt_log : option bytes;
  bt_snapshot : option bytes;
  bt_map_ok : bool;
  bt_uring_ok : bool;
  bt_reopen_ok : bool;
  bt_thread_ok : bool;
  bt_rdma_ok : bool;
  bt_turns : nat -> turn
}.

(** The statics of a new process. *)
Definition new_server (en : engines) : server :=
  Server en queue_zero repl_zero (-1) None (AiIndex [] DEFAULT_MATCH_THRESHOLD) false.

Definition aof_closed : aof := Aof false [] [] false 0 0 0 [].

Section server.
Context `{AiOps}.

(** The size of the log is passed on as an [int]: from 2 GB on it is negative,
    and nothing is replayed. *)
Definition recover_input (log : bytes) : bytes :=
  take (Z.to_nat (i32 (Z.of_nat (length log)))) log.

(** [kvs_persistence_recover] on the open log. *)
Definition kvs_persistence_recover (fuel : nat) (b : boot) (log : bytes) (nd : node) : run node :=
  if (Z.of_nat (length log) <=? 0) || negb (bt_map_ok b) then Ret nd
  else
    let! r := protocol_process_recover fuel (bt_turns b) (recover_input log) (nd_sv nd) in
    let a := nd_aof nd in
    Ret (Node r.2
      (Aof (bt_reopen_ok b) (aof_buf_active a) (aof_buf_flush a) (is_io_uring_busy a)
         (Z.of_nat (length log)) (g_last_flush_time_ms a) (aof_inflight a) (aof_submitted a))).

(** The log is opened, given its buffers and replayed.  The result of
    [kvs_persistence_init] is not tested: without a file the server runs on
    without logging; without buffers or io_uring the model stops, since the
    first write to the log would copy to a null pointer.  A file that opens for
    reading only is not covered. *)
Definition init_log (fuel : nat) (b : boot) (s : server) : run node :=
  match bt_log b with
  | None => Ret (Node s aof_closed)
  | Some log =>
    match (kvs_persistence_init (call (bt_cmd b) 9) true (bt_uring_ok b)
             (Z.of_nat (length log))).1 with
    | Some a => kvs_persistence_recover fuel b log (Node s a)
    | None => Undef
    end
  end.

(** [init_kvengine]: the node and the result, which [main] does not test. *)
Definition init_kvengine (fuel : nat) (b : boot) : run (node * Z) :=
  let g := c_glob (bt_cmd b) in
  let! en := of_res (init_engines (bt_cmd b) (bt_seed b)) in
  let en := if g_enable_snapshot g
            then (kvs_snapshot_load (bt_cmd b) (bt_snapshot b) (bt_map_ok b) en).1 else en in
  let s := new_server en in
  let! nd := if aof_enabled g then init_log fuel b s else Ret (Node s aof_closed) in
  if g_enable_ttl g && negb (bt_thread_ok b) then Ret (nd, -1)
  else
    let rdma := g_use_rdma_sync g && (g_enable_repl_master g || g_enable_repl_slave g) in
    if rdma && negb (bt_rdma_ok b) then Ret (nd, -1)
    else
      let s := if rdma then with_rdma_ctx true (nd_sv nd) else nd_sv nd in
      Ret (Node (with_ai (keep_index_init (sv_ai s)) s) (nd_aof nd), 0).

(** [dest_kvengine] up to the release of the engines: the state they are
    released in and what the snapshot's files go through. *)
Definition dest_kvengine (c : cmdenv) (u : uring) (us : list uring) (io : save_io) (nd : node)
  : run (node * list fs_op) :=
  let g := c_glob c in
  let s := with_ai (keep_index_destroy (sv_ai (nd_sv nd))) (nd_sv nd) in
  let s := if g_use_rdma_sync g && (g_enable_repl_master g || g_enable_repl_slave g)
           then with_rdma_ctx false s else s in
  let! a := if aof_enabled g then of_outcome (kvs_persistence_close u us (nd_aof nd))
            else Ret (nd_aof nd) in
  let! ops := if g_enable_snapshot g then of_res (kvs_snapshot_save io c (sv_eng s))
              else Ret ([], 0) in
  Ret (Node s a, ops.1).
End server.
