(* ===== verification/RestartSpec.v ===== *)
(** * What a restart gives back

    A server that logs its write commands and is started again from its log,
    or from what a crash left of it, has the content it had after the commands
    the log holds completely, whatever the clock says by then; a snapshot
    loaded before the log does no harm.  But the semantic index is emptied
    after the replay that filled it, and a log of 2 GB is not replayed at all.
    TornLog.v shows what a request that a crash cut short does to the log. *)

From S2P Require Import Prelude KvData Engine EngineSpec Config Resp Repl Aof ExpireQueue Store.
From S2P Require Import Snapshot SnapshotSpec Ai Commands Lookup CommandSpec Protocol ProtocolSpec Server.
From S2P Require Import Engines ArrayEngine HashEngine RbTree SkipList.

Open Scope Z_scope.
Open Scope kvs_scope.

(** ** Write commands without expiry time *)

Record write := Write {
  wr_name : string;
  wr_db : db;
  wr_kind : kind;
  wr_key : bytes;
  wr_value : bytes
}.

Definition write_args (w : write) : list bytes :=
  match wr_kind w with
  | KDel => [str (wr_name w); wr_key w]
  | _ => [str (wr_name w); wr_key w; wr_value w]
  end.

Definition log_of (ws : list write) : bytes := concat (resp_encode <$> (write_args <$> ws)).

Definition write_ok (w : write) : Prop :=
  (wr_name w, wr_db w, wr_kind w) ∈ basic_commands /\ wr_kind w ∈ [KSet; KMod; KDel] /\
  db_key (wr_db w) (wr_key w) /\ Z.of_nat (length (wr_key w)) < 2 ^ 31 /\
  Z.of_nat (length (wr_value w)) < 2 ^ 31 /\ zlen (resp_encode (write_args w)) <= AOF_BUF_SIZE.

(** What the command does to the contents of the stores. *)
Definition apply_write (m : dbs) (w : write) : dbs :=
  match wr_kind w with
  | KDel => db_upd m (wr_db w) (delete (wr_key w) (m (wr_db w)))
  | _ => db_upd m (wr_db w) (<[wr_key w := (wr_value w, 0)]> (m (wr_db w)))
  end.

Definition apply_writes (m : dbs) (ws : list write) : dbs := fold_left apply_write ws m.

(** The stores have room for what is set. *)
Fixpoint writes_fit (m : dbs) (ws : list write) : Prop :=
  match ws with
  | [] => True
  | w :: ws =>
    (wr_kind w <> KDel -> db_fits (wr_db w) (m (wr_db w)) (wr_key w)) /\
    writes_fit (apply_write m w) ws
  end.

(** Equal contents. *)
#[export] Instance dbs_equiv : Equiv dbs := fun m m' => forall d, m d = m' d.

#[export] Instance dbs_equivalence : Equivalence (≡@{dbs}).
Proof.
  split; [by intros m d|by intros m m' E d|]. intros m1 m2 m3 E1 E2 d. by rewrite E1.
Qed.

#[export] Instance apply_write_proper : Proper ((≡) ==> eq ==> (≡)) apply_write.
Proof.
  intros m m' E w _ <- d. unfold apply_write, db_upd. destruct (wr_kind w); by rewrite (E d), (E (wr_db w)).
Qed.

#[export] Instance apply_writes_proper : Proper ((≡) ==> eq ==> (≡)) apply_writes.
Proof.
  intros m m' E ws _ <-. revert m m' E. induction ws as [|w ws IH]; intros m m' E; [done|].
  apply IH. by rewrite E.
Qed.

#[export] Instance writes_fit_proper : Proper ((≡) ==> eq ==> iff) writes_fit.
Proof.
  intros m m' E ws _ <-. revert m m' E. induction ws as [|w ws IH]; intros m m' E; [done|].
  cbn [writes_fit]. rewrite (E (wr_db w)). rewrite (IH _ _ (apply_write_proper _ _ E w w eq_refl)).
  done.
Qed.

Lemma write_names w :
  write_ok w -> is_write_command (str (wr_name w)) (Z.of_nat (length (str (wr_name w)))) = true.
Proof.
  intros (Hin & Hk & _). destruct w as [name d kd k v]. simpl in *.
  assert (Hall : forallb (fun x : string * db * kind =>
    match x.2 with
    | KSet | KMod | KDel => is_write_command (str x.1.1) (Z.of_nat (length (str x.1.1)))
    | _ => true
    end) basic_commands = true) by (by vm_compute).
  rewrite forallb_forall in Hall. specialize (Hall _ (proj1 (list_elem_of_In _ _) Hin)). simpl in Hall.
  destruct kd; try exact Hall; exfalso; by repeat (apply elem_of_cons in Hk as [Hk|Hk]; [done|]); inversion Hk.
Qed.

(** ** One command *)

Lemma find_arg args r i a :
  args !! i = Some a -> arg_data (request_at args r) i = Ok (kd_of a).
Proof.
  intros Hi. unfold arg_data, argn. cbn [request_at req_argv].
  assert (Hat : exists tl, argv_at args r !! i = Some (Arg (a ++ tl) (Z.of_nat (length a)))).
  { revert i Hi. induction args as [|b args IH]; intros [|i] Hi; simplify_eq/=; [by eexists|].
    by apply IH. }
  destruct Hat as [tl ->]. cbn [rbind arg_len arg_ptr]. rewrite length_app.
  rewrite (proj2 (Z.leb_le 0 _)), (proj2 (Z.leb_le _ _)) by lia. cbn [andb].
  unfold arg_bytes. cbn [arg_ptr arg_len]. by rewrite Nat2Z.id, take_app_length.
Qed.

Definition op_of_write (w : write) : op :=
  match wr_kind w with
  | KDel => ODel (wr_key w)
  | KMod => OMod (wr_key w) (kd_of (wr_value w)) 0
  | _ => OSet (wr_key w) (kd_of (wr_value w)) 0
  end.

Lemma write_op w c r :
  wr_kind w ∈ [KSet; KMod; KDel] -> op_of (wr_kind w) c (request_at (write_args w) r) = Ok (op_of_write w).
Proof.
  intros Hk. destruct w as [name d kd k v]. unfold write_args, op_of_write. simpl in *.
  assert (Hkd : kd = KSet \/ kd = KMod \/ kd = KDel).
  { repeat (apply elem_of_cons in Hk as [Hk|Hk]; [tauto|]). inversion Hk. }
  destruct Hkd as [->|[->| ->]]; unfold op_of;
    rewrite ?(find_arg [str name; k; v] r 1 k), ?(find_arg [str name; k; v] r 2 v),
      ?(find_arg [str name; k] r 1 k) by done; cbn [rbind kd_bytes kd_of kd_data].
  - unfold parse_ttl. simpl. by destruct (c_ttl c).
  - done.
  - done.
Qed.

(** What an operation without expiry time does when nothing can refuse it. *)
Lemma write_step e w m m' r :
  mem_ok e -> wr_kind w ∈ [KSet; KMod; KDel] ->
  Z.of_nat (length (wr_key w)) < 2 ^ 31 -> Z.of_nat (length (wr_value w)) < 2 ^ 31 ->
  (wr_kind w <> KDel -> db_fits (wr_db w) (m (wr_db w)) (wr_key w)) ->
  spec_step e (db_fits (wr_db w)) (m (wr_db w)) (op_of_write w) m' r ->
  db_upd m (wr_db w) m' ≡ apply_write m w.
Proof.
  intros Hm Hk Hl1 Hl2 Hfit Hs. destruct w as [name d kd k v].
  unfold op_of_write, apply_write in *. simpl in *.
  assert (Hset : spec_set e (db_fits d) (m d) k (kd_of v) 0 m' r -> kd <> KDel ->
                 m' = <[k := (v, 0)]> (m d)).
  { intros Hset Hkd. inversion Hset as [|m1 c Hc Hdel Hno]; subst; [done|].
    exfalso. apply Hno. split_and!; [done|by apply Hfit|done|done]. }
  destruct kd; inversion Hs; subst; intros d'; try done;
    match goal with H : spec_set _ _ _ _ _ _ _ _ |- _ => by rewrite (Hset H) end.
Qed.

Section replay.
Context `{AiOps}.

(** Replaying a request without knowing the clock. *)
Lemma recover_write t s w r :
  cmd_mem_ok (tn_cmd t) -> write_ok w -> store_inv (sv_eng s) ->
  writes_fit (store_abs (sv_eng s)) [w] ->
  exists s', recover_request t s (request_at (write_args w) r) = Ret s' /\
    store_inv (sv_eng s') /\ store_abs (sv_eng s') ≡ apply_write (store_abs (sv_eng s)) w /\
    sv_repl s' = sv_repl s.
Proof.
  intros Hm (Hin & Hk & Hdb & Hl1 & Hl2 & _) Hinv [Hfit _].
  pose proof (write_op w (tn_cmd t) r Hk) as Hop.
  assert (Hargs : exists args, write_args w = str (wr_name w) :: args).
  { unfold write_args. destruct (wr_kind w); by eexists. }
  destruct Hargs as [args Hargs].
  destruct (basic_lookup (wr_name w) (wr_db w) (wr_kind w) (CRLF ++ concat (resp_bulk <$> args) ++ r) Hin)
    as (cmd & Hl & Hproc).
  assert (Hr : refines (wr_db w) (wr_kind w) (tn_cmd t) s (op_of_write w)
                 (kvs_execute_batch (tn_cmd t) s (Some cmd) (request_at (write_args w) r))).
  { simpl. rewrite Hproc. apply (basic_handler_refines (wr_name w)); [done|done| |done].
    unfold db_key_ok, op_of_write. by destruct (wr_kind w). }
  destruct Hr as (s' & rep & m' & He & Hs & Hi & Hrp & Ha).
  assert (Hal : forall i k, 0 < k -> alloc_ok (call (tn_cmd t) 55) i k = true).
  { intros i k Hk0. unfold alloc_ok. rewrite (Hm 55%nat), (proj2 (Z.eqb_neq k 0)) by lia. done. }
  exists s'. split; [|split; [done|split; [|done]]].
  - unfold recover_request.
    assert (Hargc : 0 < req_argc (request_at (write_args w) r)) by (rewrite Hargs; simpl; lia).
    rewrite (proj2 (Z.ltb_ge _ 0)), (proj2 (Z.ltb_lt 0 _)), !Hal by lia. cbn [orb andb negb].
    assert (Harg : argn (request_at (write_args w) r) 0
                   = Ok (Arg (str (wr_name w) ++ CRLF ++ concat (resp_bulk <$> args) ++ r)
                             (Z.of_nat (length (str (wr_name w)))))) by (by rewrite Hargs).
    rewrite Harg. cbn [of_res run_bind arg_ptr arg_len]. rewrite Hl. cbn [of_res run_bind].
    by rewrite He.
  - etrans; [exact Ha|]. eapply write_step; [|done..|exact Hs].
    unfold op_env. destruct (wr_kind w); apply Hm.
Qed.
End replay.

(** ** The effect of writes on one key *)

Definition effect_of (d : db) (k : bytes) (w : write) : option (option (bytes * Z)) :=
  if decide (wr_db w = d /\ wr_key w = k) then
    Some (match wr_kind w with KDel => None | _ => Some (wr_value w, 0) end)
  else None.

(** The last write of the key decides. *)
Fixpoint effect (d : db) (k : bytes) (ws : list write) : option (option (bytes * Z)) :=
  match ws with
  | [] => None
  | w :: ws => match effect d k ws with Some e => Some e | None => effect_of d k w end
  end.

Lemma apply_write_at m w d k :
  apply_write m w d !! k = match effect_of d k w with Some e => e | None => m d !! k end.
Proof.
  unfold apply_write, effect_of, db_upd.
  destruct (decide (wr_db w = d /\ wr_key w = k)) as [[<- <-]|Hne].
  - destruct (wr_kind w); rewrite decide_True by done;
      by rewrite ?lookup_insert_eq, ?lookup_delete_eq.
  - destruct (wr_kind w); (destruct (decide (d = wr_db w)) as [->|]; [|done]);
      rewrite ?lookup_insert_ne, ?lookup_delete_ne; naive_solver.
Qed.

Lemma apply_writes_at m ws d k :
  apply_writes m ws d !! k = match effect d k ws with Some e => e | None => m d !! k end.
Proof.
  revert m. induction ws as [|w ws IH]; intros m; [done|].
  change (apply_writes m (w :: ws)) with (apply_writes (apply_write m w) ws).
  rewrite IH. simpl. destruct (effect d k ws); [done|]. apply apply_write_at.
Qed.

Lemma effect_app d k ws1 ws2 :
  effect d k (ws1 ++ ws2)
  = match effect d k ws2 with Some e => Some e | None => effect d k ws1 end.
Proof.
  induction ws1 as [|w ws1 IH]; simpl; [by destruct (effect d k ws2)|].
  rewrite IH. by destruct (effect d k ws2).
Qed.

(** Replaying everything over a state in which some of it was done already. *)
Lemma replay_again m ws0 ws :
  ws0 `prefix_of` ws -> apply_writes (apply_writes m ws0) ws ≡ apply_writes m ws.
Proof.
  intros [tl ->] d. apply map_eq. intros k. rewrite !apply_writes_at, effect_app.
  destruct (effect d k tl); [done|]. by destruct (effect d k ws0).
Qed.

(** ** The log *)

Lemma write_ok_request w : write_ok w -> write_request (write_args w).
Proof.
  intros Hw. pose proof (write_names w Hw) as Hn. destruct Hw as (Hin & Hk & Hdb & Hl1 & Hl2 & Hz).
  assert (Hname : Z.of_nat (length (str (wr_name w))) < 2 ^ 31).
  { assert (Hall : Forall (fun x : string * db * kind => Z.of_nat (length (str x.1.1)) < 2 ^ 31)
      basic_commands) by (repeat constructor).
    rewrite Forall_forall in Hall. apply (Hall _ Hin). }
  unfold write_request, write_args in *.
  destruct (wr_kind w); (split; [|split; [done|exact Hn]]);
    (split; [done|]); by repeat constructor.
Qed.

Lemma log_of_app ws1 ws2 : log_of (ws1 ++ ws2) = log_of ws1 ++ log_of ws2.
Proof. unfold log_of. by rewrite !fmap_app, concat_app. Qed.

(** The beginning of a log: some requests and the beginning of the next one. *)
Lemma log_prefix ws n :
  Forall write_ok ws ->
  exists ws1 ws2 rest, ws = ws1 ++ ws2 /\ take n (log_of ws) = log_of ws1 ++ rest /\
    partial rest /\ ((length (log_of ws) <= n)%nat -> ws2 = []).
Proof.
  intros Hw. revert n. induction Hw as [|w ws Hw Hws IH]; intros n.
  - exists [], [], []. change (log_of []) with (@nil byte). rewrite take_nil. split_and!; [done|done|apply partial_nil|done].
  - change (log_of (w :: ws)) with (resp_encode (write_args w) ++ log_of ws).
    destruct (decide (n < length (resp_encode (write_args w)))%nat) as [Hlt|Hge].
    + exists [], (w :: ws), (take n (resp_encode (write_args w))).
      rewrite take_app_le by lia. split_and!; [done|done| |rewrite length_app; lia].
      exists (write_args w), n. split; [by apply write_ok_request|done].
    + destruct (IH (n - length (resp_encode (write_args w)))%nat) as (ws1 & ws2 & rest & -> & Ht & Hr & He).
      exists (w :: ws1), ws2, rest. rewrite take_app_ge by lia. rewrite Ht.
      split_and!; [done| |done|rewrite length_app; intros; apply He; lia].
      change (log_of (w :: ws1)) with (resp_encode (write_args w) ++ log_of ws1).
      by rewrite app_assoc.
Qed.

Section restart.
Context `{AiOps}.

Lemma replay_writes ts n s ws tail :
  (forall k, cmd_mem_ok (tn_cmd (ts k))) -> Forall write_ok ws -> store_inv (sv_eng s) ->
  writes_fit (store_abs (sv_eng s)) ws ->
  exists s', replay_requests ts n s (write_args <$> ws) tail = Ret s' /\ store_inv (sv_eng s') /\
    store_abs (sv_eng s') ≡ apply_writes (store_abs (sv_eng s)) ws.
Proof.
  intros Hm Hw. revert n s. induction Hw as [|w ws Hw Hws IH]; intros n s Hi Hfit.
  - by exists s.
  - destruct Hfit as [Hfit Hfits]. rewrite fmap_cons. cbn [replay_requests].
    destruct (recover_write (ts n) s w (concat (resp_encode <$> (write_args <$> ws)) ++ tail))
      as (s1 & H1 & Hi1 & Ha1 & _); [done|done|done|by split|].
    rewrite H1. cbn [run_bind].
    destruct (IH (S n) s1 Hi1) as (s' & Hr & Hi' & Ha'); [by rewrite Ha1|].
    exists s'. split; [done|]. split; [done|]. rewrite Ha', Ha1. reflexivity.
Qed.

(** Recovery on a log that a crash may have cut. *)
Lemma recover_log fuel ts s ws rest :
  (forall k, cmd_mem_ok (tn_cmd (ts k))) -> Forall write_ok ws -> stops rest ->
  (length ws < fuel)%nat -> store_inv (sv_eng s) -> writes_fit (store_abs (sv_eng s)) ws ->
  exists s' n, protocol_process_recover fuel ts (log_of ws ++ rest) s = Ret (n, s') /\
    store_inv (sv_eng s') /\ store_abs (sv_eng s') ≡ apply_writes (store_abs (sv_eng s)) ws.
Proof.
  intros Hm Hw Hr Hf Hi Hfit. unfold protocol_process_recover.
  destruct (replay_writes ts 0 s ws rest Hm Hw Hi Hfit) as (s' & Hs & Hi' & Ha').
  pose proof (recover_loop_stops ts (fun n => Hm n 50%nat) fuel 0 [] (write_args <$> ws) rest s)
    as Hloop.
  rewrite Hs in Hloop. cbn [app length run_bind] in Hloop. unfold log_of.
  destruct (Z.leb_spec (Z.of_nat (length (concat (resp_encode <$> (write_args <$> ws)) ++ rest))) 0)
    as [Hz|Hz].
  - exists s, 0. destruct ws as [|w ws]; [done|]. exfalso. rewrite length_app in Hz.
    rewrite !fmap_cons in Hz. destruct (resp_encode_head (write_args w)) as [l Hl].
    cbn [concat] in Hz. rewrite Hl in Hz. simpl in Hz. lia.
  - eexists s', _. split; [apply Hloop|done]; [|done|by rewrite length_fmap].
    apply Forall_fmap. eapply Forall_impl; [exact Hw|]. intros w Hwk. by apply write_ok_request.
Qed.

(** ** Starting *)

(** The system refuses the start nothing. *)
Record boot_ok (b : boot) : Prop := {
  bo_log : aof_enabled (c_glob (bt_cmd b)) = true;
  bo_mem : cmd_mem_ok (bt_cmd b);
  bo_turns : forall n, cmd_mem_ok (tn_cmd (bt_turns b n));
  bo_map : bt_map_ok b = true;
  bo_uring : bt_uring_ok b = true;
  bo_thread : bt_thread_ok b = true;
  bo_rdma : bt_rdma_ok b = true
}.

(** The engines once the snapshot was loaded. *)
Definition loaded (b : boot) (en : engines) : engines :=
  if g_enable_snapshot (c_glob (bt_cmd b))
  then (kvs_snapshot_load (bt_cmd b) (bt_snapshot b) (bt_map_ok b) en).1 else en.

(** The content the start begins the replay with. *)
Definition starts_from (b : boot) (m : dbs) : Prop :=
  forall en, init_engines (bt_cmd b) (bt_seed b) = Ok en ->
  store_inv (loaded b en) /\ store_abs (loaded b en) ≡ m.

(** The log of a server that has just started: nothing logged yet, and open
    when it could be opened again behind the replay. *)
Definition fresh_log (b : boot) (a : aof) : Prop :=
  aof_logged a = [] /\ (bt_reopen_ok b = true -> aof_fd_open a = true).

(** The engines after the start are those after the replay. *)
Lemma init_kvengine_replay fuel b log en n s' :
  boot_ok b -> bt_log b = Some log -> init_engines (bt_cmd b) (bt_seed b) = Ok en ->
  protocol_process_recover fuel (bt_turns b) (recover_input log) (new_server (loaded b en))
    = Ret (n, s') ->
  exists nd, init_kvengine fuel b = Ret (nd, 0) /\ sv_eng (nd_sv nd) = sv_eng s' /\
    fresh_log b (nd_aof nd).
Proof.
  intros [Hg Hm Ht Hmap Hu Hth Hrd] Hlog Hen Hrec. unfold init_kvengine. rewrite Hen.
  cbn [of_res run_bind]. fold (loaded b en). rewrite Hg. unfold init_log. rewrite Hlog.
  assert (Hinit : (kvs_persistence_init (call (bt_cmd b) 9) true (bt_uring_ok b)
                     (Z.of_nat (length log))).1
                  = Some (Aof true [] [] false (Z.of_nat (length log)) 0 0 [])).
  { unfold kvs_persistence_init, alloc_ok. by rewrite !(Hm 9%nat), Hu. }
  rewrite Hinit. unfold kvs_persistence_recover. rewrite Hmap, Hth, Hrd, !andb_false_r.
  cbn [negb orb nd_sv nd_aof]. rewrite orb_false_r.
  destruct (Z.leb_spec (Z.of_nat (length log)) 0) as [Hz|Hz].
  - destruct log as [|x log]; [|simpl in Hz; lia]. injection Hrec as _ <-.
    cbn [run_bind nd_sv nd_aof]. eexists. split; [reflexivity|]. cbn [nd_sv nd_aof].
    split; [by destruct (g_use_rdma_sync _ && _)|done].
  - rewrite Hrec. cbn [run_bind nd_sv nd_aof fst snd].
    eexists. split; [reflexivity|]. cbn [nd_sv nd_aof].
    split; [by destruct (g_use_rdma_sync _ && _)|done].
Qed.

Lemma init_kvengine_ok fuel b m ws rest :
  boot_ok b -> bt_log b = Some (log_of ws ++ rest) ->
  Z.of_nat (length (log_of ws ++ rest)) < 2 ^ 31 -> stops rest -> Forall write_ok ws ->
  (length ws < fuel)%nat -> starts_from b m -> writes_fit m ws ->
  exists nd, init_kvengine fuel b = Ret (nd, 0) /\ store_inv (sv_eng (nd_sv nd)) /\
    store_abs (sv_eng (nd_sv nd)) ≡ apply_writes m ws /\ fresh_log b (nd_aof nd).
Proof.
  intros Hb Hlog Hlen Hr Hw Hf Hst Hfit.
  destruct (init_engines_ok (bt_cmd b) (bt_seed b) (bo_mem b Hb)) as (en & Hen & _ & _).
  destruct (Hst en Hen) as [Hi Ha].
  destruct (recover_log fuel (bt_turns b) (new_server (loaded b en)) ws rest)
    as (s' & n & Hrec & Hi' & Ha'); [apply Hb|exact Hw|exact Hr|exact Hf|exact Hi| |].
  { cbn [new_server sv_eng]. by rewrite Ha. }
  destruct (init_kvengine_replay fuel b (log_of ws ++ rest) en n s') as (nd & Hnd & Hsv & Hfresh);
    [done|done|done| |].
  { unfold recover_input. rewrite i32_small, Nat2Z.id by lia. by rewrite take_ge by lia. }
  exists nd. split; [done|]. rewrite Hsv. split; [exact Hi'|]. split; [|done]. rewrite Ha'.
  cbn [new_server sv_eng]. by rewrite Ha.
Qed.

Definition no_content : dbs := fun _ => ∅.

Lemma starts_empty b :
  cmd_mem_ok (bt_cmd b) -> g_enable_snapshot (c_glob (bt_cmd b)) = false ->
  starts_from b no_content.
Proof.
  intros Hm Hs en Hen. destruct (init_engines_ok (bt_cmd b) (bt_seed b) Hm) as (en' & Hen' & Hi & Ha).
  rewrite Hen in Hen'. injection Hen' as <-. unfold loaded. rewrite Hs. by split.
Qed.
End restart.


Lemma apply_writes_app m ws1 ws2 : apply_writes m (ws1 ++ ws2) = apply_writes (apply_writes m ws1) ws2.
Proof. unfold apply_writes. by rewrite fold_left_app. Qed.

Lemma writes_fit_suffix m ws1 ws2 : writes_fit m (ws1 ++ ws2) -> writes_fit (apply_writes m ws1) ws2.
Proof.
  revert m. induction ws1 as [|w ws1 IH]; intros m; [done|]. intros [_ Hf]. by apply IH.
Qed.

Lemma writes_fit_prefix m ws1 ws2 : writes_fit m (ws1 ++ ws2) -> writes_fit m ws1.
Proof.
  revert m. induction ws1 as [|w ws1 IH]; intros m; [done|]. intros [H1 H2].
  split; [done|]. by apply IH.
Qed.

(** ** The promises *)


(** Keys set without expiry time all come back from a snapshot. *)
Lemma starts_from_snapshot b io cs s dir ops ws0 :
  cmd_mem_ok (bt_cmd b) -> bt_map_ok b = true -> g_enable_snapshot (c_glob (bt_cmd b)) = true ->
  saves cs s -> c_ttl cs = true -> storable s -> kvs_snapshot_save io cs s = Ok (ops, 0) ->
  store_abs s ≡ apply_writes no_content ws0 ->
  bt_snapshot b = sd_file (fold_left fs_step ops dir) -> starts_from b (apply_writes no_content ws0).
Proof.
  intros Hm Hmap Hg Hsv Ht Hst Hsave Ha Hb en Hen.
  destruct (init_engines_ok (bt_cmd b) (bt_seed b) Hm) as (en' & Hen' & Hi & He).
  rewrite Hen in Hen'. injection Hen' as <-.
  destruct (snapshot_reload io cs (bt_cmd b) s en dir ops Hsv Ht Hst Hm Hi He Hsave)
    as (s' & Hl & Hi' & Hlook).
  unfold loaded. rewrite Hg, Hb, Hmap, Hl. cbn [fst]. split; [done|].
  intros d. apply map_eq. intros k. rewrite Hlook, (Ha d), apply_writes_at.
  destruct (effect d k ws0) as [[[v x]|]|] eqn:E; [|done|done].
  assert (x = 0) as ->; [|rewrite decide_False by lia; done].
  clear - E. induction ws0 as [|w ws0 IH]; [done|]. simpl in E.
  destruct (effect d k ws0); [by apply IH|]. unfold effect_of in E.
  destruct (decide _); [|done]. destruct (wr_kind w); by simplify_eq.
Qed.


(** The semantic index is cleared after the replay of the log that filled
    it: a server that starts has no entry in it, whatever its log holds. *)
Theorem restart_forgets_index `{AiOps} fuel b nd :
  init_kvengine fuel b = Ret (nd, 0) -> ai_entries (sv_ai (nd_sv nd)) = [].
Proof.
  unfold init_kvengine. destruct (of_res _) as [en| | | |]; try done. cbn [run_bind].
  destruct (if aof_enabled _ then _ else _) as [nd0| | | |]; try done. cbn [run_bind].
  destruct (_ && negb (bt_thread_ok b)); [done|]. destruct (_ && negb (bt_rdma_ok b)); [done|].
  by intros [= <-].
Qed.

(** The size of the log is an [int] for the replay: of a log of 2 GB or
    more, up to 4 GB, not one command is replayed. *)
Theorem huge_log_not_replayed `{AiOps} fuel b log m :
  boot_ok b -> bt_log b = Some log -> 2 ^ 31 <= Z.of_nat (length log) < 2 ^ 32 ->
  starts_from b m ->
  exists nd, init_kvengine fuel b = Ret (nd, 0) /\ store_abs (sv_eng (nd_sv nd)) ≡ m.
Proof.
  intros Hb Hlog Hlen Hst.
  destruct (init_engines_ok (bt_cmd b) (bt_seed b) (bo_mem b Hb)) as (en & Hen & _ & _).
  destruct (Hst en Hen) as [Hi Ha].
  destruct (init_kvengine_replay fuel b log en 0 (new_server (loaded b en))) as (nd & Hnd & Hsv & _);
    [done|done|done| |].
  - assert (Hz : i32 (Z.of_nat (length log)) < 0).
    { unfold i32. replace (Z.of_nat (length log) + 2 ^ 31)
        with (Z.of_nat (length log) - 2 ^ 31 + 1 * 2 ^ 32) by lia.
      rewrite Z.mod_add, Z.mod_small by lia. lia. }
    unfold recover_input. replace (Z.to_nat (i32 (Z.of_nat (length log)))) with 0%nat by lia. done.
  - exists nd. split; [done|]. by rewrite Hsv.
Qed.

(** ** Examples *)

(** Turns of a server that keeps a log, and a start at a later time. *)
Definition sample_turns : nat -> turn := fun _ => sample_turn 9.

Definition sample_boot (log : bytes) : boot :=
  Boot (CmdEnv alone_globals (fun _ => 99000) (fun _ _ _ => true) 99 1 42 0 (fun _ => None) 0) 7
    (Some log) None true true true true true (fun _ => sample_turn 99000).

Lemma sample_boot_ok log : boot_ok (sample_boot log).
Proof. by split. Qed.

Definition sample_writes : list write :=
  [Write "RSET" DbRbtree KSet (str "k") (str "v1"); Write "HSET" DbHash KSet (str "h") (str "v2");
   Write "RMOD" DbRbtree KMod (str "k") (str "v3"); Write "HDEL" DbHash KDel (str "h") []].

Lemma sample_writes_ok : Forall write_ok sample_writes.
Proof.
  repeat (apply Forall_cons; split;
    [split_and!; [by repeat constructor|by repeat constructor|done|done|done|by vm_compute]|]).
  by apply Forall_nil.
Qed.

Lemma sample_writes_fit : writes_fit no_content sample_writes.
Proof. repeat split; intros _; simpl; (exact I || by vm_compute). Qed.

Lemma sample_writes_return :
  exists nd' w', @run_requests sample_ai sample_turns 0 5 sample_node None
                   (write_args <$> sample_writes) [] = Ret (nd', w') /\
    Z.of_nat (length (aof_logged (nd_aof nd'))) < 2 ^ 31.
Proof.
  assert (Hb : match @run_requests sample_ai sample_turns 0 5 sample_node None
                       (write_args <$> sample_writes) [] with
               | Ret (nd', _) => Z.of_nat (length (aof_logged (nd_aof nd'))) <? 2 ^ 31
               | _ => false
               end = true) by (by vm_compute).
  destruct (run_requests _ _ _ _ _ _ _) as [[nd' w']| | | |]; try discriminate.
  exists nd', w'. split; [done|]. by apply Z.ltb_lt.
Qed.


(** The server has run the first command when it saves the snapshot. *)
Definition saved_engines : engines :=
  slot_set slot_rbtree (call (sample_cmdenv 100) 0) sample_engines (str "k") (str "v1") 0.

Definition saved_io : save_io :=
  SaveIo true true (Z.of_nat (length (snap_file (sample_cmdenv 100) saved_engines))) true.

Definition saved_ops : list fs_op :=
  match kvs_snapshot_save saved_io (sample_cmdenv 100) saved_engines with
  | Ok (ops, _) => ops
  | UB => []
  end.

Definition snapshot_boot : boot :=
  Boot (CmdEnv (Globals true true true false false false false false false) (fun _ => 99000)
          (fun _ _ _ => true) 99 1 42 0 (fun _ => None) 0) 7
    (Some (log_of sample_writes)) (sd_file (fold_left fs_step saved_ops (SnapDir None None)))
    true true true true true (fun _ => sample_turn 99000).

Lemma saved_engines_saves : saves (sample_cmdenv 100) saved_engines.
Proof.
  split_and!; [|by apply small_stores_by; vm_compute|done|].
  - apply (slot_set_inv slot_rbtree DbRbtree); [|done]. apply sample_engines_ok.
  - apply Z.ltb_lt. by vm_compute.
Qed.


Lemma started (m : run (node * Z)) :
  match m with Ret (_, r) => r =? 0 | _ => false end = true -> exists nd, m = Ret (nd, 0).
Proof. destruct m as [[nd r]| | | |]; try done. intros ->%Z.eqb_eq. by exists nd. Qed.

(** A log with a KEEP command: the replay puts an entry into the index. *)
Definition keep_log : bytes := resp_encode [str "KEEP"; str "q"; str "a"].

Lemma restart_forgets_index_witness :
  match @protocol_process_recover sample_ai 3 (fun _ => sample_turn 99000) keep_log sample_server with
  | Ret (_, s) => length (ai_entries (sv_ai s)) = 1%nat
  | _ => False
  end /\
  exists nd, @init_kvengine sample_ai 3 (sample_boot keep_log) = Ret (nd, 0) /\
    ai_entries (sv_ai (nd_sv nd)) = [].
Proof.
  split; [vm_compute; reflexivity|].
  destruct (started (@init_kvengine sample_ai 3 (sample_boot keep_log))) as [nd E];
    [vm_compute; reflexivity|].
  exists nd. exact (conj E (restart_forgets_index (H := sample_ai) 3 (sample_boot keep_log) nd E)).
Defined.

Lemma huge_log_not_replayed_witness :
  exists nd, @init_kvengine sample_ai 3 (sample_boot (replicate (Z.to_nat (2 ^ 31)) STAR)) = Ret (nd, 0) /\
    store_abs (sv_eng (nd_sv nd)) ≡ no_content.
Proof.
  apply (huge_log_not_replayed (H := sample_ai) 3 (sample_boot (replicate (Z.to_nat (2 ^ 31)) STAR))
           (replicate (Z.to_nat (2 ^ 31)) STAR) no_content).
  - apply sample_boot_ok.
  - reflexivity.
  - rewrite length_replicate. lia.
  - apply starts_empty; [intros i a n; reflexivity|reflexivity].
Defined.
