(* ===== verification/TornLog.v ===== *)
(** * A log that a crash cut short

    The recovery keeps the beginning of a request that a crash left at the end
    of the log, and what the server logs next is appended to it.  At the next
    start the bytes the cut argument is short of are taken from there: as long
    as they are not followed by CR LF by accident, the replay stops at the cut
    request and everything logged behind it is lost; otherwise the argument is
    completed with bytes nobody sent. *)

From S2P Require Import Prelude KvData Engine EngineSpec Config Resp Repl Aof ExpireQueue Store.
From S2P Require Import Ai Commands Lookup CommandSpec Protocol ProtocolSpec Server RestartSpec.

Open Scope Z_scope.
Open Scope kvs_scope.

(** ** The cut request *)

(** What is left of a request cut within the argument [a], or the CR LF behind
    it: [k] bytes of them. *)
Definition torn (args1 : list bytes) (a : bytes) (args2 : list bytes) (k : nat) : bytes :=
  take (length (header STAR (length (args1 ++ a :: args2))
                  (concat (resp_bulk <$> args1) ++ header DOLLAR (length a) [])) + k)
    (resp_encode (args1 ++ a :: args2)).

(** The bytes [f] behind the cut happen to complete the argument. *)
Definition completes (a : bytes) (k : nat) (f : bytes) : Prop :=
  CRLF `prefix_of` drop (length a) (take k (a ++ CRLF) ++ f).

#[export] Instance completes_dec a k f : Decision (completes a k f).
Proof. unfold completes. apply _. Defined.

Lemma encode_split args1 a args2 :
  resp_encode (args1 ++ a :: args2)
  = header STAR (length (args1 ++ a :: args2))
      (concat (resp_bulk <$> args1) ++ header DOLLAR (length a) [])
    ++ a ++ CRLF ++ concat (resp_bulk <$> args2).
Proof.
  unfold resp_encode, header. rewrite fmap_app, fmap_cons, concat_app. cbn [concat].
  unfold resp_bulk at 2. unfold CRLF. by app_eq.
Qed.

Lemma torn_text args1 a args2 k f :
  (k <= length a + 2)%nat ->
  torn args1 a args2 k ++ f
  = header STAR (length (args1 ++ a :: args2))
      (concat (resp_bulk <$> args1) ++ header DOLLAR (length a) (take k (a ++ CRLF) ++ f)).
Proof.
  intros Hk. unfold torn. rewrite encode_split, take_app_add'.
  - rewrite (app_assoc a), take_app_le by (rewrite length_app; simpl; lia).
    unfold header. by app_eq.
  - done.
Qed.

Lemma torn_partial args1 a args2 k :
  resp_size_ok (args1 ++ a :: args2) -> (k < length a + 2)%nat -> partial (torn args1 a args2 k).
Proof.
  intros Hs Hk. eexists _, _. split; [exact Hs|]. split; [|done].
  rewrite encode_split, !length_app. simpl. lia.
Qed.

(** ** The recovery stops there *)

(** Complete arguments are skipped. *)
Lemma has_complete_args_skip args pre r start len n :
  Forall (fun a => Z.of_nat (length a) < 2 ^ 31) args -> 0 <= start ->
  Z.of_nat (length pre) - start + Z.of_nat (length (concat (resp_bulk <$> args))) <= len ->
  has_complete_args (pre ++ concat (resp_bulk <$> args) ++ r) start len (length args + n)
    (Z.of_nat (length pre))
  = has_complete_args ((pre ++ concat (resp_bulk <$> args)) ++ r) start len n
      (Z.of_nat (length (pre ++ concat (resp_bulk <$> args)))).
Proof.
  intros Hargs Hst. revert pre. induction Hargs as [|a args Ha Hargs IH]; intros pre Hlen.
  - cbn [length fmap list_fmap concat app]. by rewrite app_nil_r.
  - rewrite fmap_cons in *. cbn [concat length Nat.add] in *. rewrite length_app in Hlen.
    rewrite <- (app_assoc (resp_bulk a)). rewrite has_complete_args_bulk by (done || lia).
    rewrite (app_assoc pre), IH by (rewrite length_app; lia). by rewrite <- !(app_assoc pre).
Qed.

(** An argument that is followed by something else than CR LF. *)
Lemma has_complete_args_wrong pre n body start len m :
  Z.of_nat n < 2 ^ 31 -> 0 <= start ->
  len = Z.of_nat (length (pre ++ header DOLLAR n body)) - start ->
  ~ CRLF `prefix_of` drop n body ->
  has_complete_args (pre ++ header DOLLAR n body) start len (S m) (Z.of_nat (length pre)) = Ok None.
Proof.
  intros Hn Hst -> Hno. set (d := length (dec (Z.of_nat n))).
  assert (Hlen : length (pre ++ header DOLLAR n body) = (length pre + (d + 3 + length body))%nat)
    by (rewrite length_app, header_length; done).
  rewrite Hlen. cbn [has_complete_args]. rewrite (proj2 (Z.leb_gt _ _)) by lia.
  rewrite header_rd. cbn [rbind]. rewrite bool_decide_true by done. cbn [negb].
  rewrite header_crlf, header_atoi by (done || (fold d; lia)). cbn [rbind]. fold d.
  destruct (Z.ltb_spec (Z.of_nat (length pre + (d + 3 + length body)) - start)
    (Z.of_nat (length pre) + Z.of_nat d + 1 + 2 - start + Z.of_nat n + 2)) as [|Hroom]; [done|].
  assert (Hl : (2 <= length (drop n body))%nat) by (rewrite length_drop; lia).
  destruct (drop n body) as [|x [|y l]] eqn:Ed; [simpl in Hl; lia..|].
  assert (Hb : pre ++ header DOLLAR n body = (pre ++ header DOLLAR n (take n body)) ++ x :: y :: l).
  { rewrite <- (take_drop n body) at 1. rewrite Ed. unfold header. by app_eq. }
  assert (Hpos : Z.of_nat (length pre) + Z.of_nat d + 1 + 2 + Z.of_nat n
    = Z.of_nat (length (pre ++ header DOLLAR n (take n body)))).
  { rewrite length_app, header_length, length_take. fold d. lia. }
  rewrite Hb, Hpos, rd_app. cbn [rbind].
  destruct (decide (x = CR)) as [->|Hx]; [|by rewrite bool_decide_false].
  rewrite bool_decide_true by done. cbn [negb].
  replace ((pre ++ header DOLLAR n (take n body)) ++ CR :: y :: l)
    with (((pre ++ header DOLLAR n (take n body)) ++ [CR]) ++ y :: l) by (by rewrite <- app_assoc).
  replace (Z.of_nat (length (pre ++ header DOLLAR n (take n body))) + 1)
    with (Z.of_nat (length ((pre ++ header DOLLAR n (take n body)) ++ [CR])))
    by (rewrite (length_app _ [CR]); simpl; lia).
  rewrite rd_app. cbn [rbind]. rewrite bool_decide_false; [done|]. intros ->.
  apply Hno. by exists l.
Qed.

Lemma torn_stops args1 a args2 k f :
  resp_size_ok (args1 ++ a :: args2) -> (k <= length a + 2)%nat -> ~ completes a k f ->
  stops (torn args1 a args2 k ++ f).
Proof.
  intros [Hn Hargs] Hk Hno pre. right. rewrite torn_text by done.
  apply Forall_app in Hargs as [Hargs1 Ha]. apply Forall_cons in Ha as [Ha _].
  set (last := header DOLLAR (length a) (take k (a ++ CRLF) ++ f)).
  set (n := length (args1 ++ a :: args2)) in *. set (body := concat (resp_bulk <$> args1) ++ last).
  set (d := length (dec (Z.of_nat n))).
  assert (Hd : (1 <= d)%nat).
  { unfold d. rewrite dec_nat. unfold dec_u. rewrite length_digs. apply ndigits_pos. }
  assert (Hlen : Z.of_nat (length (pre ++ header STAR n body)) - Z.of_nat (length pre)
    = Z.of_nat (d + 3 + length body)) by (rewrite length_app, header_length; fold d; lia).
  unfold has_complete_resp_command. rewrite Hlen.
  destruct (Z.ltb_spec (Z.of_nat (d + 3 + length body)) 4); [lia|].
  rewrite header_rd. cbn [rbind]. rewrite bool_decide_true by done. cbn [negb].
  rewrite header_crlf, header_atoi by (done || (fold d; lia)). cbn [rbind]. fold d.
  rewrite Nat2Z.id. set (pre1 := pre ++ header STAR n []).
  assert (Hb : pre ++ header STAR n body = pre1 ++ body) by (unfold pre1, header; by app_eq).
  assert (Hl1 : Z.of_nat (length pre1) = Z.of_nat (length pre) + Z.of_nat d + 1 + 2)
    by (unfold pre1; rewrite length_app, header_length; fold d; simpl; lia).
  rewrite Hb, <- Hl1. unfold body.
  replace n with (length args1 + S (length args2))%nat
    by (unfold n; rewrite length_app; simpl; lia).
  rewrite has_complete_args_skip;
    [|done|lia|unfold body; rewrite length_app; lia].
  apply has_complete_args_wrong; [done|lia| |done].
  fold last. rewrite !length_app. lia.
Qed.

(** ** What is lost *)


(** ** Examples *)

(** The crash cut the value of the request that sets the key k to hello behind
    its second byte; the server goes on with two commands. *)
Definition cut_log : bytes :=
  log_of (take 2 sample_writes) ++ torn [str "RSET"; str "k"] (str "hello") [] 2.

Definition after_cut : list write := drop 2 sample_writes.

Lemma cut_log_served :
  exists nd1 nd2 w2, @init_kvengine sample_ai 5 (sample_boot cut_log) = Ret (nd1, 0) /\
    @run_requests sample_ai sample_turns 0 5 nd1 None (write_args <$> after_cut) [] = Ret (nd2, w2) /\
    Z.of_nat (length (cut_log ++ aof_logged (nd_aof nd2))) < 2 ^ 31.
Proof.
  assert (Hb : match @init_kvengine sample_ai 5 (sample_boot cut_log) with
    | Ret (nd1, r) =>
      match @run_requests sample_ai sample_turns 0 5 nd1 None (write_args <$> after_cut) [] with
      | Ret (nd2, _) => (r =? 0) && (Z.of_nat (length (cut_log ++ aof_logged (nd_aof nd2))) <? 2 ^ 31)
      | _ => false
      end
    | _ => false
    end = true) by (vm_compute; reflexivity).
  destruct (init_kvengine _ _) as [[nd1 r]| | | |]; try discriminate.
  destruct (run_requests sample_turns 0 5 nd1 None (write_args <$> after_cut) [])
    as [[nd2 w2]| | | |] eqn:Hr; try discriminate.
  apply andb_true_iff in Hb as [Hz Hl]. apply Z.eqb_eq in Hz as ->. apply Z.ltb_lt in Hl.
  exists nd1, nd2, w2. split; [reflexivity|]. by split.
Qed.


(** Cut a byte later, the value is completed by the next request, whose CR LF
    fits: the key gets a value nobody set. *)
Example torn_value_is_completed :
  completes (str "hello") 3 (resp_encode [str "RSET"; str "x"; str "1"]) /\
  match @protocol_process_recover sample_ai 3 (fun _ => sample_turn 99000)
          (torn [str "RSET"; str "k"] (str "hello") [] 3 ++ resp_encode [str "RSET"; str "x"; str "1"])
          sample_server with
  | Ret (_, s) => bool_decide (store_abs (sv_eng s) DbRbtree = {[ str "k" := (str "hel*3", 0) ]})
  | _ => false
  end = true.
Proof. split; [apply (bool_decide_unpack _); by vm_compute|by vm_compute]. Qed.
