(* ===== verification/Memory.v ===== *)
(** * A memory of bytes

    A byte for every address, with the copying of blocks in and out of it, as
    the memory pool and the relay's ring buffer use it. *)

From S2P Require Import Prelude.

Open Scope Z_scope.
Open Scope kvs_scope.

Definition read_bytes (m : Z -> byte) (a : Z) (n : nat) : bytes :=
  (fun j => m (a + Z.of_nat j)) <$> seq 0 n.

Definition write_bytes (m : Z -> byte) (a : Z) (l : bytes) (x : Z) : byte :=
  if a <=? x then default (m x) (l !! Z.to_nat (x - a)) else m x.

Lemma write_bytes_out m a l x :
  x < a \/ a + Z.of_nat (length l) <= x -> write_bytes m a l x = m x.
Proof.
  intros Hx. unfold write_bytes. destruct (Z.leb_spec a x); [|done].
  by rewrite lookup_ge_None_2 by lia.
Qed.

Lemma write_bytes_in m a l j b : l !! j = Some b -> write_bytes m a l (a + Z.of_nat j) = b.
Proof.
  intros Hj. unfold write_bytes. destruct (Z.leb_spec a (a + Z.of_nat j)); [|lia].
  replace (Z.to_nat (a + Z.of_nat j - a)) with j by lia. by rewrite Hj.
Qed.

Lemma length_read_bytes m a n : length (read_bytes m a n) = n.
Proof. unfold read_bytes. by rewrite length_fmap, length_seq. Qed.

Lemma lookup_read_bytes m a n j :
  (j < n)%nat -> read_bytes m a n !! j = Some (m (a + Z.of_nat j)).
Proof.
  intros Hj. unfold read_bytes. rewrite list_lookup_fmap, lookup_seq_lt by done. done.
Qed.

Lemma read_bytes_ext m m' a n :
  (forall x, a <= x < a + Z.of_nat n -> m x = m' x) -> read_bytes m a n = read_bytes m' a n.
Proof.
  intros Hm. apply list_fmap_ext. intros j y [-> Hj]%lookup_seq. apply Hm. lia.
Qed.

Lemma read_write_bytes m a l : read_bytes (write_bytes m a l) a (length l) = l.
Proof.
  apply list_eq_same_length with (n := length l); [done|by rewrite length_read_bytes|].
  intros j x y Hj. rewrite lookup_read_bytes by done. intros [= <-] Hy.
  by apply write_bytes_in.
Qed.

Lemma take_read_bytes m a n k : (k <= n)%nat -> take k (read_bytes m a n) = read_bytes m a k.
Proof.
  intros Hk. unfold read_bytes. rewrite <- fmap_take. f_equal.
  by rewrite take_seq, Nat.min_l by lia.
Qed.


Lemma read_bytes_app m a n k :
  read_bytes m a (n + k) = read_bytes m a n ++ read_bytes m (a + Z.of_nat n) k.
Proof.
  unfold read_bytes. rewrite seq_app, fmap_app. f_equal. rewrite Nat.add_0_l.
  rewrite <- (Nat.add_0_r n) at 1. rewrite <- fmap_add_seq, <- list_fmap_compose.
  apply list_fmap_ext. intros i x _. simpl. f_equal. lia.
Qed.

(** ** Blocks of a given size *)

(** [n] bytes from [a] on lie in a block of [size] bytes. *)
Definition in_block (size a n : Z) : bool := (0 <=? a) && (0 <=? n) && (a + n <=? size).

(** [memcpy] out of a block and into it: anything outside is undefined. *)
Definition load_block (size : Z) (m : Z -> byte) (a n : Z) : res bytes :=
  if in_block size a n then Ok (read_bytes m a (Z.to_nat n)) else UB.

Definition store_block (size : Z) (m : Z -> byte) (a : Z) (l : bytes) : res (Z -> byte) :=
  if in_block size a (Z.of_nat (length l)) then Ok (write_bytes m a l) else UB.

Lemma in_block_ok size a n : 0 <= a -> 0 <= n -> a + n <= size -> in_block size a n = true.
Proof. intros. unfold in_block. by rewrite !(proj2 (Z.leb_le _ _)) by lia. Qed.

Lemma load_block_ok size m a n :
  0 <= a -> 0 <= n -> a + n <= size -> load_block size m a n = Ok (read_bytes m a (Z.to_nat n)).
Proof. intros. unfold load_block. by rewrite in_block_ok. Qed.

Lemma store_block_ok size m a l :
  0 <= a -> a + Z.of_nat (length l) <= size -> store_block size m a l = Ok (write_bytes m a l).
Proof. intros. unfold store_block. by rewrite in_block_ok by lia. Qed.
