(* ===== verification/Mempool.v ===== *)
(** * The memory pool (mempool.c, mempool.h)

    [kvs_malloc] serves requests of up to 8192 bytes from nine pools of
    equal-sized chunks, cut out of blocks of 64 KB that are aligned to their
    size, and larger ones from the system with a header of its own;
    [kvs_free] tells the two apart by the word before the pointer.

    Addresses are integers and 0 is NULL; memory is a byte for every address.
    The chunks, their free-list links, the headers of large requests and the
    last word of a block header, which [kvs_free] reads before the first
    chunk, are bytes of the memory; the other fields of the block headers and
    the pool objects are records.  [h_sys] are the regions the system has
    handed out; what the system answers to a request is an argument. *)

From S2P Require Import Prelude Memory.

Open Scope Z_scope.
Open Scope kvs_scope.

(** ** Constants *)

Definition POOL_BLOCK_SIZE : Z := 64 * 1024.
Definition MAX_SLAB_SIZE : Z := 8192.
Definition POOL_BLOCK_MAGIC : Z := 0xDEADBEEFCAFEBABE.
Definition FALLBACK_MAGIC : Z := 0xFBCAFEBABEDEAD.
Definition slab_classes : list Z := [32; 64; 128; 256; 512; 1024; 2048; 4096; 8192].
Definition SLAB_COUNT : nat := length slab_classes.

(** [sizeof(pool_block_t)] and [sizeof(fallback_header_t)]. *)
Definition block_header : Z := 40.
Definition fallback_header : Z := 16.

(** ** State *)

(** A pool is designated by its place in [slab_pools]. *)
Record pool_block := PoolBlock {
  pb_next : Z;
  pb_pool : nat;
  pb_capacity : Z;
  pb_free_count : Z;
  pb_magic : Z
}.

Record mem_pool := MemPool {
  mp_chunk_size : Z;
  mp_free_list : Z;
  mp_blocks : Z;
  mp_current_block : Z;
  mp_next_free : Z;
  mp_remaining : Z
}.

Record heap := Heap {
  h_mem : Z -> byte;
  h_sys : gmap Z Z;
  h_blocks : gmap Z pool_block;
  slab_pools : gmap nat mem_pool;
  g_size_map : Z -> option nat;
  g_initialized : bool
}.

(** The start of the program: nothing initialised, and memory as it is. *)
Definition heap_zero (m : Z -> byte) : heap := Heap m ∅ ∅ ∅ (fun _ => None) false.

(** ** Memory *)

Definition with_mem (m : Z -> byte) (h : heap) : heap :=
  Heap m (h_sys h) (h_blocks h) (slab_pools h) (g_size_map h) (g_initialized h).
Definition with_sys (s : gmap Z Z) (h : heap) : heap :=
  Heap (h_mem h) s (h_blocks h) (slab_pools h) (g_size_map h) (g_initialized h).
Definition with_block (b : Z) (blk : pool_block) (h : heap) : heap :=
  Heap (h_mem h) (h_sys h) (<[b := blk]> (h_blocks h)) (slab_pools h) (g_size_map h)
    (g_initialized h).
Definition with_pool (i : nat) (p : mem_pool) (h : heap) : heap :=
  Heap (h_mem h) (h_sys h) (h_blocks h) (<[i := p]> (slab_pools h)) (g_size_map h)
    (g_initialized h).

Definition load64 (m : Z -> byte) (a : Z) : Z := le_decode (read_bytes m a 8).
Definition store64 (m : Z -> byte) (a v : Z) : Z -> byte := write_bytes m a (le_encode 8 v).

(** ** The system's allocator *)

(** What the system gives: an address and what the memory there holds. *)
Definition sys_answer : Type := option (Z * (Z -> byte)).

(** [malloc] and [posix_memalign]. *)
Definition sys_alloc (h : heap) (size : Z) (ans : sys_answer) : heap * Z :=
  match ans with
  | None => (h, 0)
  | Some (a, g) =>
    (with_sys (<[a := size]> (h_sys h))
       (with_mem (fun x => if (a <=? x) && (x <? a + size) then g x else h_mem h x) h), a)
  end.

(** [free] of anything but the start of a region is undefined. *)
Definition sys_free (h : heap) (a : Z) : res heap :=
  match h_sys h !! a with
  | Some _ => Ok (with_sys (delete a (h_sys h)) h)
  | None => UB
  end.

(** [realloc]: a region of the new size with the old content. *)
Definition sys_realloc (h : heap) (a size : Z) (ans : sys_answer) : res (heap * Z) :=
  match h_sys h !! a with
  | None => UB
  | Some old =>
    match ans with
    | None => Ok (h, 0)
    | Some (b, g) =>
      Ok (with_sys (<[b := size]> (delete a (h_sys h)))
            (with_mem (fun x => if (b <=? x) && (x <? b + size)
                                then if x - b <? old then h_mem h (a + (x - b)) else g x
                                else h_mem h x) h), b)
    end
  end.

(** ** Pools *)

(** [get_block_from_ptr]: the address with its low 16 bits cleared. *)
Definition get_block_from_ptr (p : Z) : Z := Z.land p (Z.lnot (POOL_BLOCK_SIZE - 1)).

(** [mem_pool_create]; [ok] tells whether [malloc] gives the object. *)
Definition mem_pool_create (user_size : Z) (ok : bool) : option mem_pool :=
  if user_size =? 0 then None
  else if negb ok then None
  else
    let chunk_size := Z.land (u64 (user_size + 7)) (Z.lnot 7) in
    let chunk_size := if chunk_size <? 8 then 8 else chunk_size in
    Some (MemPool chunk_size 0 0 0 0 0).

(** [add_new_block], with the pool's index and its content. *)
Definition add_new_block (h : heap) (i : nat) (pool : mem_pool) (ans : sys_answer)
  : heap * option mem_pool :=
  match sys_alloc h POOL_BLOCK_SIZE ans with
  | (h, block) =>
    if block =? 0 then (h, None)
    else
      let data := block + block_header in
      let capacity := (POOL_BLOCK_SIZE - block_header) / mp_chunk_size pool in
      let h := with_mem (store64 (h_mem h) (block + 32) data) h in
      let h := with_block block (PoolBlock (mp_blocks pool) i capacity 0 POOL_BLOCK_MAGIC) h in
      let pool := MemPool (mp_chunk_size pool) (mp_free_list pool) block block data capacity in
      (with_pool i pool h, Some pool)
  end.

Definition mem_pool_alloc (h : heap) (i : nat) (ans : sys_answer) : res (heap * Z) :=
  match slab_pools h !! i with
  | None => Ok (h, 0)
  | Some pool =>
    if negb (mp_free_list pool =? 0) then
      let chunk := mp_free_list pool in
      let h := with_pool i (MemPool (mp_chunk_size pool) (load64 (h_mem h) chunk) (mp_blocks pool)
                              (mp_current_block pool) (mp_next_free pool) (mp_remaining pool)) h in
      let block := get_block_from_ptr chunk in
      match h_blocks h !! block with
      | None => UB
      | Some b => Ok (with_block block (PoolBlock (pb_next b) (pb_pool b) (pb_capacity b)
                                          (pb_free_count b - 1) (pb_magic b)) h, chunk)
      end
    else
      match (if mp_remaining pool =? 0 then add_new_block h i pool ans else (h, Some pool)) with
      | (h, None) => Ok (h, 0)
      | (h, Some pool) =>
        let chunk := mp_next_free pool in
        Ok (with_pool i (MemPool (mp_chunk_size pool) (mp_free_list pool) (mp_blocks pool)
                           (mp_current_block pool) (chunk + mp_chunk_size pool)
                           (mp_remaining pool - 1)) h, chunk)
      end
  end.

(** The two places a list pointer can be in: the pool, or the previous element
    at the given address. *)
Inductive place := PoolField | Elem (a : Z).

Definition set_free_list (p : mem_pool) (a : Z) : mem_pool :=
  MemPool (mp_chunk_size p) a (mp_blocks p) (mp_current_block p) (mp_next_free p) (mp_remaining p).
Definition set_blocks (p : mem_pool) (a : Z) : mem_pool :=
  MemPool (mp_chunk_size p) (mp_free_list p) a (mp_current_block p) (mp_next_free p)
    (mp_remaining p).

(** [remove_block_from_freelist]: the loop at the pointer [pp]. *)
Fixpoint remove_chunks (fuel : nat) (h : heap) (i : nat) (pp : place) (block : Z) : res heap :=
  match fuel, slab_pools h !! i with
  | S fuel, Some pool =>
    let curr := match pp with PoolField => mp_free_list pool | Elem a => load64 (h_mem h) a end in
    if curr =? 0 then Ok h
    else if get_block_from_ptr curr =? block then
      let next := load64 (h_mem h) curr in
      let h := match pp with
               | PoolField => with_pool i (set_free_list pool next) h
               | Elem a => with_mem (store64 (h_mem h) a next) h
               end in
      remove_chunks fuel h i pp block
    else remove_chunks fuel h i (Elem curr) block
  | _, _ => UB
  end.

(** A free list holds at most 2046 chunks of each block: the smallest ones
    have 32 bytes. *)
Definition block_chunks : nat := Z.to_nat 2046.

Definition chunks_bound (h : heap) : nat := S (block_chunks * size (h_blocks h)).

Definition remove_block_from_freelist (h : heap) (i : nat) (block : Z) : res heap :=
  remove_chunks (chunks_bound h) h i PoolField block.

(** The loop that unlinks a block from the list of blocks. *)
Fixpoint unlink_block (fuel : nat) (h : heap) (i : nat) (pp : place) (block : Z) : res heap :=
  match fuel, slab_pools h !! i with
  | S fuel, Some pool =>
    match (match pp with
           | PoolField => Some (mp_blocks pool)
           | Elem a => pb_next <$> h_blocks h !! a
           end) with
    | None => UB
    | Some curr =>
      if curr =? 0 then Ok h
      else if curr =? block then
        match h_blocks h !! block, pp with
        | Some b, PoolField => Ok (with_pool i (set_blocks pool (pb_next b)) h)
        | Some b, Elem a =>
          match h_blocks h !! a with
          | Some prev => Ok (with_block a (PoolBlock (pb_next b) (pb_pool prev) (pb_capacity prev)
                                             (pb_free_count prev) (pb_magic prev)) h)
          | None => UB
          end
        | None, _ => UB
        end
      else unlink_block fuel h i (Elem curr) block
    end
  | _, _ => UB
  end.

(** What follows in [mem_pool_free_with_block] and [mem_pool_trim] for a block
    all of whose chunks are free. *)
Definition release_block (h : heap) (i : nat) (block : Z) : res heap :=
  let* h := unlink_block (S (size (h_blocks h))) h i PoolField block in
  let* h := remove_block_from_freelist h i block in
  match slab_pools h !! i with
  | None => UB
  | Some pool =>
    let h := if mp_current_block pool =? block
             then with_pool i (MemPool (mp_chunk_size pool) (mp_free_list pool) (mp_blocks pool)
                                 0 0 0) h
             else h in
    let* h := sys_free h block in
    Ok (Heap (h_mem h) (h_sys h) (delete block (h_blocks h)) (slab_pools h) (g_size_map h)
          (g_initialized h))
  end.

Definition mem_pool_free_with_block (h : heap) (i : nat) (ptr block : Z) : res heap :=
  match slab_pools h !! i, h_blocks h !! block with
  | Some pool, Some b =>
    let h := with_mem (store64 (h_mem h) ptr (mp_free_list pool)) h in
    let h := with_pool i (set_free_list pool ptr) h in
    let b := PoolBlock (pb_next b) (pb_pool b) (pb_capacity b) (pb_free_count b + 1)
               (pb_magic b) in
    let h := with_block block b h in
    if pb_free_count b =? pb_capacity b then release_block h i block else Ok h
  | _, _ => UB
  end.

(** [mem_pool_trim]: the loop at [block]. *)
Fixpoint trim_blocks (fuel : nat) (h : heap) (i : nat) (block : Z) : res heap :=
  match fuel with
  | O => UB
  | S fuel =>
    if block =? 0 then Ok h
    else
      match h_blocks h !! block with
      | None => UB
      | Some b =>
        let* h := if pb_free_count b =? pb_capacity b then release_block h i block else Ok h in
        trim_blocks fuel h i (pb_next b)
      end
  end.

Definition mem_pool_trim (h : heap) (i : nat) : res heap :=
  match slab_pools h !! i with
  | None => Ok h
  | Some pool => trim_blocks (S (size (h_blocks h))) h i (mp_blocks pool)
  end.

(** ** The slabs *)

(** The first class that is large enough; its pool may be NULL. *)
Fixpoint class_of (classes : list Z) (i : nat) (size : Z) : option nat :=
  match classes with
  | [] => None
  | c :: classes => if size <=? c then Some i else class_of classes (S i) size
  end.

(** [kvs_mempool_init]; [ok i] tells whether the object of pool [i] is given. *)
Definition create_pool (ok : nat -> bool) (pools : gmap nat mem_pool) (ic : nat * Z)
  : gmap nat mem_pool :=
  match mem_pool_create ic.2 (ok ic.1) with
  | Some p => <[ic.1 := p]> pools
  | None => delete ic.1 pools
  end.

(** The pool [g_size_map[size]] is set to. *)
Definition map_size (pools : gmap nat mem_pool) (size : Z) : option nat :=
  i ← class_of slab_classes 0 size;
  match pools !! i with Some _ => Some i | None => None end.

(** The loop over the sizes sets every entry of the array once; the array is a
    function of the index. *)
Definition kvs_mempool_init (ok : nat -> bool) (h : heap) : heap :=
  if g_initialized h then h
  else
    let pools := fold_left (create_pool ok) (imap pair slab_classes) (slab_pools h) in
    let sm size := if (1 <=? size) && (size <=? MAX_SLAB_SIZE) then map_size pools size
                   else g_size_map h size in
    Heap (h_mem h) (h_sys h) (h_blocks h) pools sm true.

(** ** The interface *)

(** [g_enable_mempool], and the system's answers to the requests of a call:
    for the pool objects, for a region of the given size ([malloc], [realloc])
    and for an aligned block ([posix_memalign]). *)
Record menv := MEnv {
  me_enable : bool;
  me_create : nat -> bool;
  me_malloc : Z -> sys_answer;
  me_memalign : sys_answer
}.

Definition kvs_malloc (e : menv) (h : heap) (size : Z) : res (heap * Z) :=
  if size =? 0 then Ok (h, 0)
  else if negb (me_enable e) then Ok (sys_alloc h size (me_malloc e size))
  else
    let small := size <=? MAX_SLAB_SIZE in
    let h := if small
             then match g_size_map h size with
                  | Some _ => h
                  | None => kvs_mempool_init (me_create e) h
                  end
             else h in
    match (if small then g_size_map h size else None) with
    | Some i => mem_pool_alloc h i (me_memalign e)
    | None =>
      let request := u64 (fallback_header + size) in
      match sys_alloc h request (me_malloc e request) with
      | (h, fh) =>
        if fh =? 0 then Ok (h, 0)
        else
          let h := with_mem (store64 (h_mem h) fh size) h in
          let h := with_mem (store64 (h_mem h) (fh + 8) FALLBACK_MAGIC) h in
          Ok (h, fh + fallback_header)
      end
    end.

(** [kvs_free]; the header of a block that is not there is undefined. *)
Definition kvs_free (e : menv) (h : heap) (ptr : Z) : res heap :=
  if ptr =? 0 then Ok h
  else if negb (me_enable e) then sys_free h ptr
  else
    let fh := ptr - fallback_header in
    if load64 (h_mem h) (fh + 8) =? FALLBACK_MAGIC then sys_free h fh
    else
      let block := get_block_from_ptr ptr in
      match h_blocks h !! block with
      | None => UB
      | Some b =>
        if pb_magic b =? POOL_BLOCK_MAGIC
        then mem_pool_free_with_block h (pb_pool b) ptr block
        else sys_free h ptr
      end.

(** The copy to a larger piece that both cases of [kvs_realloc] make. *)
Definition move_piece (e : menv) (h : heap) (ptr old_size size : Z) : res (heap * Z) :=
  let* (h, new_ptr) := kvs_malloc e h size in
  if new_ptr =? 0 then Ok (h, new_ptr)
  else
    let h := with_mem (write_bytes (h_mem h) new_ptr
                         (read_bytes (h_mem h) ptr (Z.to_nat old_size))) h in
    let* h := kvs_free e h ptr in
    Ok (h, new_ptr).

Definition kvs_realloc (e : menv) (h : heap) (ptr size : Z) : res (heap * Z) :=
  if ptr =? 0 then kvs_malloc e h size
  else if size =? 0 then let* h := kvs_free e h ptr in Ok (h, 0)
  else if negb (me_enable e) then sys_realloc h ptr size (me_malloc e size)
  else
    let fh := ptr - fallback_header in
    if load64 (h_mem h) (fh + 8) =? FALLBACK_MAGIC then
      let old_size := load64 (h_mem h) fh in
      if size <=? old_size then Ok (h, ptr) else move_piece e h ptr old_size size
    else
      let block := get_block_from_ptr ptr in
      match h_blocks h !! block with
      | None => UB
      | Some b =>
        if pb_magic b =? POOL_BLOCK_MAGIC then
          match slab_pools h !! pb_pool b with
          | None => UB
          | Some pool =>
            let old_size := mp_chunk_size pool in
            if size <=? old_size then Ok (h, ptr) else move_piece e h ptr old_size size
          end
        else sys_realloc h ptr size (me_malloc e size)
      end.

(** [kvs_mempool_trim_all]; what [malloc_trim] gives back to the kernel is not
    part of the heap. *)
Fixpoint trim_pools (n : nat) (i : nat) (h : heap) : res heap :=
  match n with
  | O => Ok h
  | S n => let* h := mem_pool_trim h i in trim_pools n (S i) h
  end.

Definition kvs_mempool_trim_all (h : heap) : res heap := trim_pools SLAB_COUNT 0 h.
