(* ===== verification/MempoolInv.v ===== *)
(** * The invariant of the memory pool

    What holds of the heap between calls: each pool's blocks and free chunks
    are linked lists without repetition, a block counts its free chunks, and
    every piece handed out is a chunk that is not free or a region of its own.
    The file proves that pieces overlap neither each other nor the memory the
    pool keeps its lists in, and that releasing a block takes it and its chunks
    out of the lists and nothing else. *)

From S2P Require Import Prelude Memory Mempool.

Open Scope Z_scope.
Open Scope kvs_scope.

(** ** Memory *)

Lemma load64_ext m m' a :
  (forall x, a <= x < a + 8 -> m x = m' x) -> load64 m a = load64 m' a.
Proof. intros Hm. unfold load64. by rewrite (read_bytes_ext m m'). Qed.

Lemma load64_store64 m a v : load64 (store64 m a v) a = u64 v.
Proof.
  unfold load64, store64. rewrite <- le_decode_encode_u64. f_equal.
  pose proof (read_write_bytes m a (le_encode 8 v)) as Hr. by rewrite length_le_encode in Hr.
Qed.

Lemma store64_out m a v x : x < a \/ a + 8 <= x -> store64 m a v x = m x.
Proof. intros Hx. apply write_bytes_out. rewrite length_le_encode. lia. Qed.

(** ** Addresses of blocks and chunks *)

Lemma get_block_spec b off :
  b mod POOL_BLOCK_SIZE = 0 -> 0 <= off < POOL_BLOCK_SIZE -> get_block_from_ptr (b + off) = b.
Proof.
  intros Hb Ho. unfold get_block_from_ptr.
  change (POOL_BLOCK_SIZE - 1) with (Z.ones 16).
  rewrite <- Z.ldiff_land, Z.ldiff_ones_r, Z.shiftl_mul_pow2, Z.shiftr_div_pow2 by lia.
  change (2 ^ 16) with POOL_BLOCK_SIZE in *.
  rewrite (Z.div_mod b POOL_BLOCK_SIZE), Hb by done.
  replace (POOL_BLOCK_SIZE * (b / POOL_BLOCK_SIZE) + 0 + off)
    with (off + b / POOL_BLOCK_SIZE * POOL_BLOCK_SIZE) by lia.
  rewrite Z.div_add, Z.div_small by (done || lia). lia.
Qed.

(** The chunks a block is cut into. *)
Definition capacity (cs : Z) : Z := (POOL_BLOCK_SIZE - block_header) / cs.

Definition chunk_at (cs b j : Z) : Z := b + block_header + j * cs.

Lemma class_facts i cs :
  slab_classes !! i = Some cs ->
  32 <= cs <= MAX_SLAB_SIZE /\ 2 <= capacity cs <= 2046 /\ cs * capacity cs <= 65496.
Proof.
  intros Hi. do 9 (destruct i as [|i]; [simpl in Hi; simplify_eq; by vm_compute|]). done.
Qed.

Lemma chunk_offset cs j :
  32 <= cs -> 0 <= j < capacity cs -> cs * capacity cs <= 65496 ->
  40 <= block_header + j * cs /\ block_header + j * cs + cs <= POOL_BLOCK_SIZE.
Proof.
  intros Hc Hj Hcap. change block_header with 40. change POOL_BLOCK_SIZE with 65536.
  split; [nia|]. assert ((j + 1) * cs <= capacity cs * cs) by nia. lia.
Qed.

Lemma get_block_chunk i cs b j :
  slab_classes !! i = Some cs -> b mod POOL_BLOCK_SIZE = 0 -> 0 <= j < capacity cs ->
  get_block_from_ptr (chunk_at cs b j) = b.
Proof.
  intros Hi Hb Hj. pose proof (class_facts i cs Hi) as (H1 & H2 & H3).
  pose proof (chunk_offset cs j ltac:(lia) Hj H3).
  unfold chunk_at. rewrite <- Z.add_assoc. apply get_block_spec; [done|lia].
Qed.

(** ** Linked lists *)

Lemma filter_absent (x : Z) (l : list Z) : x ∉ l -> filter (fun y => y <> x) l = l.
Proof. intros Hx. apply filter_every. by intros y Hy ->. Qed.

(** The chunks linked from the address [a] through their first words. *)
Fixpoint chain (m : Z -> byte) (a : Z) (l : list Z) : Prop :=
  match l with
  | [] => a = 0
  | c :: l => a = c /\ c <> 0 /\ chain m (load64 m c) l
  end.

(** The blocks linked from the address [a]. *)
Fixpoint bchain (bs : gmap Z pool_block) (a : Z) (l : list Z) : Prop :=
  match l with
  | [] => a = 0
  | b :: l => a = b /\ b <> 0 /\ exists blk, bs !! b = Some blk /\ bchain bs (pb_next blk) l
  end.

(** Outside the first words of the chunks of [l]. *)
Definition off_cells (l : list Z) (x : Z) : Prop := forall c, c ∈ l -> x < c \/ c + 8 <= x.

Definition apart (l : list Z) : Prop :=
  forall c c', c ∈ l -> c' ∈ l -> c <> c' -> c + 8 <= c' \/ c' + 8 <= c.

Lemma chain_frame m m' a l :
  (forall c x, c ∈ l -> c <= x < c + 8 -> m x = m' x) -> chain m a l -> chain m' a l.
Proof.
  revert a. induction l as [|c l IH]; intros a Hm; [done|]. intros (-> & Hc & Hl).
  split; [done|]. split; [done|]. rewrite <- (load64_ext m m').
  - apply IH; [|done]. intros c' x Hc'. apply Hm. by right.
  - intros x. apply Hm. by left.
Qed.

Lemma bchain_frame bs bs' a l :
  (forall b, b ∈ l -> bs !! b = bs' !! b) -> bchain bs a l -> bchain bs' a l.
Proof.
  revert a. induction l as [|b l IH]; intros a Hb; [done|]. intros (-> & Hn & blk & Hblk & Hl).
  split; [done|]. split; [done|]. exists blk. rewrite <- Hb by by left. split; [done|].
  apply IH; [|done]. intros b' Hb'. apply Hb. by right.
Qed.

Lemma chain_head_range m a l :
  (forall c, c ∈ l -> 0 < c < 2 ^ 64) -> chain m a l -> 0 <= a < 2 ^ 64.
Proof.
  destruct l as [|c l]; [by intros _ ->|]. intros Hl [-> _]. specialize (Hl c ltac:(by left)). lia.
Qed.

Lemma with_mem_id h : with_mem (h_mem h) h = h.
Proof. by destruct h. Qed.

(** Storing a word in one cell leaves the chain of the others. *)
Lemma chain_store m a v b l :
  a ∉ l -> apart (a :: l) -> chain m b l -> chain (store64 m a v) b l.
Proof.
  intros Ha Hl. apply chain_frame. intros c x Hc Hx. symmetry. apply store64_out.
  assert (a <> c) by (by intros <-).
  destruct (Hl a c) as [?|?]; [by left|by right|done|lia|lia].
Qed.

Lemma remove_chunks_elem fuel h i p a block l :
  slab_pools h !! i = Some p -> (length l < fuel)%nat -> NoDup (a :: l) -> apart (a :: l) ->
  (forall c, c ∈ a :: l -> 0 < c < 2 ^ 64) -> chain (h_mem h) (load64 (h_mem h) a) l ->
  exists m', remove_chunks fuel h i (Elem a) block = Ok (with_mem m' h) /\
    chain m' (load64 m' a) (filter (fun c => get_block_from_ptr c <> block) l) /\
    forall x, off_cells (a :: l) x -> m' x = h_mem h x.
Proof.
  revert fuel h a. induction l as [|c l IH]; intros [|fuel] h a Hp Hf Hnd Hap Hr; simpl in Hf;
    try lia; cbn [chain remove_chunks]; rewrite Hp.
  - intros Ha. exists (h_mem h). rewrite Ha, with_mem_id. done.
  - intros (Hc & Hc0 & Hl). rewrite Hc. rewrite (proj2 (Z.eqb_neq c 0)) by done.
    assert (Hal : a ∉ c :: l) by (by apply NoDup_cons_1_1 in Hnd).
    assert (Hac : apart (a :: l)) by (intros x y Hx Hy; apply Hap; set_solver).
    destruct (Z.eqb_spec (get_block_from_ptr c) block) as [He|He].
    + set (next := load64 (h_mem h) c) in *.
      assert (Hnext : load64 (store64 (h_mem h) a next) a = next).
      { rewrite load64_store64. apply u64_small. eapply chain_head_range; [|exact Hl].
        intros y Hy. apply Hr. by right; right. }
      destruct (IH fuel (with_mem (store64 (h_mem h) a next) h) a) as (m' & -> & Hch & Hm');
        [done|lia| |done| | |].
      * apply NoDup_cons. split; [set_solver|]. by apply NoDup_cons_1_2, NoDup_cons_1_2 in Hnd.
      * intros y Hy. apply Hr. set_solver.
      * simpl h_mem. rewrite Hnext. apply chain_store; [set_solver|done|done].
      * exists m'. split; [done|]. rewrite filter_cons_False by (by intros ?). split; [done|].
        intros x Hx. rewrite Hm'; [|intros y Hy; apply Hx; set_solver]. simpl.
        apply store64_out. specialize (Hx a ltac:(by left)). lia.
    + destruct (IH fuel h c) as (m' & -> & Hch & Hm'); [done|lia| | | |done|].
      * by apply NoDup_cons_1_2 in Hnd.
      * intros x y Hx Hy. apply Hap; by right.
      * intros y Hy. apply Hr. by right.
      * exists m'. split; [done|]. rewrite filter_cons_True by done. split.
        -- rewrite <- (load64_ext (h_mem h) m'); [by rewrite Hc|]. intros x Hx. symmetry.
           apply Hm'. intros y Hy. assert (a <> y) by (by intros <-).
           destruct (Hap a y); [by left|by right|done|lia|lia].
        -- intros x Hx. apply Hm'. intros y Hy. apply Hx. by right.
Qed.

Lemma with_pool_twice i p q h : with_pool i q (with_pool i p h) = with_pool i q h.
Proof. unfold with_pool. simpl. by rewrite insert_insert_eq. Qed.

Lemma with_pool_id i p h : slab_pools h !! i = Some p -> with_pool i p h = h.
Proof. destruct h. intros Hp. unfold with_pool. simpl in *. by rewrite insert_id. Qed.

Lemma set_free_list_id p : set_free_list p (mp_free_list p) = p.
Proof. by destruct p. Qed.

Lemma remove_chunks_field fuel h i p block l :
  slab_pools h !! i = Some p -> (length l < fuel)%nat -> NoDup l -> apart l ->
  (forall c, c ∈ l -> 0 < c < 2 ^ 64) -> chain (h_mem h) (mp_free_list p) l ->
  exists m' a', remove_chunks fuel h i PoolField block
      = Ok (with_mem m' (with_pool i (set_free_list p a') h)) /\
    chain m' a' (filter (fun c => get_block_from_ptr c <> block) l) /\
    forall x, off_cells l x -> m' x = h_mem h x.
Proof.
  revert fuel h p. induction l as [|c l IH]; intros [|fuel] h p Hp Hf Hnd Hap Hr; simpl in Hf;
    try lia; cbn [chain remove_chunks]; rewrite Hp.
  - intros Ha. rewrite Ha. exists (h_mem h), 0. simpl.
    rewrite <- Ha at 1. rewrite set_free_list_id, (with_pool_id i p), with_mem_id by done. done.
  - intros (Hc & Hc0 & Hl). rewrite Hc. rewrite (proj2 (Z.eqb_neq c 0)) by done.
    assert (Hal : apart l) by (intros x y Hx Hy; apply Hap; set_solver).
    destruct (Z.eqb_spec (get_block_from_ptr c) block) as [He|He].
    + set (p' := set_free_list p (load64 (h_mem h) c)).
      destruct (IH fuel (with_pool i p' h) p') as (m' & a' & -> & Hch & Hm');
        [by apply lookup_insert_eq|lia|by apply NoDup_cons_1_2 in Hnd|done| |done|].
      * intros y Hy. apply Hr. by right.
      * exists m', a'. rewrite with_pool_twice. split; [done|].
        rewrite filter_cons_False by (by intros ?). split; [done|].
        intros x Hx. apply (Hm' x). intros y Hy. apply Hx. by right.
    + destruct (remove_chunks_elem fuel h i p c block l) as (m' & -> & Hch & Hm');
        [done|lia|done|done|done|done|].
      exists m', c. split; [|split; [|done]].
      * rewrite <- Hc, set_free_list_id, with_pool_id by done. done.
      * by rewrite filter_cons_True by done.
Qed.

(** ** Unlinking a block *)

Definition with_blocks (bs : gmap Z pool_block) (h : heap) : heap :=
  Heap (h_mem h) (h_sys h) bs (slab_pools h) (g_size_map h) (g_initialized h).

(** The same header up to the link. *)
Definition same_but_next (o o' : option pool_block) : Prop :=
  match o, o' with
  | None, None => True
  | Some b, Some b' =>
    pb_pool b = pb_pool b' /\ pb_capacity b = pb_capacity b' /\
    pb_free_count b = pb_free_count b' /\ pb_magic b = pb_magic b'
  | _, _ => False
  end.

Lemma same_but_next_refl o : same_but_next o o.
Proof. by destruct o. Qed.

Lemma unlink_block_elem fuel h i p a blka block l :
  slab_pools h !! i = Some p -> h_blocks h !! a = Some blka ->
  bchain (h_blocks h) (pb_next blka) l -> NoDup (a :: l) -> (length l < fuel)%nat ->
  exists bs' blka', unlink_block fuel h i (Elem a) block = Ok (with_blocks bs' h) /\
    bs' !! a = Some blka' /\ bchain bs' (pb_next blka') (filter (fun b => b <> block) l) /\
    (forall b, same_but_next (h_blocks h !! b) (bs' !! b)) /\
    (forall b, b ∉ a :: l -> bs' !! b = h_blocks h !! b).
Proof.
  revert fuel a blka. induction l as [|c l IH]; intros [|fuel] a blka Hp Ha Hl Hnd Hf;
    simpl in Hf; try lia; cbn [unlink_block]; rewrite Hp, Ha; cbn [fmap option_fmap option_map].
  - rewrite Hl. exists (h_blocks h), blka. split; [by destruct h|]. split; [done|].
    split; [done|]. split; [intros b; apply same_but_next_refl|done].
  - destruct Hl as (Hc & Hc0 & blk & Hblk & Hl). rewrite Hc, (proj2 (Z.eqb_neq c 0)) by done.
    pose proof (NoDup_cons_1_1 _ _ Hnd) as Hal. apply NoDup_cons_1_2 in Hnd as Hnd'.
    destruct (Z.eqb_spec c block) as [<-|He].
    + rewrite Hblk. eexists _, _. split; [done|]. split; [by apply lookup_insert_eq|].
      rewrite filter_cons_False by (by intros ?).
      rewrite filter_absent by (by apply NoDup_cons_1_1 in Hnd').
      split; [apply (bchain_frame (h_blocks h)); [|done]|split].
      * intros b Hb. rewrite lookup_insert_ne; [done|]. intros <-. apply Hal. by right.
      * intros b. destruct (decide (b = a)) as [->|Hb].
        -- by rewrite lookup_insert_eq, Ha.
        -- rewrite lookup_insert_ne by done. apply same_but_next_refl.
      * intros b Hb. apply lookup_insert_ne. intros <-. apply Hb. by left.
    + destruct (IH fuel c blk) as (bs' & blkc & -> & Hcs & Hch & Hs & Ho); [done..|lia|].
      exists bs', blka. split; [done|]. rewrite (Ho a), Ha by done. split; [done|].
      rewrite filter_cons_True by done. split; [|split; [done|]].
      * split; [done|]. split; [done|]. by exists blkc.
      * intros b Hb. apply Ho. intros Hb'. apply Hb. by right.
Qed.

Lemma set_blocks_id p : set_blocks p (mp_blocks p) = p.
Proof. by destruct p. Qed.

Lemma unlink_block_ok fuel h i p block l :
  slab_pools h !! i = Some p -> bchain (h_blocks h) (mp_blocks p) l -> NoDup l ->
  (length l < fuel)%nat ->
  exists bs' a', unlink_block fuel h i PoolField block
      = Ok (with_blocks bs' (with_pool i (set_blocks p a') h)) /\
    bchain bs' a' (filter (fun b => b <> block) l) /\
    (forall b, same_but_next (h_blocks h !! b) (bs' !! b)) /\
    (forall b, b ∉ l -> bs' !! b = h_blocks h !! b).
Proof.
  destruct fuel as [|fuel]; [lia|]. intros Hp Hl Hnd Hf. cbn [unlink_block]. rewrite Hp.
  assert (Hid : h = with_blocks (h_blocks h) (with_pool i (set_blocks p (mp_blocks p)) h)).
  { rewrite set_blocks_id, with_pool_id by done. by destruct h. }
  destruct l as [|c l].
  - rewrite Hl in *. exists (h_blocks h), 0. rewrite <- Hid. split; [done|].
    split; [done|]. split; [intros b; apply same_but_next_refl|done].
  - destruct Hl as (Hc & Hc0 & blk & Hblk & Hl). rewrite Hc in *.
    rewrite (proj2 (Z.eqb_neq c 0)) by done. simpl in Hf.
    destruct (Z.eqb_spec c block) as [<-|He].
    + rewrite Hblk. exists (h_blocks h), (pb_next blk). split; [done|].
      apply NoDup_cons in Hnd as [Hcl Hnd].
      rewrite filter_cons_False by (by intros ?). rewrite filter_absent by done.
      split; [done|]. split; [intros b; apply same_but_next_refl|done].
    + destruct (unlink_block_elem fuel h i p c blk block l) as (bs' & blkc & -> & Hcs & Hch & Hs & Ho);
        [done..|lia|].
      exists bs', c. split; [rewrite Hid at 1; done|]. rewrite filter_cons_True by done.
      split; [|done]. split; [done|]. split; [done|]. by exists blkc.
Qed.

(** ** One pool *)

(** [b] has handed out, at some time, its first [used p b] chunks. *)
Definition used (p : mem_pool) (b : Z) : Z :=
  if b =? mp_current_block p then capacity (mp_chunk_size p) - mp_remaining p
  else capacity (mp_chunk_size p).

Definition is_chunk (p : mem_pool) (bl : list Z) (c : Z) : Prop :=
  exists b j, b ∈ bl /\ 0 <= j < used p b /\ c = chunk_at (mp_chunk_size p) b j.

Definition free_in (fl : list Z) (b : Z) : Z :=
  Z.of_nat (length (filter (fun c => get_block_from_ptr c = b) fl)).

(** The pool [p] of place [i], with its blocks [bl] and its free chunks [fl]. *)
Record pool_inv (m : Z -> byte) (bs : gmap Z pool_block) (i : nat) (p : mem_pool)
  (bl fl : list Z) : Prop := {
  pi_class : slab_classes !! i = Some (mp_chunk_size p);
  pi_bl : NoDup bl;
  pi_blocks : bchain bs (mp_blocks p) bl;
  pi_addr b : b ∈ bl -> b mod POOL_BLOCK_SIZE = 0 /\ 0 < b < 2 ^ 47;
  pi_block b : b ∈ bl -> exists blk, bs !! b = Some blk /\ pb_pool blk = i /\
    pb_capacity blk = capacity (mp_chunk_size p) /\ pb_magic blk = POOL_BLOCK_MAGIC /\
    pb_free_count blk = free_in fl b;
  pi_current : mp_current_block p = 0 /\ mp_remaining p = 0 \/
    mp_current_block p ∈ bl /\ 0 <= mp_remaining p <= capacity (mp_chunk_size p) /\
    mp_next_free p = chunk_at (mp_chunk_size p) (mp_current_block p)
                       (capacity (mp_chunk_size p) - mp_remaining p);
  pi_fl : NoDup fl;
  pi_free : chain m (mp_free_list p) fl;
  pi_chunks c : c ∈ fl -> is_chunk p bl c
}.

(** Every block has a chunk that is not free. *)
Definition busy (p : mem_pool) (bl fl : list Z) : Prop :=
  forall b, b ∈ bl -> free_in fl b < capacity (mp_chunk_size p).

(** *** The chunks of a pool *)

Section pool.
Context {m : Z -> byte} {bs : gmap Z pool_block} {i : nat} {p : mem_pool} {bl fl : list Z}.
Context (Hinv : pool_inv m bs i p bl fl).

Lemma used_range b : 0 <= used p b <= capacity (mp_chunk_size p).
Proof.
  pose proof (class_facts i _ (pi_class _ _ _ _ _ _ Hinv)) as (H1 & H2 & H3).
  unfold used. destruct (Z.eqb_spec b (mp_current_block p)); [|lia].
  destruct (pi_current _ _ _ _ _ _ Hinv) as [[_ ->]|(_ & Hr & _)]; lia.
Qed.

(** The block of a chunk and its place in the block. *)
Lemma chunk_view c :
  is_chunk p bl c ->
  exists b j, b ∈ bl /\ 0 <= j < used p b /\ c = chunk_at (mp_chunk_size p) b j /\
    get_block_from_ptr c = b /\ b + 40 <= c /\ c + mp_chunk_size p <= b + POOL_BLOCK_SIZE /\
    0 < c < 2 ^ 48.
Proof.
  intros (b & j & Hb & Hj & ->). exists b, j.
  pose proof (pi_class _ _ _ _ _ _ Hinv) as Hc.
  pose proof (class_facts i _ Hc) as (H1 & H2 & H3). pose proof (used_range b).
  destruct (pi_addr _ _ _ _ _ _ Hinv b Hb) as [Ha Hr].
  pose proof (chunk_offset (mp_chunk_size p) j ltac:(lia) ltac:(lia) H3) as [H4 H5].
  split; [done|]. split; [done|]. split; [done|].
  split; [by apply (get_block_chunk i); [|done|lia]|]. unfold chunk_at.
  change POOL_BLOCK_SIZE with 65536 in *. lia.
Qed.

Lemma blocks_apart b b' :
  b mod POOL_BLOCK_SIZE = 0 -> b' mod POOL_BLOCK_SIZE = 0 -> b <> b' ->
  b + POOL_BLOCK_SIZE <= b' \/ b' + POOL_BLOCK_SIZE <= b.
Proof.
  change POOL_BLOCK_SIZE with 65536.
  intros H1%Z.div_exact H2%Z.div_exact Hne; [|done..]. lia.
Qed.

Lemma chunks_apart c c' :
  is_chunk p bl c -> is_chunk p bl c' -> c <> c' ->
  c + mp_chunk_size p <= c' \/ c' + mp_chunk_size p <= c.
Proof.
  intros (b & j & Hb & Hj & Hc & _ & Hlo & Hhi & _)%chunk_view
    (b' & j' & Hb' & Hj' & Hc' & _ & Hlo' & Hhi' & _)%chunk_view Hne.
  pose proof (class_facts i _ (pi_class _ _ _ _ _ _ Hinv)) as (H1 & _).
  destruct (decide (b = b')) as [<-|Hbb].
  - unfold chunk_at in *. assert (j <> j') by congruence.
    assert (j + 1 <= j' \/ j' + 1 <= j) as [?|?] by lia; [left|right]; nia.
  - destruct (blocks_apart b b'); [apply (pi_addr _ _ _ _ _ _ Hinv); done..|done|lia|lia].
Qed.

Lemma free_apart : apart fl.
Proof.
  intros c c' Hc Hc' Hne. pose proof (class_facts i _ (pi_class _ _ _ _ _ _ Hinv)) as (H1 & _).
  destruct (chunks_apart c c'); [by apply (pi_chunks _ _ _ _ _ _ Hinv)..|done|lia|lia].
Qed.

Lemma free_addr c : c ∈ fl -> 0 < c < 2 ^ 64.
Proof.
  intros (_ & _ & _ & _ & _ & _ & _ & _ & Hr)%(pi_chunks _ _ _ _ _ _ Hinv)%chunk_view. lia.
Qed.

Lemma free_block c : c ∈ fl -> get_block_from_ptr c ∈ bl.
Proof.
  by intros (b & _ & Hb & _ & _ & -> & _)%(pi_chunks _ _ _ _ _ _ Hinv)%chunk_view.
Qed.

(** The addresses of all the chunks. *)
Definition chunk_list (cs : Z) (b n : Z) : list Z :=
  chunk_at cs b <$> seqZ 0 n.

Lemma elem_of_chunk_list cs b n c :
  c ∈ chunk_list cs b n <-> exists j, 0 <= j < n /\ c = chunk_at cs b j.
Proof.
  unfold chunk_list. rewrite list_elem_of_fmap. split.
  - intros (j & -> & Hj%elem_of_seqZ). exists j. split; [lia|done].
  - intros (j & Hj & ->). exists j. split; [done|]. apply elem_of_seqZ. lia.
Qed.

Lemma length_chunk_list cs b n : length (chunk_list cs b n) = Z.to_nat n.
Proof. unfold chunk_list. by rewrite length_fmap, length_seqZ. Qed.

Lemma length_chunk_lists cs l :
  (length (l ≫= fun b => chunk_list cs b 2046) = block_chunks * length l)%nat.
Proof.
  induction l as [|b l IH]; [done|]. rewrite bind_cons, length_app, length_chunk_list, IH.
  change (Z.to_nat 2046) with block_chunks. cbn [length]. lia.
Qed.

Lemma blocks_length : (length bl <= size bs)%nat.
Proof.
  rewrite <- size_dom, <- (size_list_to_set (C := gset Z) bl) by apply (pi_bl _ _ _ _ _ _ Hinv).
  apply subseteq_size. intros b Hb%elem_of_list_to_set. apply elem_of_dom.
  destruct (pi_block _ _ _ _ _ _ Hinv b Hb) as (blk & -> & _). by eexists.
Qed.

Lemma free_length : (length fl <= block_chunks * size bs)%nat.
Proof.
  pose proof (class_facts i _ (pi_class _ _ _ _ _ _ Hinv)) as (H1 & H2 & _).
  pose proof blocks_length as Hbl.
  pose proof (length_chunk_lists (mp_chunk_size p) bl) as Hall.
  enough (length fl <= length (bl ≫= fun b => chunk_list (mp_chunk_size p) b 2046))%nat by nia.
  apply submseteq_length, NoDup_submseteq; [apply (pi_fl _ _ _ _ _ _ Hinv)|].
  intros c (b & j & Hb & Hj & -> & _)%(pi_chunks _ _ _ _ _ _ Hinv)%chunk_view.
  apply list_elem_of_bind. exists b. split; [|done]. apply elem_of_chunk_list. exists j.
  split; [|done]. pose proof (used_range b). lia.
Qed.

(** When every chunk a block has handed out is free, the count says so. *)
Lemma free_in_all b :
  b ∈ bl -> (forall c, is_chunk p bl c -> get_block_from_ptr c = b -> c ∈ fl) ->
  used p b <= free_in fl b.
Proof.
  intros Hb Hall. pose proof (used_range b). unfold free_in.
  pose proof (class_facts i _ (pi_class _ _ _ _ _ _ Hinv)) as (H1 & _).
  rewrite <- (Z2Nat.id (used p b)), <- (length_chunk_list (mp_chunk_size p) b) by lia.
  apply inj_le, submseteq_length, NoDup_submseteq.
  - apply NoDup_fmap_2; [|apply NoDup_seqZ]. intros j j'. unfold chunk_at. nia.
  - intros c (j & Hj & ->)%elem_of_chunk_list. apply list_elem_of_filter.
    assert (Hc : is_chunk p bl (chunk_at (mp_chunk_size p) b j)) by (by exists b, j).
    destruct (chunk_view _ Hc) as (b' & j' & Hb' & _ & He & Hg & _).
    assert (get_block_from_ptr (chunk_at (mp_chunk_size p) b j) = b).
    { apply (get_block_chunk i); [apply (pi_class _ _ _ _ _ _ Hinv)|
        by apply (pi_addr _ _ _ _ _ _ Hinv)|lia]. }
    split; [done|]. by apply Hall.
Qed.

(** When the count is the block's capacity, every chunk of the block is free. *)
Lemma free_in_full b :
  b ∈ bl -> free_in fl b = capacity (mp_chunk_size p) ->
  forall c, is_chunk p bl c -> get_block_from_ptr c = b -> c ∈ fl.
Proof.
  intros Hb Hfull c Hc Hg. pose proof (used_range b) as Hu.
  set (free := filter (fun c => get_block_from_ptr c = b) fl).
  assert (Hview : forall c, is_chunk p bl c -> get_block_from_ptr c = b ->
    c ∈ chunk_list (mp_chunk_size p) b (used p b)).
  { intros c' Hc' Hg'. destruct (chunk_view c' Hc') as (b' & j & _ & Hj & -> & Hgb & _).
    assert (b' = b) as -> by congruence. apply elem_of_chunk_list. by exists j. }
  assert (Hsub : free ⊆+ chunk_list (mp_chunk_size p) b (used p b)).
  { apply NoDup_submseteq; [apply NoDup_filter, Hinv|].
    intros c' [Hg' Hc']%list_elem_of_filter. apply Hview; [|done].
    by apply (pi_chunks _ _ _ _ _ _ Hinv). }
  apply submseteq_length_Permutation in Hsub.
  - assert (Hin : c ∈ free) by (rewrite Hsub; by apply Hview).
    by apply list_elem_of_filter in Hin as [_ ?].
  - rewrite length_chunk_list. unfold free_in in Hfull. fold free in Hfull. lia.
Qed.

End pool.

(** ** Releasing a block *)

Lemma same_but_next_dom (bs bs' : gmap Z pool_block) :
  (forall b, same_but_next (bs !! b) (bs' !! b)) -> size bs = size bs'.
Proof.
  intros Hs. rewrite <- !size_dom. f_equal. apply set_eq. intros b. rewrite !elem_of_dom.
  specialize (Hs b). destruct (bs !! b), (bs' !! b); simpl in Hs; try done; split; by eexists.
Qed.

Lemma free_in_filter fl b b' :
  b' <> b -> free_in (filter (fun c => get_block_from_ptr c <> b) fl) b' = free_in fl b'.
Proof.
  intros Hb. unfold free_in. rewrite list_filter_filter_l; [done|]. by intros c ->.
Qed.

(** What the release leaves of the pool. *)
Definition released (p : mem_pool) (a f b : Z) : mem_pool :=
  let p := set_free_list (set_blocks p a) f in
  if mp_current_block p =? b then MemPool (mp_chunk_size p) f a 0 0 0 else p.

Lemma used_released p a f b b' : b' <> b -> 0 < b' -> used (released p a f b) b' = used p b'.
Proof.
  intros Hb Hp. unfold released, used. simpl.
  destruct (Z.eqb_spec (mp_current_block p) b) as [->|]; simpl; [|done].
  by rewrite !(proj2 (Z.eqb_neq b' _)) by lia.
Qed.

Lemma chunk_size_released p a f b : mp_chunk_size (released p a f b) = mp_chunk_size p.
Proof. unfold released. simpl. by destruct (_ =? _). Qed.

Lemma pool_inv_released m m' bs bs' i p bl fl b a f :
  pool_inv m bs i p bl fl -> b ∈ bl ->
  (forall b', same_but_next (bs !! b') (bs' !! b')) ->
  bchain bs' a (filter (fun b' => b' <> b) bl) ->
  chain m' f (filter (fun c => get_block_from_ptr c <> b) fl) ->
  pool_inv m' (delete b bs') i (released p a f b) (filter (fun b' => b' <> b) bl)
    (filter (fun c => get_block_from_ptr c <> b) fl).
Proof.
  intros Hinv Hb Hs Hbc Hfc. split.
  - rewrite chunk_size_released. apply Hinv.
  - apply NoDup_filter, Hinv.
  - unfold released. simpl. replace (mp_blocks _) with a by (by destruct (_ =? _)).
    eapply bchain_frame; [|exact Hbc]. intros b' [Hb' _]%list_elem_of_filter.
    by rewrite lookup_delete_ne.
  - intros b' [_ Hb']%list_elem_of_filter. by apply (pi_addr _ _ _ _ _ _ Hinv).
  - intros b' [Hne Hb']%list_elem_of_filter.
    destruct (pi_block _ _ _ _ _ _ Hinv b' Hb') as (blk & Hblk & H1 & H2 & H3 & H4).
    specialize (Hs b'). rewrite Hblk in Hs. destruct (bs' !! b') as [blk'|] eqn:Hblk'; [|done].
    destruct Hs as (Hs1 & Hs2 & Hs3 & Hs4). exists blk'.
    rewrite lookup_delete_ne, chunk_size_released, free_in_filter by done.
    split; [done|]. split; [congruence|]. split; [congruence|]. split; congruence.
  - unfold released. simpl.
    destruct (Z.eqb_spec (mp_current_block p) b) as [He|He]; simpl; [by left|].
    destruct (pi_current _ _ _ _ _ _ Hinv) as [|(Hc & Hr & Hn)]; [by left|right].
    split; [by apply list_elem_of_filter|]. done.
  - apply NoDup_filter, Hinv.
  - unfold released. simpl. by replace (mp_free_list _) with f by (by destruct (_ =? _)).
  - intros c [Hg Hc]%list_elem_of_filter.
    destruct (chunk_view Hinv _ (pi_chunks _ _ _ _ _ _ Hinv c Hc))
      as (b' & j & Hb' & Hj & -> & Hg' & _).
    rewrite Hg' in Hg. exists b', j. split; [by apply list_elem_of_filter|].
    rewrite used_released, chunk_size_released; [done|done|].
    by apply (pi_addr _ _ _ _ _ _ Hinv).
Qed.

Lemma release_block_ok h i p bl fl b n :
  slab_pools h !! i = Some p -> pool_inv (h_mem h) (h_blocks h) i p bl fl -> b ∈ bl ->
  h_sys h !! b = Some n ->
  exists m' bs' a f, release_block h i b
      = Ok (Heap m' (delete b (h_sys h)) (delete b bs') (<[i := released p a f b]> (slab_pools h))
              (g_size_map h) (g_initialized h)) /\
    pool_inv m' (delete b bs') i (released p a f b) (filter (fun b' => b' <> b) bl)
      (filter (fun c => get_block_from_ptr c <> b) fl) /\
    (forall x, off_cells fl x -> m' x = h_mem h x) /\
    (forall b', same_but_next (h_blocks h !! b') (bs' !! b')) /\
    (forall b', b' ∉ bl -> bs' !! b' = h_blocks h !! b').
Proof.
  intros Hp Hinv Hb Hsys. unfold release_block.
  pose proof (free_length Hinv) as Hlen.
  pose proof (blocks_length Hinv) as Hbl.
  destruct (unlink_block_ok (S (size (h_blocks h))) h i p b bl) as (bs' & a & -> & Hbc & Hs & Ho);
    [done|apply Hinv|apply Hinv|lia|].
  cbn [rbind]. unfold remove_block_from_freelist, chunks_bound.
  set (h1 := with_blocks bs' _).
  destruct (remove_chunks_field (S (block_chunks * size (h_blocks h1))) h1 i (set_blocks p a) b fl)
    as (m' & f & -> & Hfc & Hm).
  - by apply lookup_insert_eq.
  - subst h1. cbn [h_blocks with_blocks]. rewrite <- (same_but_next_dom _ _ Hs). lia.
  - apply Hinv.
  - apply (free_apart Hinv).
  - apply (free_addr Hinv).
  - apply Hinv.
  - cbn [rbind]. subst h1. simpl. rewrite lookup_insert_eq. simpl.
    exists m', bs', a, f. split; [|split; [|done]].
    + unfold released. simpl.
      destruct (Z.eqb_spec (mp_current_block p) b) as [He|He]; unfold sys_free; simpl;
        rewrite Hsys; simpl; by rewrite !insert_insert_eq.
    + by apply (pool_inv_released (h_mem h) m' (h_blocks h) bs').
Qed.

(** ** The heap *)

(** The regions of the system are apart and lie in the user's addresses. *)
Record regions_ok (s : gmap Z Z) : Prop := {
  rg_addr a n : s !! a = Some n -> 0 < a /\ 0 < n /\ a + n <= 2 ^ 47;
  rg_apart a n a' n' : s !! a = Some n -> s !! a' = Some n' -> a <> a' -> a + n <= a' \/ a' + n' <= a
}.

(** What [malloc] and [posix_memalign] promise. *)
Definition fresh_answer (s : gmap Z Z) (n : Z) (ans : sys_answer) : Prop :=
  match ans with
  | None => True
  | Some (a, _) =>
    0 < a /\ a + n <= 2 ^ 47 /\ forall a' n', s !! a' = Some n' -> a + n <= a' \/ a' + n' <= a
  end.

(** A piece in a chunk of a pool, with the lists [g] of the pools. *)
Definition slab_piece (g : nat -> list Z * list Z) (h : heap) (q n : Z) : Prop :=
  exists i p, slab_pools h !! i = Some p /\ is_chunk p (g i).1 q /\ q ∉ (g i).2 /\
    n <= mp_chunk_size p.

(** A piece in a region of its own, of [f] bytes. *)
Definition large_piece (h : heap) (q n : Z) : Prop :=
  exists f, n <= f < 2 ^ 63 /\ h_sys h !! (q - 16) = Some (16 + f) /\
    h_blocks h !! (q - 16) = None /\ load64 (h_mem h) (q - 16) = f /\
    load64 (h_mem h) (q - 8) = FALLBACK_MAGIC.

(** The state between calls, with the pieces handed out and their sizes. *)
Record heap_core (g : nat -> list Z * list Z) (h : heap) (live : gmap Z Z) : Prop := {
  hc_init : g_initialized h = false -> slab_pools h = ∅;
  hc_pools i p : slab_pools h !! i = Some p ->
    pool_inv (h_mem h) (h_blocks h) i p (g i).1 (g i).2;
  hc_blocks b blk : h_blocks h !! b = Some blk -> exists p,
    slab_pools h !! pb_pool blk = Some p /\ b ∈ (g (pb_pool blk)).1;
  hc_region b blk : h_blocks h !! b = Some blk ->
    h_sys h !! b = Some POOL_BLOCK_SIZE /\ load64 (h_mem h) (b + 32) = b + 40;
  hc_sys : regions_ok (h_sys h);
  hc_map s i : g_size_map h s = Some i -> exists p,
    slab_pools h !! i = Some p /\ s <= mp_chunk_size p;
  hc_live q n : live !! q = Some n -> 0 < n /\ (slab_piece g h q n \/ large_piece h q n);
  hc_chunks i p q : slab_pools h !! i = Some p -> is_chunk p (g i).1 q -> q ∉ (g i).2 ->
    exists n, live !! q = Some n;
  hc_owned a n : h_sys h !! a = Some n ->
    is_Some (h_blocks h !! a) \/ is_Some (live !! (a + 16))
}.

Definition heap_busy (g : nat -> list Z * list Z) (h : heap) : Prop :=
  forall i p, slab_pools h !! i = Some p -> busy p (g i).1 (g i).2.

Definition heap_ok (g : nat -> list Z * list Z) (h : heap) (live : gmap Z Z) : Prop :=
  heap_core g h live /\ heap_busy g h.

Definition upd (g : nat -> list Z * list Z) (i : nat) (x : list Z * list Z) (j : nat)
  : list Z * list Z := if decide (j = i) then x else g j.

Lemma upd_eq g i x : upd g i x i = x.
Proof. unfold upd. by rewrite decide_True. Qed.
Lemma upd_ne g i x j : j <> i -> upd g i x j = g j.
Proof. intros. unfold upd. by rewrite decide_False. Qed.

Lemma regions_unique s a n a' n' x :
  regions_ok s -> s !! a = Some n -> s !! a' = Some n' ->
  a <= x < a + n -> a' <= x < a' + n' -> a = a'.
Proof.
  intros Hs Ha Ha' Hx Hx'. destruct (decide (a = a')) as [|Hne]; [done|].
  destruct (rg_apart _ Hs a n a' n' Ha Ha' Hne); lia.
Qed.

Lemma pool_frame m m' bs bs' i p bl fl :
  pool_inv m bs i p bl fl -> (forall c x, c ∈ fl -> c <= x < c + 8 -> m x = m' x) ->
  (forall b, b ∈ bl -> bs !! b = bs' !! b) -> pool_inv m' bs' i p bl fl.
Proof.
  intros H Hm Hb. split; try apply H.
  - eapply bchain_frame; [exact Hb|apply H].
  - intros b Hb'. rewrite <- Hb by done. by apply (pi_block _ _ _ _ _ _ H).
  - eapply chain_frame; [exact Hm|apply H].
Qed.

Section heap.
Context {g : nat -> list Z * list Z} {h : heap} {live : gmap Z Z}.
Context (Hok : heap_core g h live).

Lemma block_pool i p b :
  slab_pools h !! i = Some p -> b ∈ (g i).1 ->
  exists blk, h_blocks h !! b = Some blk /\ pb_pool blk = i /\
    h_sys h !! b = Some POOL_BLOCK_SIZE.
Proof.
  intros Hp Hb. pose proof (hc_pools _ _ _ Hok i p Hp) as Hinv.
  destruct (pi_block _ _ _ _ _ _ Hinv b Hb) as (blk & Hblk & Hpool & _). exists blk.
  split; [done|]. split; [done|]. by apply (hc_region _ _ _ Hok b blk).
Qed.

Lemma block_owner i p i' p' b :
  slab_pools h !! i = Some p -> slab_pools h !! i' = Some p' -> b ∈ (g i).1 -> b ∈ (g i').1 ->
  i = i'.
Proof.
  intros Hp Hp' Hb Hb'. destruct (block_pool i p b Hp Hb) as (blk & Hblk & <- & _).
  destruct (block_pool i' p' b Hp' Hb') as (blk' & Hblk' & <- & _). congruence.
Qed.

(** A chunk lies in its block's region, behind the header. *)
Lemma chunk_region i p c :
  slab_pools h !! i = Some p -> is_chunk p (g i).1 c ->
  exists b, b ∈ (g i).1 /\ h_sys h !! b = Some POOL_BLOCK_SIZE /\ is_Some (h_blocks h !! b) /\
    get_block_from_ptr c = b /\ b + 40 <= c /\ c + mp_chunk_size p <= b + POOL_BLOCK_SIZE /\
    8 <= mp_chunk_size p.
Proof.
  intros Hp Hc. pose proof (hc_pools _ _ _ Hok i p Hp) as Hinv.
  destruct (chunk_view Hinv c Hc) as (b & j & Hb & _ & _ & Hg & H1 & H2 & _).
  pose proof (class_facts i _ (pi_class _ _ _ _ _ _ Hinv)) as (H3 & _).
  destruct (block_pool i p b Hp Hb) as (blk & Hblk & _ & Hs). exists b.
  split; [done|]. split; [done|]. split; [by eexists|]. split; [done|]. lia.
Qed.

(** Two chunks, of the same pool or of two, overlap only when they are one. *)
Lemma chunk_overlap i p c i' p' c' x :
  slab_pools h !! i = Some p -> is_chunk p (g i).1 c ->
  slab_pools h !! i' = Some p' -> is_chunk p' (g i').1 c' ->
  c <= x < c + mp_chunk_size p -> c' <= x < c' + mp_chunk_size p' -> c = c' /\ i = i'.
Proof.
  intros Hp Hc Hp' Hc' Hx Hx'.
  destruct (chunk_region i p c Hp Hc) as (b & Hb & Hs & _ & _ & H1 & H2 & _).
  destruct (chunk_region i' p' c' Hp' Hc') as (b' & Hb' & Hs' & _ & _ & H1' & H2' & _).
  assert (b = b') as <-.
  { apply (regions_unique _ _ _ _ _ x (hc_sys _ _ _ Hok) Hs Hs'); lia. }
  assert (i = i') as <- by (by apply (block_owner i p i' p' b)).
  simplify_eq. split; [|done]. destruct (decide (c = c')) as [|Hne]; [done|].
  destruct (chunks_apart (hc_pools _ _ _ Hok i p Hp) c c'); [done..|lia|lia].
Qed.

(** No chunk overlaps a large piece's region or a block's data word. *)
Lemma chunk_not_region i p c a n x :
  slab_pools h !! i = Some p -> is_chunk p (g i).1 c -> h_sys h !! a = Some n ->
  h_blocks h !! a = None -> c <= x < c + mp_chunk_size p -> a <= x < a + n -> False.
Proof.
  intros Hp Hc Ha Hn Hx Hx'.
  destruct (chunk_region i p c Hp Hc) as (b & Hb & Hs & [? Hblk] & _ & H1 & H2 & _).
  assert (b = a) as <-; [|congruence].
  apply (regions_unique _ _ _ _ _ x (hc_sys _ _ _ Hok) Hs Ha); lia.
Qed.

Lemma chunk_not_data i p c b x :
  slab_pools h !! i = Some p -> is_chunk p (g i).1 c -> is_Some (h_blocks h !! b) ->
  c <= x < c + mp_chunk_size p -> b + 32 <= x < b + 40 -> False.
Proof.
  intros Hp Hc [blk Hblk] Hx Hx'.
  destruct (chunk_region i p c Hp Hc) as (b' & Hb & Hs & _ & _ & H1 & H2 & _).
  destruct (hc_region _ _ _ Hok b blk Hblk) as [Hs' _].
  assert (b' = b) as <-; [|lia].
  apply (regions_unique _ _ _ _ _ x (hc_sys _ _ _ Hok) Hs Hs');
    change POOL_BLOCK_SIZE with 65536 in *; lia.
Qed.
End heap.

(** ** Pieces *)

(** The memory the pool itself depends on: the first words of free chunks, the
    last words of block headers and the headers of large pieces. *)
Definition meta (g : nat -> list Z * list Z) (h : heap) (live : gmap Z Z) (x : Z) : Prop :=
  (exists i p c, slab_pools h !! i = Some p /\ c ∈ (g i).2 /\ c <= x < c + 8) \/
  (exists b, is_Some (h_blocks h !! b) /\ b + 32 <= x < b + 40) \/
  (exists q n, live !! q = Some n /\ large_piece h q n /\ q - 16 <= x < q).

Section pieces.
Context {g : nat -> list Z * list Z} {h : heap} {live : gmap Z Z}.
Context (Hok : heap_core g h live).

Lemma free_chunk i p c : slab_pools h !! i = Some p -> c ∈ (g i).2 -> is_chunk p (g i).1 c.
Proof. intros Hp. apply (pi_chunks _ _ _ _ _ _ (hc_pools _ _ _ Hok i p Hp)). Qed.

(** A piece overlaps neither that memory nor another piece. *)
Lemma piece_not_meta q n x : live !! q = Some n -> q <= x < q + n -> ~ meta g h live x.
Proof.
  intros Hq Hx Hm. destruct (hc_live _ _ _ Hok q n Hq) as [Hn Hp].
  destruct Hp as [(i & p & Hp & Hc & Hfree & Hle)|(f & Hf & Hs & Hb & _)].
  - destruct Hm as [(i' & p' & c & Hp' & Hc' & Hx')|[(b & Hb & Hx')|(q' & n' & Hq' & Hl & Hx')]].
    + pose proof (free_chunk i' p' c Hp' Hc') as Hcc.
      destruct (chunk_region Hok i' p' c Hp' Hcc) as (_ & _ & _ & _ & _ & _ & _ & H8).
      destruct (chunk_overlap Hok i p q i' p' c x) as [-> ->]; (done || lia).
    + apply (chunk_not_data Hok i p q b x); (done || lia).
    + destruct Hl as (f & Hf & Hs & Hb & _), (hc_live _ _ _ Hok q' n' Hq') as [Hn' _].
      apply (chunk_not_region Hok i p q (q' - 16) (16 + f) x); (done || lia).
  - destruct Hm as [(i' & p' & c & Hp' & Hc' & Hx')|[(b & [blk Hblk] & Hx')|(q' & n' & Hq' & Hl & Hx')]].
    + pose proof (free_chunk i' p' c Hp' Hc') as Hcc.
      destruct (chunk_region Hok i' p' c Hp' Hcc) as (_ & _ & _ & _ & _ & _ & _ & H8).
      apply (chunk_not_region Hok i' p' c (q - 16) (16 + f) x); (done || lia).
    + destruct (hc_region _ _ _ Hok b blk Hblk) as [Hs' _].
      assert (q - 16 = b); [|congruence].
      apply (regions_unique _ _ _ _ _ x (hc_sys _ _ _ Hok) Hs Hs');
        change POOL_BLOCK_SIZE with 65536; lia.
    + destruct Hl as (f' & Hf' & Hs' & _), (hc_live _ _ _ Hok q' n' Hq') as [Hn' _].
      assert (q - 16 = q' - 16); [|lia].
      apply (regions_unique _ _ _ _ _ x (hc_sys _ _ _ Hok) Hs Hs'); lia.
Qed.

Lemma pieces_apart q n q' n' :
  live !! q = Some n -> live !! q' = Some n' -> q <> q' -> q + n <= q' \/ q' + n' <= q.
Proof.
  intros Hq Hq' Hne.
  enough (H : forall x, q <= x < q + n -> q' <= x < q' + n' -> False).
  { destruct (hc_live _ _ _ Hok q n Hq) as [Hn _], (hc_live _ _ _ Hok q' n' Hq') as [Hn' _].
    destruct (Z.le_gt_cases q q').
    - destruct (Z.le_gt_cases (q + n) q'); [by left|]. exfalso. apply (H q'); lia.
    - destruct (Z.le_gt_cases (q' + n') q); [by right|]. exfalso. apply (H q); lia. }
  intros x Hx Hx'.
  destruct (hc_live _ _ _ Hok q n Hq) as [_ [(i & p & Hp & Hc & _ & Hle)|(f & Hf & Hs & Hb & _)]],
    (hc_live _ _ _ Hok q' n' Hq') as [_ [(i' & p' & Hp' & Hc' & _ & Hle')|(f' & Hf' & Hs' & Hb' & _)]].
  - destruct (chunk_overlap Hok i p q i' p' q' x); (done || lia).
  - apply (chunk_not_region Hok i p q (q' - 16) (16 + f') x); (done || lia).
  - apply (chunk_not_region Hok i' p' q' (q - 16) (16 + f) x); (done || lia).
  - assert (q - 16 = q' - 16); [|lia].
    apply (regions_unique _ _ _ _ _ x (hc_sys _ _ _ Hok) Hs Hs'); lia.
Qed.

(** A piece lies in a region. *)
Lemma piece_region q n :
  live !! q = Some n ->
  exists r len, h_sys h !! r = Some len /\ r <= q /\ q + n <= r + len.
Proof.
  intros Hq. destruct (hc_live _ _ _ Hok q n Hq) as [Hn [(i & p & Hp & Hc & _ & Hle)|(f & Hf & Hs & _)]].
  - destruct (chunk_region Hok i p q Hp Hc) as (b & _ & Hs & _ & _ & H1 & H2 & _).
    exists b, POOL_BLOCK_SIZE. split; [done|]. lia.
  - exists (q - 16), (16 + f). split; [done|]. lia.
Qed.

Lemma piece_addr q n : live !! q = Some n -> 0 < q /\ q + n <= 2 ^ 47.
Proof.
  intros Hq. destruct (piece_region q n Hq) as (r & len & Hr & H1 & H2).
  pose proof (rg_addr _ (hc_sys _ _ _ Hok) r len Hr). lia.
Qed.

(** Changes elsewhere keep the invariant. *)
Lemma heap_frame m' :
  (forall x, meta g h live x -> m' x = h_mem h x) -> heap_core g (with_mem m' h) live.
Proof.
  intros Hm.
  assert (Hlarge : forall q n, live !! q = Some n -> large_piece h q n ->
                               large_piece (with_mem m' h) q n).
  { intros q n Hq Hl. pose proof Hl as (f & Hf & Hs & Hb & H1 & H2). exists f.
    split; [done|]. split; [done|]. split; [done|]. simpl.
    rewrite (load64_ext m' (h_mem h)), (load64_ext m' (h_mem h) (q - 8)); [done|..];
      intros x Hx; apply Hm; right; right; exists q, n; (split; [done|]; split; [done|lia]). }
  split; simpl; try apply Hok.
  - intros i p Hp. apply (pool_frame (h_mem h) m' (h_blocks h)); [by apply Hok| |done].
    intros c x Hc Hx. symmetry. apply Hm. left. by exists i, p, c.
  - intros b blk Hb. destruct (hc_region _ _ _ Hok b blk Hb) as [H1 H2]. split; [done|].
    rewrite <- H2. apply load64_ext. intros x Hx. apply Hm. right; left. exists b.
    split; [by eexists|lia].
  - intros q n Hq. destruct (hc_live _ _ _ Hok q n Hq) as [Hn [Hs|Hl]]; (split; [done|]).
    + by left.
    + right. by apply Hlarge.
Qed.

Lemma get_block_large q n :
  live !! q = Some n -> large_piece h q n -> h_blocks h !! get_block_from_ptr q = None.
Proof.
  intros Hq (f & Hf & Hs & Hb & _). destruct (h_blocks h !! get_block_from_ptr q) as [blk|] eqn:E; [|done].
  exfalso. destruct (hc_region _ _ _ Hok _ blk E) as [Hs' _].
  destruct (hc_live _ _ _ Hok q n Hq) as [Hn _].
  assert (get_block_from_ptr q <= q < get_block_from_ptr q + POOL_BLOCK_SIZE).
  { unfold get_block_from_ptr. change (POOL_BLOCK_SIZE - 1) with (Z.ones 16).
    rewrite <- Z.ldiff_land, Z.ldiff_ones_r, Z.shiftl_mul_pow2, Z.shiftr_div_pow2 by lia.
    change (2 ^ 16) with 65536. change POOL_BLOCK_SIZE with 65536.
    pose proof (Z.div_mod q 65536). pose proof (Z.mod_pos_bound q 65536). lia. }
  assert (q - 16 = get_block_from_ptr q); [|congruence].
  apply (regions_unique _ _ _ _ _ q (hc_sys _ _ _ Hok) Hs Hs'); lia.
Qed.
End pieces.
