(* ===== verification/MempoolOps.v ===== *)
(** * The operations of the memory pool keep its invariant

    Taking a chunk from the free list or from the current block, starting a
    new block, serving a large request, initialising the slabs and giving a
    piece back: each keeps the invariant of MempoolInv.v, with the pieces
    changed as the operation says and nothing written into the others. *)

From S2P Require Import Prelude Memory Mempool MempoolInv.

Open Scope Z_scope.
Open Scope kvs_scope.

(** ** A step of one pool *)

Lemma bchain_update bs a l b blk blk' :
  bs !! b = Some blk -> pb_next blk' = pb_next blk -> bchain bs a l ->
  bchain (<[b := blk']> bs) a l.
Proof.
  intros Hb Hn. revert a. induction l as [|c l IH]; intros a; [done|].
  intros (-> & Hc & blkc & Hblk & Hl). split; [done|]. split; [done|].
  destruct (decide (c = b)) as [->|Hne].
  - exists blk'. rewrite lookup_insert_eq. split; [done|]. rewrite Hn. simplify_eq. by apply IH.
  - exists blkc. rewrite lookup_insert_ne by done. split; [done|]. by apply IH.
Qed.

Lemma free_in_cons c fl b :
  free_in (c :: fl) b = if decide (get_block_from_ptr c = b) then free_in fl b + 1 else free_in fl b.
Proof. unfold free_in. rewrite filter_cons. case_decide; cbn [length]; lia. Qed.

Definition count_free (blk : pool_block) (n : Z) : pool_block :=
  PoolBlock (pb_next blk) (pb_pool blk) (pb_capacity blk) n (pb_magic blk).

(** Changing the count of the chunk's block with the free list. *)
Lemma pool_recount m m' bs i p bl fl fl' blk c a n :
  pool_inv m bs i p bl fl -> bs !! get_block_from_ptr c = Some blk ->
  n = free_in fl' (get_block_from_ptr c) ->
  (forall b, b <> get_block_from_ptr c -> free_in fl' b = free_in fl b) ->
  NoDup fl' -> chain m' a fl' -> (forall c', c' ∈ fl' -> is_chunk p bl c') ->
  pool_inv m' (<[get_block_from_ptr c := count_free blk n]> bs) i (set_free_list p a) bl fl'.
Proof.
  intros H Hblk -> Hfl Hnd Hch Hc. split; try apply H; try done.
  - eapply bchain_update; [exact Hblk|done|apply H].
  - intros b Hb. destruct (pi_block _ _ _ _ _ _ H b Hb) as (blk' & Hb' & H1 & H2 & H3 & H4).
    destruct (decide (b = get_block_from_ptr c)) as [->|Hne].
    + rewrite lookup_insert_eq. simplify_eq. by eexists.
    + rewrite lookup_insert_ne by done. exists blk'. by rewrite Hfl.
Qed.

Lemma pool_pop m bs i p bl c fl blk :
  pool_inv m bs i p bl (c :: fl) -> bs !! get_block_from_ptr c = Some blk ->
  pool_inv m (<[get_block_from_ptr c := count_free blk (pb_free_count blk - 1)]> bs) i
    (set_free_list p (load64 m c)) bl fl.
Proof.
  intros H Hblk. pose proof (pi_free _ _ _ _ _ _ H) as (Hc & Hc0 & Hch).
  assert (Hb : get_block_from_ptr c ∈ bl) by (apply (free_block H); by left).
  destruct (pi_block _ _ _ _ _ _ H _ Hb) as (blk' & Hb' & _ & _ & _ & H4).
  assert (blk' = blk) as -> by congruence.
  apply (pool_recount m m bs i p bl (c :: fl)); [done|done| | | |done|].
  - rewrite H4, free_in_cons, decide_True by done. lia.
  - intros b Hne. rewrite free_in_cons, decide_False; [done|by intros <-].
  - by apply (NoDup_cons_1_2 c), (pi_fl _ _ _ _ _ _ H).
  - intros c' Hc'. apply (pi_chunks _ _ _ _ _ _ H). by right.
Qed.

Lemma pool_push m bs i p bl c fl blk :
  pool_inv m bs i p bl fl -> is_chunk p bl c -> c ∉ fl ->
  bs !! get_block_from_ptr c = Some blk ->
  pool_inv (store64 m c (mp_free_list p))
    (<[get_block_from_ptr c := count_free blk (pb_free_count blk + 1)]> bs) i
    (set_free_list p c) bl (c :: fl).
Proof.
  intros H Hcc Hc Hblk.
  destruct (chunk_view H c Hcc) as (b & j & Hb & Hj & Hcb & Hg & H1 & H2 & H3).
  destruct (pi_block _ _ _ _ _ _ H _ Hb) as (blk' & Hb' & _ & _ & _ & H4).
  rewrite <- Hg in Hb', H4. assert (blk' = blk) as -> by congruence.
  pose proof (class_facts i _ (pi_class _ _ _ _ _ _ H)) as (H8 & _).
  apply (pool_recount m _ bs i p bl fl); [done|done| | | | |].
  - rewrite H4, free_in_cons, decide_True by done. lia.
  - intros b' Hne. rewrite free_in_cons, decide_False; [done|by intros <-].
  - apply NoDup_cons. split; [done|apply H].
  - split; [done|]. split; [lia|]. rewrite load64_store64, u64_small.
    + apply chain_store; [done| |apply H].
      intros x y Hx Hy Hne. destruct (chunks_apart H x y); [| |done|lia|lia].
      * apply elem_of_cons in Hx as [->|Hx]; [done|by apply (pi_chunks _ _ _ _ _ _ H)].
      * apply elem_of_cons in Hy as [->|Hy]; [done|by apply (pi_chunks _ _ _ _ _ _ H)].
    + eapply chain_head_range; [|apply H]. intros x Hx. by apply (free_addr H).
  - intros c' [->|Hc']%elem_of_cons; [done|]. by apply (pi_chunks _ _ _ _ _ _ H).
Qed.

(** The pool after the next chunk of the current block was taken. *)
Definition bumped (p : mem_pool) : mem_pool :=
  MemPool (mp_chunk_size p) (mp_free_list p) (mp_blocks p) (mp_current_block p)
    (mp_next_free p + mp_chunk_size p) (mp_remaining p - 1).

Lemma pool_bump m bs i p bl fl :
  pool_inv m bs i p bl fl -> mp_remaining p <> 0 ->
  pool_inv m bs i (bumped p) bl fl /\
  is_chunk (bumped p) bl (mp_next_free p) /\ ~ is_chunk p bl (mp_next_free p) /\
  (forall c, is_chunk p bl c -> is_chunk (bumped p) bl c) /\
  (forall c, is_chunk (bumped p) bl c -> is_chunk p bl c \/ c = mp_next_free p).
Proof.
  intros H Hr. pose proof (class_facts i _ (pi_class _ _ _ _ _ _ H)) as (Hcs & _).
  destruct (pi_current _ _ _ _ _ _ H) as [[_ ?]|(Hcur & Hrem & Hnext)]; [done|].
  set (cs := mp_chunk_size p) in *. set (cur := mp_current_block p) in *.
  assert (Hused : forall b, used (bumped p) b = if b =? cur then used p b + 1 else used p b).
  { intros b. unfold used, bumped. simpl. fold cs cur. destruct (b =? cur); lia. }
  assert (Huc : used p cur = capacity cs - mp_remaining p).
  { unfold used. fold cs cur. by rewrite Z.eqb_refl. }
  assert (Hmono : forall c, is_chunk p bl c -> is_chunk (bumped p) bl c).
  { intros c (b & j & Hb & Hj & ->). exists b, j. split; [done|]. split; [|done].
    rewrite Hused. destruct (b =? cur); lia. }
  split; [|split; [|split; [|split; [done|]]]].
  - split; try apply H.
    + right. simpl. fold cs cur. split; [done|]. split; [lia|]. rewrite Hnext. unfold chunk_at. lia.
    + intros c Hc. apply Hmono. by apply (pi_chunks _ _ _ _ _ _ H).
  - exists cur, (used p cur). split; [done|]. rewrite Hused, Z.eqb_refl. split; [lia|].
    by rewrite Huc.
  - intros Hc. destruct (chunk_view H _ Hc) as (b & j & Hb & Hj & He & Hg & Hlo & Hhi & _).
    pose proof (get_block_chunk i cs cur (capacity cs - mp_remaining p)
      (pi_class _ _ _ _ _ _ H)) as Hgc.
    rewrite <- Hnext, Hg in Hgc.
    assert (b = cur) as -> by (apply Hgc; [by apply (pi_addr _ _ _ _ _ _ H)|lia]).
    fold cs in He. rewrite Hnext in He. unfold chunk_at in He. rewrite Huc in Hj. nia.
  - intros c (b & j & Hb & Hj & ->). rewrite Hused in Hj.
    destruct (Z.eqb_spec b cur) as [->|]; [|left; by exists b, j].
    destruct (decide (j = used p cur)) as [->|]; [right|left; exists cur, j; split; [done|];
      split; [lia|done]].
    rewrite Hnext, Huc. done.
Qed.

(** ** A step of the heap *)

(** The heap after a step of pool [i]. *)
Definition stepped (h : heap) (i : nat) (m' : Z -> byte) (bs' : gmap Z pool_block) (p' : mem_pool)
  : heap :=
  Heap m' (h_sys h) bs' (<[i := p']> (slab_pools h)) (g_size_map h) (g_initialized h).

Section step.
Context {g : nat -> list Z * list Z} {h : heap} {live : gmap Z Z} {i : nat} {p p' : mem_pool}.
Context {m' : Z -> byte} {bs' : gmap Z pool_block} {fl' : list Z} {live' : gmap Z Z}.
Context (Hok : heap_core g h live) (Hp : slab_pools h !! i = Some p).
Context (Hcs : mp_chunk_size p' = mp_chunk_size p).
Context (Hinv : pool_inv m' bs' i p' (g i).1 fl').
Context (Hbs : forall b, b ∉ (g i).1 -> bs' !! b = h_blocks h !! b).
Context (Hm : forall x, m' x <> h_mem h x ->
  exists c, is_chunk p (g i).1 c /\ c <= x < c + mp_chunk_size p).
Context (Hgrow : forall c, is_chunk p (g i).1 c -> is_chunk p' (g i).1 c).
Context (Hold : forall q n, live' !! q = Some n ->
  (live !! q = Some n /\ (is_chunk p (g i).1 q -> q ∉ fl')) \/
  (0 < n <= mp_chunk_size p /\ is_chunk p' (g i).1 q /\ q ∉ fl')).
Context (Hkeep : forall q n, live !! q = Some n -> ~ is_chunk p (g i).1 q -> live' !! q = Some n).
Context (Hall : forall q, is_chunk p' (g i).1 q -> q ∉ fl' -> is_Some (live' !! q)).

Lemma step_mem x : (forall c, is_chunk p (g i).1 c -> c <= x < c + mp_chunk_size p -> False) ->
  h_mem h x = m' x.
Proof.
  intros Hx. destruct (decide (m' x = h_mem h x)) as [|Hne]; [done|].
  destruct (Hm x Hne) as (c & Hc & Hr). by destruct (Hx c).
Qed.

Lemma step_blocks_dom b : is_Some (bs' !! b) <-> is_Some (h_blocks h !! b).
Proof.
  destruct (decide (b ∈ (g i).1)) as [Hb|Hb]; [|by rewrite Hbs].
  destruct (pi_block _ _ _ _ _ _ Hinv b Hb) as (blk & -> & _).
  destruct (block_pool Hok i p b Hp Hb) as (blk' & -> & _). split; by eexists.
Qed.

Lemma step_none b : h_blocks h !! b = None -> bs' !! b = None.
Proof.
  intros Hb. apply eq_None_not_Some. rewrite step_blocks_dom. rewrite Hb. by intros [].
Qed.

Lemma step_large q n : large_piece h q n -> live !! q = Some n ->
  large_piece (stepped h i m' bs' p') q n.
Proof.
  intros (f & Hf & Hs & Hb & H1 & H2) Hq. destruct (hc_live _ _ _ Hok q n Hq) as [Hn _].
  exists f. split; [done|]. split; [done|]. split; [by apply step_none|]. simpl.
  assert (Hx : forall x, q - 16 <= x < q -> h_mem h x = m' x).
  { intros x Hx. apply step_mem. intros c Hc Hr.
    apply (chunk_not_region Hok i p c (q - 16) (16 + f) x); (done || lia). }
  rewrite <- (load64_ext (h_mem h) m'), <- (load64_ext (h_mem h) m' (q - 8)); [done|..];
    intros x Hxr; apply Hx; lia.
Qed.

Lemma step_pools j pj : <[i := p']> (slab_pools h) !! j = Some pj ->
  pool_inv m' bs' j pj (upd g i ((g i).1, fl') j).1 (upd g i ((g i).1, fl') j).2.
Proof.
  intros Hj. destruct (decide (j = i)) as [->|Hne].
  - rewrite lookup_insert_eq in Hj. simplify_eq. by rewrite upd_eq.
  - rewrite lookup_insert_ne in Hj by done. rewrite upd_ne by done.
    apply (pool_frame (h_mem h) m' (h_blocks h)); [by apply Hok|..].
    + intros c x Hc Hx. apply step_mem. intros c' Hc' Hr. apply Hne.
      pose proof (free_chunk Hok j pj c Hj Hc) as Hcc.
      destruct (chunk_region Hok j pj c Hj Hcc) as (_ & _ & _ & _ & _ & _ & _ & H8).
      destruct (chunk_overlap Hok j pj c i p c' x); (done || lia).
    + intros b Hb. symmetry. apply Hbs. intros Hb'. by destruct Hne, (block_owner Hok j pj i p b).
Qed.

Lemma heap_step : heap_core (upd g i ((g i).1, fl')) (stepped h i m' bs' p') live'.
Proof.
  split; simpl; try apply Hok.
  - intros Hi. apply (hc_init _ _ _ Hok) in Hi. rewrite Hi in Hp. done.
  - apply step_pools.
  - intros b blk Hb. assert (exists blk0, h_blocks h !! b = Some blk0) as [blk0 Hb0].
    { apply step_blocks_dom. by eexists. }
    destruct (hc_blocks _ _ _ Hok b blk0 Hb0) as (pj & Hpj & Hbj).
    assert (pb_pool blk = pb_pool blk0) as ->.
    { destruct (decide (b ∈ (g i).1)) as [Hbi|Hbi]; [|rewrite Hbs in Hb; congruence].
      destruct (pi_block _ _ _ _ _ _ Hinv b Hbi) as (blk' & Hb' & Hpool' & _).
      destruct (block_pool Hok i p b Hp Hbi) as (blk1 & Hb1 & Hpool & _). congruence. }
    destruct (decide (pb_pool blk0 = i)) as [He|He].
    + rewrite He in *. exists p'. by rewrite lookup_insert_eq, upd_eq.
    + exists pj. by rewrite lookup_insert_ne, upd_ne.
  - intros b blk Hb. assert (exists blk0, h_blocks h !! b = Some blk0) as [blk0 Hb0].
    { apply step_blocks_dom. by eexists. }
    destruct (hc_region _ _ _ Hok b blk0 Hb0) as [H1 H2]. split; [done|]. rewrite <- H2.
    symmetry. apply load64_ext. intros x Hx. apply step_mem. intros c Hc Hr.
    by apply (chunk_not_data Hok i p c b x); [done|done|by eexists|lia|lia].
  - intros s j Hj. destruct (hc_map _ _ _ Hok s j Hj) as (pj & Hpj & Hs).
    destruct (decide (j = i)) as [->|Hne].
    + exists p'. rewrite lookup_insert_eq, Hcs. by simplify_eq.
    + exists pj. by rewrite lookup_insert_ne.
  - intros q n Hq. destruct (Hold q n Hq) as [[Hq' Hfl]|(Hn & Hc & Hfl)].
    + destruct (hc_live _ _ _ Hok q n Hq') as [Hn [(j & pj & Hpj & Hcj & Hfj & Hle)|Hl]];
        (split; [done|]); [left|right; by apply step_large].
      destruct (decide (j = i)) as [->|Hne].
      * simplify_eq. exists i, p'. simpl. rewrite lookup_insert_eq, upd_eq, Hcs. simpl. auto.
      * exists j, pj. simpl. by rewrite lookup_insert_ne, upd_ne.
    + split; [lia|left]. exists i, p'. simpl. rewrite lookup_insert_eq, upd_eq, Hcs. simpl.
      split; [done|]. split; [done|]. split; [done|]. lia.
  - intros j pj q Hpj Hq Hf. destruct (decide (j = i)) as [->|Hne].
    + rewrite lookup_insert_eq in Hpj. simplify_eq. rewrite upd_eq in Hq, Hf. by apply Hall.
    + rewrite lookup_insert_ne in Hpj by done. rewrite upd_ne in Hq, Hf by done.
      destruct (hc_chunks _ _ _ Hok j pj q Hpj Hq Hf) as [n Hn]. exists n. apply Hkeep; [done|].
      intros Hqi. apply Hne. pose proof (class_facts j _ (pi_class _ _ _ _ _ _
        (hc_pools _ _ _ Hok j pj Hpj))) as (H8 & _).
      pose proof (class_facts i _ (pi_class _ _ _ _ _ _ (hc_pools _ _ _ Hok i p Hp))) as (H9 & _).
      destruct (chunk_overlap Hok j pj q i p q q); (done || lia).
  - intros a n Ha. destruct (hc_owned _ _ _ Hok a n Ha) as [Hb|[k Hk]].
    + left. by apply step_blocks_dom.
    + destruct (h_blocks h !! a) as [blk|] eqn:Hb; [left; apply step_blocks_dom; by rewrite Hb|].
      right. exists k. apply Hkeep; [done|]. intros Hc.
      pose proof (rg_addr _ (hc_sys _ _ _ Hok) a n Ha).
      destruct (chunk_region Hok i p (a + 16) Hp Hc) as (b & _ & Hs & Hsome & _ & H1 & H2 & H8).
      destruct (decide (a = b)) as [->|Hne]; [rewrite Hb in Hsome; by destruct Hsome|].
      destruct (rg_apart _ (hc_sys _ _ _ Hok) a n b _ Ha Hs Hne); lia.
Qed.
End step.

(** ** Taking a chunk *)

(** Nothing of what the system had given changes hands. *)
Record preserves (h h' : heap) : Prop := {
  pv_mem r len x : h_sys h !! r = Some len -> r <= x < r + len -> h_mem h' x = h_mem h x;
  pv_sys r len : h_sys h !! r = Some len -> h_sys h' !! r = Some len;
  pv_blocks r len : h_sys h !! r = Some len ->
    pb_pool <$> h_blocks h' !! r = pb_pool <$> h_blocks h !! r;
  pv_pools i p : slab_pools h !! i = Some p -> exists p', slab_pools h' !! i = Some p' /\
    mp_chunk_size p' = mp_chunk_size p
}.

(** The outcome of a request of [size] bytes: no memory, when the system
    refused ([refused]), or a new piece. *)
Definition given (refused : Prop) (h : heap) (live : gmap Z Z) (size : Z) (h' : heap) (a : Z)
  : Prop :=
  preserves h h' /\
  exists g', (a = 0 /\ refused /\ heap_ok g' h' live) \/
             (a <> 0 /\ live !! a = None /\ heap_ok g' h' (<[a := size]> live)).

Lemma preserves_refl h : preserves h h.
Proof. split; [done|done|done|]. intros i p Hp. by exists p. Qed.

(** A chunk that is free or not yet handed out is no piece. *)
Lemma not_piece g h live i p c :
  heap_core g h live -> slab_pools h !! i = Some p ->
  (forall b, b ∈ (g i).1 -> get_block_from_ptr c = b -> c ∈ (g i).2 \/ ~ is_chunk p (g i).1 c) ->
  (exists b, b ∈ (g i).1 /\ get_block_from_ptr c = b /\ b + 40 <= c < b + POOL_BLOCK_SIZE) ->
  live !! c = None.
Proof.
  intros Hok Hp Hc (b & Hb & Hg & Hr). destruct (live !! c) as [n|] eqn:E; [exfalso|done].
  destruct (block_pool Hok i p b Hp Hb) as (blk & Hblk & Hpool & Hs).
  destruct (hc_live _ _ _ Hok c n E) as [Hn [(j & pj & Hpj & Hcj & Hfj & _)|(f & Hf & Hsf & Hbf & _)]].
  - destruct (chunk_region Hok j pj c Hpj Hcj) as (b' & Hb' & Hs' & _ & Hg' & _).
    assert (i = j) as <- by (apply (block_owner Hok i p j pj b); congruence).
    simplify_eq. destruct (Hc (get_block_from_ptr c)); done.
  - assert (c - 16 = b); [|congruence].
    apply (regions_unique _ _ _ _ _ c (hc_sys _ _ _ Hok) Hsf Hs); lia.
Qed.

Lemma lookup_step_pools h i p p' :
  slab_pools h !! i = Some p -> mp_chunk_size p' = mp_chunk_size p ->
  forall j pj, slab_pools h !! j = Some pj -> exists pj',
    <[i := p']> (slab_pools h) !! j = Some pj' /\ mp_chunk_size pj' = mp_chunk_size pj.
Proof.
  intros Hp Hcs j pj Hj. destruct (decide (j = i)) as [->|Hne].
  - exists p'. rewrite lookup_insert_eq. by simplify_eq.
  - exists pj. by rewrite lookup_insert_ne.
Qed.

Lemma busy_step g h i p' m' bs' fl' :
  heap_busy g h -> busy p' (g i).1 fl' ->
  heap_busy (upd g i ((g i).1, fl')) (stepped h i m' bs' p').
Proof.
  intros Hb Hi j pj. simpl. destruct (decide (j = i)) as [->|Hne].
  - rewrite lookup_insert_eq, upd_eq. by intros [= <-].
  - rewrite lookup_insert_ne, upd_ne by done. apply Hb.
Qed.

Lemma alloc_pop g h live i p ans size :
  heap_ok g h live -> slab_pools h !! i = Some p -> mp_free_list p <> 0 ->
  0 < size <= mp_chunk_size p ->
  exists h' a, mem_pool_alloc h i ans = Ok (h', a) /\ given (ans = None) h live size h' a.
Proof.
  intros [Hok Hbusy] Hp Hne Hsz. pose proof (hc_pools _ _ _ Hok i p Hp) as Hinv.
  unfold mem_pool_alloc. rewrite Hp, (proj2 (Z.eqb_neq _ _) Hne). cbn [negb].
  destruct (g i).2 as [|c fl] eqn:Hfl; [by pose proof (pi_free _ _ _ _ _ _ Hinv) as Hf|].
  pose proof (pi_free _ _ _ _ _ _ Hinv) as (Hc & Hc0 & Hch).
  assert (Hcc : is_chunk p (g i).1 c) by (apply (pi_chunks _ _ _ _ _ _ Hinv); by left).
  destruct (chunk_region Hok i p c Hp Hcc) as (b & Hb & Hs & [blk Hblk] & Hg & H1 & H2 & H8).
  rewrite Hc, Hg. simpl. rewrite Hblk. eexists _, c. split; [done|].
  assert (Hnew : live !! c = None).
  { apply (not_piece g h live i p c Hok Hp); [|exists b; split; [done|]; split; [done|lia]].
    intros _ _ _. left. rewrite Hfl. by left. }
  pose proof (NoDup_cons_1_1 _ _ (pi_fl _ _ _ _ _ _ Hinv)) as Hcfl.
  split.
  { split; [done|done| |by apply (lookup_step_pools h i p)]. intros b' len Hb'. simpl.
    destruct (decide (b' = b)) as [->|]; [by rewrite lookup_insert_eq, Hblk|].
    by rewrite lookup_insert_ne by done. }
  exists (upd g i ((g i).1, fl)). right. split; [done|]. split; [done|].
  assert (Hpop : pool_inv (h_mem h) (<[b := count_free blk (pb_free_count blk - 1)]> (h_blocks h)) i
    (set_free_list p (load64 (h_mem h) c)) (g i).1 fl).
  { rewrite <- Hg. apply pool_pop; [done|by rewrite Hg]. }
  split.
  - apply (heap_step (p := p) Hok Hp); [done|exact Hpop| | |done| | |].
    + intros b' Hb'. apply lookup_insert_ne. by intros <-.
    + by intros x [].
    + intros q n. destruct (decide (q = c)) as [->|Hq].
      * rewrite lookup_insert_eq. intros [= <-]. right. split; [lia|]. by split.
      * rewrite lookup_insert_ne by done. intros Hq'. left. split; [done|]. intros Hqc Hqfl.
        rewrite (not_piece g h live i p q Hok Hp) in Hq'; [done|..].
        -- intros _ _ _. left. rewrite Hfl. by right.
        -- destruct (chunk_region Hok i p q Hp Hqc) as (b' & Hb' & _ & _ & Hg' & H3 & H4 & H5).
           exists b'. split; [done|]. split; [done|lia].
    + intros q n Hq Hqc. rewrite lookup_insert_ne; [done|]. by intros <-.
    + intros q Hq Hqfl. destruct (decide (q = c)) as [->|Hqc].
      * rewrite lookup_insert_eq. by eexists.
      * rewrite lookup_insert_ne by done. apply (hc_chunks _ _ _ Hok i p); [done|done|].
        rewrite Hfl. by intros [->|]%elem_of_cons.
  - apply (busy_step g h); [done|]. intros b' Hb'. pose proof (Hbusy i p Hp b' Hb') as Hlt.
    rewrite Hfl, free_in_cons in Hlt. simpl. case_decide; lia.
Qed.

Lemma bump_ok g h live i p size :
  heap_ok g h live -> slab_pools h !! i = Some p -> mp_remaining p <> 0 ->
  0 < size <= mp_chunk_size p ->
  let a := mp_next_free p in
  a <> 0 /\ live !! a = None /\
  heap_ok (upd g i ((g i).1, (g i).2)) (with_pool i (bumped p) h) (<[a := size]> live).
Proof.
  intros [Hok Hbusy] Hp Hrem Hsz a. pose proof (hc_pools _ _ _ Hok i p Hp) as Hinv.
  destruct (pool_bump _ _ _ _ _ _ Hinv Hrem) as (Hinv' & Ha & Hna & Hgrow & Hcases).
  fold a in Ha, Hna, Hcases.
  destruct (chunk_view Hinv' a Ha) as (b & j & Hb & _ & _ & Hg & H1 & H2 & H3).
  simpl in H2. pose proof (class_facts i _ (pi_class _ _ _ _ _ _ Hinv)) as (H8 & _).
  assert (Hnew : live !! a = None).
  { apply (not_piece g h live i p a Hok Hp); [by right|]. exists b. split; [done|].
    split; [done|lia]. }
  assert (Hafl : a ∉ (g i).2) by (intros Hin; by apply (pi_chunks _ _ _ _ _ _ Hinv) in Hin).
  split; [lia|]. split; [done|]. split.
  - apply (heap_step (p := p) (m' := h_mem h) (bs' := h_blocks h) Hok Hp); try done.
    + intros q n. destruct (decide (q = a)) as [->|Hq].
      * rewrite lookup_insert_eq. intros [= <-]. right. by split.
      * rewrite lookup_insert_ne by done. intros Hq'. left. split; [done|]. intros Hqc Hqfl.
        rewrite (not_piece g h live i p q Hok Hp) in Hq'; [done|by left|].
        destruct (chunk_region Hok i p q Hp Hqc) as (b' & Hb' & _ & _ & Hg' & H4 & H5 & H6).
        exists b'. split; [done|]. split; [done|lia].
    + intros q n Hq Hqc. rewrite lookup_insert_ne; [done|]. intros <-. congruence.
    + intros q Hq Hqfl. destruct (decide (q = a)) as [->|Hqa].
      * rewrite lookup_insert_eq. by eexists.
      * rewrite lookup_insert_ne by done. destruct (Hcases q Hq) as [Hq'|]; [|done].
        by apply (hc_chunks _ _ _ Hok i p).
  - apply (busy_step g h i (bumped p) (h_mem h) (h_blocks h)); [done|]. exact (Hbusy i p Hp).
Qed.

(** ** A new block *)

(** The pool and the heap after [add_new_block] got a region at [a]. *)
Definition renewed (p : mem_pool) (a : Z) : mem_pool :=
  MemPool (mp_chunk_size p) (mp_free_list p) a a (a + block_header) (capacity (mp_chunk_size p)).

Definition block_heap (h : heap) (i : nat) (p : mem_pool) (a : Z) (gb : Z -> byte) : heap :=
  let m x := if (a <=? x) && (x <? a + POOL_BLOCK_SIZE) then gb x else h_mem h x in
  Heap (store64 m (a + 32) (a + block_header)) (<[a := POOL_BLOCK_SIZE]> (h_sys h))
    (<[a := PoolBlock (mp_blocks p) i (capacity (mp_chunk_size p)) 0 POOL_BLOCK_MAGIC]> (h_blocks h))
    (<[i := renewed p a]> (slab_pools h)) (g_size_map h) (g_initialized h).

Lemma add_new_block_some h i p a gb :
  a <> 0 -> add_new_block h i p (Some (a, gb)) = (block_heap h i p a gb, Some (renewed p a)).
Proof. intros Ha. unfold add_new_block. simpl. by rewrite (proj2 (Z.eqb_neq a 0)). Qed.

Lemma regions_insert s a n :
  regions_ok s -> 0 < a -> 0 < n -> a + n <= 2 ^ 47 ->
  (forall a' n', s !! a' = Some n' -> a + n <= a' \/ a' + n' <= a) -> regions_ok (<[a := n]> s).
Proof.
  intros Hs Ha Hn Hb Hf. split.
  - intros x k [[<- <-]|[_ Hx]]%lookup_insert_Some; [done|]. by apply (rg_addr _ Hs).
  - intros x k x' k' [[<- <-]|[_ Hx]]%lookup_insert_Some [[<- <-]|[_ Hx']]%lookup_insert_Some Hne.
    + done.
    + by apply Hf.
    + destruct (Hf _ _ Hx); [by right|by left].
    + by apply (rg_apart _ Hs).
Qed.

Lemma block_heap_mem h i p a gb x :
  x < a \/ a + POOL_BLOCK_SIZE <= x -> h_mem (block_heap h i p a gb) x = h_mem h x.
Proof.
  intros Hx. simpl. change POOL_BLOCK_SIZE with 65536 in *. rewrite store64_out by lia.
  destruct (Z.leb_spec a x), (Z.ltb_spec x (a + 65536)); (done || lia).
Qed.

Section new_block.
Context {g : nat -> list Z * list Z} {h : heap} {live : gmap Z Z} {i : nat} {p : mem_pool}.
Context {a : Z} {gb : Z -> byte}.
Context (Hok : heap_core g h live) (Hp : slab_pools h !! i = Some p) (Hrem : mp_remaining p = 0).
Context (Hal : a mod POOL_BLOCK_SIZE = 0).
Context (Hfr : fresh_answer (h_sys h) POOL_BLOCK_SIZE (Some (a, gb))).

Lemma new_mem r len x :
  h_sys h !! r = Some len -> r <= x < r + len -> h_mem (block_heap h i p a gb) x = h_mem h x.
Proof.
  intros Hr Hx. apply block_heap_mem. destruct Hfr as (_ & _ & Hf).
  destruct (Hf r len Hr); lia.
Qed.

Lemma new_not_block : h_blocks h !! a = None.
Proof.
  destruct (h_blocks h !! a) as [blk|] eqn:E; [exfalso|done].
  destruct (hc_region _ _ _ Hok a blk E) as [Hs _]. destruct Hfr as (_ & _ & Hf).
  destruct (Hf a _ Hs) as [Hc|Hc]; change POOL_BLOCK_SIZE with 65536 in Hc; lia.
Qed.

Lemma new_used b : b ∈ (g i).1 -> used (renewed p a) b = used p b.
Proof.
  intros Hb. assert (b <> a).
  { intros ->. destruct (block_pool Hok i p a Hp Hb) as (blk & Hblk & _).
    by rewrite new_not_block in Hblk. }
  unfold used, renewed. simpl. rewrite (proj2 (Z.eqb_neq b a)), Hrem by done.
  destruct (b =? _); lia.
Qed.

Lemma new_chunk c : is_chunk (renewed p a) (a :: (g i).1) c <-> is_chunk p (g i).1 c.
Proof.
  split.
  - intros (b & j & [->|Hb]%elem_of_cons & Hj & ->).
    + unfold used, renewed in Hj. simpl in Hj. rewrite Z.eqb_refl in Hj. lia.
    + exists b, j. by rewrite new_used in Hj.
  - intros (b & j & Hb & Hj & ->). exists b, j. split; [by right|]. by rewrite new_used.
Qed.

Lemma free_new : free_in (g i).2 a = 0.
Proof.
  unfold free_in. rewrite filter_none; [done|]. intros c Hc Hg.
  apply (free_block (hc_pools _ _ _ Hok i p Hp)) in Hc. rewrite Hg in Hc.
  destruct (block_pool Hok i p a Hp Hc) as (blk & Hblk & _). by rewrite new_not_block in Hblk.
Qed.

Lemma new_pool_inv :
  pool_inv (h_mem (block_heap h i p a gb)) (h_blocks (block_heap h i p a gb)) i (renewed p a)
    (a :: (g i).1) (g i).2.
Proof.
  pose proof (hc_pools _ _ _ Hok i p Hp) as Hinv. destruct Hfr as (Ha & Hb & _).
  assert (Hna : forall b, b ∈ (g i).1 -> b <> a).
  { intros b Hb' ->. destruct (block_pool Hok i p a Hp Hb') as (blk & Hblk & _).
    by rewrite new_not_block in Hblk. }
  pose proof (class_facts i _ (pi_class _ _ _ _ _ _ Hinv)) as (_ & H2 & _).
  split; simpl.
  - apply Hinv.
  - apply NoDup_cons. split; [intros Hin; by destruct (Hna a)|apply Hinv].
  - split; [done|]. split; [lia|]. eexists. rewrite lookup_insert_eq. split; [done|]. simpl.
    eapply bchain_frame; [|apply Hinv]. intros b Hb'. rewrite lookup_insert_ne; [done|].
    intros <-. by destruct (Hna a).
  - intros b [->|Hb']%elem_of_cons; [|by apply (pi_addr _ _ _ _ _ _ Hinv)].
    split; [done|]. change POOL_BLOCK_SIZE with 65536 in Hb. lia.
  - intros b [->|Hb']%elem_of_cons.
    + rewrite lookup_insert_eq. eexists. split; [done|]. simpl. by rewrite free_new.
    + rewrite lookup_insert_ne by (intros <-; by destruct (Hna a)).
      by apply (pi_block _ _ _ _ _ _ Hinv).
  - right. split; [by left|]. split; [lia|]. unfold chunk_at. lia.
  - apply Hinv.
  - eapply chain_frame; [|apply Hinv]. intros c x Hc Hx. symmetry.
    destruct (chunk_region Hok i p c Hp) as (b & _ & Hs & _ & _ & H3 & H4 & H5).
    { by apply (pi_chunks _ _ _ _ _ _ Hinv). }
    apply (new_mem b POOL_BLOCK_SIZE); [done|lia].
  - intros c Hc. apply new_chunk. by apply (pi_chunks _ _ _ _ _ _ Hinv).
Qed.
End new_block.

Lemma new_large h i p a gb q n :
  (forall r len x, h_sys h !! r = Some len -> r <= x < r + len ->
     h_mem (block_heap h i p a gb) x = h_mem h x) ->
  h_sys h !! a = None -> 0 < n -> large_piece h q n -> large_piece (block_heap h i p a gb) q n.
Proof.
  intros Hm Ha Hn (f & Hf & Hs & Hb & H1 & H2). exists f. split; [done|].
  assert (q - 16 <> a) by (intros <-; congruence).
  split; [simpl; by rewrite lookup_insert_ne|]. split; [simpl; by rewrite lookup_insert_ne|].
  rewrite (load64_ext _ (h_mem h)), (load64_ext _ (h_mem h) (q - 8)); [done|..];
    intros x Hx; apply (Hm _ _ _ Hs); lia.
Qed.

Lemma new_block_ok g h live i p a gb :
  heap_ok g h live -> slab_pools h !! i = Some p -> mp_remaining p = 0 ->
  a mod POOL_BLOCK_SIZE = 0 -> fresh_answer (h_sys h) POOL_BLOCK_SIZE (Some (a, gb)) ->
  heap_ok (upd g i (a :: (g i).1, (g i).2)) (block_heap h i p a gb) live.
Proof.
  intros [Hok Hbusy] Hp Hrem Hal Hfr. pose proof (new_mem (i := i) (p := p) Hfr) as Hmem.
  pose proof (new_not_block Hok Hfr) as Hnb. pose proof Hfr as (Ha & Hlim & Hf).
  assert (Hsys : h_sys h !! a = None).
  { destruct (h_sys h !! a) as [n|] eqn:E; [exfalso|done].
    destruct (Hf a n E), (rg_addr _ (hc_sys _ _ _ Hok) a n E);
      change POOL_BLOCK_SIZE with 65536 in *; lia. }
  split; [split|]; simpl.
  - intros Hi. apply (hc_init _ _ _ Hok) in Hi. rewrite Hi in Hp. done.
  - intros j pj Hj. destruct (decide (j = i)) as [->|Hne].
    + rewrite lookup_insert_eq in Hj. simplify_eq. rewrite upd_eq.
      by apply (new_pool_inv Hok Hp Hrem Hal Hfr).
    + rewrite lookup_insert_ne in Hj by done. rewrite upd_ne by done.
      apply (pool_frame (h_mem h) _ (h_blocks h)); [by apply Hok|..].
      * intros c x Hc Hx. symmetry. pose proof (free_chunk Hok j pj c Hj Hc) as Hcc.
        destruct (chunk_region Hok j pj c Hj Hcc) as (b & _ & Hs & _ & _ & H1 & H2 & H3).
        apply (Hmem b POOL_BLOCK_SIZE x Hs). lia.
      * intros b Hb. rewrite lookup_insert_ne; [done|]. intros <-.
        destruct (block_pool Hok j pj a Hj Hb) as (blk & Hblk & _). congruence.
  - intros b blk [[<- <-]|[Hne Hb]]%lookup_insert_Some; simpl.
    + exists (renewed p a). rewrite lookup_insert_eq, upd_eq. split; [done|by left].
    + destruct (hc_blocks _ _ _ Hok b blk Hb) as (pj & Hpj & Hbj).
      destruct (decide (pb_pool blk = i)) as [He|He].
      * rewrite He in *. exists (renewed p a). rewrite lookup_insert_eq, upd_eq.
        split; [done|by right].
      * exists pj. by rewrite lookup_insert_ne, upd_ne.
  - intros b blk [[<- <-]|[Hne Hb]]%lookup_insert_Some.
    + rewrite lookup_insert_eq. split; [done|]. rewrite load64_store64, u64_small; [done|].
      change block_header with 40. change POOL_BLOCK_SIZE with 65536 in Hlim. lia.
    + rewrite lookup_insert_ne by done. destruct (hc_region _ _ _ Hok b blk Hb) as [H1 H2].
      split; [done|]. rewrite <- H2. apply load64_ext. intros x Hx.
      apply (Hmem b POOL_BLOCK_SIZE); [done|]. change POOL_BLOCK_SIZE with 65536. lia.
  - by apply regions_insert; [apply Hok|lia|done|lia|].
  - intros s j Hj. destruct (hc_map _ _ _ Hok s j Hj) as (pj & Hpj & Hs).
    by apply (lookup_step_pools h i p (renewed p a) Hp eq_refl) in Hpj as (pj' & -> & Hc);
      exists pj'; rewrite Hc.
  - intros q n Hq. destruct (hc_live _ _ _ Hok q n Hq) as [Hn [(j & pj & Hpj & Hcj & Hfj & Hle)|Hl]];
      (split; [done|]); [left|right; by apply new_large].
    destruct (decide (j = i)) as [->|Hne].
    + simplify_eq. exists i, (renewed p a). simpl. rewrite lookup_insert_eq, upd_eq.
      split; [done|]. split; [by apply (new_chunk Hok Hp Hrem Hfr)|]. done.
    + exists j, pj. simpl. by rewrite lookup_insert_ne, upd_ne.
  - intros j pj q Hpj Hq Hfq. destruct (decide (j = i)) as [->|Hne].
    + rewrite lookup_insert_eq in Hpj. simplify_eq. rewrite upd_eq in Hq, Hfq.
      apply (new_chunk Hok Hp Hrem Hfr) in Hq. by apply (hc_chunks _ _ _ Hok i p).
    + rewrite lookup_insert_ne in Hpj by done. rewrite upd_ne in Hq, Hfq by done.
      by apply (hc_chunks _ _ _ Hok j pj).
  - intros r n [[<- <-]|[Hne Hr]]%lookup_insert_Some.
    + left. rewrite lookup_insert_eq. by eexists.
    + rewrite lookup_insert_ne by done. by apply (hc_owned _ _ _ Hok r n).
  - intros j pj. simpl. destruct (decide (j = i)) as [->|Hne].
    + rewrite lookup_insert_eq, upd_eq. intros [= <-] b [->|Hb]%elem_of_cons; simpl.
      * rewrite (free_new Hok Hp Hfr).
        pose proof (class_facts i _ (pi_class _ _ _ _ _ _ (hc_pools _ _ _ Hok i p Hp))) as (_ & H2 & _).
        lia.
      * by apply (Hbusy i p Hp).
    + rewrite lookup_insert_ne, upd_ne by done. apply Hbusy.
Qed.

Definition aligned_answer (ans : sys_answer) : Prop :=
  match ans with None => True | Some (a, _) => a mod POOL_BLOCK_SIZE = 0 end.

Lemma mem_pool_alloc_ok g h live i p ans size :
  heap_ok g h live -> slab_pools h !! i = Some p -> 0 < size <= mp_chunk_size p ->
  fresh_answer (h_sys h) POOL_BLOCK_SIZE ans -> aligned_answer ans ->
  exists h' a, mem_pool_alloc h i ans = Ok (h', a) /\ given (ans = None) h live size h' a.
Proof.
  intros Hok Hp Hsz Hfr Hal.
  destruct (decide (mp_free_list p = 0)) as [Hfl|Hfl].
  2: { by apply (alloc_pop g h live i p ans size). }
  unfold mem_pool_alloc. rewrite Hp, (proj2 (Z.eqb_eq _ _) Hfl). cbn [negb].
  destruct (Z.eqb_spec (mp_remaining p) 0) as [Hrem|Hrem].
  - destruct ans as [[a gb]|].
    + rewrite add_new_block_some by (by destruct Hfr as (? & _); lia).
      eexists _, _. split; [done|].
      pose proof (new_block_ok g h live i p a gb Hok Hp Hrem Hal Hfr) as Hok1.
      assert (Hp1 : slab_pools (block_heap h i p a gb) !! i = Some (renewed p a))
        by apply lookup_insert_eq.
      pose proof (class_facts i _ (pi_class _ _ _ _ _ _ (hc_pools _ _ _ (proj1 Hok) i p Hp)))
        as (_ & H2 & _).
      destruct (bump_ok _ _ _ i (renewed p a) size Hok1 Hp1) as (H3 & H4 & H5);
        [simpl; lia|done|].
      split; [|by eexists; right; split; [exact H3|split; [exact H4|exact H5]]].
      assert (Hne : forall r len, h_sys h !! r = Some len -> a <> r).
      { intros r len Hr <-. pose proof (rg_addr _ (hc_sys _ _ _ (proj1 Hok)) a len Hr).
        destruct Hfr as (_ & _ & Hf). destruct (Hf a len Hr);
          change POOL_BLOCK_SIZE with 65536 in *; lia. }
      split.
      * apply (new_mem (i := i) (p := p) Hfr).
      * intros r len Hr. simpl. rewrite lookup_insert_ne; [done|]. by apply (Hne r len).
      * intros r len Hr. simpl. rewrite lookup_insert_ne; [done|]. by apply (Hne r len).
      * intros j pj Hj. simpl. rewrite insert_insert_eq.
        by apply (lookup_step_pools h i p (bumped (renewed p a)) Hp).
    + cbn. eexists _, _. split; [done|]. split; [apply preserves_refl|]. exists g. by left.
  - eexists _, _. split; [done|].
    destruct (bump_ok g h live i p size Hok Hp Hrem Hsz) as (H3 & H4 & H5).
    split; [|by eexists; right; split; [exact H3|split; [exact H4|exact H5]]].
    split; [done|done|done|]. by apply (lookup_step_pools h i p (bumped p) Hp).
Qed.

(** ** Large pieces *)

Definition large_heap (h : heap) (a size : Z) (gb : Z -> byte) : heap :=
  let m x := if (a <=? x) && (x <? a + (16 + size)) then gb x else h_mem h x in
  Heap (store64 (store64 m a size) (a + 8) FALLBACK_MAGIC) (<[a := 16 + size]> (h_sys h))
    (h_blocks h) (slab_pools h) (g_size_map h) (g_initialized h).

Lemma large_heap_mem h a size gb x :
  0 < size -> x < a \/ a + (16 + size) <= x -> h_mem (large_heap h a size gb) x = h_mem h x.
Proof.
  intros Hs Hx. simpl. rewrite !store64_out by lia.
  destruct (Z.leb_spec a x), (Z.ltb_spec x (a + (16 + size))); (done || lia).
Qed.

Lemma store64_load_other m a v b :
  b + 8 <= a \/ a + 8 <= b -> load64 (store64 m a v) b = load64 m b.
Proof. intros Hab. apply load64_ext. intros x Hx. apply store64_out. lia. Qed.

Section large.
Context {g : nat -> list Z * list Z} {h : heap} {live : gmap Z Z} {a size : Z} {gb : Z -> byte}.
Context (Hok : heap_core g h live) (Hsize : 0 < size).
Context (Hfr : fresh_answer (h_sys h) (16 + size) (Some (a, gb))).

Lemma large_mem r len x :
  h_sys h !! r = Some len -> r <= x < r + len -> h_mem (large_heap h a size gb) x = h_mem h x.
Proof.
  intros Hr Hx. apply large_heap_mem; [done|]. destruct Hfr as (_ & _ & Hf).
  destruct (Hf r len Hr); lia.
Qed.

Lemma large_not_sys : h_sys h !! a = None.
Proof.
  destruct (h_sys h !! a) as [n|] eqn:E; [exfalso|done]. destruct Hfr as (_ & _ & Hf).
  pose proof (rg_addr _ (hc_sys _ _ _ Hok) a n E). destruct (Hf a n E); lia.
Qed.

Lemma large_not_block : h_blocks h !! a = None.
Proof.
  destruct (h_blocks h !! a) as [blk|] eqn:E; [exfalso|done].
  destruct (hc_region _ _ _ Hok a blk E) as [Hs _]. by rewrite large_not_sys in Hs.
Qed.

Lemma large_not_live : live !! (a + 16) = None.
Proof.
  destruct (live !! (a + 16)) as [n|] eqn:E; [exfalso|done].
  destruct (piece_region Hok _ _ E) as (r & len & Hr & H1 & H2).
  destruct (hc_live _ _ _ Hok _ _ E) as [Hn _]. destruct Hfr as (_ & _ & Hf).
  destruct (Hf r len Hr); lia.
Qed.

Lemma large_kept q n :
  live !! q = Some n -> large_piece h q n -> large_piece (large_heap h a size gb) q n.
Proof.
  intros Hq (f & Hf & Hs & Hb & H1 & H2). destruct (hc_live _ _ _ Hok q n Hq) as [Hn _].
  exists f. split; [done|]. assert (q - 16 <> a) by (intros He; by rewrite He, large_not_sys in Hs).
  split; [simpl; by rewrite lookup_insert_ne|]. split; [done|].
  rewrite (load64_ext _ (h_mem h)), (load64_ext _ (h_mem h) (q - 8)); [done|..];
    intros x Hx; apply (large_mem _ _ _ Hs); lia.
Qed.

Lemma large_core : heap_core g (large_heap h a size gb) (<[a + 16 := size]> live).
Proof.
  destruct Hfr as (Ha & Hlim & Hf). split; simpl; try apply Hok.
  - intros i p Hp. apply (pool_frame (h_mem h) _ (h_blocks h)); [by apply Hok| |done].
    intros c x Hc Hx. symmetry. pose proof (free_chunk Hok i p c Hp Hc) as Hcc.
    destruct (chunk_region Hok i p c Hp Hcc) as (b & _ & Hs & _ & _ & H1 & H2 & H3).
    apply (large_mem b POOL_BLOCK_SIZE x Hs). lia.
  - intros b blk Hb. destruct (hc_region _ _ _ Hok b blk Hb) as [H1 H2].
    rewrite lookup_insert_ne by (intros <-; by rewrite large_not_block in Hb).
    split; [done|]. rewrite <- H2. apply load64_ext. intros x Hx.
    apply (large_mem b POOL_BLOCK_SIZE); [done|]. change POOL_BLOCK_SIZE with 65536. lia.
  - by apply regions_insert; [apply Hok|lia|lia|lia|].
  - intros q n [[<- <-]|[Hne Hq]]%lookup_insert_Some.
    + split; [done|right]. exists size. replace (a + 16 - 16) with a by lia.
      replace (a + 16 - 8) with (a + 8) by lia. split; [lia|].
      simpl. rewrite lookup_insert_eq. split; [done|]. split; [apply large_not_block|].
      rewrite store64_load_other, !load64_store64 by lia. split; [|done]. apply u64_small. lia.
    + destruct (hc_live _ _ _ Hok q n Hq) as [Hn [Hs|Hl]]; (split; [done|]); [by left|right].
      by apply large_kept.
  - intros i p q Hp Hq Hfq. destruct (hc_chunks _ _ _ Hok i p q Hp Hq Hfq) as [n Hn].
    exists n. rewrite lookup_insert_ne; [done|]. intros <-. by rewrite large_not_live in Hn.
  - intros r n [[<- <-]|[Hne Hr]]%lookup_insert_Some.
    + right. rewrite lookup_insert_eq. by eexists.
    + destruct (hc_owned _ _ _ Hok r n Hr) as [|Hl]; [by left|right].
      rewrite lookup_insert_ne by lia. done.
Qed.
End large.

(** ** Initialisation *)

(** What [kvs_mempool_init] makes of empty pools. *)
Definition fresh_pools (pools : gmap nat mem_pool) : Prop :=
  forall i p, pools !! i = Some p -> exists c, slab_classes !! i = Some c /\
    p = MemPool c 0 0 0 0 0.

Lemma create_fresh ok pools i c :
  slab_classes !! i = Some c -> fresh_pools pools -> fresh_pools (create_pool ok pools (i, c)).
Proof.
  intros Hc Hf j p. unfold create_pool. cbn [fst snd].
  assert (Hsize : Z.land (u64 (c + 7)) (Z.lnot 7) = c /\ 8 <= c).
  { do 9 (destruct i as [|i]; [simpl in Hc; simplify_eq; by vm_compute|]). done. }
  destruct Hsize as [Hsize H8].
  unfold mem_pool_create. destruct (Z.eqb_spec c 0); [lia|].
  destruct (ok i); cbn [negb].
  - rewrite Hsize. destruct (Z.ltb_spec c 8); [lia|].
    intros [[<- <-]|[_ Hj]]%lookup_insert_Some; [by exists c|]. by apply Hf.
  - intros [_ Hj]%lookup_delete_Some. by apply Hf.
Qed.

Lemma fold_left_ind {A B} (P : A -> Prop) (f : A -> B -> A) (l : list B) a :
  P a -> (forall a b, b ∈ l -> P a -> P (f a b)) -> P (fold_left f l a).
Proof.
  revert a. induction l as [|b l IH]; intros a Ha Hf; [done|]. apply IH.
  - apply Hf; [by left|done].
  - intros a' b' Hb. apply Hf. by right.
Qed.

Lemma init_pools ok : fresh_pools (fold_left (create_pool ok) (imap pair slab_classes) ∅).
Proof.
  apply fold_left_ind; [done|]. intros pools [i c] Hic Hf. apply create_fresh; [|done].
  apply list_elem_of_lookup in Hic as [k Hk]. rewrite list_lookup_imap in Hk.
  destruct (slab_classes !! k) as [c'|] eqn:E; simpl in Hk; [|done]. by simplify_eq.
Qed.

Lemma class_of_spec classes i size j :
  class_of classes i size = Some j -> exists c, classes !! (j - i)%nat = Some c /\ size <= c /\
    (i <= j)%nat /\ forall k c', (k < j - i)%nat -> classes !! k = Some c' -> c' < size.
Proof.
  revert i. induction classes as [|c classes IH]; intros i; [done|]. cbn [class_of].
  destruct (Z.leb_spec size c).
  - intros [= <-]. exists c. rewrite Nat.sub_diag. split; [done|]. split; [done|].
    split; [lia|]. lia.
  - intros (c' & Hc' & Hle & Hij & Hlt)%IH. exists c'.
    replace (j - i)%nat with (S (j - S i))%nat by lia. split; [done|]. split; [done|].
    split; [lia|]. intros [|k] c'' Hk Hck; simpl in Hck; [by simplify_eq|].
    apply (Hlt k); [lia|done].
Qed.

Lemma init_ok ok g h live :
  heap_ok g h live ->
  exists g', heap_ok g' (kvs_mempool_init ok h) live /\
    h_mem (kvs_mempool_init ok h) = h_mem h /\ h_sys (kvs_mempool_init ok h) = h_sys h /\
    h_blocks (kvs_mempool_init ok h) = h_blocks h /\
    forall i p, slab_pools h !! i = Some p -> slab_pools (kvs_mempool_init ok h) !! i = Some p.
Proof.
  intros [Hok Hbusy]. unfold kvs_mempool_init. destruct (g_initialized h) eqn:Hi; [by exists g|].
  pose proof (hc_init _ _ _ Hok Hi) as Hp0. rewrite Hp0.
  set (pools := fold_left (create_pool ok) _ _).
  pose proof (init_pools ok : fresh_pools pools) as Hf. clearbody pools.
  exists (fun _ => ([], [])). simpl.
  assert (Hb0 : forall b blk, h_blocks h !! b = Some blk -> False).
  { intros b blk Hb. destruct (hc_blocks _ _ _ Hok b blk Hb) as (p & Hp & _).
    by rewrite Hp0 in Hp. }
  split; [|done]. split; [split|]; simpl; try apply Hok; try done.
  - intros i p (c & Hc & ->)%Hf. split; simpl; try done; try apply NoDup_nil_2.
    + by intros b Hb%elem_of_nil.
    + by intros b Hb%elem_of_nil.
    + by left.
    + by intros c' Hc'%elem_of_nil.
  - by intros b blk []%Hb0.
  - intros s i Hs. destruct ((1 <=? s) && (s <=? MAX_SLAB_SIZE)).
    2: { destruct (hc_map _ _ _ Hok s i Hs) as (p & Hp & _). by rewrite Hp0 in Hp. }
    unfold map_size in Hs. apply bind_Some in Hs as (j & Hj & Hs).
    destruct (pools !! j) as [p|] eqn:Hp; [|done]. simplify_eq.
    apply class_of_spec in Hj as (c & Hc & Hle & _). exists p. split; [done|]. destruct (Hf i p Hp) as (c' & Hc' & ->).
    rewrite Nat.sub_0_r in Hc. by simplify_eq.
  - intros q n Hq. destruct (hc_live _ _ _ Hok q n Hq) as [Hn [(i & p & Hp & _)|Hl]].
    + by rewrite Hp0 in Hp.
    + split; [done|]. by right.
  - intros i p q _ (b & j & Hb%elem_of_nil & _). done.
  - intros i p Hp b Hb. by apply elem_of_nil in Hb.
Qed.

(** ** Requests *)

(** The system answers as documented. *)
Definition env_ok (h : heap) (e : menv) : Prop :=
  me_enable e = true /\ (forall n, 0 < n -> fresh_answer (h_sys h) n (me_malloc e n)) /\
  fresh_answer (h_sys h) POOL_BLOCK_SIZE (me_memalign e) /\ aligned_answer (me_memalign e).

(** The system refuses one of the requests a call can make. *)
Definition refused (e : menv) : Prop := me_memalign e = None \/ exists n, me_malloc e n = None.

Lemma kvs_malloc_ok e g h live size :
  heap_ok g h live -> env_ok h e -> 0 < size < 2 ^ 63 ->
  exists h' a, kvs_malloc e h size = Ok (h', a) /\ given (refused e) h live size h' a.
Proof.
  intros Hok (He & Hm & Ha & Hal) Hs. unfold kvs_malloc.
  rewrite (proj2 (Z.eqb_neq size 0)), He by lia. cbn [negb].
  set (h1 := if size <=? MAX_SLAB_SIZE then _ else h).
  assert (exists g1, heap_ok g1 h1 live /\ h_mem h1 = h_mem h /\ h_sys h1 = h_sys h /\
    h_blocks h1 = h_blocks h /\
    forall i p, slab_pools h !! i = Some p -> slab_pools h1 !! i = Some p)
    as (g1 & Hok1 & Hm1 & Hs1 & Hb1 & Hp1).
  { subst h1. destruct (size <=? MAX_SLAB_SIZE); [|by exists g].
    destruct (g_size_map h size); [by exists g|]. by apply (init_ok _ g). }
  assert (Hlift : forall (R : Prop) h' a, (R -> refused e) -> given R h1 live size h' a ->
    given (refused e) h live size h' a).
  { intros R h' a HR ([Hv1 Hv2 Hv3 Hv4] & g' & Hg'). split.
    - split; rewrite <- ?Hm1, <- ?Hs1, <- ?Hb1; [done..|]. intros i p Hp. by apply Hv4, Hp1.
    - exists g'. destruct Hg' as [(H1 & H2 & H3)|]; [left; auto|by right]. }
  clearbody h1.
  destruct (if size <=? MAX_SLAB_SIZE then g_size_map h1 size else None) as [i|] eqn:Hmap.
  - assert (g_size_map h1 size = Some i) as Hi by (by destruct (size <=? _)).
    destruct (hc_map _ _ _ (proj1 Hok1) size i Hi) as (p & Hp & Hle).
    rewrite <- Hs1 in Ha.
    destruct (mem_pool_alloc_ok g1 h1 live i p (me_memalign e) size) as (h' & a & -> & Hg);
      [done|done|lia|done|done|]. exists h', a. split; [done|].
    apply (Hlift (me_memalign e = None)); [by left|done].
  - change fallback_header with 16. rewrite u64_small by lia.
    specialize (Hm (16 + size) ltac:(lia)). rewrite <- Hs1 in Hm.
    destruct (me_malloc e (16 + size)) as [[a gb]|] eqn:Hans; simpl.
    + destruct Hm as (Hapos & Hlim & Hf). rewrite (proj2 (Z.eqb_neq a 0)) by lia.
      assert (Hfr : fresh_answer (h_sys h1) (16 + size) (Some (a, gb))) by done.
      eexists _, _. split; [done|]. apply (Hlift False); [done|]. split.
      { split; [by apply (large_mem (proj1 Hs) Hfr)| |done|by intros j pj Hj; exists pj].
        intros r len Hr. simpl. rewrite lookup_insert_ne; [done|]. intros <-.
        by rewrite (large_not_sys (proj1 Hok1) (proj1 Hs) Hfr) in Hr. }
      exists g1. right. split; [lia|]. split; [exact (large_not_live (proj1 Hok1) (proj1 Hs) Hfr)|].
      split; [exact (large_core (proj1 Hok1) (proj1 Hs) Hfr)|]. apply Hok1.
    + eexists _, _. split; [done|]. apply (Hlift True).
      * intros _. right. by exists (16 + size).
      * split; [apply preserves_refl|]. exists g1. by left.
Qed.

(** ** Giving memory back *)

Lemma regions_delete s a : regions_ok s -> regions_ok (delete a s).
Proof.
  intros Hs. split.
  - intros x n [_ Hx]%lookup_delete_Some. by apply (rg_addr _ Hs).
  - intros x n x' n' [_ Hx]%lookup_delete_Some [_ Hx']%lookup_delete_Some. by apply (rg_apart _ Hs).
Qed.

Lemma free_large_ok g h live q n :
  heap_ok g h live -> live !! q = Some n -> large_piece h q n ->
  heap_ok g (with_sys (delete (q - 16) (h_sys h)) h) (delete q live).
Proof.
  intros [Hok Hbusy] Hq Hl. pose proof Hl as (f & Hf & Hs & Hb & _).
  split; [|done]. split; simpl; try apply Hok.
  - intros b blk Hb'. rewrite lookup_delete_ne by (intros <-; congruence).
    by apply (hc_region _ _ _ Hok b blk).
  - by apply regions_delete, Hok.
  - intros q' n' [Hne Hq']%lookup_delete_Some.
    destruct (hc_live _ _ _ Hok q' n' Hq') as [Hn [Hsl|(f' & Hf' & Hs' & Hb' & H1 & H2)]];
      (split; [done|]); [by left|right].
    exists f'. simpl. rewrite lookup_delete_ne by lia. done.
  - intros i p c Hp Hc Hcf. destruct (hc_chunks _ _ _ Hok i p c Hp Hc Hcf) as [k Hk].
    exists k. rewrite lookup_delete_ne; [done|]. intros <-.
    pose proof (class_facts i _ (pi_class _ _ _ _ _ _ (hc_pools _ _ _ Hok i p Hp))) as (H8 & _).
    destruct (hc_live _ _ _ Hok q n Hq) as [Hn _].
    apply (chunk_not_region Hok i p q (q - 16) (16 + f) q); (done || lia).
  - intros a k [Hne Ha]%lookup_delete_Some.
    destruct (hc_owned _ _ _ Hok a k Ha) as [|[k' Hk']]; [by left|right].
    exists k'. rewrite lookup_delete_ne; [done|lia].
Qed.

(** The heap after [mem_pool_free_with_block] linked the chunk in. *)
Definition pushed (h : heap) (i : nat) (p : mem_pool) (blk : pool_block) (q : Z) : heap :=
  stepped h i (store64 (h_mem h) q (mp_free_list p))
    (<[get_block_from_ptr q := count_free blk (pb_free_count blk + 1)]> (h_blocks h))
    (set_free_list p q).

Lemma push_ok g h live i p blk q :
  heap_core g h live -> slab_pools h !! i = Some p -> is_chunk p (g i).1 q -> q ∉ (g i).2 ->
  h_blocks h !! get_block_from_ptr q = Some blk ->
  heap_core (upd g i ((g i).1, q :: (g i).2)) (pushed h i p blk q) (delete q live).
Proof.
  intros Hok Hp Hc Hfl Hblk. pose proof (hc_pools _ _ _ Hok i p Hp) as Hinv.
  destruct (chunk_region Hok i p q Hp Hc) as (b & Hb & _ & _ & Hg & _ & _ & H8).
  apply (heap_step (p := p) Hok Hp).
  - done.
  - by apply pool_push.
  - intros b' Hb'. apply lookup_insert_ne. intros <-. rewrite Hg in Hb'. done.
  - intros x Hx. exists q. split; [done|].
    destruct (decide (q <= x < q + 8)) as [|Hn]; [lia|]. destruct Hx. apply store64_out. lia.
  - done.
  - intros q' n [Hne Hq']%lookup_delete_Some. left. split; [done|].
    intros Hc' [->|Hq'']%elem_of_cons; [done|].
    destruct (chunk_region Hok i p q' Hp Hc') as (b' & Hb' & _ & _ & Hg' & H1 & H2 & _).
    rewrite (not_piece g h live i p q' Hok Hp) in Hq'; [done|by left|].
    exists b'. split; [done|]. split; [done|lia].
  - intros q' n Hq' Hn. rewrite lookup_delete_ne; [done|]. by intros <-.
  - intros q' Hq' [Hne Hq'']%not_elem_of_cons. rewrite lookup_delete_ne by done.
    by apply (hc_chunks _ _ _ Hok i p).
Qed.

Lemma released_chunk p bl fl m bs i a f b c :
  pool_inv m bs i p bl fl ->
  is_chunk (released p a f b) (filter (fun b' => b' <> b) bl) c <->
  is_chunk p bl c /\ get_block_from_ptr c <> b.
Proof.
  intros Hinv. split.
  - intros (b' & j & [Hne Hb']%list_elem_of_filter & Hj & ->).
    rewrite used_released in Hj by (done || by apply (pi_addr _ _ _ _ _ _ Hinv)).
    rewrite chunk_size_released. split; [by exists b', j|].
    rewrite (get_block_chunk i); [done|apply Hinv|by apply (pi_addr _ _ _ _ _ _ Hinv)|].
    pose proof (used_range Hinv b'). lia.
  - intros [Hc Hg]. destruct (chunk_view Hinv c Hc) as (b' & j & Hb' & Hj & -> & Hg' & _).
    rewrite Hg' in Hg. exists b', j. split; [by apply list_elem_of_filter|].
    rewrite used_released, chunk_size_released; [done|done|].
    by apply (pi_addr _ _ _ _ _ _ Hinv).
Qed.

Section release.
Context {g : nat -> list Z * list Z} {h : heap} {live : gmap Z Z} {i : nat} {p : mem_pool}.
Context {b a f : Z} {m' : Z -> byte} {bs' : gmap Z pool_block}.
Context (Hok : heap_core g h live) (Hp : slab_pools h !! i = Some p) (Hb : b ∈ (g i).1).
Context (Hfull : free_in (g i).2 b = capacity (mp_chunk_size p)).
Context (Hinv : pool_inv m' (delete b bs') i (released p a f b)
  (filter (fun b' => b' <> b) (g i).1) (filter (fun c => get_block_from_ptr c <> b) (g i).2)).
Context (Hm : forall x, off_cells (g i).2 x -> m' x = h_mem h x).
Context (Hsame : forall b', same_but_next (h_blocks h !! b') (bs' !! b')).
Context (Hbs : forall b', b' ∉ (g i).1 -> bs' !! b' = h_blocks h !! b').

Definition released_heap : heap :=
  Heap m' (delete b (h_sys h)) (delete b bs') (<[i := released p a f b]> (slab_pools h))
    (g_size_map h) (g_initialized h).

Definition released_lists : nat -> list Z * list Z :=
  upd g i (filter (fun b' => b' <> b) (g i).1, filter (fun c => get_block_from_ptr c <> b) (g i).2).

Lemma release_mem x :
  (forall c, is_chunk p (g i).1 c -> c <= x < c + mp_chunk_size p -> False) -> h_mem h x = m' x.
Proof.
  intros Hx. symmetry. apply Hm. intros c Hc.
  pose proof (free_chunk Hok i p c Hp Hc) as Hcc.
  destruct (chunk_region Hok i p c Hp Hcc) as (_ & _ & _ & _ & _ & _ & _ & H8).
  destruct (decide (c <= x < c + 8)) as [Hr|]; [|lia]. destruct (Hx c Hcc). lia.
Qed.

Lemma release_same b' blk : delete b bs' !! b' = Some blk ->
  b' <> b /\ exists blk0, h_blocks h !! b' = Some blk0 /\ pb_pool blk = pb_pool blk0.
Proof.
  intros [Hne Hb']%lookup_delete_Some. split; [done|]. specialize (Hsame b').
  rewrite Hb' in Hsame. destruct (h_blocks h !! b') as [blk0|]; [|done]. exists blk0.
  split; [done|]. symmetry. apply Hsame.
Qed.

(** No piece lies in the block. *)
Lemma release_no_piece q n j pj :
  live !! q = Some n -> slab_pools h !! j = Some pj -> is_chunk pj (g j).1 q -> q ∉ (g j).2 ->
  get_block_from_ptr q <> b.
Proof.
  intros Hq Hpj Hc Hf Hg.
  destruct (chunk_region Hok j pj q Hpj Hc) as (b' & Hb' & _ & _ & Hg' & _).
  assert (i = j) as <- by (apply (block_owner Hok i p j pj b); congruence).
  assert (pj = p) as -> by congruence.
  destruct Hf. by apply (free_in_full (hc_pools _ _ _ Hok i p Hp) b).
Qed.

Lemma release_live q n : live !! q = Some n ->
  0 < n /\ (slab_piece released_lists released_heap q n \/ large_piece released_heap q n).
Proof.
  intros Hq. destruct (hc_live _ _ _ Hok q n Hq) as
    [Hn [(j & pj & Hpj & Hcj & Hfj & Hle)|(fs & Hfs & Hs & Hbq & H1 & H2)]]; (split; [done|]).
  - left. pose proof (release_no_piece q n j pj Hq Hpj Hcj Hfj) as Hg.
    destruct (decide (j = i)) as [->|Hne].
    + assert (pj = p) as -> by congruence. exists i, (released p a f b). simpl.
      rewrite lookup_insert_eq. unfold released_lists. rewrite upd_eq. simpl.
      split; [done|]. rewrite chunk_size_released. split; [|split; [|done]].
      * by apply (released_chunk p (g i).1 (g i).2 (h_mem h) (h_blocks h) i); [apply Hok|].
      * by intros [_ ?]%list_elem_of_filter.
    + exists j, pj. simpl. unfold released_lists. by rewrite lookup_insert_ne, upd_ne.
  - right. exists fs. split; [done|]. simpl.
    assert (q - 16 <> b).
    { intros He. destruct (block_pool Hok i p b Hp Hb) as (blk & Hblk & _). congruence. }
    rewrite !lookup_delete_ne by done. split; [done|].
    split; [specialize (Hsame (q - 16)); rewrite Hbq in Hsame; by destruct (bs' !! (q - 16))|].
    assert (Hx : forall x, q - 16 <= x < q -> h_mem h x = m' x).
    { intros x Hx. apply release_mem. intros c Hc Hr.
      apply (chunk_not_region Hok i p c (q - 16) (16 + fs) x); (done || lia). }
    rewrite <- (load64_ext (h_mem h) m'), <- (load64_ext (h_mem h) m' (q - 8)); [done|..];
      intros x Hxr; apply Hx; lia.
Qed.

Lemma release_core : heap_core released_lists released_heap live.
Proof.
  split; simpl.
  - intros Hi. apply (hc_init _ _ _ Hok) in Hi. rewrite Hi in Hp. done.
  - intros j pj Hj. unfold released_lists. destruct (decide (j = i)) as [->|Hne].
    + rewrite lookup_insert_eq in Hj. simplify_eq. by rewrite upd_eq.
    + rewrite lookup_insert_ne in Hj by done. rewrite upd_ne by done.
      assert (Hbj : forall b', b' ∈ (g j).1 -> b' ∉ (g i).1).
      { intros b' Hb' Hb''. by destruct Hne, (block_owner Hok j pj i p b'). }
      apply (pool_frame (h_mem h) m' (h_blocks h)); [by apply Hok|..].
      * intros c x Hc Hx. apply release_mem. intros c' Hc' Hr.
        pose proof (free_chunk Hok j pj c Hj Hc) as Hcc.
        destruct (chunk_region Hok j pj c Hj Hcc) as (_ & _ & _ & _ & _ & _ & _ & H8).
        destruct (chunk_overlap Hok j pj c i p c' x); (done || lia).
      * intros b' Hb'. rewrite lookup_delete_ne; [symmetry; by apply Hbs, Hbj|].
        intros <-. by apply (Hbj b).
  - intros b' blk [Hne (blk0 & Hb' & ->)]%release_same.
    destruct (hc_blocks _ _ _ Hok b' blk0 Hb') as (pj & Hpj & Hbj). unfold released_lists.
    destruct (decide (pb_pool blk0 = i)) as [He|He].
    + rewrite He in *. exists (released p a f b). rewrite lookup_insert_eq, upd_eq.
      split; [done|]. by apply list_elem_of_filter.
    + exists pj. by rewrite lookup_insert_ne, upd_ne.
  - intros b' blk [Hne (blk0 & Hb' & _)]%release_same.
    destruct (hc_region _ _ _ Hok b' blk0 Hb') as [H1 H2]. rewrite lookup_delete_ne by done.
    split; [done|]. rewrite <- H2. symmetry. apply load64_ext. intros x Hx. apply release_mem.
    intros c Hc Hr. by apply (chunk_not_data Hok i p c b' x); [done|done|by eexists|lia|lia].
  - by apply regions_delete, Hok.
  - intros s j Hj. destruct (hc_map _ _ _ Hok s j Hj) as (pj & Hpj & Hs).
    apply (lookup_step_pools h i p (released p a f b) Hp) in Hpj as (pj' & -> & Hc);
      [|apply chunk_size_released]. exists pj'. by rewrite Hc.
  - apply release_live.
  - intros j pj q Hpj Hq Hfq. unfold released_lists in Hq, Hfq.
    destruct (decide (j = i)) as [->|Hne].
    + rewrite lookup_insert_eq in Hpj. simplify_eq. rewrite upd_eq in Hq, Hfq. simpl in Hq, Hfq.
      apply (released_chunk p (g i).1 (g i).2 (h_mem h) (h_blocks h) i) in Hq as [Hq Hg];
        [|by apply Hok].
      apply (hc_chunks _ _ _ Hok i p); [done|done|]. intros Hin. apply Hfq.
      by apply list_elem_of_filter.
    + rewrite lookup_insert_ne in Hpj by done. rewrite upd_ne in Hq, Hfq by done.
      by apply (hc_chunks _ _ _ Hok j pj).
  - intros r n [Hne Hr]%lookup_delete_Some.
    destruct (hc_owned _ _ _ Hok r n Hr) as [[blk Hblk]|]; [left|by right].
    rewrite lookup_delete_ne by done. specialize (Hsame r). rewrite Hblk in Hsame.
    destruct (bs' !! r); [by eexists|done].
Qed.
End release.

(** The word before a piece of a pool is not the magic number. *)
Definition honest (h : heap) (q : Z) : Prop :=
  is_Some (h_blocks h !! get_block_from_ptr q) -> load64 (h_mem h) (q - 8) <> FALLBACK_MAGIC.

Lemma free_push_ok g h live i p blk q b n :
  heap_ok g h live -> slab_pools h !! i = Some p -> is_chunk p (g i).1 q -> q ∉ (g i).2 ->
  get_block_from_ptr q = b -> h_blocks h !! b = Some blk -> h_sys h !! b = Some n ->
  exists h' g', mem_pool_free_with_block h i q b = Ok h' /\ heap_ok g' h' (delete q live) /\
    forall q' n' x, live !! q' = Some n' -> q' <> q -> q' <= x < q' + n' ->
      h_mem h' x = h_mem h x.
Proof.
  intros [Hok Hbusy] Hp Hc Hfl Hg Hblk Hs. pose proof (hc_pools _ _ _ Hok i p Hp) as Hinv.
  destruct (chunk_region Hok i p q Hp Hc) as (b0 & Hb & _ & _ & Hg0 & _ & _ & H8).
  assert (b0 = b) as -> by congruence.
  destruct (pi_block _ _ _ _ _ _ Hinv b Hb) as (blk' & Hblk' & _ & Hcap & _ & Hcount).
  assert (blk' = blk) as -> by congruence.
  pose proof (Hbusy i p Hp b Hb) as Hlt.
  pose proof (push_ok g h live i p blk q Hok Hp Hc Hfl ltac:(by rewrite Hg)) as Hpush.
  assert (Hcells : forall q' n' x, live !! q' = Some n' -> q' <> q -> q' <= x < q' + n' ->
    off_cells (q :: (g i).2) x).
  { intros q' n' x Hq' Hne Hx c Hcin.
    destruct (decide (x < c \/ c + 8 <= x)) as [|Hr]; [done|exfalso].
    apply (piece_not_meta Hpush q' n' x); [by rewrite lookup_delete_ne|done|].
    left. exists i, (set_free_list p q), c. rewrite upd_eq. simpl. rewrite lookup_insert_eq.
    split; [done|]. split; [done|lia]. }
  assert (Hmem : forall q' n' x, live !! q' = Some n' -> q' <> q -> q' <= x < q' + n' ->
    store64 (h_mem h) q (mp_free_list p) x = h_mem h x).
  { intros q' n' x Hq' Hne Hx. apply store64_out. apply (Hcells q' n' x Hq' Hne Hx). by left. }
  assert (Hcounts : forall b', free_in (q :: (g i).2) b'
    = if decide (b' = b) then free_in (g i).2 b' + 1 else free_in (g i).2 b').
  { intros b'. rewrite free_in_cons, Hg. by repeat case_decide; subst. }
  assert (Hrun : mem_pool_free_with_block h i q b
    = if free_in (g i).2 b + 1 =? capacity (mp_chunk_size p)
      then release_block (pushed h i p blk q) i b else Ok (pushed h i p blk q)).
  { unfold mem_pool_free_with_block, pushed. rewrite Hp, Hblk, Hg. simpl.
    by rewrite <- Hcap, <- Hcount. }
  rewrite Hrun.
  destruct (Z.eqb_spec (free_in (g i).2 b + 1) (capacity (mp_chunk_size p))) as [Heq|Hneq].
  - assert (Hp' : slab_pools (pushed h i p blk q) !! i = Some (set_free_list p q))
      by apply lookup_insert_eq.
    pose proof (hc_pools _ _ _ Hpush i _ Hp') as Hinv'. rewrite upd_eq in Hinv'.
    destruct (release_block_ok (pushed h i p blk q) i (set_free_list p q) (g i).1
      (q :: (g i).2) b n) as (m' & bs' & a & f & -> & Hinv'' & Hm' & Hsame & Hbs); [done..|].
    eexists _, _. split; [done|]. split.
    + assert (Hfull : free_in (upd g i ((g i).1, q :: (g i).2) i).2 b
        = capacity (mp_chunk_size (set_free_list p q))).
      { rewrite upd_eq. simpl. by rewrite Hcounts, decide_True. }
      assert (Hbi : b ∈ (upd g i ((g i).1, q :: (g i).2) i).1) by (by rewrite upd_eq).
      split.
      * apply (release_core Hpush Hp' Hbi Hfull); rewrite ?upd_eq; done.
      * intros j pj. simpl. rewrite insert_insert_eq. unfold released_lists.
        destruct (decide (j = i)) as [->|Hne].
        -- rewrite lookup_insert_eq, upd_eq, upd_eq. intros [= <-] b' Hb'. simpl in Hb'.
           apply list_elem_of_filter in Hb' as [Hne Hb'].
           rewrite chunk_size_released. cbn [snd]. rewrite free_in_filter by done.
           rewrite Hcounts, decide_False by done. by apply (Hbusy i p Hp).
        -- rewrite lookup_insert_ne, !upd_ne by done. apply Hbusy.
    + intros q' n' x Hq' Hne Hx. simpl. rewrite Hm' by (by apply (Hcells q' n')).
      by apply (Hmem q' n').
  - eexists _, _. split; [done|]. split; [|done]. split; [exact Hpush|].
    apply busy_step; [done|]. intros b' Hb'. rewrite Hcounts. simpl.
    pose proof (Hbusy i p Hp b' Hb'). case_decide; subst; lia.
Qed.

Lemma kvs_free_ok e g h live q n :
  heap_ok g h live -> me_enable e = true -> live !! q = Some n -> honest h q ->
  exists h' g', kvs_free e h q = Ok h' /\ heap_ok g' h' (delete q live) /\
    forall q' n' x, live !! q' = Some n' -> q' <> q -> q' <= x < q' + n' ->
      h_mem h' x = h_mem h x.
Proof.
  intros Hok He Hq Hh. destruct (piece_addr (proj1 Hok) q n Hq) as [Hq0 _].
  destruct (hc_live _ _ _ (proj1 Hok) q n Hq) as [Hn Hpiece].
  unfold kvs_free. rewrite (proj2 (Z.eqb_neq q 0)), He by lia. cbn [negb].
  change fallback_header with 16. replace (q - 16 + 8) with (q - 8) by lia.
  destruct Hpiece as [(i & p & Hp & Hc & Hfl & Hle)|Hl].
  - destruct (chunk_region (proj1 Hok) i p q Hp Hc) as (b & Hb & Hs & [blk Hblk] & Hg & _).
    rewrite (proj2 (Z.eqb_neq _ _)) by (apply Hh; rewrite Hg, Hblk; by eexists).
    rewrite Hg, Hblk.
    destruct (pi_block _ _ _ _ _ _ (hc_pools _ _ _ (proj1 Hok) i p Hp) b Hb)
      as (blk' & Hblk' & Hpool & _ & Hmagic & _).
    assert (blk' = blk) as -> by congruence. rewrite Hmagic, Z.eqb_refl, Hpool.
    by apply (free_push_ok g h live i p blk q b POOL_BLOCK_SIZE).
  - pose proof Hl as (f & Hf & Hs & _ & _ & ->). rewrite Z.eqb_refl. unfold sys_free. rewrite Hs.
    eexists _, _. split; [done|]. split; [by eapply free_large_ok|]. done.
Qed.
