(* ===== verification/MempoolSpec.v ===== *)
(** * The memory pool implements an allocator

    The abstract state of an allocator is the content of every piece of memory
    handed out and not given back.  The file proves that the pool refines it:
    a new piece overlaps no other, pieces keep their content, [realloc] keeps
    the prefix, and a request fails only when the system refuses memory.  The
    one assumption on the client's data, that the word before a small piece is
    not the magic number of the large ones, is shown to be needed. *)

From S2P Require Import Prelude Memory Mempool MempoolInv MempoolOps.

Open Scope Z_scope.
Open Scope kvs_scope.

(** ** Abstract allocator *)

Inductive request :=
| Malloc (size : Z)
| Free (q : Z)
| Realloc (q size : Z)
| Write (q off : Z) (l : bytes).

Abbreviation pieces := (gmap Z bytes).

Definition sizes (σ : pieces) : gmap Z Z := (fun l => Z.of_nat (length l)) <$> σ.

Definition fresh_piece (σ : pieces) (a size : Z) : Prop :=
  σ !! a = None /\
  forall q l, σ !! q = Some l -> a + size <= q \/ q + Z.of_nat (length l) <= a.

(** One request, its result and the pieces before and after; [refusal] tells
    that the system has no memory. *)
Inductive alloc_step (refusal : Prop) (σ : pieces) : request -> Z -> pieces -> Prop :=
| AlFail size : refusal -> alloc_step refusal σ (Malloc size) 0 σ
| AlMalloc size a l :
    a <> 0 -> Z.of_nat (length l) = size -> fresh_piece σ a size ->
    alloc_step refusal σ (Malloc size) a (<[a := l]> σ)
| AlFree q l : σ !! q = Some l -> alloc_step refusal σ (Free q) 0 (delete q σ)
| AlReallocFail q size old :
    refusal -> σ !! q = Some old -> Z.of_nat (length old) < size ->
    alloc_step refusal σ (Realloc q size) 0 σ
| AlRealloc q size old a l :
    σ !! q = Some old -> a <> 0 -> Z.of_nat (length l) = size ->
    take (length old) l = take (length l) old -> fresh_piece (delete q σ) a size ->
    alloc_step refusal σ (Realloc q size) a (<[a := l]> (delete q σ))
| AlWrite q off l old :
    σ !! q = Some old ->
    alloc_step refusal σ (Write q off l) 0
      (<[q := take (Z.to_nat off) old ++ l ++ drop (Z.to_nat off + length l) old]> σ).

(** ** The pool's answers *)

Definition run_request (e : menv) (h : heap) (r : request) : res (heap * Z) :=
  match r with
  | Malloc size => kvs_malloc e h size
  | Free q => let* h := kvs_free e h q in Ok (h, 0)
  | Realloc q size => kvs_realloc e h q size
  | Write q off l => Ok (with_mem (write_bytes (h_mem h) (q + off) l) h, 0)
  end.

(** What a client must respect: pieces of a positive size, only pieces handed
    out are given back or written, and [honest]. *)
Definition request_ok (h : heap) (σ : pieces) (r : request) : Prop :=
  match r with
  | Malloc size => 0 < size < 2 ^ 63
  | Free q => is_Some (σ !! q) /\ honest h q
  | Realloc q size => is_Some (σ !! q) /\ honest h q /\ 0 < size < 2 ^ 63
  | Write q off l => exists old, σ !! q = Some old /\ 0 <= off /\
      off + Z.of_nat (length l) <= Z.of_nat (length old)
  end.

(** The heap holds the pieces with their content. *)
Definition represents (h : heap) (σ : pieces) : Prop :=
  exists g, heap_ok g h (sizes σ) /\
    forall q l, σ !! q = Some l -> read_bytes (h_mem h) q (length l) = l.

Lemma sizes_lookup σ q l : σ !! q = Some l -> sizes σ !! q = Some (Z.of_nat (length l)).
Proof. intros Hq. unfold sizes. by rewrite lookup_fmap, Hq. Qed.

Lemma sizes_Some σ q n : sizes σ !! q = Some n -> exists l, σ !! q = Some l /\ n = Z.of_nat (length l).
Proof. unfold sizes. rewrite lookup_fmap. intros (l & -> & Hl)%fmap_Some. by exists l. Qed.

Lemma sizes_insert σ q l : sizes (<[q := l]> σ) = <[q := Z.of_nat (length l)]> (sizes σ).
Proof. unfold sizes. by rewrite fmap_insert. Qed.

Lemma sizes_delete σ q : sizes (delete q σ) = delete q (sizes σ).
Proof. unfold sizes. by rewrite fmap_delete. Qed.

Lemma sizes_None σ q : sizes σ !! q = None -> σ !! q = None.
Proof. unfold sizes. rewrite lookup_fmap. apply fmap_None. Qed.

Lemma insert_apart g h σ a size :
  heap_core g h (<[a := size]> (sizes σ)) -> sizes σ !! a = None -> fresh_piece σ a size.
Proof.
  intros Hok Ha. split; [by apply sizes_None|]. intros q l Hq.
  assert (a <> q) by (intros <-; by rewrite (sizes_lookup σ a l Hq) in Ha).
  apply (pieces_apart Hok a size q); [apply lookup_insert_eq| |done].
  rewrite lookup_insert_ne by done. by apply sizes_lookup.
Qed.

(** Pieces away from what changed keep their content. *)
Lemma contents_kept (m m' : Z -> byte) q l :
  read_bytes m q (length l) = l ->
  (forall x, q <= x < q + Z.of_nat (length l) -> m' x = m x) -> read_bytes m' q (length l) = l.
Proof. intros Hl Hm. rewrite <- Hl at 2. by apply read_bytes_ext. Qed.

(** ** The requests one by one *)

(** Writing inside a piece. *)
Lemma piece_write_ok g h live q n a l :
  heap_ok g h live -> live !! q = Some n -> q <= a -> a + Z.of_nat (length l) <= q + n ->
  heap_ok g (with_mem (write_bytes (h_mem h) a l) h) live /\
  forall q' n' x, live !! q' = Some n' -> q' <> q -> q' <= x < q' + n' ->
    write_bytes (h_mem h) a l x = h_mem h x.
Proof.
  intros [Hok Hbusy] Hq Hlo Hhi. split; [split; [|done]|].
  - apply (heap_frame Hok). intros x Hx. apply write_bytes_out.
    destruct (decide (x < a \/ a + Z.of_nat (length l) <= x)) as [|Hr]; [done|exfalso].
    apply (piece_not_meta Hok q n x); [done|lia|done].
  - intros q' n' x Hq' Hne Hx. apply write_bytes_out.
    destruct (pieces_apart Hok q n q' n'); [done|done|by intros ->|lia|lia].
Qed.

(** Another size in the same place. *)
Lemma resize_ok g h live q n n' :
  heap_ok g h live -> live !! q = Some n -> 0 < n' -> slab_piece g h q n' \/ large_piece h q n' ->
  heap_ok g h (<[q := n']> (delete q live)).
Proof.
  intros [Hok Hbusy] Hq Hn' Hp. rewrite insert_delete_eq. split; [|done]. split; try apply Hok.
  - intros q' k [[<- <-]|[_ Hq']]%lookup_insert_Some; [done|]. by apply Hok.
  - intros i p c Hpi Hc Hf. destruct (hc_chunks _ _ _ Hok i p c Hpi Hc Hf) as [k Hk].
    destruct (decide (c = q)) as [->|]; [exists n'; apply lookup_insert_eq|exists k].
    by rewrite lookup_insert_ne.
  - intros a k Ha. destruct (hc_owned _ _ _ Hok a k Ha) as [|[k' Hk']]; [by left|right].
    destruct (decide (a + 16 = q)) as [<-|]; [rewrite lookup_insert_eq; by eexists|].
    rewrite lookup_insert_ne by done. by eexists.
Qed.

Lemma preserves_large h h' live g q n :
  heap_core g h live -> live !! q = Some n -> preserves h h' -> large_piece h q n ->
  large_piece h' q n.
Proof.
  intros Hok Hq Hv (f & Hf & Hs & Hb & H1 & H2). destruct (hc_live _ _ _ Hok q n Hq) as [Hn _].
  exists f. split; [done|]. split; [by apply (pv_sys _ _ Hv)|].
  split.
  { pose proof (pv_blocks _ _ Hv _ _ Hs) as Hpool. rewrite Hb in Hpool. by apply fmap_None in Hpool. }
  rewrite (load64_ext (h_mem h') (h_mem h)), (load64_ext (h_mem h') (h_mem h) (q - 8)); [done|..];
    intros x Hx; apply (pv_mem _ _ Hv _ _ _ Hs); lia.
Qed.

(** The copy of a piece of [n] bytes, in a place of [old_size], to a place of
    [size]. *)
Lemma move_piece_ok e g h σ q old old_size size :
  heap_ok g h (sizes σ) -> env_ok h e -> σ !! q = Some old ->
  (forall q l, σ !! q = Some l -> read_bytes (h_mem h) q (length l) = l) ->
  Z.of_nat (length old) <= old_size < size -> size < 2 ^ 63 ->
  (forall h1, preserves h h1 -> forall g1 live1, heap_core g1 h1 live1 ->
     live1 !! q = Some (Z.of_nat (length old)) -> forall a, a <> q -> live1 !! a = Some size ->
     forall m, (forall x, m x <> h_mem h1 x -> a <= x < a + old_size) -> honest (with_mem m h1) q) ->
  exists h' a σ', move_piece e h q old_size size = Ok (h', a) /\
    alloc_step (refused e) σ (Realloc q size) a σ' /\ represents h' σ'.
Proof.
  intros Hok He Hq Hcont Hsz Hlim Hhon. unfold move_piece.
  pose proof (sizes_lookup σ q old Hq) as Hlq.
  destruct (hc_live _ _ _ (proj1 Hok) q _ Hlq) as [Hn _].
  destruct (kvs_malloc_ok e g h (sizes σ) size Hok He ltac:(lia))
    as (h1 & a & -> & Hv & g1 & [(-> & Href & Hok1)|(Ha & Hnew & Hok1)]); cbn [rbind].
  - simpl. exists h1, 0, σ. split; [done|]. split; [by eapply AlReallocFail; [done|done|lia]|].
    exists g1. split; [done|]. intros q' l Hq'. apply (contents_kept (h_mem h)); [by apply Hcont|].
    intros x Hx. destruct (piece_region (proj1 Hok) q' _ (sizes_lookup _ _ _ Hq'))
      as (r & len & Hr & H1 & H2). apply (pv_mem _ _ Hv r len); [done|lia].
  - rewrite (proj2 (Z.eqb_neq a 0)) by done.
    set (l := read_bytes (h_mem h1) q (Z.to_nat old_size)).
    assert (Hll : Z.of_nat (length l) = old_size) by (unfold l; rewrite length_read_bytes; lia).
    assert (Haq : a <> q) by (intros ->; by rewrite Hlq in Hnew).
    destruct (piece_write_ok g1 h1 _ a size a l Hok1) as [Hok2 Hother];
      [apply lookup_insert_eq|lia|lia|].
    set (h2 := with_mem (write_bytes (h_mem h1) a l) h1) in *.
    assert (Hlq1 : <[a := size]> (sizes σ) !! q = Some (Z.of_nat (length old)))
      by (by rewrite lookup_insert_ne).
    destruct (kvs_free_ok e g1 h2 _ q (Z.of_nat (length old)) Hok2) as (h3 & g3 & -> & Hok3 & Hmem); [exact (proj1 He)|done| |].
    { apply (Hhon h1 Hv g1 _ (proj1 Hok1) Hlq1 a Haq); [apply lookup_insert_eq|].
      intros x Hx. destruct (decide (a <= x < a + old_size)) as [|Hr]; [done|].
      destruct Hx. apply write_bytes_out. lia. }
    cbn [rbind]. exists h3, a, (<[a := read_bytes (h_mem h3) a (Z.to_nat size)]> (delete q σ)).
    assert (Hsizes : sizes (<[a := read_bytes (h_mem h3) a (Z.to_nat size)]> (delete q σ))
      = delete q (<[a := size]> (sizes σ))).
    { rewrite sizes_insert, sizes_delete, length_read_bytes, Z2Nat.id by lia.
      by rewrite delete_insert_ne. }
    split; [done|]. split.
    + eapply AlRealloc; [done|done|rewrite length_read_bytes; lia| |].
      * rewrite length_read_bytes, take_read_bytes by lia. rewrite take_ge by lia.
        rewrite <- (Hcont q old Hq) at 2. apply list_eq_same_length with (n := length old);
          [by rewrite !length_read_bytes..|].
        intros j x y Hj. rewrite !lookup_read_bytes by done. intros [= <-] [= <-].
        rewrite (Hmem a size (a + Z.of_nat j)); [|apply lookup_insert_eq|done|lia].
        subst h2. simpl. erewrite write_bytes_in; [|apply lookup_read_bytes; lia].
        destruct (piece_region (proj1 Hok) q _ Hlq) as (r & len & Hr & H1 & H2).
        apply (pv_mem _ _ Hv r len); [done|lia].
      * apply (insert_apart g3 h3).
        -- by rewrite sizes_delete, <- delete_insert_ne by done; apply Hok3.
        -- rewrite sizes_delete, lookup_delete_ne by done. done.
    + exists g3. rewrite Hsizes. split; [done|].
      intros q' l' [[<- <-]|[Hne Hq']]%lookup_insert_Some.
      * by rewrite length_read_bytes.
      * apply lookup_delete_Some in Hq' as [Hqq Hq'].
        pose proof (sizes_lookup _ _ _ Hq') as Hs'.
        apply (contents_kept (h_mem h)); [by apply Hcont|]. intros x Hx.
        assert (Hs1 : <[a := size]> (sizes σ) !! q' = Some (Z.of_nat (length l')))
          by (by rewrite lookup_insert_ne).
        rewrite (Hmem q' _ x Hs1) by (done || lia). subst h2. simpl.
        rewrite (Hother q' _ x Hs1) by (done || lia).
        destruct (piece_region (proj1 Hok) q' _ Hs') as (r & len & Hr & H1 & H2).
        apply (pv_mem _ _ Hv r len); [done|lia].
Qed.

(** A new piece larger than the chunks of [q]'s pool lies in another block. *)
Lemma slab_honest g h live q n i p b h1 g1 live1 a size old_size m :
  heap_core g h live -> live !! q = Some n -> slab_pools h !! i = Some p -> b ∈ (g i).1 ->
  is_chunk p (g i).1 q -> get_block_from_ptr q = b -> honest h q -> preserves h h1 ->
  heap_core g1 h1 live1 -> live1 !! a = Some size -> mp_chunk_size p < size ->
  old_size <= size -> (forall x, m x <> h_mem h1 x -> a <= x < a + old_size) ->
  honest (with_mem m h1) q.
Proof.
  intros Hok Hq Hp Hb Hc Hg Hh Hv Hok1 Ha Hbig Hsz Hm _.
  destruct (chunk_region Hok i p q Hp Hc) as (b' & _ & Hs & [blk Hblk] & Hg' & H1 & H2 & H8).
  assert (b' = b) as -> by congruence. simpl.
  assert (Hx : forall x, q - 8 <= x < q -> m x = h_mem h x).
  { intros x Hx. rewrite <- (pv_mem _ _ Hv b _ x Hs) by lia.
    destruct (decide (m x = h_mem h1 x)) as [|Hne]; [done|exfalso].
    pose proof (Hm x Hne) as Hxa. pose proof (pv_sys _ _ Hv _ _ Hs) as Hs1.
    pose proof (pv_blocks _ _ Hv _ _ Hs) as Hb1. rewrite Hblk in Hb1.
    apply fmap_Some in Hb1 as (blk1 & Hblk1 & Hpool1).
    destruct (block_pool Hok i p b Hp Hb) as (blk0 & Hblk0 & Hpool & _).
    assert (blk0 = blk) as -> by congruence.
    destruct (hc_live _ _ _ Hok1 a size Ha) as [_ [(j & pj & Hpj & Hcj & _ & Hle)|(f & Hf & Hsf & Hbf & _)]].
    - destruct (chunk_region Hok1 j pj a Hpj Hcj) as (ba & Hba & Hsa & _ & _ & H3 & H4 & _).
      assert (ba = b) as ->.
      { apply (regions_unique _ _ _ _ _ x (hc_sys _ _ _ Hok1) Hsa Hs1); lia. }
      destruct (block_pool Hok1 j pj b Hpj Hba) as (blk2 & Hblk2 & Hpool2 & _).
      assert (j = i) as -> by congruence. destruct (pv_pools _ _ Hv i p Hp) as (p1 & Hp1 & Hcs).
      assert (p1 = pj) as -> by congruence. lia.
    - assert (a - 16 = b); [|congruence].
      apply (regions_unique _ _ _ _ _ x (hc_sys _ _ _ Hok1) Hsf Hs1); lia. }
  rewrite (load64_ext m (h_mem h)) by (intros x Hxr; apply Hx; lia).
  apply Hh. rewrite Hg, Hblk. by eexists.
Qed.

(** A piece that stays in its place. *)
Lemma realloc_in_place g h σ q old size (R : Prop) :
  heap_ok g h (sizes σ) -> (forall q l, σ !! q = Some l -> read_bytes (h_mem h) q (length l) = l) ->
  σ !! q = Some old -> 0 < size -> slab_piece g h q size \/ large_piece h q size ->
  exists σ', alloc_step R σ (Realloc q size) q σ' /\ represents h σ'.
Proof.
  intros Hok Hcont Hq Hsz Hp. pose proof (sizes_lookup σ q old Hq) as Hlq.
  destruct (piece_addr (proj1 Hok) q _ Hlq) as [Hq0 _].
  pose proof (resize_ok g h _ q _ size Hok Hlq Hsz Hp) as Hok'.
  set (l := read_bytes (h_mem h) q (Z.to_nat size)).
  assert (Hl : length l = Z.to_nat size) by apply length_read_bytes.
  exists (<[q := l]> (delete q σ)).
  assert (Hsizes : sizes (<[q := l]> (delete q σ)) = <[q := size]> (delete q (sizes σ))).
  { rewrite sizes_insert, sizes_delete, Hl. f_equal. lia. }
  split.
  - eapply AlRealloc; [done|lia|lia| |].
    + rewrite <- (Hcont q old Hq) at 2. unfold l.
      destruct (Nat.le_ge_cases (length old) (Z.to_nat size)).
      * rewrite take_read_bytes by done. rewrite length_read_bytes.
        by rewrite take_ge by (rewrite length_read_bytes; lia).
      * rewrite (take_ge (read_bytes _ _ (Z.to_nat size))) by (rewrite length_read_bytes; lia).
        by rewrite length_read_bytes, take_read_bytes.
    + apply (insert_apart g h).
      * rewrite sizes_delete. apply Hok'.
      * rewrite sizes_delete. apply lookup_delete_eq.
  - exists g. rewrite Hsizes. split; [done|].
    intros q' l' [[<- <-]|[_ [_ Hq']%lookup_delete_Some]]%lookup_insert_Some; [|by apply Hcont].
    rewrite Hl. done.
Qed.

Lemma realloc_ok e g h σ q old size :
  heap_ok g h (sizes σ) -> (forall q l, σ !! q = Some l -> read_bytes (h_mem h) q (length l) = l) ->
  env_ok h e -> σ !! q = Some old -> honest h q -> 0 < size < 2 ^ 63 ->
  exists h' a σ', kvs_realloc e h q size = Ok (h', a) /\
    alloc_step (refused e) σ (Realloc q size) a σ' /\ represents h' σ'.
Proof.
  intros Hok Hcont He Hq Hh Hsz. pose proof (sizes_lookup σ q old Hq) as Hlq.
  destruct (piece_addr (proj1 Hok) q _ Hlq) as [Hq0 _].
  destruct (hc_live _ _ _ (proj1 Hok) q _ Hlq) as [Hn Hpiece].
  unfold kvs_realloc. rewrite (proj2 (Z.eqb_neq q 0)), (proj2 (Z.eqb_neq size 0)) by lia.
  rewrite (proj1 He). cbn [negb]. change fallback_header with 16.
  replace (q - 16 + 8) with (q - 8) by lia.
  destruct Hpiece as [(i & p & Hp & Hc & Hfl & Hle)|Hl].
  - destruct (chunk_region (proj1 Hok) i p q Hp Hc) as (b & Hb & Hs & [blk Hblk] & Hg & _).
    rewrite (proj2 (Z.eqb_neq _ _)) by (apply Hh; rewrite Hg, Hblk; by eexists).
    rewrite Hg, Hblk.
    destruct (pi_block _ _ _ _ _ _ (hc_pools _ _ _ (proj1 Hok) i p Hp) b Hb)
      as (blk' & Hblk' & Hpool & _ & Hmagic & _).
    assert (blk' = blk) as -> by congruence. rewrite Hmagic, Z.eqb_refl, Hpool, Hp.
    destruct (Z.leb_spec size (mp_chunk_size p)).
    + destruct (realloc_in_place g h σ q old size (refused e)) as (σ' & Hstep & Hrep);
        [done|done|done|lia|left; by exists i, p|]. by exists h, q, σ'.
    + apply (move_piece_ok e g h σ q old); [done..|lia|lia|].
      intros h1 Hv g1 live1 Hok1 _ a _ Ha m Hm.
      apply (slab_honest g h (sizes σ) q (Z.of_nat (length old)) i p b h1 g1 live1 a size
        (mp_chunk_size p) m); (done || apply Hok || lia).
  - pose proof Hl as (f & Hf & Hs & _ & Hlf & ->). rewrite Z.eqb_refl, Hlf.
    destruct (Z.leb_spec size f).
    + destruct (realloc_in_place g h σ q old size (refused e)) as (σ' & Hstep & Hrep);
        [done|done|done|lia| |by exists h, q, σ'].
      right. destruct Hl as (f' & Hf' & Hs' & H1 & H2 & H3). exists f'. split; [|done].
      assert (f' = f) as -> by congruence. lia.
    + apply (move_piece_ok e g h σ q old); [done..|lia|lia|].
      intros h1 Hv g1 live1 Hok1 Hq1 a _ _ m _ [blk Hblk]. simpl in Hblk.
      rewrite (get_block_large Hok1 q _ Hq1) in Hblk; [done|].
      by apply (preserves_large h h1 (sizes σ) g q (Z.of_nat (length old)) (proj1 Hok)).
Qed.

(** ** Refinement *)

Lemma request_refines e h σ r :
  represents h σ -> env_ok h e -> request_ok h σ r ->
  exists h' a σ', run_request e h r = Ok (h', a) /\ alloc_step (refused e) σ r a σ' /\
    represents h' σ'.
Proof.
  intros (g & Hok & Hcont) He Hr. destruct r as [size|q|q size|q off l]; cbn [run_request].
  - destruct (kvs_malloc_ok e g h (sizes σ) size Hok He Hr)
      as (h1 & a & -> & Hv & g1 & [(-> & Href & Hok1)|(Ha & Hnew & Hok1)]).
    + exists h1, 0, σ. split; [done|]. split; [by apply AlFail|]. exists g1. split; [done|].
      intros q l Hq. apply (contents_kept (h_mem h)); [by apply Hcont|]. intros x Hx.
      destruct (piece_region (proj1 Hok) q _ (sizes_lookup _ _ _ Hq)) as (rg & len & Hrg & H1 & H2).
      apply (pv_mem _ _ Hv rg len); [done|lia].
    + set (l := read_bytes (h_mem h1) a (Z.to_nat size)). simpl in Hr.
      assert (Hl : Z.of_nat (length l) = size) by (unfold l; rewrite length_read_bytes; lia).
      exists h1, a, (<[a := l]> σ). split; [done|]. split.
      * apply AlMalloc; [done|done|]. by apply (insert_apart g1 h1); [apply Hok1|].
      * exists g1. rewrite sizes_insert, Hl. split; [done|].
        intros q l' [[<- <-]|[_ Hq]]%lookup_insert_Some; [unfold l; by rewrite length_read_bytes|].
        apply (contents_kept (h_mem h)); [by apply Hcont|]. intros x Hx.
        destruct (piece_region (proj1 Hok) q _ (sizes_lookup _ _ _ Hq)) as (rg & len & Hrg & H1 & H2).
        apply (pv_mem _ _ Hv rg len); [done|lia].
  - destruct Hr as [[l Hq] Hh].
    destruct (kvs_free_ok e g h (sizes σ) q (Z.of_nat (length l)))
      as (h' & g' & -> & Hok' & Hmem); [done|apply He|by apply sizes_lookup|done|].
    exists h', 0, (delete q σ). split; [done|]. split; [by eapply AlFree|].
    exists g'. rewrite sizes_delete. split; [done|]. intros q' l' [Hne Hq']%lookup_delete_Some.
    apply (contents_kept (h_mem h)); [by apply Hcont|]. intros x Hx.
    by apply (Hmem q' (Z.of_nat (length l'))); [by apply sizes_lookup|by intros ->|].
  - destruct Hr as ([old Hq] & Hh & Hsz). by apply (realloc_ok e g h σ q old).
  - destruct Hr as (old & Hq & Hoff & Hlen).
    pose proof (sizes_lookup _ _ _ Hq) as Hlq.
    destruct (piece_write_ok g h _ q _ (q + off) l Hok Hlq) as [Hok' Hother]; [lia|lia|].
    eexists _, 0, _. split; [done|]. split; [by apply AlWrite|].
    set (new := take (Z.to_nat off) old ++ l ++ drop (Z.to_nat off + length l) old).
    assert (Hnew : length new = length old).
    { unfold new. rewrite !length_app, length_take, length_drop. lia. }
    exists g. rewrite sizes_insert, Hnew, insert_id by done. split; [done|].
    intros q' l' [[<- <-]|[Hne Hq']]%lookup_insert_Some; simpl.
    + apply list_eq_same_length with (n := length new); [done|by rewrite length_read_bytes|].
      intros j x y Hj. rewrite lookup_read_bytes by done. intros [= <-] Hy.
      rewrite Hnew in Hj. unfold new in Hy. unfold write_bytes.
      rewrite <- (Hcont q old Hq) in Hy.
      destruct (Z.leb_spec (q + off) (q + Z.of_nat j)).
      * rewrite lookup_app_r in Hy by (rewrite length_take, length_read_bytes; lia).
        rewrite length_take, length_read_bytes in Hy.
        replace (Z.to_nat (q + Z.of_nat j - (q + off))) with (j - Z.to_nat off `min` length old)%nat
          by lia.
        destruct (decide (j - Z.to_nat off `min` length old < length l)%nat).
        -- rewrite lookup_app_l in Hy by done. by rewrite Hy.
        -- rewrite lookup_app_r, lookup_drop, lookup_read_bytes in Hy by lia.
           rewrite lookup_ge_None_2 by lia. simplify_eq. simpl. f_equal. lia.
      * rewrite lookup_app_l, lookup_take_lt, lookup_read_bytes in Hy
          by (rewrite ?length_take, ?length_read_bytes; lia). by simplify_eq.
    + apply (contents_kept (h_mem h)); [by apply Hcont|]. intros x Hx.
      by apply (Hother q' (Z.of_nat (length l'))); [by apply sizes_lookup|by intros ->|].
Qed.

Lemma represents_zero m : represents (heap_zero m) ∅.
Proof.
  exists (fun _ => ([], [])). split; [|done]. unfold sizes. rewrite fmap_empty.
  split; [|done]. by split.
Qed.

(** C18.  The pool is an allocator.  From a heap that holds the pieces of an
    abstract state, each request of a client that frees and writes only what
    it was given succeeds and does what the abstract request does: a new piece
    has the size asked for and overlaps no other, every other piece keeps its
    content, [realloc] keeps the common prefix, and a request comes back empty
    only when the system refused memory.  As mempool.c assumes, the word before
    a piece of the pool that is given back is not the magic number of the large
    pieces ([honest]). *)
Theorem pool_refines_allocator e h σ r :
  represents h σ -> env_ok h e -> request_ok h σ r ->
  exists h' a σ', run_request e h r = Ok (h', a) /\ alloc_step (refused e) σ r a σ' /\
    represents h' σ'.
Proof. apply request_refines. Qed.

(** When every piece was given back, the only memory still held is, for
    each pool, the current block, and only while it has chunks that were never
    handed out. *)
Theorem pool_gives_back h a n :
  represents h ∅ -> h_sys h !! a = Some n ->
  exists i p, slab_pools h !! i = Some p /\ mp_current_block p = a /\ 0 < mp_remaining p /\
    n = POOL_BLOCK_SIZE.
Proof.
  intros (g & [Hok Hbusy] & _) Ha. unfold sizes in Hok. rewrite fmap_empty in Hok.
  destruct (hc_owned _ _ _ Hok a n Ha) as [[blk Hblk]|[? ?]]; [|done].
  destruct (hc_blocks _ _ _ Hok a blk Hblk) as (p & Hp & Hbl).
  pose proof (hc_pools _ _ _ Hok _ p Hp) as Hinv.
  assert (Hused : used p a <= free_in (g (pb_pool blk)).2 a).
  { apply (free_in_all Hinv); [done|]. intros c Hc _.
    destruct (decide (c ∈ (g (pb_pool blk)).2)) as [|Hf]; [done|].
    by destruct (hc_chunks _ _ _ Hok _ p c Hp Hc Hf). }
  pose proof (Hbusy _ p Hp a Hbl) as Hlt. exists (pb_pool blk), p.
  destruct (hc_region _ _ _ Hok a blk Hblk) as [Hs _]. rewrite Hs in Ha.
  unfold used in Hused. destruct (Z.eqb_spec a (mp_current_block p)) as [->|]; [|lia].
  split; [done|]. split; [done|]. split; [lia|]. congruence.
Qed.

Lemma trim_blocks_nothing h i l a fuel :
  bchain (h_blocks h) a l ->
  (forall b, b ∈ l -> exists blk, h_blocks h !! b = Some blk /\ pb_free_count blk < pb_capacity blk) ->
  (length l < fuel)%nat -> trim_blocks fuel h i a = Ok h.
Proof.
  revert a fuel. induction l as [|b l IH]; intros a [|fuel] Hl Hlt Hf; simpl in Hf; try lia;
    cbn [trim_blocks].
  - by rewrite Hl.
  - destruct Hl as (-> & Hb0 & blk & Hblk & Hl). rewrite (proj2 (Z.eqb_neq b 0)), Hblk by done.
    destruct (Hlt b) as (blk' & Hblk' & Hc); [by left|].
    assert (blk' = blk) as -> by congruence.
    rewrite (proj2 (Z.eqb_neq _ _)) by lia. cbn [rbind]. apply IH; [done| |lia].
    intros b' Hb'. apply Hlt. by right.
Qed.

(** [mem_pool_trim] never finds anything to trim: a block is given back
    as soon as its last piece is, so [kvs_mempool_trim_all] leaves the heap as
    it is. *)
Theorem trim_changes_nothing h σ : represents h σ -> kvs_mempool_trim_all h = Ok h.
Proof.
  intros (g & [Hok Hbusy] & _). unfold kvs_mempool_trim_all.
  generalize SLAB_COUNT, 0%nat. intros n. induction n as [|n IH]; intros i; [done|].
  cbn [trim_pools]. unfold mem_pool_trim.
  destruct (slab_pools h !! i) as [p|] eqn:Hp; cbn [rbind]; [|apply IH].
  pose proof (hc_pools _ _ _ Hok i p Hp) as Hinv.
  rewrite (trim_blocks_nothing h i (g i).1); [cbn [rbind]; apply IH|apply Hinv| |].
  - intros b Hb. destruct (pi_block _ _ _ _ _ _ Hinv b Hb) as (blk & Hblk & _ & Hcap & _ & Hc).
    exists blk. split; [done|]. rewrite Hcap, Hc. by apply (Hbusy i p Hp).
  - pose proof (blocks_length Hinv). lia.
Qed.

(** A piece of a pool whose preceding word is the magic number of the
    large pieces cannot be freed: [kvs_free] passes an address inside a block
    to [free].  The word belongs to the piece before, whose last eight bytes
    are the client's. *)
Theorem forged_magic_breaks_free e h σ q :
  represents h σ -> me_enable e = true -> is_Some (σ !! q) ->
  is_Some (h_blocks h !! get_block_from_ptr q) -> load64 (h_mem h) (q - 8) = FALLBACK_MAGIC ->
  kvs_free e h q = UB.
Proof.
  intros (g & [Hok _] & _) He [l Hq] [blk Hblk] Hm.
  pose proof (sizes_lookup _ _ _ Hq) as Hlq. destruct (piece_addr Hok q _ Hlq) as [Hq0 _].
  unfold kvs_free. rewrite (proj2 (Z.eqb_neq q 0)), He by lia. cbn [negb].
  change fallback_header with 16. replace (q - 16 + 8) with (q - 8) by lia.
  rewrite Hm, Z.eqb_refl. unfold sys_free.
  destruct (h_sys h !! (q - 16)) as [n|] eqn:E; [exfalso|done].
  destruct (hc_live _ _ _ Hok q _ Hlq) as [Hn [(i & p & Hp & Hc & _)|Hl]].
  - destruct (chunk_region Hok i p q Hp Hc) as (b & _ & Hs & _ & _ & H1 & H2 & H8).
    assert (q - 16 = b); [|lia]. pose proof (rg_addr _ (hc_sys _ _ _ Hok) _ _ E).
    apply (regions_unique _ _ _ _ _ (q - 16) (hc_sys _ _ _ Hok) E Hs); lia.
  - by rewrite (get_block_large Hok q _ Hlq Hl) in Hblk.
Qed.

(** ** Examples *)

(** The system gives memory of zeros at the given address. *)
Definition sample_menv (a : Z) : menv :=
  MEnv true (fun _ => true) (fun n => if n <? 2 ^ 40 then Some (a, fun _ => x00) else None)
    (Some (a, fun _ => x00)).

Definition heap_of (r : res (heap * Z)) : heap :=
  match r with Ok (h, _) => h | UB => heap_zero (fun _ => x00) end.

Definition address_of (r : res (heap * Z)) : Z := match r with Ok (_, a) => a | UB => -1 end.

(** Two pieces of 32 bytes and the magic number written at the end of the
    first. *)
Definition sample_h0 : heap := heap_zero (fun _ => x00).
Definition sample_h1 : heap := heap_of (run_request (sample_menv 65536) sample_h0 (Malloc 32)).
Definition sample_h2 : heap := heap_of (run_request (sample_menv 131072) sample_h1 (Malloc 32)).
Definition sample_write : request := Write 65576 24 (le_encode 8 FALLBACK_MAGIC).
Definition sample_h3 : heap := heap_of (run_request (sample_menv 131072) sample_h2 sample_write).

Lemma sample_env h a :
  (forall r n, h_sys h !! r = Some n -> r + n <= a) -> a mod POOL_BLOCK_SIZE = 0 ->
  0 < a <= 2 ^ 20 -> env_ok h (sample_menv a).
Proof.
  intros Hh Hal Ha. split; [done|].
  assert (Hf : forall n, 0 < n < 2 ^ 40 -> fresh_answer (h_sys h) n (Some (a, fun _ => x00))).
  { intros n Hn. split; [lia|]. split; [lia|]. intros r k Hr. right. by apply Hh. }
  split; [|split; [by apply Hf|done]]. intros n Hn. simpl. destruct (Z.ltb_spec n (2 ^ 40)); [|done].
  apply Hf. lia.
Qed.

(** A request on a known heap: the answer is what the run computes. *)
Lemma sample_step e h σ r h1 a :
  represents h σ -> env_ok h e -> request_ok h σ r ->
  h1 = heap_of (run_request e h r) -> a = address_of (run_request e h r) ->
  exists σ', alloc_step (refused e) σ r a σ' /\ represents h1 σ'.
Proof.
  intros Hrep He Hr -> ->. destruct (request_refines e h σ r Hrep He Hr)
    as (h' & a & σ' & -> & Hstep & Hrep'). by exists σ'.
Qed.

Lemma sample_malloc e h σ a h1 :
  represents h σ -> env_ok h e -> h1 = heap_of (run_request e h (Malloc 32)) ->
  a = address_of (run_request e h (Malloc 32)) -> a <> 0 ->
  exists l, length l = 32%nat /\ represents h1 (<[a := l]> σ).
Proof.
  intros Hrep He Hh Ha Hne.
  destruct (sample_step e h σ (Malloc 32) h1 a Hrep He ltac:(done) Hh Ha) as (σ' & Hstep & Hrep').
  inversion Hstep; subst; [done|]. exists l. split; [lia|done].
Qed.

Lemma sample_rep_1 : exists l, length l = 32%nat /\ represents sample_h1 {[65576 := l]}.
Proof.
  apply (sample_malloc (sample_menv 65536) sample_h0 ∅ 65576); [|by apply sample_env|exact eq_refl| |done].
  - apply represents_zero.
  - by vm_compute.
Qed.

Lemma sample_sys_1 : h_sys sample_h1 = {[65536 := 65536]}.
Proof. by vm_compute. Qed.

Lemma sample_env_2 h : h_sys h = {[65536 := 65536]} -> env_ok h (sample_menv 131072).
Proof.
  intros Hh. apply sample_env; [|done|done]. rewrite Hh.
  intros r n [<- <-]%lookup_singleton_Some. done.
Qed.

Lemma sample_rep_3 : exists σ, represents sample_h3 σ /\ is_Some (σ !! 65608).
Proof.
  destruct sample_rep_1 as (l1 & Hl1 & Hrep1).
  destruct (sample_malloc (sample_menv 131072) sample_h1 _ 65608 sample_h2 Hrep1)
    as (l2 & Hl2 & Hrep2); [apply sample_env_2, sample_sys_1|exact eq_refl|by vm_compute|done|].
  destruct (sample_step (sample_menv 131072) sample_h2 _ sample_write sample_h3 0 Hrep2)
    as (σ' & Hstep & Hrep3); [| |exact eq_refl|by vm_compute|].
  - apply sample_env_2. by vm_compute.
  - exists l1. rewrite lookup_insert_ne, lookup_singleton_eq, Hl1 by done. done.
  - inversion Hstep; subst. eexists. split; [exact Hrep3|].
    rewrite lookup_insert_ne, lookup_insert_eq by done. by eexists.
Qed.

Lemma pool_refines_allocator_witness :
  exists h' a σ', run_request (sample_menv 65536) sample_h0 (Malloc 20) = Ok (h', a) /\
    alloc_step (refused (sample_menv 65536)) ∅ (Malloc 20) a σ' /\ represents h' σ'.
Proof.
  apply (pool_refines_allocator (sample_menv 65536) sample_h0 ∅ (Malloc 20));
    [apply represents_zero|by apply sample_env|done].
Defined.

Lemma forged_magic_breaks_free_witness :
  (exists σ, represents sample_h3 σ) /\ kvs_free (sample_menv 131072) sample_h3 65608 = UB.
Proof.
  destruct sample_rep_3 as (σ & Hrep & Hq). split; [by exists σ|].
  apply (forged_magic_breaks_free (sample_menv 131072) sample_h3 σ 65608);
    [done|done|done|by vm_compute; eexists|by vm_compute].
Defined.

Lemma trim_changes_nothing_witness :
  (exists σ, represents sample_h3 σ) /\ kvs_mempool_trim_all sample_h3 = Ok sample_h3.
Proof.
  destruct sample_rep_3 as (σ & Hrep & _). split; [by exists σ|].
  apply (trim_changes_nothing sample_h3 σ Hrep).
Defined.

(** The heap after the only piece was freed. *)
Definition sample_h4 : heap := heap_of (run_request (sample_menv 131072) sample_h1 (Free 65576)).

Lemma sample_rep_4 : represents sample_h4 ∅.
Proof.
  destruct sample_rep_1 as (l1 & Hl1 & Hrep1).
  destruct (sample_step (sample_menv 131072) sample_h1 _ (Free 65576) sample_h4 0 Hrep1)
    as (σ' & Hstep & Hrep4); [apply sample_env_2, sample_sys_1| |exact eq_refl|by vm_compute|].
  - split; [rewrite lookup_singleton_eq; by eexists|]. intros _. by vm_compute.
  - inversion Hstep; subst. by rewrite delete_singleton_eq in Hrep4.
Qed.

Lemma pool_gives_back_witness :
  h_sys sample_h4 !! 65536 = Some POOL_BLOCK_SIZE /\
  exists i p, slab_pools sample_h4 !! i = Some p /\ mp_current_block p = 65536 /\
    0 < mp_remaining p /\ POOL_BLOCK_SIZE = POOL_BLOCK_SIZE.
Proof.
  assert (Hs : h_sys sample_h4 !! 65536 = Some POOL_BLOCK_SIZE) by (by vm_compute).
  split; [exact Hs|]. apply (pool_gives_back sample_h4 65536 POOL_BLOCK_SIZE sample_rep_4 Hs).
Defined.
