(* ===== verification/Net.v ===== *)
(** * The connections of the coroutine server (ntyco.c, network.h)

    [ntyco_client_co] receives into a buffer that grows, hands it to the
    protocol layer as long as requests are complete, keeps what is left for
    the next turn and sends the replies.  The sockets are the kernel's: what
    the peer has sent waits in [cl_in], and each turn has the kernel's answers.
    The file proves that requests are served once and in order however the
    stream is cut into segments and that the peer gets what the kernel takes of
    the replies, and shows two ways in which a connection
    stays open for nothing. *)

From S2P Require Import Prelude KvData Engine Config Resp Repl Aof ExpireQueue Store Ai.
From S2P Require Import Commands Lookup Protocol ProtocolSpec.

Open Scope Z_scope.
Open Scope kvs_scope.

(** ** Connections *)

Definition INIT_BUFFER_SIZE : Z := 4096.
Definition CONNECTION_SIZE : Z := 1024.
Definition MAX_RBUFFER_SIZE : Z := 16 * 1024 * 1024.

Inductive conn_role := CONN_CLIENT | CONN_MASTER | CONN_SLAVE.

(** [cn_rbuffer] are the [rlength] bytes in use; [cn_w] is the send buffer. *)
Record conn := Conn {
  cn_fd : Z;
  cn_role : conn_role;
  cn_rbuffer : bytes;
  cn_rcapacity : Z;
  cn_w : wbuf
}.

Definition rlength (c : conn) : Z := Z.of_nat (length (cn_rbuffer c)).

(** A connection, the node it works on, what the peer has sent and the kernel
    has not handed over, and what was sent to the peer. *)
Record client := Client {
  cl_conn : conn;
  cl_node : node;
  cl_in : bytes;
  cl_sent : bytes
}.

(** Still in its loop, or closed. *)
Inductive client_state :=
| Running (cl : client)
| Closed (nd : node) (sent : bytes).

(** What [recv] answers: at most [n] of the waiting bytes, nothing yet
    (EAGAIN), or the end: 0 or an error. *)
Inductive recv_answer :=
| RecvSome (n : nat)
| RecvAgain
| RecvEnd.

(** One turn of the loop: the reallocation, [recv], the turns of the protocol
    for each call of the handler, what [send] takes, and the kernel's answer
    and the time for the last flush. *)
Record iter := Iter {
  it_env : cenv;
  it_recv : recv_answer;
  it_turns : nat -> nat -> turn;
  it_send : nat;
  it_uring : uring;
  it_now : Z
}.

(** ** The client's loop *)

Section client.
Context `{AiOps}.

(** The buffers of a new connection. *)
Definition client_init (e : cenv) (c : conn) : option conn :=
  if alloc_ok e 0 INIT_BUFFER_SIZE && alloc_ok e 1 INIT_BUFFER_SIZE
  then Some (Conn (cn_fd c) (cn_role c) [] INIT_BUFFER_SIZE (WBuf [] INIT_BUFFER_SIZE))
  else None.

(** The receive buffer is enlarged when less than 64 KB are left. *)
Definition grow_rbuffer (e : cenv) (c : conn) : option conn :=
  if (cn_rcapacity c - rlength c <? 65536) && (cn_rcapacity c <? MAX_RBUFFER_SIZE) then
    let new_capacity := cn_rcapacity c * 2 in
    let new_capacity := if new_capacity <? 65536 then 65536 else new_capacity in
    if alloc_ok e 0 new_capacity
    then Some (Conn (cn_fd c) (cn_role c) (cn_rbuffer c) new_capacity (cn_w c))
    else None
  else Some c.

(** The [while (c->rlength > total_parsed_bytes)]; [k] numbers the calls of
    the handler and [true] stands for a connection to close.  A status that is
    not 0 comes with no bytes parsed, and then the loop ends before the status
    is looked at. *)
Fixpoint parse_loop (fuel calls : nat) (turns : nat -> nat -> turn) (k : nat) (fd : Z)
  (buf : bytes) (total : Z) (nd : node) (w : option wbuf) : run (Z * node * option wbuf * bool) :=
  match calls with
  | O => MoreFuel
  | S calls =>
    if total <? 0 then Undef
    else if total <? Z.of_nat (length buf) then
      let! r := protocol_process_stream fuel (turns k) fd (drop (Z.to_nat total) buf) nd w in
      let '(status, parsed, nd, w) := r in
      let parsed_bytes := default 0 parsed in
      if (status =? 1) || (parsed_bytes =? 0) then Ret (total, nd, w, false)
      else if status <? 0 then Ret (total, nd, w, true)
      else parse_loop fuel calls turns (S k) fd buf (total + parsed_bytes) nd w
    else Ret (total, nd, w, false)
  end.

(** [send] of the replies; its result is ignored. *)
Definition send_replies (n : nat) (w : wbuf) : wbuf * bytes :=
  if 0 <? wb_len w then (WBuf [] (wb_cap w), take n (wb_data w)) else (w, []).

(** The end of the coroutine. *)
Definition client_leave (it : iter) (g : globals) (nd : node) (sent : bytes) : client_state :=
  let a := if aof_enabled g then kvs_persistence_force_flush (it_uring it) (it_now it) (nd_aof nd)
           else nd_aof nd in
  Closed (Node (nd_sv nd) a) sent.

(** What follows a successful [recv]. *)
Definition client_serve (fuel : nat) (it : iter) (c : conn) (nd : node) (rest sent : bytes)
  : run client_state :=
  let master := match cn_role c with CONN_MASTER => true | _ => false end in
  let buf := cn_rbuffer c in
  let! r := parse_loop fuel (S (length buf)) (it_turns it) 0 (cn_fd c) buf 0 nd
              (if master then None else Some (cn_w c)) in
  let '(total, nd, w, close) := r in
  if close then Ret (Closed nd sent)
  else
    let buf := if 0 <? total then drop (Z.to_nat total) buf else buf in
    let '(w, out) := send_replies (it_send it) (default (cn_w c) w) in
    Ret (Running (Client (Conn (cn_fd c) (cn_role c) buf (cn_rcapacity c) w) nd rest (sent ++ out))).

(** One turn of the [while (1)]. *)
Definition client_turn (fuel : nat) (it : iter) (cl : client) : run client_state :=
  let '(Client c nd input sent) := cl in
  if MAX_RBUFFER_SIZE <=? rlength c then Ret (Running cl)
  else
    match grow_rbuffer (it_env it) c with
    | None => Ret (Closed nd sent)
    | Some c =>
      match it_recv it, input with
      | RecvEnd, _ => Ret (client_leave it (tn_glob (it_turns it 0%nat 0%nat)) nd sent)
      | RecvAgain, _ | RecvSome _, [] => Ret (Running (Client c nd input sent))
      | RecvSome n, _ =>
        let room := Z.to_nat (cn_rcapacity c - rlength c) in
        let count := ((1 `max` n) `min` room)%nat in
        if (count =? 0)%nat
        then Ret (client_leave it (tn_glob (it_turns it 0%nat 0%nat)) nd sent)
        else
          let c := Conn (cn_fd c) (cn_role c) (cn_rbuffer c ++ take count input) (cn_rcapacity c)
                     (cn_w c) in
          client_serve fuel it c nd (drop count input) sent
      end
    end.

Fixpoint client_run (fuel : nat) (its : list iter) (cl : client) : run client_state :=
  match its with
  | [] => Ret (Running cl)
  | it :: its =>
    let! s := client_turn fuel it cl in
    match s with Running cl => client_run fuel its cl | Closed _ _ => Ret s end
  end.
End client.

(** ** The other coroutines *)

(** One turn of [ntyco_expire_co] and of [ntyco_persistence_co]. *)
Definition expire_co_turn (ts : nat -> turn) (q : expire_queue) (nd : node)
  : run (expire_queue * node) := expire_process_deletes ts q nd.

Definition persistence_co_turn (g : globals) (u : uring) (now : Z) (nd : node) : node :=
  if aof_enabled g then Node (nd_sv nd) (kvs_persistence_flush_pending u now (nd_aof nd)) else nd.

(** [ntyco_server_co]: what [accept] gave, the entry of the connection and the
    descriptor a coroutine was started for; [None] when it was closed or there
    was none. *)
Definition accept_client (clientfd : Z) (create_ok : bool) (conns : gmap Z conn)
  : gmap Z conn * option Z :=
  if clientfd <? 0 then (conns, None)
  else if CONNECTION_SIZE <=? clientfd then (conns, None)
  else
    let old := default (Conn 0 CONN_CLIENT [] 0 (WBuf [] 0)) (conns !! clientfd) in
    let conns := <[clientfd := Conn clientfd CONN_CLIENT (cn_rbuffer old) (cn_rcapacity old)
                                 (cn_w old)]> conns in
    if create_ok then (conns, Some clientfd) else (conns, None).

(** [ntyco_close_and_free_connection]: the entry is zeroed. *)
Definition ntyco_close_and_free_connection (fd : Z) (conns : gmap Z conn) : gmap Z conn :=
  if (fd <? 0) || (CONNECTION_SIZE <=? fd) then conns
  else <[fd := Conn 0 CONN_CLIENT [] 0 (WBuf [] 0)]> conns.

(** [ntyco_host_slave_connection]: the entry for the connection to a master, and
    whether its coroutine was started.  Without memory the entry keeps the
    role and the send buffer it was given. *)
Definition ntyco_host_slave_connection (e : cenv) (fd : Z) (w : wbuf) (conns : gmap Z conn)
  : gmap Z conn * bool :=
  if (fd <? 0) || (CONNECTION_SIZE <=? fd) then (conns, false)
  else if alloc_ok e 0 65536 then (<[fd := Conn fd CONN_MASTER [] 65536 w]> conns, true)
  else
    let old := default (Conn 0 CONN_CLIENT [] 0 (WBuf [] 0)) (conns !! fd) in
    (<[fd := Conn fd CONN_MASTER [] (cn_rcapacity old) w]> conns, false).

(** ** Requests in segments *)

Definition encoded (cmds : list (list bytes)) : bytes := concat (resp_encode <$> cmds).

(** What a connection may keep: the beginning of a request shorter than the
    largest buffer. *)
Definition kept_partial (l : bytes) : Prop := partial l /\ Z.of_nat (length l) < MAX_RBUFFER_SIZE.

Definition fits_buffer (args : list bytes) : Prop :=
  resp_size_ok args /\ zlen (resp_encode args) <= MAX_RBUFFER_SIZE.

Lemma partial_take l n : partial l -> partial (take n l).
Proof.
  intros (args & k & Hs & Hk & ->). exists args, (n `min` k)%nat.
  split; [done|]. split; [lia|]. by rewrite take_take.
Qed.

(** A prefix of a stream is a number of requests and the beginning of one. *)
Lemma split_stream cmds tail P Q :
  Forall fits_buffer cmds -> kept_partial tail -> encoded cmds ++ tail = P ++ Q ->
  exists cmds1 cmds2 rest, cmds = cmds1 ++ cmds2 /\ P = encoded cmds1 ++ rest /\
    kept_partial rest /\ encoded cmds2 ++ tail = rest ++ Q.
Proof.
  intros Hc. revert P. induction Hc as [|args cmds [Hs Hf] Hc IH]; intros P Ht He.
  - exists [], [], P. split; [done|]. split; [done|]. split; [|done].
    cbn in He. assert (P = take (length P) tail) as -> by (by rewrite He, take_app_length).
    destruct Ht as [Ht Hl]. split; [by apply partial_take|]. rewrite length_take. lia.
  - unfold encoded in *. rewrite fmap_cons in *. cbn [concat] in *. rewrite <- app_assoc in He.
    destruct (decide (length P < length (resp_encode args))%nat) as [Hlt|Hge].
    + exists [], (args :: cmds), P. split; [done|]. split; [done|].
      split; [|rewrite fmap_cons; cbn [concat]; by rewrite <- app_assoc].
      split; [|unfold zlen in Hf; lia].
      exists args, (length P). split; [done|]. split; [done|].
      apply (f_equal (take (length P))) in He.
      by rewrite take_app_length, take_app_le in He by lia.
    + destruct (IH (drop (length (resp_encode args)) P) Ht) as (c1 & c2 & rest & -> & HP & Hr & HQ).
      { apply (f_equal (drop (length (resp_encode args)))) in He.
        by rewrite drop_app_length, drop_app_le in He by lia. }
      exists (args :: c1), c2, rest. split; [done|]. split; [|done].
      rewrite fmap_cons. cbn [concat]. rewrite <- app_assoc, <- HP.
      rewrite <- (take_drop (length (resp_encode args)) P) at 1. f_equal.
      apply (f_equal (take (length (resp_encode args)))) in He.
      by rewrite take_app_length, take_app_le in He by lia.
Qed.

(** The beginning of a request holds no request. *)
Lemma partial_no_request rest cmds tail :
  Forall resp_size_ok cmds -> partial rest -> partial tail -> rest = encoded cmds ++ tail ->
  cmds = [] /\ rest = tail.
Proof.
  intros Hs Hr Ht He. destruct cmds as [|args cmds]; [by subst|exfalso].
  apply Forall_cons in Hs as [Ha Hs]. unfold encoded in He. rewrite fmap_cons in He.
  cbn [concat] in He. rewrite <- app_assoc in He.
  destruct (next_request (fun _ => sample_turn 0) 0 [] args (encoded cmds ++ tail)) as (Hc & _ & Hlt);
    [done|done|]. cbv zeta in Hc, Hlt. cbn [app] in Hc, Hlt. unfold encoded in Hc, Hlt.
  destruct (partial_stop rest Hr []) as [Hn|Hn]; cbn [app] in Hn; rewrite He in Hn; congruence.
Qed.

Section serve.
Context `{AiOps}.

(** Segment after segment: the requests each completes are run with what has
    arrived behind them, from an empty send buffer.  The result lists, for each
    segment, the bytes of the replies and how many of them the kernel took. *)
Fixpoint serve_segments (its : list iter) (gs : list (list (list bytes) * bytes)) (fd : Z)
  (master : bool) (nd : node) (cap : Z) : run (node * Z * list (bytes * nat)) :=
  match its, gs with
  | it :: its, (cmds, rest) :: gs =>
    let! r := run_requests (it_turns it 0%nat) 0 fd nd
                (if master then None else Some (WBuf [] cap)) cmds rest in
    let replies := default (WBuf [] cap) r.2 in
    let! s := serve_segments its gs fd master r.1 (wb_cap replies) in
    let '(nd, cap, outs) := s in Ret (nd, cap, (wb_data replies, it_send it) :: outs)
  | _, _ => Ret (nd, cap, [])
  end.

(** What the peer gets of the replies: those the kernel does not take of a
    segment's replies are dropped. *)
Definition taken (outs : list (bytes * nat)) : bytes := concat ((fun o => take o.2 o.1) <$> outs).

Lemma taken_all outs : Forall (fun o => (length o.1 <= o.2)%nat) outs -> taken outs = concat outs.*1.
Proof.
  unfold taken. induction 1 as [|o outs Ho _ IH]; [done|]. rewrite !fmap_cons. cbn [concat].
  by rewrite IH, take_ge.
Qed.

Lemma encoded_nil cmds : length (encoded cmds) = 0%nat -> cmds = [].
Proof. destruct cmds as [|a cmds]; [done|]. unfold encoded. rewrite fmap_cons. done. Qed.

Lemma process_partial fuel ts fd rest nd w :
  (0 < fuel)%nat -> unpack_mem ts -> partial rest ->
  protocol_process_stream fuel ts fd rest nd w = Ret (0, Some 0, nd, w).
Proof.
  intros Hf Hm Hr. pose proof (stream_all_requests fuel ts fd [] rest nd w Hm) as Hp.
  cbn in Hp. by apply Hp.
Qed.

Lemma parse_loop_requests fuel turns fd cmds rest nd w :
  (forall k, unpack_mem (turns k)) -> Forall resp_size_ok cmds -> partial rest ->
  (length cmds < fuel)%nat ->
  let buf := encoded cmds ++ rest in
  parse_loop fuel (S (length buf)) turns 0 fd buf 0 nd w
  = let! r := run_requests (turns 0%nat) 0 fd nd w cmds rest in
    Ret (Z.of_nat (length (encoded cmds)), r.1, r.2, false).
Proof.
  intros Hm Hs Hr Hf buf. subst buf. cbn [parse_loop]. rewrite (proj2 (Z.ltb_ge 0 0)) by lia.
  destruct (Z.ltb_spec 0 (Z.of_nat (length (encoded cmds ++ rest)))) as [Hlen|Hlen].
  - rewrite drop_0. unfold encoded at 1.
    rewrite (stream_all_requests fuel (turns 0%nat) fd cmds rest nd w (Hm 0%nat) Hs Hr Hf).
    fold (encoded cmds).
    destruct (run_requests _ _ _ _ _ _ _) as [[nd1 w1]| | | |]; try done. cbn [run_bind default fst snd].
    unfold id. rewrite Z.add_0_l.
    destruct (Z.eqb_spec (Z.of_nat (length (encoded cmds))) 0) as [He|Hne]; [by rewrite He|].
    simpl orb. change (0 <? 0) with false. cbn iota.
    destruct (length (encoded cmds ++ rest)) as [|calls] eqn:El; [lia|]. cbn [parse_loop].
    rewrite (proj2 (Z.ltb_ge (Z.of_nat (length (encoded cmds))) 0)), El by lia.
    destruct (_ <? _); [|done]. rewrite Nat2Z.id, drop_app_length.
    rewrite process_partial by (done || lia). done.
  - rewrite length_app in Hlen. rewrite (encoded_nil cmds) by lia. done.
Qed.

(** What the turn leaves in the receive buffer. *)
Lemma unparsed_rest cmds rest :
  (if 0 <? Z.of_nat (length (encoded cmds))
   then drop (Z.to_nat (Z.of_nat (length (encoded cmds)))) (encoded cmds ++ rest)
   else encoded cmds ++ rest) = rest.
Proof.
  destruct (Z.ltb_spec 0 (Z.of_nat (length (encoded cmds)))) as [|Hz].
  - by rewrite Nat2Z.id, drop_app_length.
  - by rewrite (encoded_nil cmds) by lia.
Qed.

(** The connection's fields after a turn. *)
Definition conn_ok (c : conn) : Prop :=
  0 < cn_rcapacity c /\ rlength c <= cn_rcapacity c.

Lemma grow_ok e c :
  mem_ok e -> conn_ok c -> rlength c < MAX_RBUFFER_SIZE ->
  exists cap, grow_rbuffer e c = Some (Conn (cn_fd c) (cn_role c) (cn_rbuffer c) cap (cn_w c)) /\
    rlength c < cap.
Proof.
  intros Hm [Hc Hl] Hlt. unfold grow_rbuffer. change MAX_RBUFFER_SIZE with 16777216 in *.
  destruct (Z.ltb_spec (cn_rcapacity c - rlength c) 65536) as [H1|H1];
    destruct (Z.ltb_spec (cn_rcapacity c) 16777216) as [H2|H2]; cbn [andb].
  2-4: exists (cn_rcapacity c); split; [by destruct c|lia].
  assert (0 <= rlength c) by (unfold rlength; lia).
  destruct (Z.ltb_spec (cn_rcapacity c * 2) 65536).
  - unfold alloc_ok. rewrite Hm. exists 65536. split; [done|lia].
  - unfold alloc_ok. rewrite Hm, (proj2 (Z.eqb_neq _ 0)) by lia. eexists. split; [done|lia].
Qed.

(** An iteration that receives. *)
Definition receives (it : iter) : Prop :=
  (exists n, it_recv it = RecvSome n) /\ mem_ok (it_env it) /\
  forall k, unpack_mem (it_turns it k).

Lemma send_replies_take n w : send_replies n w = (WBuf [] (wb_cap w), take n (wb_data w)).
Proof.
  unfold send_replies, wb_len. destruct w as [[|b l] cap]; [by destruct n|].
  destruct (Z.ltb_spec 0 (Z.of_nat (length (b :: l)))) as [|Hn]; [done|]. simpl in Hn. lia.
Qed.

Lemma send_replies_nil n w : wb_data w = [] -> send_replies n w = (w, []).
Proof. intros Hw. rewrite send_replies_take, Hw. destruct w, n; simpl in *; by subst. Qed.

Definition is_master (r : conn_role) : bool := match r with CONN_MASTER => true | _ => false end.

Lemma segments_served fuel its fd role cap wcap nd kept input cmds tail sent :
  Forall fits_buffer cmds -> kept_partial tail -> kept_partial kept ->
  encoded cmds ++ tail = kept ++ input -> (length cmds < fuel)%nat -> Forall receives its ->
  (length input <= length its)%nat -> conn_ok (Conn fd role kept cap (WBuf [] wcap)) ->
  exists gs cap', concat gs.*1 = cmds /\
    ((length gs <= length its)%nat \/
     forall x, serve_segments its gs fd (is_master role) nd wcap <> Ret x) /\
    client_run fuel its (Client (Conn fd role kept cap (WBuf [] wcap)) nd input sent)
    = let! r := serve_segments its gs fd (is_master role) nd wcap in
      let '(nd, wcap, outs) := r in
      Ret (Running (Client (Conn fd role tail cap' (WBuf [] wcap)) nd [] (sent ++ taken outs))).
Proof.
  intros Hc Ht Hk He Hf Hr. revert cap wcap nd kept input cmds sent Hc Hk He Hf.
  induction Hr as [|it its (Hrecv & Hmem & Hun) Hits IH];
    intros cap wcap nd kept input cmds sent Hc Hk He Hf Hlen Hok.
  - destruct input; [|simpl in Hlen; lia]. rewrite app_nil_r in He.
    destruct (partial_no_request kept cmds tail) as [-> ->]; [|apply Hk|apply Ht|done|].
    { eapply Forall_impl; [exact Hc|]. by intros a []. }
    exists [], cap. split; [done|]. split; [left; simpl; lia|].
    cbn. by rewrite app_nil_r.
  - destruct (grow_ok (it_env it) (Conn fd role kept cap (WBuf [] wcap)) Hmem Hok)
      as (cap1 & Hg & Hroom); [apply Hk|].
    destruct Hrecv as [n Hn]. cbn [client_run client_turn].
    rewrite (proj2 (Z.leb_gt _ _)) by apply Hk. rewrite Hg, Hn.
    destruct input as [|b input].
    + destruct (IH cap1 wcap nd kept [] cmds sent Hc Hk He Hf) as (gs & cap' & Hgs & Hle & Hrun);
        [simpl; lia|split; [|]; unfold rlength in *; simpl in *; lia|].
      exists (([], kept) :: gs), cap'. split; [done|].
      cbn [run_bind cn_fd cn_role cn_rbuffer cn_w]. rewrite Hrun.
      cbn [serve_segments run_requests run_bind].
      replace (default (WBuf [] wcap) _) with (WBuf [] wcap) by (by destruct is_master).
      cbn [fst snd wb_cap wb_data]. split.
      { destruct Hle as [Hle|Hle]; [left; simpl; lia|right]. intros x.
        destruct (serve_segments its gs fd (is_master role) nd wcap) eqn:E; try done.
        by destruct (Hle a). }
      destruct (serve_segments its gs fd (is_master role) nd wcap) as [[[nd1 c1] outs]| | | |];
        try done. cbn [run_bind]. unfold taken. rewrite fmap_cons. cbn [concat fst snd].
      by destruct (it_send it).
    + set (count := ((1 `max` n) `min` _)%nat). cbn [cn_rbuffer cn_rcapacity cn_fd cn_role cn_w].
      assert (Hcount : (1 <= count)%nat /\ Z.of_nat count <= cap1 - Z.of_nat (length kept)).
      { subst count. unfold rlength in *. simpl in Hroom |- *. lia. }
      rewrite (proj2 (Nat.eqb_neq count 0)) by lia.
      destruct (split_stream cmds tail (kept ++ take count (b :: input)) (drop count (b :: input)))
        as (cmds1 & cmds2 & rest & -> & HP & Hrest & HQ); [done|done| |].
      { by rewrite <- app_assoc, take_drop. }
      unfold client_serve. cbn [cn_rbuffer cn_rcapacity cn_fd cn_role cn_w]. rewrite HP.
      rewrite parse_loop_requests; [| done| |apply Hrest|rewrite length_app in Hf; lia].
      2: { apply Forall_app in Hc as [Hc _]. eapply Forall_impl; [exact Hc|]. by intros a []. }
      change (match role with CONN_MASTER => true | _ => false end) with (is_master role).
      destruct (run_requests (it_turns it 0%nat) 0 fd nd
        (if is_master role then None else Some (WBuf [] wcap)) cmds1 rest)
        as [[nd1 w1]| | | |] eqn:Erun.
      2-5: exists ((cmds1, rest) :: [(cmds2, [])]), cap1; split;
        [by cbn; rewrite app_nil_r|]; cbn [serve_segments]; rewrite Erun; by split; [right|].
      cbn [run_bind fst snd].
      rewrite unparsed_rest, send_replies_take. cbn [run_bind].
      set (w2 := default (WBuf [] wcap) w1).
      destruct (IH cap1 (wb_cap w2) nd1 rest (drop count (b :: input)) cmds2
                  (sent ++ take (it_send it) (wb_data w2)))
        as (gs & cap' & <- & Hle & Hrun).
      * by apply Forall_app in Hc as [_ Hc].
      * done.
      * done.
      * rewrite length_app in Hf. lia.
      * rewrite length_drop. simpl in Hlen |- *. lia.
      * apply (f_equal length) in HP. rewrite !length_app, length_take in HP.
        split; unfold rlength in *; simpl in *; lia.
      * exists ((cmds1, rest) :: gs), cap'. split; [done|]. rewrite Hrun.
        cbn [serve_segments]. rewrite Erun. cbn [run_bind fst snd]. fold w2. split.
        { destruct Hle as [Hle|Hle]; [left; simpl; lia|right]. intros x.
          destruct (serve_segments its gs fd (is_master role) nd1 (wb_cap w2)) eqn:E; try done.
          by destruct (Hle a). }
        destruct (serve_segments its gs fd (is_master role) nd1 (wb_cap w2))
          as [[[nd2 c2] outs]| | | |]; try done. cbn [run_bind]. unfold taken. rewrite fmap_cons.
        cbn [concat fst snd]. by rewrite app_assoc.
Qed.
End serve.

(** C6.  However the kernel cuts the bytes of a client into segments, and with
    memory for the buffers, every
    complete request is run exactly once, in order, with its own arguments, and
    what is left in the buffer at the end is the beginning of the next request.
    The peer gets, segment after segment, what the kernel takes of the replies
    of its requests, from their beginning, and all of the replies when the
    kernel takes them all.  There is a turn for each segment, unless a request
    ends the run. *)
Theorem requests_served_once `{AiOps} fuel its fd role nd cmds tail :
  Forall fits_buffer cmds -> kept_partial tail -> (length cmds < fuel)%nat ->
  Forall receives its -> (length (encoded cmds ++ tail) <= length its)%nat ->
  exists gs cap, concat gs.*1 = cmds /\
    ((length gs <= length its)%nat \/
     forall x, serve_segments its gs fd (is_master role) nd INIT_BUFFER_SIZE <> Ret x) /\
    client_run fuel its (Client (Conn fd role [] INIT_BUFFER_SIZE (WBuf [] INIT_BUFFER_SIZE)) nd
                           (encoded cmds ++ tail) [])
    = let! r := serve_segments its gs fd (is_master role) nd INIT_BUFFER_SIZE in
      let '(nd, wcap, outs) := r in
      Ret (Running (Client (Conn fd role tail cap (WBuf [] wcap)) nd []
                      (if decide (Forall (fun o => (length o.1 <= o.2)%nat) outs)
                       then concat outs.*1 else taken outs))).
Proof.
  intros Hc Ht Hf Hr Hl.
  destruct (segments_served fuel its fd role INIT_BUFFER_SIZE INIT_BUFFER_SIZE nd []
    (encoded cmds ++ tail) cmds tail []) as (gs & cap & Hgs & Hle & Hrun); [try done..|].
  { split; [apply partial_nil|done]. }
  exists gs, cap. split; [done|]. split; [done|]. rewrite Hrun.
  destruct (serve_segments _ _ _ _ _ _) as [[[nd' wcap] outs]| | | |]; [|done..]. cbn [run_bind].
  destruct (decide _) as [Hall|]; [|done]. by rewrite <- taken_all.
Qed.

(** ** Connections that stay open *)

(** A turn in which the peer neither closes nor fails. *)
Definition waits (it : iter) : Prop :=
  mem_ok (it_env it) /\ match it_recv it with RecvEnd => False | _ => True end.

(** A connection whose first byte does not begin a request is never
    closed and never served: the handler reports the error together with no
    parsed bytes, and the loop looks at the bytes first.  Whatever follows is
    received behind the wrong byte and nothing is ever answered. *)
Theorem bad_byte_never_closes `{AiOps} fuel its c nd input sent b l :
  cn_rbuffer c ++ input = b :: l -> b <> STAR -> conn_ok c -> wb_data (cn_w c) = [] ->
  Forall waits its ->
  exists c' input', client_run fuel its (Client c nd input sent)
    = Ret (Running (Client c' nd input' sent)).
Proof.
  intros Hb Hne Hok Hw Hits. revert c input l Hb Hok Hw.
  induction Hits as [|it its [Hmem Hrecv] Hits IH]; intros c input l Hb Hok Hw; [by exists c, input|].
  cbn [client_run client_turn].
  destruct (Z.leb_spec MAX_RBUFFER_SIZE (rlength c)) as [|Hlt]; [by apply (IH c input l)|].
  destruct (grow_ok (it_env it) c Hmem Hok Hlt) as (cap & -> & Hroom).
  set (c1 := Conn _ _ _ cap _).
  assert (Hok1 : conn_ok c1) by (destruct Hok; split; unfold rlength in *; simpl in *; lia).
  destruct (it_recv it) as [n| |]; [|by apply (IH c1 input l)|done].
  destruct input as [|x input]; [by apply (IH c1 [] l)|].
  set (count := ((1 `max` n) `min` _)%nat).
  assert (Hcount : (1 <= count)%nat /\ Z.of_nat count <= cap - rlength c).
  { subst count c1. unfold rlength in *. simpl in *. lia. }
  rewrite (proj2 (Nat.eqb_neq count 0)) by lia.
  unfold client_serve. cbn [cn_fd cn_role cn_rbuffer cn_rcapacity cn_w c1].
  set (buf := cn_rbuffer c ++ take count (x :: input)).
  assert (Hbuf : exists l', buf = b :: l').
  { unfold buf. destruct (cn_rbuffer c) as [|y buf0]; simpl in Hb; simplify_eq; [|by eexists].
    destruct count; [lia|]. by eexists. }
  destruct Hbuf as [l' Hbuf]. rewrite Hbuf. cbn [parse_loop length]. cbn [Z.ltb Z.compare].
  rewrite (proj2 (Z.ltb_lt 0 _)) by lia. rewrite drop_0.
  unfold protocol_process_stream at 1. rewrite bool_decide_false by done. cbn [negb run_bind default].
  set (w := if match cn_role c with CONN_MASTER => true | _ => false end then None else _).
  assert (Hd : default (cn_w c) w = cn_w c) by (unfold w; by destruct (cn_role c)).
  cbn. rewrite Hd, send_replies_nil by done. cbn [run_bind]. rewrite app_nil_r, <- Hbuf.
  apply (IH _ _ l).
  - simpl. unfold buf. rewrite <- app_assoc, take_drop. done.
  - destruct Hok. split; unfold rlength in *; subst buf; simpl in *;
      rewrite ?length_app, ?length_take; lia.
  - done.
Qed.

(** Once 16 MB of an incomplete request are in the buffer the connection
    is stuck: the loop sleeps without receiving, so that neither more bytes
    nor the peer's closing are ever noticed. *)
Theorem full_buffer_never_leaves `{AiOps} fuel its c nd input sent :
  MAX_RBUFFER_SIZE <= rlength c ->
  client_run fuel its (Client c nd input sent) = Ret (Running (Client c nd input sent)).
Proof.
  intros Hf. induction its as [|it its IH]; [done|]. cbn [client_run client_turn].
  rewrite (proj2 (Z.leb_le _ _)) by done. apply IH.
Qed.

(** ** Examples *)

(** Turns that receive up to [n] bytes each. *)
Definition sample_iter (n : nat) : iter :=
  Iter (call (sample_cmdenv 0) 0) (RecvSome n) (fun _ _ => sample_turn 9) 65536 (Uring true [] 0) 0.

Lemma sample_receives n : receives (sample_iter n).
Proof. split; [by exists n|]. done. Qed.

Lemma sample_fits : Forall fits_buffer sample_cmds.
Proof. repeat constructor; by vm_compute. Qed.

Lemma sample_kept : kept_partial sample_tail.
Proof. split; [apply sample_partial|by vm_compute]. Qed.

Lemma requests_served_once_witness :
  Forall fits_buffer sample_cmds /\ kept_partial sample_tail /\
  Forall receives (replicate 200 (sample_iter 7)) /\
  exists gs cap, concat gs.*1 = sample_cmds /\
    ((length gs <= length (replicate 200 (sample_iter 7)))%nat \/
     forall x, serve_segments (H := sample_ai) (replicate 200 (sample_iter 7)) gs 5 false
                 sample_node INIT_BUFFER_SIZE <> Ret x) /\
    client_run (H := sample_ai) 4 (replicate 200 (sample_iter 7))
      (Client (Conn 5 CONN_CLIENT [] INIT_BUFFER_SIZE (WBuf [] INIT_BUFFER_SIZE)) sample_node
         (encoded sample_cmds ++ sample_tail) [])
    = let! r := serve_segments (H := sample_ai) (replicate 200 (sample_iter 7)) gs 5 false
                  sample_node INIT_BUFFER_SIZE in
      let '(nd, wcap, outs) := r in
      Ret (Running (Client (Conn 5 CONN_CLIENT sample_tail cap (WBuf [] wcap)) nd []
                      (if decide (Forall (fun o => (length o.1 <= o.2)%nat) outs)
                       then concat outs.*1 else taken outs))).
Proof.
  assert (Hr : Forall receives (replicate 200 (sample_iter 7)))
    by (apply Forall_replicate, sample_receives).
  split; [exact sample_fits|]. split; [exact sample_kept|]. split; [exact Hr|].
  apply (requests_served_once (H := sample_ai) 4 (replicate 200 (sample_iter 7)) 5 CONN_CLIENT);
    [exact sample_fits|exact sample_kept|simpl; lia|exact Hr|by vm_compute; lia].
Defined.

(** What the client of the sample has received, and what is left in the
    buffer, for segments of the given size. *)
Definition sample_outcome (n : nat) : option (bytes * bytes) :=
  match client_run (H := sample_ai) 4 (replicate 200 (sample_iter n))
          (Client (Conn 5 CONN_CLIENT [] INIT_BUFFER_SIZE (WBuf [] INIT_BUFFER_SIZE)) sample_node
             (encoded sample_cmds ++ sample_tail) []) with
  | Ret (Running cl) => Some (cl_sent cl, cn_rbuffer (cl_conn cl))
  | _ => None
  end.

Example segments_do_not_matter :
  forallb (fun n => bool_decide (sample_outcome n = sample_outcome 1000)) [1; 2; 7; 20; 33]%nat
  = true.
Proof. by vm_compute. Qed.

Lemma bad_byte_never_closes_witness :
  exists c' input', client_run (H := sample_ai) 4 (replicate 3 (sample_iter 100))
    (Client (Conn 5 CONN_CLIENT [] INIT_BUFFER_SIZE (WBuf [] INIT_BUFFER_SIZE)) sample_node
       (str "GET k" ++ CRLF ++ resp_encode [str "PING"]) [])
    = Ret (Running (Client c' sample_node input' [])).
Proof.
  apply (bad_byte_never_closes (H := sample_ai) 4 (replicate 3 (sample_iter 100))
    (Conn 5 CONN_CLIENT [] INIT_BUFFER_SIZE (WBuf [] INIT_BUFFER_SIZE)) sample_node
    (str "GET k" ++ CRLF ++ resp_encode [str "PING"]) [] x47
    (str "ET k" ++ CRLF ++ resp_encode [str "PING"]));
    [done|done|done|done|].
  apply Forall_replicate. done.
Defined.

Lemma full_buffer_never_leaves_witness :
  MAX_RBUFFER_SIZE <= rlength (Conn 5 CONN_CLIENT (replicate (Z.to_nat MAX_RBUFFER_SIZE) STAR)
                                 MAX_RBUFFER_SIZE (WBuf [] 16)) /\
  forall it, client_run (H := sample_ai) 4 [it] (Client (Conn 5 CONN_CLIENT
      (replicate (Z.to_nat MAX_RBUFFER_SIZE) STAR) MAX_RBUFFER_SIZE (WBuf [] 16)) sample_node [] [])
    = Ret (Running (Client (Conn 5 CONN_CLIENT (replicate (Z.to_nat MAX_RBUFFER_SIZE) STAR)
                              MAX_RBUFFER_SIZE (WBuf [] 16)) sample_node [] [])).
Proof.
  assert (Hl : MAX_RBUFFER_SIZE <= rlength (Conn 5 CONN_CLIENT
    (replicate (Z.to_nat MAX_RBUFFER_SIZE) STAR) MAX_RBUFFER_SIZE (WBuf [] 16))).
  { unfold rlength. cbn [cn_rbuffer]. rewrite length_replicate, Z2Nat.id; [reflexivity|done]. }
  split; [exact Hl|]. intros it.
  apply (full_buffer_never_leaves (H := sample_ai) 4 [it] _ sample_node [] [] Hl).
Defined.
