(* ===== verification/SyncSpec.v ===== *)
(** * The slave's log is the master's (Sync.v)

    However the kernel cuts what [sendfile] and [splice] move, the slave
    writes to its log exactly the bytes the master's log had when its size was
    taken, and what the master sends next stays for the connection.  When the
    connection breaks the slave has lost the log it had, and serves the
    connection all the same. *)

From S2P Require Import Prelude KvData Engine Config Resp Repl Aof ExpireQueue Store Snapshot Ai.
From S2P Require Import Commands Lookup Protocol Net Server Sync.

Open Scope Z_scope.
Open Scope kvs_scope.

(** ** The size *)

Lemma lor_byte a b : 0 <= b < 256 -> Z.lor (Z.shiftl a 8) b = a * 256 + b.
Proof.
  intros Hb. pose proof (Z.add_lor_land (Z.shiftl a 8) b) as Hs.
  assert (Z.land (Z.shiftl a 8) b = 0) as Hl.
  { apply Z.bits_inj'. intros i Hi. rewrite Z.land_spec, Z.bits_0.
    destruct (Z.ltb_spec i 8) as [Hlt|Hge].
    - by rewrite Z.shiftl_spec_low.
    - rewrite (Z.bits_above_log2 b), andb_false_r; [done|lia|].
      destruct (Z.eq_dec b 0) as [->|]; [simpl; lia|].
      apply (Z.lt_le_trans _ 8); [|done]. apply Z.log2_lt_pow2; lia. }
  rewrite Hl, Z.shiftl_mul_pow2 in Hs by lia. rewrite Z.shiftl_mul_pow2 by lia. lia.
Qed.

Lemma be64_roundtrip n : 0 <= n < 2 ^ 64 -> be64toh (htobe64 n) = n.
Proof.
  intros Hn. unfold be64toh, htobe64. change (seqZ 0 8) with [0; 1; 2; 3; 4; 5; 6; 7].
  cbn [fmap list_fmap fold_left]. rewrite !lor_byte by apply b2z_range.
  rewrite !b2z_z2b, !Z.shiftr_div_pow2 by lia.
  change (8 * (7 - 0)) with 56. change (8 * (7 - 1)) with 48. change (8 * (7 - 2)) with 40.
  change (8 * (7 - 3)) with 32. change (8 * (7 - 4)) with 24. change (8 * (7 - 5)) with 16.
  change (8 * (7 - 6)) with 8. change (8 * (7 - 7)) with 0.
  assert (Hd : forall k, 0 <= k -> n / 2 ^ k = (n / 2 ^ (k + 8)) * 256 + (n / 2 ^ k) mod 256).
  { intros k Hk. rewrite Z.pow_add_r, <- Z.div_div by (apply Z.pow_nonzero; lia) || lia.
    rewrite (Z.div_mod (n / 2 ^ k) 256) at 1 by lia. change (2 ^ 8) with 256. lia. }
  rewrite (Z.mod_small (n / 2 ^ 56)), Z.mul_0_l, Z.add_0_l.
  2: { split; [apply Z.div_pos; lia|]. apply Z.div_lt_upper_bound; lia. }
  assert (Hs : forall k k', 0 <= k -> k' = k + 8 ->
    n / 2 ^ k' * 256 + (n / 2 ^ k) mod 256 = n / 2 ^ k) by (intros k ? Hk ->; by rewrite <- Hd).
  rewrite (Hs 48 56), (Hs 40 48), (Hs 32 40), (Hs 24 32), (Hs 16 24), (Hs 8 16), (Hs 0 8) by lia.
  apply Z.div_1_r.
Qed.

Lemma htobe64_length n : length (htobe64 n) = 8%nat.
Proof. done. Qed.

Lemma header_size n later :
  0 <= n < 2 ^ 64 ->
  be64toh (take 8 (htobe64 n ++ later)) = n /\ drop 8 (htobe64 n ++ later) = later.
Proof.
  intros Hn. rewrite take_app_le, take_ge by done.
  split; [by apply be64_roundtrip|]. by rewrite drop_app_length' by done.
Qed.

(** ** The loops *)

(** The calls fail never, are interrupted at will and move [n] times at
    least. *)
Fixpoint moves (ans : list io_answer) : option nat :=
  match ans with
  | [] => Some 0%nat
  | IoSome _ :: ans => S <$> moves ans
  | IoAgain :: ans => moves ans
  | _ :: _ => None
  end.

Definition enough (ans : list io_answer) (n : nat) : Prop := exists m, moves ans = Some m /\ (n <= m)%nat.

Lemma sendfile_loop_all ans content offset remaining :
  enough ans remaining -> (offset + remaining <= length content)%nat ->
  sendfile_loop ans content offset remaining = (take remaining (drop offset content), Some 0).
Proof.
  intros (m & Hm & Hle) Hlen. revert m offset remaining Hm Hle Hlen.
  induction ans as [|a ans IH]; intros m offset remaining Hm Hle Hlen; cbn [sendfile_loop];
    destruct (Nat.eqb_spec remaining 0) as [->|Hr]; [done| |done|].
  { injection Hm as <-. lia. }
  destruct a as [n| | |]; [| |done..].
  - cbn [moves] in Hm. apply fmap_Some in Hm as (m' & Hm' & ->).
    set (k := ((1 `max` n) `min` remaining)%nat).
    assert (Hk : length (take k (drop offset content)) = k) by (rewrite length_take, length_drop; lia).
    destruct (take k (drop offset content)) as [|b d] eqn:E; [simpl in Hk; lia|].
    rewrite Hk, (IH m') by (done || lia). f_equal. rewrite <- E.
    rewrite <- (take_drop k (take remaining _)), take_take, skipn_firstn_comm, drop_drop.
    by rewrite Nat.min_l by lia.
  - cbn [moves] in Hm. apply (IH m); done.
Qed.

Lemma splice_loop_all ans input pipe file spliced remaining :
  let left := match pipe with [] => remaining | _ => (remaining - spliced)%nat end in
  enough ans (length pipe + 2 * left) -> (left <= length input)%nat ->
  splice_loop ans input pipe file spliced remaining
  = Some (file ++ pipe ++ take left input, drop left input, 0%nat).
Proof.
  intros left (m & Hm & Hle) Hlen. subst left.
  revert m input pipe file spliced remaining Hm Hle Hlen.
  induction ans as [|a ans IH]; intros m input pipe file spliced remaining Hm Hle Hlen;
    cbn [splice_loop].
  { injection Hm as <-. destruct pipe as [|b pipe]; [|simpl in Hle; lia].
    assert (remaining = 0%nat) as -> by (simpl in Hle; lia). cbn [Nat.eqb].
    by rewrite take_0, !app_nil_r. }
  destruct pipe as [|b pipe].
  - destruct (Nat.eqb_spec remaining 0) as [->|Hr]; [by rewrite take_0, !app_nil_r|].
    destruct a as [n| | |]; [| |done..]; cbn [moves] in Hm.
    + apply fmap_Some in Hm as (m' & Hm' & ->).
      set (k := ((1 `max` n) `min` remaining)%nat).
      assert (Hk : length (take k input) = k) by (rewrite length_take; lia).
      destruct (take k input) as [|b d] eqn:E; [simpl in Hk; lia|].
      rewrite (IH m'); [|done|simpl in *; lia|rewrite length_drop; simpl in *; lia].
      rewrite Hk. rewrite <- E. rewrite drop_drop.
      replace (k + (remaining - k))%nat with remaining by lia. do 3 f_equal.
      rewrite <- (take_drop k (take remaining input)), take_take, skipn_firstn_comm.
      by rewrite Nat.min_l by lia.
    + by apply (IH m).
  - destruct a as [n| | |]; [| |done..]; cbn [moves] in Hm; [|by apply (IH m)].
    apply fmap_Some in Hm as (m' & Hm' & ->).
    set (k := (1 `max` n)%nat). cbn [app length] in *.
    assert (Hp : take k (b :: pipe) ++ drop k (b :: pipe) = b :: pipe) by apply take_drop.
    assert (Hd : (length (drop k (b :: pipe)) <= length pipe)%nat)
      by (rewrite length_drop; simpl; lia).
    destruct (drop k (b :: pipe)) as [|b' rest] eqn:E.
    + rewrite app_nil_r in Hp. rewrite (IH m'), Hp; [|done|simpl; lia|done].
      by rewrite <- app_assoc.
    + rewrite (IH m'); [|done|simpl in *; lia|done].
      rewrite <- (app_assoc file). by rewrite (app_assoc (take k (b :: pipe))), Hp.
Qed.

(** ** The transfer *)

(** The master's calls succeed and move everything. *)
Definition sends_all (e : tcp_env) (file : bytes) : Prop :=
  te_file e = Some file /\ te_open_ok e = true /\ te_header e = 8 /\
  enough (te_sendfile e) (length file).

Definition receives_all (e : recv_env) (file : bytes) : Prop :=
  re_header_ok e = true /\ re_open_ok e = true /\ re_pipe_ok e = true /\
  enough (re_splice e) (2 * length file).

Lemma tcp_sent fd e file :
  0 <= fd -> sends_all e file ->
  repl_sync_log_via_tcp fd e = (htobe64 (Z.of_nat (length file)) ++ file, Some 0).
Proof.
  intros Hfd (Hf & Ho & Hh & Ha). unfold repl_sync_log_via_tcp.
  rewrite (proj2 (Z.ltb_ge fd 0)), Hf, Ho, Hh by done. cbn [negb Z.eqb].
  change (8 =? 8) with true. cbn [negb]. rewrite take_ge by done.
  destruct file as [|b file]; [by rewrite app_nil_r|].
  rewrite sendfile_loop_all by (done || rewrite length_app; lia).
  by rewrite drop_0, take_app_length.
Qed.

Lemma tcp_received e file later :
  receives_all e file -> Z.of_nat (length file) < 2 ^ 63 -> file <> [] ->
  tcp_sendfile_recv_thread e (htobe64 (Z.of_nat (length file)) ++ file ++ later)
  = Some (Received (Some file) later false true SYNC_DONE).
Proof.
  intros (Hh & Ho & Hp & Ha) Hlen Hne. unfold tcp_sendfile_recv_thread.
  rewrite Hh, Ho, Hp.
  destruct (header_size (Z.of_nat (length file)) (file ++ later)) as [Hsz Hd]; [lia|].
  rewrite Hsz, Hd, length_app, htobe64_length. cbn [negb andb].
  rewrite (proj2 (Z.leb_le 8 _)) by lia. cbn [negb].
  rewrite (proj2 (Z.eqb_neq (Z.of_nat (length file)) 0)) by (destruct file; simpl; [done|lia]).
  rewrite Nat2Z.id, splice_loop_all by (done || simpl; rewrite ?length_app; lia).
  cbn [mbind option_bind app Nat.eqb]. by rewrite take_app_length, drop_app_length.
Qed.

(** What a result of the loops says of the bytes that came: the file holds the
    beginning of them, and all that was wanted when nothing remains. *)
Definition spliced_ok (input pipe file : bytes) (left : nat) (x : bytes * bytes * nat) : Prop :=
  let '(f, _, r) := x in
  (exists k, f = file ++ take k (pipe ++ input)) /\
  (r = 0%nat -> f = file ++ pipe ++ take left input /\ (left <= length input)%nat).

(** The loops stop where they are. *)
Lemma spliced_stop input pipe file left r :
  (r = 0%nat -> pipe = [] /\ left = 0%nat) -> spliced_ok input pipe file left (file, input, r).
Proof.
  intros Hr. split; [exists 0%nat; by rewrite app_nil_r|]. intros Hz. destruct (Hr Hz) as [-> ->].
  rewrite take_0, !app_nil_r. split; [done|lia].
Qed.

(** Bytes move from the pipe to the file. *)
Lemma spliced_pipe input p1 p2 file left x :
  spliced_ok input p2 (file ++ p1) left x -> spliced_ok input (p1 ++ p2) file left x.
Proof.
  destruct x as [[f i] r]. intros [[j ->] Hz]. split.
  - exists (length p1 + j)%nat. rewrite <- !app_assoc. f_equal.
    rewrite (take_app_ge p1) by lia. by rewrite Nat.add_comm, Nat.add_sub.
  - intros Hr. destruct (Hz Hr) as [-> Hl]. split; [by rewrite <- !app_assoc|done].
Qed.

(** Bytes move from the connection to the pipe. *)
Lemma spliced_input d input file remaining x :
  (length d <= remaining)%nat ->
  spliced_ok input d file (remaining - length d) x -> spliced_ok (d ++ input) [] file remaining x.
Proof.
  intros Hd. destruct x as [[f i] r]. intros [[j ->] Hz]. split; [by exists j|].
  intros Hr. destruct (Hz Hr) as [-> Hl]. split; [|rewrite length_app; lia].
  cbn [app]. by rewrite (take_app_ge d) by lia.
Qed.

(** Whatever the calls answer. *)
Lemma splice_loop_safe ans input pipe file spliced remaining x :
  splice_loop ans input pipe file spliced remaining = Some x ->
  match pipe with [] => True | _ => (length pipe <= spliced <= remaining)%nat end ->
  spliced_ok input pipe file match pipe with [] => remaining | _ => (remaining - spliced)%nat end x.
Proof.
  intros Hs Hp. revert input pipe file spliced remaining Hs Hp.
  induction ans as [|a ans IH]; intros input pipe file spliced remaining Hs Hp; cbn [splice_loop] in Hs.
  { destruct pipe as [|? pipe]; [|done]. destruct (remaining =? 0)%nat eqn:Hr; [|done].
    apply Nat.eqb_eq in Hr. subst remaining. injection Hs as <-. by apply spliced_stop. }
  destruct pipe as [|b pipe].
  - destruct (remaining =? 0)%nat eqn:Hr; [apply Nat.eqb_eq in Hr|apply Nat.eqb_neq in Hr].
    { subst remaining. injection Hs as <-. by apply spliced_stop. }
    destruct a as [n| | |]; [|by apply (IH _ [] _ spliced)|by injection Hs as <-; apply spliced_stop..].
    destruct (take ((1 `max` n) `min` remaining) input) as [|b d] eqn:E;
      [by injection Hs as <-; apply spliced_stop|].
    pose proof (f_equal length E) as Hk. rewrite length_take in Hk.
    rewrite <- (take_drop (length (b :: d)) input).
    assert (take (length (b :: d)) input = b :: d) as ->.
    { rewrite <- E. rewrite <- (take_drop ((1 `max` n) `min` remaining) input) at 2.
      by rewrite take_app_length. }
    apply IH in Hs; [|simpl in *; lia]. apply spliced_input; [simpl in *; lia|exact Hs].
  - destruct a as [n| | |]; [|by apply (IH _ (b :: pipe) _ spliced)
      |by injection Hs as <-; apply spliced_stop; simpl in Hp; lia..].
    set (k := (1 `max` n)%nat) in *.
    assert (Hd : (length (drop k (b :: pipe)) <= length pipe)%nat)
      by (rewrite length_drop; simpl; lia).
    rewrite <- (take_drop k (b :: pipe)) at 1.
    destruct (drop k (b :: pipe)) as [|b' rest]; (apply IH in Hs; [|simpl in *; lia || done]);
      by apply spliced_pipe.
Qed.

(** ** What the transfer promises *)

(** The slave's log becomes the log the master had when it took the size,
    although the master goes on appending to it: however [sendfile] and
    [splice] cut the bytes and as often as they are interrupted, the slave
    writes that log, replays it and answers SYNC_DONE, and the commands the
    master sends behind it stay for the connection. *)
Theorem tcp_transfer fd em es file later :
  0 <= fd -> sends_all em file -> receives_all es file -> Z.of_nat (length file) < 2 ^ 63 ->
  file <> [] ->
  exists wire, repl_sync_log_via_tcp fd em = (wire, Some 0) /\
    tcp_sendfile_recv_thread es (wire ++ later) = Some (Received (Some file) later false true SYNC_DONE).
Proof.
  intros Hfd Hs Hr Hlen Hne. eexists. split; [by apply tcp_sent|].
  rewrite <- app_assoc. by apply tcp_received.
Qed.

(** When the connection breaks after [k] bytes of the log, the slave
    replays nothing and answers nothing, but its own log is lost: it holds the
    beginning of the master's; the connection is served as if the transfer had
    been complete. *)
Theorem broken_sync_loses_log `{AiOps} fuel b e fd file k nd rc :
  Z.of_nat (length file) < 2 ^ 63 -> (k < length file)%nat ->
  re_header_ok e = true -> re_open_ok e = true ->
  tcp_sendfile_recv_thread e (htobe64 (Z.of_nat (length file)) ++ take k file) = Some rc ->
  (exists j, rc_file rc = Some (take j file) /\ (j <= k)%nat) /\ rc_replay rc = false /\ rc_sent rc = [] /\
  slave_init_tcp fuel b e fd (htobe64 (Z.of_nat (length file)) ++ take k file) nd
  = Ret (Running (Client (master_conn fd) nd (rc_input rc) SYNC)).
Proof.
  intros Hlen Hk Hh Ho Hrc.
  enough ((exists j, rc_file rc = Some (take j file) /\ (j <= k)%nat) /\ rc_replay rc = false /\
    rc_sent rc = []) as (H1 & H2 & H3).
  { split_and!; [done..|]. unfold slave_init_tcp. rewrite Hrc, H2, H3. cbn [run_bind].
    by rewrite app_nil_r. }
  unfold tcp_sendfile_recv_thread in Hrc.
  destruct (header_size (Z.of_nat (length file)) (take k file)) as [Hsz Hd]; [lia|].
  rewrite Hh, Ho, Hsz, Hd, length_app, htobe64_length in Hrc. cbn [negb andb] in Hrc.
  rewrite (proj2 (Z.leb_le 8 _)), (proj2 (Z.eqb_neq (Z.of_nat (length file)) 0)) in Hrc by lia.
  cbn [negb] in Hrc. destruct (re_pipe_ok e); cbn [negb] in Hrc.
  2: { injection Hrc as <-. split; [exists 0%nat; split; [done|lia]|done]. }
  rewrite Nat2Z.id in Hrc.
  destruct (splice_loop _ _ _ _ _ _) as [[[f i] r]|] eqn:E; [|done].
  cbn [mbind option_bind] in Hrc. apply splice_loop_safe in E as [[j ->] Hz]; [|done].
  destruct (Nat.eqb_spec r 0) as [->|_].
  - destruct (Hz eq_refl) as [_ Hl]. rewrite length_take in Hl. lia.
  - injection Hrc as <-. cbn [rc_file rc_replay rc_sent app]. split; [|done].
    exists (j `min` k)%nat. split; [by rewrite take_take|lia].
Qed.

(** ** Examples *)

Definition sample_log : bytes := resp_encode [str "RSET"; str "k"; str "v"].

Definition sample_send : tcp_env :=
  TcpEnv (Some sample_log) (str "more") true 8 (IoSome 5 :: IoAgain :: repeat (IoSome 2) 40).

Definition sample_recv : recv_env :=
  RecvEnv true true true (IoAgain :: IoSome 7 :: IoSome 3 :: IoAgain :: repeat (IoSome 1) 80).

Lemma tcp_transfer_witness :
  0 <= 7 /\ sends_all sample_send sample_log /\ receives_all sample_recv sample_log /\
  exists wire, repl_sync_log_via_tcp 7 sample_send = (wire, Some 0) /\
    tcp_sendfile_recv_thread sample_recv (wire ++ str "*2")
    = Some (Received (Some sample_log) (str "*2") false true SYNC_DONE).
Proof.
  assert (Hs : sends_all sample_send sample_log).
  { split_and!; try done. exists 41%nat. split; [done|]. vm_compute. lia. }
  assert (Hr : receives_all sample_recv sample_log).
  { split_and!; try done. exists 82%nat. split; [done|]. vm_compute. lia. }
  split; [done|]. split; [done|]. split; [done|].
  apply tcp_transfer; [done..|by vm_compute|by vm_compute].
Defined.

Definition broken_recv : recv_env := RecvEnv true true true [IoSome 5; IoSome 5; IoSome 9; IoSome 2; IoFail].

Lemma broken_sync_loses_log_witness :
  exists rc, tcp_sendfile_recv_thread broken_recv
      (htobe64 (Z.of_nat (length sample_log)) ++ take 11 sample_log) = Some rc /\
    (exists j, rc_file rc = Some (take j sample_log) /\ (j <= 11)%nat) /\
    rc_replay rc = false /\ rc_sent rc = [] /\
    @slave_init_tcp sample_ai 9 (Boot (tn_cmd (sample_turn 9)) 1 None None true true true true true
                                  (fun _ => sample_turn 9))
      broken_recv 7 (htobe64 (Z.of_nat (length sample_log)) ++ take 11 sample_log) sample_node
    = Ret (Running (Client (master_conn 7) sample_node (rc_input rc) SYNC)).
Proof.
  eexists. split; [vm_compute; reflexivity|].
  apply (broken_sync_loses_log (H := sample_ai)); try done; vm_compute; lia.
Defined.
