(* ===== verification/System.v ===== *)
(** * The running server (ntyco.c, expire.c)

    The coroutines of [ntyco_start] share one node and the table of
    connections; the expiry thread runs beside them on its heap and the two
    queues.  A step is a turn of one of them, up to the point where it gives
    the processor to the others: accepting a connection, starting its
    coroutine, a turn of it on whatever the peer has sent, the deletions, the
    flush of the log, the backlog, the slave's start, and the thread.  The
    thread's turn is taken as one step; Timers.v shows what it consists of and
    that the two queues stand the finer interleaving. *)

From S2P Require Import Prelude KvData Engine Config Resp Repl Aof ExpireQueue Expire Store Ai.
From S2P Require Import Commands Lookup Protocol Net Server Sync.

Open Scope Z_scope.
Open Scope kvs_scope.

(** Where the expiry thread is: at the head of its loop, or waiting to put an
    item into the full delete queue. *)
Inductive thread_pc :=
| ThreadTop
| ThreadPush (now : Z) (item : expire_item).

(** The node, the expiry thread's heap, queue and place, [ntyco_conn_list],
    and the connections whose coroutine was created and whose coroutine
    runs. *)
Record system := System {
  sy_node : node;
  sy_heap : min_heap;
  sy_delq : expire_queue;
  sy_thread : thread_pc;
  sy_conns : gmap Z conn;
  sy_new : gset Z;
  sy_live : gset Z
}.

Definition with_node (nd : node) (s : system) : system :=
  System nd (sy_heap s) (sy_delq s) (sy_thread s) (sy_conns s) (sy_new s) (sy_live s).

Definition with_conns (conns : gmap Z conn) (new live : gset Z) (s : system) : system :=
  System (sy_node s) (sy_heap s) (sy_delq s) (sy_thread s) conns new live.

(** A turn of [expire_thread_routine]; [ok] is the heap's reallocation. *)
Definition thread_turn (ok : bool) (now : Z) (s : system) : res system :=
  let nd := sy_node s in
  let next q h dq (held : option expire_item) now :=
    System (Node (with_cmdq q (nd_sv nd)) (nd_aof nd)) h dq
      (match held with Some item => ThreadPush now item | None => ThreadTop end)
      (sy_conns s) (sy_new s) (sy_live s) in
  match sy_thread s with
  | ThreadTop =>
    let* r := expire_turn ok now (sv_cmdq (nd_sv nd)) (sy_heap s) (sy_delq s) in
    let '(q, h, dq, held) := r in Ok (next q h dq held now)
  | ThreadPush now item =>
    match queue_push (sy_delq s) item with
    | (dq, 0) =>
      let '(h, dq, held) := deliver_due (length (hp_data (sy_heap s))) now (sy_heap s) dq in
      Ok (next (sv_cmdq (nd_sv nd)) h dq held now)
    | _ => Ok s
    end
  end.

Section system.
Context `{AiOps}.

(** Before [ntyco_start]. *)
Definition system_start (nd : node) : system :=
  System nd (heap_init 4096) queue_zero ThreadTop ∅ ∅ ∅.

(** The end of a connection's coroutine. *)
Definition close_conn (fd : Z) (nd : node) (s : system) : system :=
  with_node nd (with_conns (ntyco_close_and_free_connection fd (sy_conns s)) (sy_new s)
                  (sy_live s ∖ {[fd]}) s).

Definition with_fd (fd : Z) (c : conn) : conn :=
  Conn fd (cn_role c) (cn_rbuffer c) (cn_rcapacity c) (cn_w c).

(** A turn of the coroutine of [fd], with what the kernel holds for it.  The
    coroutine works on the entry of the table, which another may have zeroed,
    and with the descriptor it was started with. *)
Definition client_step (fuel : nat) (it : iter) (fd : Z) (input : bytes) (s : system) : run system :=
  match sy_conns s !! fd with
  | None => Ret s
  | Some c =>
    let! r := client_turn fuel it (Client (with_fd fd c) (sy_node s) input []) in
    Ret (match r with
         | Running cl =>
           with_node (cl_node cl) (with_conns (<[fd := with_fd (cn_fd c) (cl_conn cl)]> (sy_conns s))
                                    (sy_new s) (sy_live s) s)
         | Closed nd _ => close_conn fd nd s
         end)
  end.

(** The head of [ntyco_client_co]. *)
Definition client_start (e : cenv) (fd : Z) (s : system) : system :=
  match sy_conns s !! fd with
  | None => s
  | Some c =>
    match client_init e c with
    | Some c => with_conns (<[fd := c]> (sy_conns s)) (sy_new s ∖ {[fd]}) (sy_live s ∪ {[fd]}) s
    | None => close_conn fd (sy_node s) (with_conns (sy_conns s) (sy_new s ∖ {[fd]}) (sy_live s) s)
    end
  end.

(** After a turn of [ntyco_master_repl_send_co]: a slave that was dropped loses
    its entry. *)
Definition backlog_sent (r : repl) (s : system) : system :=
  let sv := nd_sv (sy_node s) in
  let old := g_slave_fd (sv_repl sv) in
  let conns := if g_slave_fd r =? old then sy_conns s
               else ntyco_close_and_free_connection old (sy_conns s) in
  with_node (Node (with_repl r sv) (nd_aof (sy_node s))) (with_conns conns (sy_new s) (sy_live s) s).

(** A turn of one of the coroutines, or of the expiry thread.  Whoever hands
    over a connection gives a send buffer that holds what it says. *)
Inductive system_step (fuel : nat) : system -> system -> Prop :=
| step_accept clientfd create_ok conns fd s :
    accept_client clientfd create_ok (sy_conns s) = (conns, fd) ->
    system_step fuel s
      (with_conns conns (match fd with Some fd => sy_new s ∪ {[fd]} | None => sy_new s end) (sy_live s) s)
| step_start e fd s :
    fd ∈ sy_new s -> system_step fuel s (client_start e fd s)
| step_client it fd input s s' :
    fd ∈ sy_live s -> client_step fuel it fd input s = Ret s' -> system_step fuel s s'
| step_expire ts q nd s :
    expire_co_turn ts (sy_delq s) (sy_node s) = Ret (q, nd) ->
    system_step fuel s
      (System nd (sy_heap s) q (sy_thread s) (sy_conns s) (sy_new s) (sy_live s))
| step_flush g u now s :
    system_step fuel s (with_node (persistence_co_turn g u now (sy_node s)) s)
| step_backlog sends r out s :
    master_repl_send (sv_repl (nd_sv (sy_node s))) sends = (r, out) ->
    system_step fuel s (backlog_sent r s)
| step_slave b e fd input cl s :
    slave_init_tcp fuel b e fd input (sy_node s) = Ret (Running cl) ->
    system_step fuel s
      (with_node (cl_node cl)
         (with_conns (<[fd := cl_conn cl]> (sy_conns s)) (sy_new s) (sy_live s ∪ {[fd]}) s))
| step_host e fd w conns started s :
    wb_len w <= wb_cap w -> ntyco_host_slave_connection e fd w (sy_conns s) = (conns, started) ->
    system_step fuel s
      (with_conns conns (if started then sy_new s ∪ {[fd]} else sy_new s) (sy_live s) s)
| step_thread ok now s s' :
    thread_turn ok now s = Ok s' -> system_step fuel s s'.
End system.
