(* ===== verification/ReplicaSpec.v ===== *)
(** * Master and slave agree

    The protocol layer, the backlog, the transfer of the log, the recovery and
    the connection to the master, put together: a slave that asks for the log
    and then receives the backlog has the effect of every write command the
    master ran, before SYNC and after it, in order.  The log the master sends
    is what the disk has: a command that waits in the append buffer when SYNC
    arrives is neither in the log sent nor in the backlog, and the slave never
    has it. *)

From S2P Require Import ArrayEngine HashEngine RbTree SkipList.
From S2P Require Import Prelude KvData Engine EngineSpec Config Resp Repl Aof ExpireQueue Store.
From S2P Require Import Snapshot Ai Commands Lookup CommandSpec Protocol ProtocolSpec Server RestartSpec Net Sync SyncSpec.

Open Scope Z_scope.
Open Scope kvs_scope.

(** ** One write command *)

Section write.
Context `{AiOps}.

Lemma exec_write t s w r :
  cmd_mem_ok (tn_cmd t) -> write_ok w -> store_inv (sv_eng s) ->
  writes_fit (store_abs (sv_eng s)) [w] ->
  exists cmd x, found_command (request_at (write_args w) r) = Ok cmd /\
    kvs_execute_batch (tn_cmd t) s cmd (request_at (write_args w) r) = Ok x /\
    store_inv (sv_eng x.1) /\ store_abs (sv_eng x.1) ≡ apply_write (store_abs (sv_eng s)) w /\
    sv_repl x.1 = sv_repl s.
Proof.
  intros Hm Hw Hi Hf. destruct (recover_write t s w r Hm Hw Hi Hf) as (s' & He & Hs').
  rewrite recover_write_request in He;
    [|apply Hm|by apply write_request_nonempty, write_ok_request].
  destruct (found_command _) as [cmd|]; [|done]. cbn [of_res run_bind] in He. exists cmd.
  destruct (kvs_execute_batch _ _ _ _) as [x|]; [|done]. exists x. by injection He as <-.
Qed.

Lemma with_repl_abs r s : sv_eng (with_repl r s) = sv_eng s.
Proof. done. Qed.

(** The log of a server gets the bytes when its buffer has room. *)
Lemma aof_write_room us a data :
  aof_fd_open a = true -> 0 < zlen data -> zlen (aof_buf_active a) + zlen data <= AOF_BUF_SIZE ->
  kvs_persistence_write us a data = Done (aof_append data a).
Proof.
  intros Ho Hd Hr. unfold kvs_persistence_write. rewrite Ho. cbn [negb orb].
  assert (0 <= zlen (aof_buf_active a)) by (unfold zlen; lia).
  rewrite (proj2 (Z.leb_gt _ _)), (proj2 (Z.ltb_ge _ _)) by lia.
  destruct us; cbn [aof_make_room]; by rewrite (proj2 (Z.leb_le _ _)).
Qed.

(** ** The master *)

(** The master's configuration: it feeds slaves over TCP. *)
Definition feeds (g : globals) : Prop :=
  g_enable_repl_master g = true /\ g_use_tcp_sync g = true.

Lemma push_wanted g e i r data r' :
  backlog_push e i r data = Ok r' -> backlog_wanted g r' = backlog_wanted g r.
Proof.
  unfold backlog_push. destruct (_ <? _); [|by intros [= <-]].
  by destruct (alloc_ok _ _ _); [intros [= <-]|].
Qed.

Lemma log_write_master t nd raw nd' :
  cmd_mem_ok (tn_cmd t) -> backlog_wanted (tn_glob t) (sv_repl (nd_sv nd)) = true ->
  backlog_ok (sv_repl (nd_sv nd)) -> g_repl_backlog_count (sv_repl (nd_sv nd)) < REPL_BACKLOG_MAX ->
  raw <> [] -> log_write t nd raw = Ret nd' ->
  sv_eng (nd_sv nd') = sv_eng (nd_sv nd) /\ backlog_ok (sv_repl (nd_sv nd')) /\
  backlog_queue (sv_repl (nd_sv nd')) = backlog_queue (sv_repl (nd_sv nd)) ++ [raw] /\
  backlog_wanted (tn_glob t) (sv_repl (nd_sv nd')) = true.
Proof.
  intros Hm Hwant Hok Hc Hne. unfold log_write. rewrite Hwant.
  destruct (if aof_enabled _ then _ else _) as [a| | | |]; try done. cbn [run_bind].
  destruct (backlog_push_queue (call (tn_cmd t) 52) 0 (sv_repl (nd_sv nd)) raw Hok Hc)
    as (r' & Hp & Hok' & Hq).
  { unfold alloc_ok. rewrite (Hm 52%nat). by destruct raw. }
  rewrite Hp. cbn [of_res run_bind]. intros [= <-]. cbn [nd_sv]. unfold with_repl.
  cbn [sv_eng sv_repl]. split_and!; [done..|]. by rewrite (push_wanted _ _ _ _ _ _ Hp).
Qed.

(** The kernel takes at least a byte of a node and no more than it has, and
    the connection does not break. *)
Definition sends_ok (r : repl) (max : nat) (sends : list send_result) : Prop :=
  takes_ok r max sends /\ Forall (fun s => s <> SendFail) sends.

Lemma send_wanted g r s :
  s <> SendFail -> backlog_wanted g (backlog_send r s).1.1 = backlog_wanted g r.
Proof. intros Hs. destruct s; [|done..]. simpl. by destruct (_ =? _). Qed.

Lemma send_loop_wanted g max sends r :
  Forall (fun s => s <> SendFail) sends ->
  backlog_wanted g (backlog_send_loop r max sends).1 = backlog_wanted g r.
Proof.
  intros Hs. revert max r. induction Hs as [|s sends Hs _ IH]; intros [|max] r; try done.
  cbn [backlog_send_loop]. destruct (_ <? _); [|done]. pose proof (send_wanted g r s Hs) as Hw.
  destruct (backlog_send r s) as [[r1 o1] []]; [|done]. cbn [fst] in Hw. rewrite <- Hw, <- (IH max r1).
  by destruct (backlog_send_loop r1 max sends).
Qed.

Lemma send_loop_ok g r max sends r' out :
  backlog_ok r -> sends_ok r max sends -> backlog_send_loop r max sends = (r', out) ->
  backlog_ok r' /\ concat (backlog_queue r) = out ++ concat (backlog_queue r') /\
  backlog_wanted g r' = backlog_wanted g r.
Proof.
  intros Hok [Ht Hs] Hl. destruct (send_loop_fifo _ _ _ _ _ Hok Ht Hl) as [? ?].
  split_and!; [done..|]. by rewrite <- (send_loop_wanted g max sends r Hs), Hl.
Qed.
End write.

Section replica.
Context `{AiOps}.

(** A request that names SYNC or SYNC_DONE and nothing else. *)
Definition sync_at (r : bytes) : resp_request := request_at [str "SYNC"] r.
Definition sync_done_at (r : bytes) : resp_request := request_at [str "SYNC_DONE"] r.

(** A reply that says nothing. *)
Lemma pack_silent e w w' :
  pack_to e w (status_reply KVS_RESP_ERROR) = Ok w' ->
  default [] (wb_data <$> w') = default [] (wb_data <$> w).
Proof.
  destruct w as [w|]; [|by intros [= <-]]. cbn [pack_to].
  destruct (resp_pack_with_realloc _ _ _ _) as [w1|] eqn:E; [|done]. intros [= <-].
  apply resp_pack_with_realloc_grows in E as [E|(p & Hp & E)]; [done|]. injection Hp as <-.
  cbn [fmap option_fmap option_map default]. by rewrite E, app_nil_r.
Qed.

Lemma process_sync t fd nd w r :
  feeds (tn_glob t) ->
  process_request t fd nd w SYNC (sync_at r)
  = let! w := of_res (pack_to (call (tn_cmd t) 54) w (status_reply KVS_RESP_ERROR)) in
    Ret (Node (with_repl (backlog_sync (set_slave_fd fd (sv_repl (nd_sv nd)))) (nd_sv nd)) (nd_aof nd), w).
Proof.
  intros [Hg Ht].
  assert (Hl : exists cmd, lookup_command (str "SYNC" ++ CRLF ++ [] ++ r) 4 = Ok (Some cmd) /\
    cmd_proc cmd = cmd_sys_sync) by find_command.
  destruct Hl as (cmd & Hl & Hp). unfold process_request, special_repl. rewrite Hg, Ht.
  change (req_is (str "RDMA_CONNECT") (sync_at r)) with false.
  change (req_is (str "SYNC") (sync_at r)) with true.
  change (req_is (str "PING") (sync_at r)) with false.
  cbn [andb run_bind orb nd_sv nd_aof].
  change (0 <? req_argc (sync_at r)) with true. cbn [andb].
  change (argn (sync_at r) 0) with (Ok (Arg (str "SYNC" ++ CRLF ++ [] ++ r) 4)).
  cbn [of_res run_bind arg_ptr arg_len]. rewrite Hl. cbn [of_res run_bind].
  change (match req_argv (sync_at r) !! 0%nat with
          | Some a => is_write_command (arg_ptr a) (arg_len a) | None => false end) with false.
  cbn [run_bind]. unfold kvs_execute_batch. rewrite Hp. unfold cmd_sys_sync, done. by cbn [of_res run_bind].
Qed.

Lemma process_sync_done t fd nd w r :
  process_request t fd nd w SYNC_DONE (sync_done_at r)
  = let! w := of_res (pack_to (call (tn_cmd t) 54) w (status_reply KVS_RESP_ERROR)) in
    Ret (Node (with_rdma_ctx false (with_repl (backlog_sync_done (sv_repl (nd_sv nd))) (nd_sv nd)))
           (nd_aof nd), w).
Proof.
  assert (Hl : exists cmd, lookup_command (str "SYNC_DONE" ++ CRLF ++ [] ++ r) 9 = Ok (Some cmd) /\
    cmd_proc cmd = cmd_sys_sync_done) by find_command.
  destruct Hl as (cmd & Hl & Hp). unfold process_request, special_repl.
  change (req_is (str "RDMA_CONNECT") (sync_done_at r)) with false.
  change (req_is (str "SYNC") (sync_done_at r)) with false.
  change (req_is (str "PING") (sync_done_at r)) with false. rewrite andb_false_r.
  destruct (g_enable_repl_master (tn_glob t)); cbn [run_bind orb nd_sv nd_aof].
  all: change (0 <? req_argc (sync_done_at r)) with true; cbn [andb].
  all: change (argn (sync_done_at r) 0) with (Ok (Arg (str "SYNC_DONE" ++ CRLF ++ [] ++ r) 9)).
  all: cbn [of_res run_bind arg_ptr arg_len]; rewrite Hl; cbn [of_res run_bind].
  all: change (match req_argv (sync_done_at r) !! 0%nat with
          | Some a => is_write_command (arg_ptr a) (arg_len a) | None => false end) with false.
  all: cbn [run_bind]; unfold kvs_execute_batch; rewrite Hp; unfold cmd_sys_sync_done, done; by cbn [of_res run_bind].
Qed.

(** What the master does after SYNC: clients' write commands, turns of the
    coroutine that sends the backlog, the slave's SYNC_DONE, turns of the
    coroutine that writes the log.  The run keeps the writes and the bytes
    sent. *)
Inductive master_run (g : globals) : node -> list write -> bytes -> node -> Prop :=
| mr_start nd : master_run g nd [] [] nd
| mr_write nd ws wire nd1 t fd w buf r nd2 buf2 :
  master_run g nd ws wire nd1 -> tn_glob t = g -> cmd_mem_ok (tn_cmd t) -> write_ok w ->
  g_repl_backlog_count (sv_repl (nd_sv nd1)) < REPL_BACKLOG_MAX ->
  writes_fit (store_abs (sv_eng (nd_sv nd1))) [w] ->
  process_request t fd nd1 buf (resp_encode (write_args w)) (request_at (write_args w) r)
    = Ret (nd2, buf2) ->
  master_run g nd (ws ++ [w]) wire nd2
| mr_send nd ws wire nd1 sends r out :
  master_run g nd ws wire nd1 -> sends_ok (sv_repl (nd_sv nd1)) 100 sends ->
  master_repl_send (sv_repl (nd_sv nd1)) sends = (r, out) ->
  master_run g nd ws (wire ++ out) (Node (with_repl r (nd_sv nd1)) (nd_aof nd1))
| mr_done nd ws wire nd1 t fd buf r nd2 buf2 :
  master_run g nd ws wire nd1 ->
  process_request t fd nd1 buf SYNC_DONE (sync_done_at r) = Ret (nd2, buf2) ->
  master_run g nd ws wire nd2
| mr_flush nd ws wire nd1 u now :
  master_run g nd ws wire nd1 -> master_run g nd ws wire (persistence_co_turn g u now nd1).

(** Where the master stands between two steps. *)
Record master_inv (g : globals) (m : dbs) (ws : list write) (wire : bytes) (nd : node) : Prop := {
  mi_store : store_inv (sv_eng (nd_sv nd));
  mi_content : store_abs (sv_eng (nd_sv nd)) ≡ apply_writes m ws;
  mi_backlog : backlog_ok (sv_repl (nd_sv nd));
  mi_wanted : backlog_wanted g (sv_repl (nd_sv nd)) = true;
  mi_queue : log_of ws = wire ++ concat (backlog_queue (sv_repl (nd_sv nd)))
}.

Lemma log_of_snoc ws w : log_of (ws ++ [w]) = log_of ws ++ resp_encode (write_args w).
Proof. rewrite log_of_app. unfold log_of at 2. cbn [fmap list_fmap concat]. by rewrite app_nil_r. Qed.

Lemma master_write g m ws wire nd1 t fd w buf r nd2 buf2 :
  master_inv g m ws wire nd1 -> tn_glob t = g -> cmd_mem_ok (tn_cmd t) -> write_ok w ->
  g_repl_backlog_count (sv_repl (nd_sv nd1)) < REPL_BACKLOG_MAX ->
  writes_fit (store_abs (sv_eng (nd_sv nd1))) [w] ->
  process_request t fd nd1 buf (resp_encode (write_args w)) (request_at (write_args w) r)
    = Ret (nd2, buf2) ->
  master_inv g m (ws ++ [w]) wire nd2.
Proof.
  intros [Hi Ha Hok Hwant Hq] Hg Hm Hw Hc Hf.
  rewrite process_write by (by apply write_ok_request). 
  destruct (log_write t nd1 _) as [nd'| | | |] eqn:El;
    try (by destruct (found_command _)).
  apply log_write_master in El as (He & Hok' & Hq' & Hwant'); [|done|by rewrite Hg|done|done|].
  2: { pose proof (encode_nonempty (write_args w)) as Hn. intros Hz. by rewrite Hz in Hn. }
  destruct (exec_write t (nd_sv nd') w r Hm Hw) as (cmd & x & Hcmd & Hx & Hix & Hax & Hrx);
    [by rewrite He|by rewrite He|].
  rewrite Hcmd. cbn [of_res run_bind]. rewrite Hx. cbn [of_res run_bind].
  destruct (pack_to _ _ _) as [w'|]; [|done]. intros [= <- _].
  split; cbn [nd_sv]; [done| |by rewrite Hrx|by rewrite Hrx, <- Hg|].
  - by rewrite Hax, He, Ha, apply_writes_app.
  - rewrite Hrx, Hq', log_of_snoc, Hq, concat_app. cbn [concat]. by rewrite app_nil_r, app_assoc.
Qed.

Lemma done_wanted g r :
  feeds g -> backlog_wanted g r = true -> backlog_wanted g (backlog_sync_done r) = true.
Proof.
  intros [Hm Ht]. unfold backlog_wanted. rewrite Hm, Ht.
  cbn [backlog_sync_done g_slave_fd g_sync_file_done g_repl_backlog_enabled].
  by destruct (0 <? g_slave_fd r).
Qed.

Lemma master_run_inv g m nd ws wire nd' :
  feeds g -> master_inv g m [] [] nd -> master_run g nd ws wire nd' -> master_inv g m ws wire nd'.
Proof.
  intros Hg H0. induction 1 as [|nd ws wire nd1 t fd w buf r nd2 buf2 _ IH Ht Hm Hw Hc Hf Hr
    |nd ws wire nd1 sends r out _ IH Hs Hr|nd ws wire nd1 t fd buf r nd2 buf2 _ IH Hr
    |nd ws wire nd1 u now _ IH].
  - done.
  - by eapply master_write; [apply IH|..].
  - destruct (IH H0) as [Hi Ha Hok Hwant Hq]. unfold master_repl_send in Hr.
    destruct (_ && _); [|injection Hr as <- <-; by split; rewrite ?app_nil_r].
    destruct (send_loop_ok g _ _ _ _ _ Hok Hs Hr) as (Hok' & Hq' & Hw').
    split; cbn [nd_sv with_repl sv_eng sv_repl]; [done..|by rewrite Hw'|].
    by rewrite Hq, Hq', app_assoc.
  - destruct (IH H0) as [Hi Ha Hok Hwant Hq].
    rewrite process_sync_done in Hr. destruct (pack_to _ _ _) as [w'|]; [|done]. cbn [of_res run_bind] in Hr.
    injection Hr as <- _. destruct Hok as [Hh Hcc Htl].
    split; cbn [nd_sv with_rdma_ctx with_repl sv_eng sv_repl]; [done|done|by split
      |by apply done_wanted|done].
  - destruct (IH H0) as [Hi Ha Hok Hwant Hq]. unfold persistence_co_turn.
    by destruct (aof_enabled g); split.
Qed.
(** ** The slave *)

(** A turn of a server that keeps a log and feeds nobody. *)
Definition slave_turn (t : turn) : Prop := logs_alone t /\ cmd_mem_ok (tn_cmd t).

(** A node whose log has room for [n] bytes more. *)
Definition log_room (nd : node) (n : Z) : Prop :=
  aof_fd_open (nd_aof nd) = true /\ zlen (aof_buf_active (nd_aof nd)) + n <= AOF_BUF_SIZE.

Lemma run_writes ts n fd nd ws tail :
  (forall k, slave_turn (ts k)) -> Forall write_ok ws -> store_inv (sv_eng (nd_sv nd)) ->
  writes_fit (store_abs (sv_eng (nd_sv nd))) ws -> log_room nd (zlen (log_of ws)) ->
  exists nd', run_requests ts n fd nd None (write_args <$> ws) tail = Ret (nd', None) /\
    store_inv (sv_eng (nd_sv nd')) /\
    store_abs (sv_eng (nd_sv nd')) ≡ apply_writes (store_abs (sv_eng (nd_sv nd))) ws /\
    aof_fd_open (nd_aof nd') = true /\
    aof_buf_active (nd_aof nd') = aof_buf_active (nd_aof nd) ++ log_of ws.
Proof.
  intros Ht Hw. revert n nd. induction Hw as [|w ws Hw Hws IH]; intros n nd Hi Hf [Ho Hr].
  - exists nd. split; [done|]. change (log_of []) with (@nil byte). by rewrite app_nil_r.
  - destruct Hf as [Hf Hfs]. rewrite fmap_cons. cbn [run_requests].
    change (log_of (w :: ws)) with (resp_encode (write_args w) ++ log_of ws) in *.
    assert (0 <= zlen (log_of ws)) by (unfold zlen; lia).
    pose proof (encode_nonempty (write_args w)) as Hne.
    assert (Hz : zlen (resp_encode (write_args w) ++ log_of ws)
                 = zlen (resp_encode (write_args w)) + zlen (log_of ws))
      by (unfold zlen; rewrite length_app; lia).
    destruct (Ht n) as [(Ha & Hm & _) Hmem].
    rewrite process_write by (by apply write_ok_request).
    destruct (exec_write (ts n) (nd_sv nd) w (concat (resp_encode <$> (write_args <$> ws)) ++ tail))
      as (cmd & x & Hcmd & Hx & Hix & Hax & _); [done|done|done|by split|].
    rewrite Hcmd. cbn [of_res run_bind]. unfold log_write. rewrite Ha, aof_write_room by (done || lia).
    unfold backlog_wanted. rewrite Hm, andb_false_r. cbn [andb of_outcome run_bind nd_sv nd_aof].
    replace (with_repl (sv_repl (nd_sv nd)) (nd_sv nd)) with (nd_sv nd) by (by destruct (nd_sv nd)).
    rewrite Hx. cbn [of_res run_bind pack_to fmap option_fmap option_map].
    destruct (IH (S n) (Node x.1 (aof_append (resp_encode (write_args w)) (nd_aof nd))))
      as (nd' & Hrun & Hi' & Ha' & Ho' & Hl'); [done|cbn [nd_sv]; by rewrite Hax| |].
    { split; cbn [nd_aof aof_append aof_fd_open aof_buf_active]; [done|].
      unfold zlen in *. rewrite length_app. lia. }
    exists nd'. split; [exact Hrun|]. cbn [nd_sv nd_aof aof_append aof_buf_active] in *.
    split_and!; [done| |done|by rewrite Hl', app_assoc]. rewrite Ha', Hax. reflexivity.
Qed.

Lemma serve_writes its gs fd nd cap ws :
  Forall (fun it => forall k, slave_turn (it_turns it 0%nat k)) its ->
  concat gs.*1 = write_args <$> ws -> Forall write_ok ws ->
  store_inv (sv_eng (nd_sv nd)) -> writes_fit (store_abs (sv_eng (nd_sv nd))) ws ->
  log_room nd (zlen (log_of ws)) ->
  exists nd' outs, serve_segments its gs fd true nd cap = Ret (nd', cap, outs) /\ taken outs = [] /\
    ((length gs <= length its)%nat ->
     store_abs (sv_eng (nd_sv nd')) ≡ apply_writes (store_abs (sv_eng (nd_sv nd))) ws).
Proof.
  intros Hits. revert its Hits nd ws. induction gs as [|[cmds rest] gs IH];
    intros its Hits nd ws Hgs Hw Hi Hf Hr.
  - symmetry in Hgs. apply fmap_nil_inv in Hgs as ->. exists nd, []. by destruct its.
  - destruct Hits as [|it its Hit Hits]; [exists nd, []; split_and!; [done|done|simpl; lia]|].
    rewrite fmap_cons in Hgs. cbn [fst concat] in Hgs. symmetry in Hgs.
    apply fmap_app_inv in Hgs as (ws1 & ws2 & -> & Hgs & ->).
    apply Forall_app in Hw as [Hw1 Hw2]. cbn [serve_segments].
    assert (Hz : zlen (log_of (ws1 ++ ws2)) = zlen (log_of ws1) + zlen (log_of ws2)).
    { rewrite log_of_app. unfold zlen. rewrite length_app. lia. }
    assert (0 <= zlen (log_of ws2)) by (unfold zlen; lia).
    destruct Hr as [Ho Hr]. rewrite Hz in Hr.
    destruct (run_writes (it_turns it 0%nat) 0 fd nd ws1 rest Hit Hw1 Hi)
      as (nd1 & Hrun & Hi1 & Ha1 & Ho1 & Hl1); [by eapply writes_fit_prefix|split; [done|lia]|].
    rewrite Hrun. cbn [run_bind fst snd default wb_cap wb_data].
    destruct (IH its Hits nd1 ws2) as (nd' & outs & Hs & Hout & Ha').
    + done.
    + done.
    + done.
    + rewrite Ha1. by apply writes_fit_suffix.
    + split; [done|]. rewrite Hl1. unfold zlen in *. rewrite length_app. lia.
    + rewrite Hs. eexists nd', _. split; [done|]. split; [|intros Hle].
      * unfold taken. rewrite fmap_cons. cbn [concat fst snd]. fold (taken outs). rewrite Hout.
        by destruct (it_send it).
      * rewrite Ha', Ha1 by (simpl in Hle; lia). by rewrite apply_writes_app.
Qed.

Lemma master_run_writes g nd ws wire nd' : master_run g nd ws wire nd' -> Forall write_ok ws.
Proof. induction 1; [done| |done..]. by apply Forall_app_2; [|apply Forall_singleton]. Qed.

(** The file of a log that was empty when it was opened, once what was
    submitted is written. *)
Definition on_disk (a : aof) : bytes := concat (aof_submitted a).*2.

(** The master when the slave asks: the commands [ws] are on its disk, the
    commands [waiting] after them are in the append buffer; nothing waits for
    another slave. *)
Record master_ready (ws waiting : list write) (nd : node) : Prop := {
  mr_store : store_inv (sv_eng (nd_sv nd));
  mr_content : store_abs (sv_eng (nd_sv nd)) ≡ apply_writes no_content (ws ++ waiting);
  mr_writes : Forall write_ok ws;
  mr_disk : on_disk (nd_aof nd) = log_of ws;
  mr_active : aof_buf_active (nd_aof nd) = log_of waiting;
  mr_backlog : backlog_ok (sv_repl (nd_sv nd));
  mr_empty : g_repl_backlog_count (sv_repl (nd_sv nd)) = 0
}.

Lemma master_after_sync g t fd nd buf r ws waiting nd1 buf1 :
  feeds g -> tn_glob t = g -> 0 < fd -> master_ready ws waiting nd ->
  process_request t fd nd buf SYNC (sync_at r) = Ret (nd1, buf1) ->
  g_slave_fd (sv_repl (nd_sv nd1)) = fd /\ nd_aof nd1 = nd_aof nd /\
  default [] (wb_data <$> buf1) = default [] (wb_data <$> buf) /\
  master_inv g (apply_writes no_content (ws ++ waiting)) [] [] nd1.
Proof.
  intros Hg Ht Hfd [Hi Ha Hw _ _ [Hh Hc Htl] He] Hp.
  rewrite process_sync in Hp by (by rewrite Ht). destruct (pack_to _ _ _) as [w'|] eqn:Hw'; [|done].
  apply pack_silent in Hw' as Hb. cbn [of_res run_bind] in Hp. injection Hp as <- <-. split; [done|]. split; [done|]. split; [done|].
  split; cbn [nd_sv with_repl sv_eng sv_repl]; [done|done| | |done].
  - split; cbn [backlog_sync set_slave_fd g_repl_backlog_head g_repl_backlog_count g_repl_backlog_tail];
      [done|unfold REPL_BACKLOG_MAX; lia|]. by rewrite He in Htl.
  - destruct Hg as [Hg _]. unfold backlog_wanted.
    cbn [backlog_sync set_slave_fd g_slave_fd g_sync_file_done g_repl_backlog_enabled].
    by rewrite Hg, (proj2 (Z.ltb_lt 0 fd)), orb_true_r.
Qed.

(** The slave: nothing is refused to it, its stores and its log have room. *)
Record slave_ready (b : boot) (its : list iter) (m : dbs) (ws1 ws2 : list write) (nd : node) : Prop := {
  sr_store : store_inv (sv_eng (nd_sv nd));
  sr_content : store_abs (sv_eng (nd_sv nd)) ≡ m;
  sr_room : log_room nd (zlen (log_of ws2));
  sr_map : bt_map_ok b = true;
  sr_reopen : bt_reopen_ok b = true;
  sr_turns : forall n, cmd_mem_ok (tn_cmd (bt_turns b n));
  sr_fit : writes_fit m (ws1 ++ ws2);
  sr_buffer : Forall (fun w => fits_buffer (write_args w)) ws2;
  sr_receives : Forall receives its;
  sr_served : Forall (fun it => forall k, slave_turn (it_turns it 0%nat k)) its;
  sr_enough : (length (log_of ws2) <= length its)%nat
}.

(** Recovery of a complete log on a running slave. *)
Lemma recover_slave fuel b its m ws1 ws2 nd :
  slave_ready b its m ws1 ws2 nd -> Forall write_ok ws1 -> (length ws1 < fuel)%nat ->
  Z.of_nat (length (log_of ws1)) < 2 ^ 31 ->
  exists nd', kvs_persistence_recover fuel b (log_of ws1) nd = Ret nd' /\
    store_inv (sv_eng (nd_sv nd')) /\ store_abs (sv_eng (nd_sv nd')) ≡ apply_writes m ws1 /\
    log_room nd' (zlen (log_of ws2)).
Proof.
  intros [Hi Ha [Ho Hr] Hmap Hre Ht Hf _ _ _ _] Hw Hfl Hlen. unfold kvs_persistence_recover.
  rewrite Hmap, orb_false_r. destruct (Z.leb_spec (Z.of_nat (length (log_of ws1))) 0) as [Hz|Hz].
  - exists nd. split; [done|]. split; [done|]. split; [|done]. destruct ws1 as [|w ws1]; [done|].
    exfalso. change (log_of (w :: ws1)) with (resp_encode (write_args w) ++ log_of ws1) in Hz.
    pose proof (encode_nonempty (write_args w)) as Hn. unfold zlen in Hn. rewrite length_app in Hz. lia.
  - destruct (recover_log fuel (bt_turns b) (nd_sv nd) ws1 []) as (s' & n & Hrec & Hi' & Ha');
      [done|done|by apply partial_stop, partial_nil|done|done| |].
    { rewrite Ha. by eapply writes_fit_prefix. }
    rewrite app_nil_r in Hrec. unfold recover_input. rewrite i32_small, Nat2Z.id, take_ge by lia.
    rewrite Hrec. cbn [run_bind snd]. eexists. split; [reflexivity|]. cbn [nd_sv nd_aof].
    split; [done|]. split; [by rewrite Ha', Ha|]. by split.
Qed.
(** Everything but what waited in the append buffer reaches the slave. *)
Lemma slave_follows fuel g t fd sfd m ws1 waiting ws2 em es r buf wire nd nd1 buf1 nd2 b its sl :
  feeds g -> tn_glob t = g -> 0 < fd -> master_ready ws1 waiting nd ->
  sends_all em (on_disk (nd_aof nd)) -> receives_all es (on_disk (nd_aof nd)) ->
  on_disk (nd_aof nd) <> [] -> Z.of_nat (length (on_disk (nd_aof nd))) < 2 ^ 31 ->
  process_request t fd nd buf SYNC (sync_at r) = Ret (nd1, buf1) ->
  master_run g nd1 ws2 wire nd2 -> g_repl_backlog_count (sv_repl (nd_sv nd2)) = 0 ->
  slave_ready b its m ws1 ws2 sl -> (length ws1 + length ws2 < fuel)%nat ->
  store_abs (sv_eng (nd_sv nd2)) ≡ apply_writes no_content (ws1 ++ waiting ++ ws2) /\
  exists cl cl', slave_init_tcp fuel b es sfd (sync_sends g (nd_sv nd1) em ++ wire) sl
      = Ret (Running cl) /\
    client_run fuel its cl = Ret (Running cl') /\ cl_sent cl' = SYNC ++ SYNC_DONE /\
    store_abs (sv_eng (nd_sv (cl_node cl'))) ≡ apply_writes m (ws1 ++ ws2).
Proof.
  intros Hg Ht Hfd Hmr Hsend Hrecv Hne Hlen Hsync Hrun Hcount Hsl Hfuel.
  destruct (master_after_sync g t fd nd buf r ws1 waiting nd1 buf1 Hg Ht Hfd Hmr Hsync)
    as (Hfd1 & _ & _ & Hinv1).
  pose proof (master_run_writes _ _ _ _ _ Hrun) as Hw2.
  destruct (master_run_inv _ _ _ _ _ _ Hg Hinv1 Hrun) as [_ Hc2 _ _ Hq2].
  split; [by rewrite Hc2, app_assoc, <- apply_writes_app|].
  unfold backlog_queue in Hq2. rewrite Hcount in Hq2. cbn [seqZ fmap list_fmap concat] in Hq2.
  rewrite app_nil_r in Hq2. subst wire.
  pose proof Hmr as [_ _ Hw1 Hdisk _ _ _]. rewrite Hdisk in *.
  destruct (recover_slave fuel b its m ws1 ws2 sl Hsl Hw1) as (sl1 & Hrec & Hi1 & Ha1 & Hroom1);
    [lia|done|].
  assert (Hstart : slave_init_tcp fuel b es sfd (sync_sends g (nd_sv nd1) em ++ log_of ws2) sl
    = Ret (Running (Client (master_conn sfd) sl1 (log_of ws2) (SYNC ++ SYNC_DONE)))).
  { unfold sync_sends. rewrite (proj2 Hg), Hfd1, (tcp_sent fd em (log_of ws1)) by (done || lia).
    cbn [fst]. rewrite <- app_assoc. unfold slave_init_tcp.
    rewrite tcp_received by (done || lia). cbn [rc_replay rc_file rc_input rc_sent from_option id].
    by rewrite Hrec. }
  destruct (segments_served fuel its sfd CONN_MASTER INIT_BUFFER_SIZE INIT_BUFFER_SIZE sl1
    [] (log_of ws2) (write_args <$> ws2) [] (SYNC ++ SYNC_DONE)) as (gs & cap & Hgs & Hle & Hserve).
  - apply Forall_fmap. apply Hsl.
  - split; [apply partial_nil|done].
  - split; [apply partial_nil|done].
  - by rewrite app_nil_r.
  - rewrite length_fmap. lia.
  - apply Hsl.
  - apply Hsl.
  - done.
  - destruct Hsl as [_ _ _ _ _ _ Hfit _ _ Hserved _].
    destruct (serve_writes its gs sfd sl1 INIT_BUFFER_SIZE ws2) as (nd' & outs & Hs & Hout & Hc); [done..|rewrite Ha1; by apply writes_fit_suffix|done|].
    change (is_master CONN_MASTER) with true in *. rewrite Hs in Hserve.
    destruct Hle as [Hle|Hno]; [|by destruct (Hno _ Hs)].
    cbn [run_bind] in Hserve. rewrite Hout, app_nil_r in Hserve. eexists _, _. split; [exact Hstart|]. split; [exact Hserve|]. split; [done|].
    cbn [cl_node]. by rewrite (Hc Hle), Ha1, apply_writes_app.
Qed.
End replica.

(** ** The promises *)


(** C39.  SYNC sends what the disk has, without writing the append buffer
    first, and the backlog begins with the next command: a command that waits
    in the buffer takes neither way.  What it did to a key that later commands
    leave alone is seen on the master and never on the slave. *)
Theorem sync_misses_buffered `{AiOps} fuel g t fd sfd m ws1 waiting ws2 em es r buf wire nd nd1 buf1
    nd2 b its sl d k e :
  feeds g -> tn_glob t = g -> 0 < fd -> master_ready ws1 waiting nd ->
  sends_all em (on_disk (nd_aof nd)) -> receives_all es (on_disk (nd_aof nd)) ->
  on_disk (nd_aof nd) <> [] -> Z.of_nat (length (on_disk (nd_aof nd))) < 2 ^ 31 ->
  process_request t fd nd buf SYNC (sync_at r) = Ret (nd1, buf1) ->
  master_run g nd1 ws2 wire nd2 -> g_repl_backlog_count (sv_repl (nd_sv nd2)) = 0 ->
  slave_ready b its m ws1 ws2 sl -> (length ws1 + length ws2 < fuel)%nat ->
  effect d k waiting = Some e -> effect d k ws2 = None ->
  store_abs (sv_eng (nd_sv nd2)) d !! k = e /\
  exists cl cl', slave_init_tcp fuel b es sfd (sync_sends g (nd_sv nd1) em ++ wire) sl
      = Ret (Running cl) /\
    client_run fuel its cl = Ret (Running cl') /\
    store_abs (sv_eng (nd_sv (cl_node cl'))) d !! k = apply_writes m ws1 d !! k.
Proof.
  intros Hg Ht Hfd Hmr Hsend Hrecv Hne Hlen Hsync Hrun Hcount Hsl Hfuel Hew He2.
  destruct (slave_follows fuel g t fd sfd m ws1 waiting ws2 em es r buf wire nd nd1 buf1 nd2 b its sl)
    as (Hm & cl & cl' & Hi & Hc & _ & Hs); [done..|].
  split; [by rewrite (Hm d), apply_writes_at, !effect_app, He2, Hew|].
  exists cl, cl'. split; [done|]. split; [done|].
  by rewrite (Hs d), !apply_writes_at, effect_app, He2.
Qed.

(** ** Examples *)

Section progress.
Context `{AiOps}.

(** A master with room runs a write command. *)
Lemma master_can_write g m ws wire nd t fd w r :
  master_inv g m ws wire nd -> tn_glob t = g -> feeds g -> cmd_mem_ok (tn_cmd t) -> write_ok w ->
  g_repl_backlog_count (sv_repl (nd_sv nd)) < REPL_BACKLOG_MAX ->
  writes_fit (store_abs (sv_eng (nd_sv nd))) [w] -> log_room nd (zlen (resp_encode (write_args w))) ->
  exists nd', process_request t fd nd None (resp_encode (write_args w)) (request_at (write_args w) r)
    = Ret (nd', None) /\
    g_slave_fd (sv_repl (nd_sv nd')) = g_slave_fd (sv_repl (nd_sv nd)) /\
    g_repl_backlog_count (sv_repl (nd_sv nd')) = g_repl_backlog_count (sv_repl (nd_sv nd)) + 1.
Proof.
  intros [Hi _ Hok Hwant _] Hg [Hf _] Hm Hw Hc Hfit [Ho Hr].
  rewrite process_write by (by apply write_ok_request). unfold log_write.
  assert (Ha : aof_enabled (tn_glob t) = true).
  { unfold aof_enabled. by rewrite Hg, Hf, orb_true_r. }
  pose proof (encode_nonempty (write_args w)) as Hn.
  rewrite Ha, Hg, Hwant, aof_write_room by done. cbn [of_outcome run_bind].
  unfold backlog_push. rewrite (proj2 (Z.ltb_lt _ _) Hc). unfold alloc_ok.
  rewrite (Hm 52%nat), (proj2 (Z.eqb_neq _ 0)) by (unfold zlen in Hn; lia). cbn [negb andb of_res run_bind].
  match goal with |- context [with_repl ?r0 (nd_sv nd)] => set (rp := r0) end.
  destruct (exec_write t (with_repl rp (nd_sv nd)) w r Hm Hw) as (cmd & x & Hcmd & Hx & _ & _ & Hrx);
    [done|done|].
  rewrite Hcmd. cbn [of_res run_bind nd_sv]. rewrite Hx. cbn [of_res run_bind].
  eexists. split; [reflexivity|]. cbn [nd_sv]. by rewrite Hrx.
Qed.

(** A backlog of one node drains when the kernel takes it whole. *)
Lemma backlog_drains r :
  backlog_ok r -> 0 < g_slave_fd r -> g_repl_backlog_count r = 1 -> concat (backlog_queue r) <> [] ->
  exists n r' out, sends_ok r 100 [SendSome n] /\ master_repl_send r [SendSome n] = (r', out) /\
    g_repl_backlog_count r' = 0.
Proof.
  intros Hok Hfd Hc Hne. set (node := default [] (g_repl_backlog r !! g_repl_backlog_head r)).
  assert (Hn : node <> []).
  { rewrite backlog_queue_cons, Hc in Hne by (done || lia). cbn in Hne. by rewrite app_nil_r in Hne. }
  exists (Z.of_nat (length node)). eexists _, _. split; [|split].
  - split; [|by repeat constructor]. intros _. split; [|done]. fold node.
    destruct node; [done|]. simpl. lia.
  - unfold master_repl_send. rewrite Hc, (proj2 (Z.ltb_lt 0 _) Hfd). cbn [andb].
    cbn [backlog_send_loop]. rewrite Hc. change (0 <? 1) with true. cbn [andb].
    unfold backlog_send. fold node. rewrite Z.eqb_refl. reflexivity.
  - cbn. lia.
Qed.
End progress.

(** The configuration of a master over TCP, with a log. *)
Definition master_globals : globals := Globals true false true false true false false true false.

Definition master_turn : turn :=
  Turn (CmdEnv master_globals (fun _ => 9) (fun _ _ _ => true) 1 1 42 0 (fun _ => None) 0) [].

Definition first_write : write := Write "RSET" DbRbtree KSet (str "k") (str "v1").
Definition second_write : write := Write "HSET" DbHash KSet (str "h") (str "v2").
Definition third_write : write := Write "SSET" DbSkip KSet (str "s") (str "v3").

Lemma three_writes_ok : Forall write_ok [first_write; second_write; third_write].
Proof.
  repeat (apply Forall_cons; split;
    [split_and!; [by repeat constructor|by repeat constructor|done|done|done|by vm_compute]|]).
  by apply Forall_nil.
Qed.

(** The server after the commands [ws], of which the first is on the disk. *)
Lemma sample_master ws :
  ws `prefix_of` [second_write] ->
  exists nd, master_ready [first_write] ws nd /\ aof_fd_open (nd_aof nd) = true.
Proof.
  intros [tl Htl].
  assert (Hw : Forall write_ok (first_write :: ws)).
  { pose proof three_writes_ok as Hall. apply Forall_cons in Hall as [H1 Hall].
    apply Forall_cons in Hall as [H2 _]. constructor; [done|].
    assert (Ht : Forall write_ok (ws ++ tl)) by (rewrite <- Htl; by constructor).
    by apply Forall_app in Ht as [? _]. }
  destruct (run_writes (H := sample_ai) (fun _ => sample_turn 9) 0 5 sample_node (first_write :: ws) [])
    as (nd' & _ & Hi & Ha & _ & _).
  - intros k. split; [|intros i a n; reflexivity]. split; [reflexivity|]. split; [reflexivity|]. by intros i j.
  - exact Hw.
  - apply sample_engines_ok.
  - apply (writes_fit_prefix _ _ tl). cbn [app]. rewrite <- Htl.
    repeat split; intros _; simpl; (exact I || by vm_compute).
  - split; [done|]. destruct ws as [|w [|? ?]]; [by vm_compute| |by destruct tl].
    injection Htl as <- _. by vm_compute.
  - exists (Node (with_repl repl_zero (nd_sv nd')) (Aof true (log_of ws) [] false 0 0 0
              [(0, log_of [first_write])])).
    split; [|done]. split; cbn [nd_sv nd_aof with_repl sv_eng sv_repl aof_buf_active].
    + done.
    + rewrite Ha. apply apply_writes_proper; [|done]. intros d. apply sample_engines_ok.
    + apply Forall_cons in Hw as [H1 _]. by apply Forall_singleton.
    + unfold on_disk. cbn [aof_submitted fmap list_fmap concat snd]. by rewrite app_nil_r.
    + done.
    + apply backlog_ok_zero.
    + done.
Qed.

Definition sample_disk : bytes := log_of [first_write].

Definition disk_env : tcp_env := TcpEnv (Some sample_disk) [] true 8 (repeat (IoSome 5) 40).
Definition disk_recv : recv_env := RecvEnv true true true (IoAgain :: repeat (IoSome 3) 90).

Lemma disk_moves : sends_all disk_env sample_disk /\ receives_all disk_recv sample_disk.
Proof.
  split; (split; [done|]; split; [done|]; split; [done|]).
  - exists 40%nat. split; [done|]. vm_compute. lia.
  - exists 90%nat. split; [done|]. vm_compute. lia.
Qed.

Definition slave_iters : list iter := replicate 60 (sample_iter 4).

Lemma sample_slave :
  slave_ready (sample_boot []) slave_iters no_content [first_write] [third_write] sample_node.
Proof.
  split.
  - apply sample_engines_ok.
  - intros d. apply sample_engines_ok.
  - split; [done|]. by vm_compute.
  - done.
  - done.
  - intros n i a k. reflexivity.
  - repeat split; intros _; simpl; (exact I || by vm_compute).
  - repeat constructor; by vm_compute.
  - apply Forall_replicate, sample_receives.
  - apply Forall_replicate. intros k. split; [|intros i a n; reflexivity].
    split; [reflexivity|]. split; [reflexivity|]. by intros i j.
  - vm_compute. lia.
Qed.

Lemma prefix_room ws :
  ws `prefix_of` [second_write] ->
  zlen (log_of ws) + zlen (resp_encode (write_args third_write)) <= AOF_BUF_SIZE.
Proof.
  intros [tl Htl]. destruct ws as [|w ws]; [by vm_compute|]. injection Htl as <- Hn.
  symmetry in Hn. apply app_nil in Hn as [-> _]. by vm_compute.
Qed.

(** The slave's connection on descriptor 7 asks; the master runs the third
    command and sends it. *)
Lemma sample_replication ws nd :
  master_ready [first_write] ws nd -> ws `prefix_of` [second_write] -> aof_fd_open (nd_aof nd) = true ->
  exists nd1 buf1 nd2 wire,
    process_request (H := sample_ai) master_turn 7 nd None SYNC (sync_at []) = Ret (nd1, buf1) /\
    master_run (H := sample_ai) master_globals nd1 [third_write] wire nd2 /\
    g_repl_backlog_count (sv_repl (nd_sv nd2)) = 0.
Proof.
  intros Hmr Hws Ho.
  pose proof (process_sync (H := sample_ai) master_turn 7 nd None [] (conj eq_refl eq_refl)) as Hs.
  cbn [pack_to of_res run_bind] in Hs. set (buf1 := @None wbuf) in Hs at 2.
  match type of Hs with _ = Ret (?n, _) => set (nd1 := n) in * end.
  destruct (master_after_sync (H := sample_ai) master_globals master_turn 7 nd None [] [first_write] ws
    nd1 buf1) as (Hfd & Haof & _ & Hinv);
    [exact (conj eq_refl eq_refl)|reflexivity|lia|exact Hmr|exact Hs|].
  assert (Hc1 : g_repl_backlog_count (sv_repl (nd_sv nd1)) = 0) by reflexivity.
  assert (Hw3 : write_ok third_write).
  { pose proof three_writes_ok as Hall. by repeat (apply Forall_cons in Hall as [? Hall]). }
  assert (Hfit : writes_fit (store_abs (sv_eng (nd_sv nd1))) [third_write]).
  { rewrite (mi_content _ _ _ _ _ Hinv). split; [|done]. intros _. exact I. }
  destruct (master_can_write (H := sample_ai) master_globals (apply_writes no_content ([first_write] ++ ws))
    [] [] nd1 master_turn 5 third_write []) as (nd2 & Hw & Hfd2 & Hc2);
    [exact Hinv|reflexivity|exact (conj eq_refl eq_refl)|by intros i a n|exact Hw3|by rewrite Hc1|exact Hfit| |].
  { unfold log_room. rewrite Haof, (mr_active _ _ _ Hmr). split; [exact Ho|]. by apply prefix_room. }
  assert (Hrun : master_run (H := sample_ai) master_globals nd1 ([] ++ [third_write]) [] nd2).
  { apply (mr_write (H := sample_ai) _ _ _ _ nd1 master_turn 5 third_write None [] nd2 None);
      [apply mr_start|reflexivity|by intros i a n|exact Hw3|by rewrite Hc1|exact Hfit
      |exact Hw]. }
  destruct (master_run_inv (H := sample_ai) master_globals _ _ _ _ _ (conj eq_refl eq_refl) Hinv Hrun) as [_ _ Hok _ Hq].
  destruct (backlog_drains (sv_repl (nd_sv nd2)) Hok) as (n & r' & out & Hsok & Hsend & Hz).
  - by rewrite Hfd2, Hfd.
  - by rewrite Hc2, Hc1.
  - cbn [app] in Hq. rewrite <- Hq. by vm_compute.
  - exists nd1, buf1, (Node (with_repl r' (nd_sv nd2)) (nd_aof nd2)), ([] ++ out).
    split; [exact Hs|]. split; [|done]. eapply mr_send; [exact Hrun|exact Hsok|exact Hsend].
Qed.


Lemma sync_misses_buffered_witness :
  exists nd nd1 buf1 nd2 wire, master_ready [first_write] [second_write] nd /\
    process_request (H := sample_ai) master_turn 7 nd None SYNC (sync_at []) = Ret (nd1, buf1) /\
    master_run (H := sample_ai) master_globals nd1 [third_write] wire nd2 /\
    store_abs (sv_eng (nd_sv nd2)) DbHash !! str "h" = Some (str "v2", 0) /\
    exists cl cl', slave_init_tcp (H := sample_ai) 9 (sample_boot []) disk_recv 3
        (sync_sends master_globals (nd_sv nd1) disk_env ++ wire) sample_node = Ret (Running cl) /\
      client_run (H := sample_ai) 9 slave_iters cl = Ret (Running cl') /\
      store_abs (sv_eng (nd_sv (cl_node cl'))) DbHash !! str "h"
      = apply_writes no_content [first_write] DbHash !! str "h".
Proof.
  destruct (sample_master [second_write]) as (nd & Hmr & Ho); [by exists []|].
  destruct (sample_replication [second_write] nd Hmr) as (nd1 & buf1 & nd2 & wire & Hs & Hrun & Hc);
    [by exists []|done|].
  exists nd, nd1, buf1, nd2, wire. split; [exact Hmr|]. split; [exact Hs|]. split; [exact Hrun|].
  apply (sync_misses_buffered (H := sample_ai) 9 master_globals master_turn 7 3 no_content [first_write]
    [second_write] [third_write] disk_env disk_recv [] None wire nd nd1 buf1 nd2 (sample_boot [])
    slave_iters sample_node DbHash (str "h") (Some (str "v2", 0)));
    [exact (conj eq_refl eq_refl)|exact eq_refl|lia|exact Hmr| | | | |exact Hs|exact Hrun|exact Hc
    |exact sample_slave|simpl; lia|reflexivity|reflexivity]; rewrite (mr_disk _ _ _ Hmr);
    [apply disk_moves|apply disk_moves|by vm_compute|by vm_compute].
Defined.
