(* ===== verification/Rdma.v ===== *)
(** * The transfer of the log over RDMA (repl.c, rdma.c)

    The master writes each chunk of its log straight into the slave's buffer
    and hands over its length as immediate data; the slave copies the buffer
    to its own log and answers with immediate data of its own before the
    master writes the next chunk into the same place.  Each side is a state
    machine over its half of the queue pair: the receives it has posted, the
    completions it has not taken, and the event channel it sleeps on.

    The queue pair delivers what is sent, in order, once a receive is posted
    at the other end; failures of the device are not modelled. *)

From S2P Require Import Prelude KvData.

Open Scope Z_scope.
Open Scope kvs_scope.

Definition RING_BUFFER_SIZE : Z := 64 * 1024 * 1024.
Definition RDMA_CHUNK_SIZE : Z := 32 * 1024 * 1024.
Definition MAX_RECV_WR : nat := 16.

(** ** A half of the queue pair *)

(** The buffer the peer writes to, the receives posted, the immediate data of
    the completions not taken, whether the completion queue is to signal the
    next completion, and the events not taken. *)
Record rdma_ring_ctx := RingCtx {
  rx_buffer : bytes;
  rx_posted : nat;
  rx_recv_cq : list Z;
  rx_armed : bool;
  rx_events : nat
}.

(** [rdma_ring_init] asks for the first notification, [rdma_ring_configure]
    fills the receive queue. *)
Definition ring_ready (buffer : bytes) : rdma_ring_ctx := RingCtx buffer MAX_RECV_WR [] true 0.

(** [rdma_slave_post_recv_envelope]: a full queue refuses, and nobody looks. *)
Definition rdma_slave_post_recv_envelope (x : rdma_ring_ctx) : rdma_ring_ctx :=
  RingCtx (rx_buffer x)
    (if (rx_posted x <? MAX_RECV_WR)%nat then S (rx_posted x) else rx_posted x)
    (rx_recv_cq x) (rx_armed x) (rx_events x).

(** What [rdma_master_write_log_imm] with the buffer [from] does to the other
    end: [payload_len] bytes to the start of its buffer, and a completion with
    the immediate data, 32 bits of it; none while no receive is posted. *)
Definition rdma_master_write_log_imm (from : bytes) (payload_len imm_val : Z) (x : rdma_ring_ctx)
  : option rdma_ring_ctx :=
  match rx_posted x with
  | O => None
  | S posted =>
    let n := Z.to_nat payload_len in
    Some (RingCtx (take n from ++ drop n (rx_buffer x)) posted
            (rx_recv_cq x ++ [imm_val mod 2 ^ 32]) false
            (if rx_armed x then S (rx_events x) else rx_events x))
  end.

(** [rdma_slave_block_and_get_imm]: an event, the next notification, the
    oldest completion, a new receive; none while it sleeps. *)
Definition rdma_slave_block_and_get_imm (x : rdma_ring_ctx) : option (Z * rdma_ring_ctx) :=
  match rx_events x, rx_recv_cq x with
  | S events, imm :: cq =>
    Some (imm, rdma_slave_post_recv_envelope (RingCtx (rx_buffer x) (rx_posted x) cq true events))
  | _, _ => None
  end.

(** ** The two programs *)

(** [repl_sync_log_via_rdma]: before the size is sent, waiting for its
    acknowledgement, at the head of the loop, waiting for a chunk's
    acknowledgement, returned. *)
Inductive master_pc :=
| MStart
| MHeaderAck
| MLoop (offset remaining : Z)
| MChunkAck (offset remaining : Z)
| MDone.

(** [pure_rdma_repl_slave_thread]: waiting for the size, at the head of the
    loop, before the write of a chunk to the log, before its acknowledgement,
    returned, with or without success. *)
Inductive slave_pc :=
| SStart
| SLoop (total_received total_file_size : Z)
| SCopy (total_received total_file_size incoming_chunk_size : Z)
| SAck (total_received total_file_size : Z)
| SDone
| SFail.

(** The buffer the master fills is its own; [rd_log] is the slave's log. *)
Record rdma_state := Rdma {
  rd_mpc : master_pc;
  rd_spc : slave_pc;
  rd_master : rdma_ring_ctx;
  rd_slave : rdma_ring_ctx;
  rd_log : bytes;
  rd_sync_done : bool
}.

Section transfer.
(** The master's log. *)
Variable file : bytes.

Definition file_size : Z := Z.of_nat (length file).

Definition chunk_size (remaining : Z) : Z :=
  if RDMA_CHUNK_SIZE <? remaining then RDMA_CHUNK_SIZE else remaining.

Definition chunk_at (offset remaining : Z) : bytes :=
  take (Z.to_nat (chunk_size remaining)) (drop (Z.to_nat offset) file).

(** One step of the master. *)
Definition master_step (s : rdma_state) : option rdma_state :=
  match rd_mpc s with
  | MStart =>
    let m := rdma_slave_post_recv_envelope (rd_master s) in
    x ← rdma_master_write_log_imm (rx_buffer m) 0 file_size (rd_slave s);
    Some (Rdma MHeaderAck (rd_spc s) m x (rd_log s) (rd_sync_done s))
  | MHeaderAck =>
    '(_, m) ← rdma_slave_block_and_get_imm (rd_master s);
    Some (Rdma (MLoop 0 file_size) (rd_spc s) m (rd_slave s) (rd_log s) (rd_sync_done s))
  | MLoop offset remaining =>
    if 0 <? remaining then
      let n := chunk_size remaining in
      let b := chunk_at offset remaining in
      let m0 := rd_master s in
      let m := rdma_slave_post_recv_envelope
                 (RingCtx (b ++ drop (length b) (rx_buffer m0)) (rx_posted m0) (rx_recv_cq m0)
                    (rx_armed m0) (rx_events m0)) in
      x ← rdma_master_write_log_imm (rx_buffer m) n n (rd_slave s);
      Some (Rdma (MChunkAck (offset + n) (remaining - n)) (rd_spc s) m x (rd_log s) (rd_sync_done s))
    else Some (Rdma MDone (rd_spc s) (rd_master s) (rd_slave s) (rd_log s) (rd_sync_done s))
  | MChunkAck offset remaining =>
    '(_, m) ← rdma_slave_block_and_get_imm (rd_master s);
    Some (Rdma (MLoop offset remaining) (rd_spc s) m (rd_slave s) (rd_log s) (rd_sync_done s))
  | MDone => None
  end.

(** The slave's answer: immediate data 1 and no payload. *)
Definition slave_ack (m : rdma_ring_ctx) : option rdma_ring_ctx := rdma_master_write_log_imm [] 0 1 m.

(** One step of the slave: the size with its acknowledgement, and for a chunk
    the wait, the write and the acknowledgement.  The log is truncated when it
    is opened. *)
Definition slave_step (s : rdma_state) : option rdma_state :=
  match rd_spc s with
  | SStart =>
    '(total, x) ← rdma_slave_block_and_get_imm (rdma_slave_post_recv_envelope (rd_slave s));
    m ← slave_ack (rd_master s);
    let x := rdma_slave_post_recv_envelope x in
    Some (if total =? 0 then Rdma (rd_mpc s) SDone m x [] true
          else Rdma (rd_mpc s) (SLoop 0 total) m x [] (rd_sync_done s))
  | SLoop received total =>
    if received <? total then
      '(n, x) ← rdma_slave_block_and_get_imm (rd_slave s);
      Some (Rdma (rd_mpc s) (if n =? 0 then SFail else SCopy received total n) (rd_master s) x
              (rd_log s) (rd_sync_done s))
    else Some (Rdma (rd_mpc s) SDone (rd_master s) (rd_slave s) (rd_log s) true)
  | SCopy received total n =>
    Some (Rdma (rd_mpc s) (SAck (received + n) total) (rd_master s) (rd_slave s)
            (rd_log s ++ take (Z.to_nat n) (rx_buffer (rd_slave s))) (rd_sync_done s))
  | SAck received total =>
    let x := if received <? total then rdma_slave_post_recv_envelope (rd_slave s) else rd_slave s in
    m ← slave_ack (rd_master s);
    Some (Rdma (rd_mpc s) (SLoop received total) m x (rd_log s) (rd_sync_done s))
  | SDone | SFail => None
  end.

(** The two sides step in any order. *)
Inductive rdma_step : rdma_state -> rdma_state -> Prop :=
| step_master s s' : master_step s = Some s' -> rdma_step s s'
| step_slave s s' : slave_step s = Some s' -> rdma_step s s'.

(** Where a transfer starts: whatever the buffers and the slave's log hold. *)
Definition rdma_start (mbuf sbuf log : bytes) : rdma_state :=
  Rdma MStart SStart (ring_ready mbuf) (ring_ready sbuf) log false.
End transfer.
