(* ===== verification/RdmaSpec.v ===== *)
(** * What the transfer over RDMA promises (Rdma.v)

    For a log of less than 4 GB the hand-over works: in every interleaving at
    most one completion is under way, no chunk is overwritten before the slave
    has copied it, both sides finish within a bounded number of steps and the
    slave's log is the master's.  The size of the log is cut to 32 bits: from
    4 GB on the slave declares success with a part of the log and the master
    waits for ever. *)

From S2P Require Import Prelude KvData Rdma.
From stdpp Require Import relations.

Open Scope Z_scope.
Open Scope kvs_scope.

Section transfer.
(** The master's log, and the slave's before. *)
Variables file old : bytes.

Abbreviation L := (file_size file).

(** The size the slave is told. *)
Definition told : Z := L mod 2 ^ 32.

(** Half a queue pair at rest, and with one completion to take. *)
Definition idle (b : bytes) : rdma_ring_ctx := RingCtx b MAX_RECV_WR [] true 0.
Definition pend (b : bytes) (imm : Z) : rdma_ring_ctx := RingCtx b 15 [imm] false 1.

(** The slave after [off] bytes: in its loop, or satisfied. *)
Record slave_at (off : Z) (p : slave_pc) (log : bytes) (d : bool) : Prop := {
  sa_log : log = take (Z.to_nat off) file;
  sa_pc : p = SLoop off told \/ (p = SDone /\ told <= off /\ d = true);
  sa_range : 0 <= off <= L;
  sa_end : off = 0 \/ off < told + RDMA_CHUNK_SIZE
}.

(** The two sides and what is between them. *)
Inductive linked : rdma_state -> Prop :=
| li_start mb sb d : linked (Rdma MStart SStart (idle mb) (idle sb) old d)
| li_header mb sb d : linked (Rdma MHeaderAck SStart (idle mb) (pend sb told) old d)
| li_header_ack p mb sb log d :
  slave_at 0 p log d -> linked (Rdma MHeaderAck p (pend mb 1) (idle sb) log d)
| li_loop off rem p mb sb log d :
  off + rem = L -> slave_at off p log d -> linked (Rdma (MLoop off rem) p (idle mb) (idle sb) log d)
| li_chunk off rem p mb sb log d :
  off + rem = L -> 0 < rem -> slave_at off p log d ->
  take (Z.to_nat (chunk_size rem)) sb = chunk_at file off rem ->
  linked (Rdma (MChunkAck (off + chunk_size rem) (rem - chunk_size rem)) p (idle mb)
            (pend sb (chunk_size rem)) log d)
| li_copy off rem mb sb log d :
  off + rem = L -> 0 < rem -> off < told -> slave_at off (SLoop off told) log d ->
  take (Z.to_nat (chunk_size rem)) sb = chunk_at file off rem ->
  linked (Rdma (MChunkAck (off + chunk_size rem) (rem - chunk_size rem)) (SCopy off told (chunk_size rem))
            (idle mb) (idle sb) log d)
| li_ack off rem mb sb log d :
  off + rem = L -> slave_at off (SLoop off told) log d ->
  linked (Rdma (MChunkAck off rem) (SAck off told) (idle mb) (idle sb) log d)
| li_chunk_ack off rem p mb sb log d :
  off + rem = L -> slave_at off p log d ->
  linked (Rdma (MChunkAck off rem) p (pend mb 1) (idle sb) log d)
| li_done p mb sb log d :
  slave_at L p log d -> linked (Rdma MDone p (idle mb) (idle sb) log d).

(** ** The primitives on these shapes *)

Lemma post_idle b : rdma_slave_post_recv_envelope (idle b) = idle b.
Proof. done. Qed.

Lemma write_idle from n imm b :
  rdma_master_write_log_imm from n imm (idle b)
  = Some (pend (take (Z.to_nat n) from ++ drop (Z.to_nat n) b) (imm mod 2 ^ 32)).
Proof. done. Qed.

Lemma block_idle b : rdma_slave_block_and_get_imm (idle b) = None.
Proof. done. Qed.

Lemma block_pend b imm :
  rdma_slave_block_and_get_imm (pend b imm) = Some (imm, idle b).
Proof. done. Qed.

Lemma post_pend b imm :
  rdma_slave_block_and_get_imm (rdma_slave_post_recv_envelope (pend b imm)) = Some (imm, idle b).
Proof. done. Qed.

Lemma chunk_range rem : 0 < rem -> 0 < chunk_size rem <= rem /\ chunk_size rem <= RDMA_CHUNK_SIZE.
Proof.
  intros Hr. unfold chunk_size, RDMA_CHUNK_SIZE.
  destruct (Z.ltb_spec (32 * 1024 * 1024) rem); lia.
Qed.

Lemma chunk_length off rem :
  0 <= off -> off + rem = L -> 0 < rem ->
  length (chunk_at file off rem) = Z.to_nat (chunk_size rem).
Proof.
  intros Ho Hl Hr. pose proof (chunk_range rem Hr). unfold chunk_at, file_size in *.
  rewrite length_take, length_drop. lia.
Qed.

Lemma chunk_log off rem :
  0 <= off -> 0 < rem ->
  take (Z.to_nat off) file ++ chunk_at file off rem = take (Z.to_nat (off + chunk_size rem)) file.
Proof.
  intros Ho Hr. pose proof (chunk_range rem Hr). unfold chunk_at.
  rewrite Z2Nat.inj_add by lia. rewrite <- (take_drop (Z.to_nat off) (take (_ + _)%nat file)).
  rewrite take_take, skipn_firstn_comm. f_equal; f_equal; lia.
Qed.

(** ** The invariant *)

(** The chunks of [r] bytes. *)
Definition chunks (r : Z) : Z := (Z.max 0 r + RDMA_CHUNK_SIZE - 1) / RDMA_CHUNK_SIZE.

#[local] Ltac chunk_arith :=
  unfold chunks, chunk_size, RDMA_CHUNK_SIZE in *; Z.to_euclidean_division_equations; lia.

Lemma chunks_nonneg r : 0 <= chunks r.
Proof. chunk_arith. Qed.

Lemma chunks_mono r r' : r <= r' -> chunks r <= chunks r'.
Proof. intros Hr. apply Z.div_le_mono; unfold RDMA_CHUNK_SIZE; lia. Qed.

Lemma chunks_next r n : 0 < r -> RDMA_CHUNK_SIZE <= n \/ r <= n -> chunks (r - n) + 1 <= chunks r.
Proof. intros Hr Hn. chunk_arith. Qed.

Lemma chunk_counted r : 0 < r -> chunks (r - chunk_size r) + 1 <= chunks r.
Proof. intros Hr. apply chunks_next; [done|]. unfold chunk_size. destruct (_ <? _) eqn:E; lia. Qed.

(** The steps of a transfer. *)
Lemma chunks_bound r : 0 <= r -> 5 * chunks r + 5 <= 3 * r + 7.
Proof. intros Hr. chunk_arith. Qed.

(** Steps still to be done: two of the master and three of the slave for each
    chunk. *)
Definition master_left (p : master_pc) : Z :=
  match p with
  | MStart => 2 * chunks L + 3
  | MHeaderAck => 2 * chunks L + 2
  | MLoop _ rem => 2 * chunks rem + 1
  | MChunkAck _ rem => 2 * chunks rem + 2
  | MDone => 0
  end.

Definition slave_left (p : slave_pc) : Z :=
  match p with
  | SStart => 3 * chunks told + 2
  | SLoop off total => 3 * chunks (total - off) + 1
  | SCopy off total _ => 3 * chunks (total - off)
  | SAck off total => 3 * chunks (total - off) + 2
  | SDone | SFail => 0
  end.

Definition left (s : rdma_state) : Z := master_left (rd_mpc s) + slave_left (rd_spc s).


Lemma master_keeps s s' :
  linked s -> master_step file s = Some s' -> linked s' /\ left s' < left s.
Proof.
  intros Hl Hs. destruct Hl as [mb sb d|mb sb d|p mb sb log d Ha|off rem p mb sb log d Ho Ha
    |off rem p mb sb log d Ho Hr Ha Hc|off rem mb sb log d Ho Hr Ht Ha Hc|off rem mb sb log d Ho Ha
    |off rem p mb sb log d Ho Ha|p mb sb log d Ha];
    unfold master_step in Hs; cbn [rd_mpc rd_spc rd_master rd_slave rd_log rd_sync_done] in Hs;
    rewrite ?block_idle, ?block_pend, ?post_idle, ?write_idle in Hs; try done; cbn [mbind option_bind] in Hs.
  - injection Hs as <-. split; [|unfold left; cbn; lia]. cbn [Z.to_nat take drop app]. apply li_header.
  - injection Hs as <-. split; [by apply li_loop|unfold left; cbn; lia].
  - destruct (Z.ltb_spec 0 rem) as [Hr|Hr].
    + set (buf := chunk_at file off rem ++ drop (length (chunk_at file off rem)) mb).
      change (rdma_slave_post_recv_envelope _) with (idle buf) in Hs.
      cbn [idle rx_buffer] in Hs. injection Hs as <-.
      pose proof (chunk_range rem Hr) as Hn. pose proof Ha as [_ _ Hoff _].
      pose proof (chunk_length off rem (proj1 Hoff) Ho Hr) as Hlen.
      rewrite (Z.mod_small (chunk_size rem)) by (unfold RDMA_CHUNK_SIZE in Hn; lia).
      split.
      2: { unfold left; cbn [rd_mpc rd_spc master_left].
           pose proof (chunk_counted rem Hr). lia. }
      apply li_chunk; [done|done|done|]. subst buf. rewrite (take_app_le (take _ _)) by (rewrite length_take, length_app; lia).
      rewrite take_take, Nat.min_id. by rewrite take_app_le, take_ge by lia.
    + injection Hs as <-. pose proof Ha as [_ _ Hoff _].
      split; [|unfold left; cbn [rd_mpc rd_spc master_left]; pose proof (chunks_nonneg rem); lia].
      apply li_done.
      by replace L with off by lia.
  - injection Hs as <-. split; [by apply li_loop|unfold left; cbn [rd_mpc rd_spc master_left]; lia].
Qed.

(** Without a completion to take the slave can only be satisfied. *)
Lemma slave_satisfied off m p x sx log d s' :
  slave_at off p log d -> (p = SLoop off told -> off < told -> rdma_slave_block_and_get_imm sx = None) ->
  slave_step (Rdma m p x sx log d) = Some s' ->
  s' = Rdma m SDone x sx log true /\ slave_at off SDone log true /\ slave_left SDone < slave_left p.
Proof.
  intros [Hlog [->|(-> & Ht & ->)] Hoff Hend] Hb Hs; [|done]. unfold slave_step in Hs.
  cbn [rd_mpc rd_spc rd_master rd_slave rd_log rd_sync_done] in Hs.
  destruct (Z.ltb_spec off told) as [Ht|Ht]; [by rewrite Hb in Hs|].
  injection Hs as <-. split; [done|]. split; [|cbn [slave_left]; pose proof (chunks_nonneg (told - off)); lia].
  split; [done| |done|done]. right. split_and!; done.
Qed.

Lemma slave_keeps s s' : linked s -> slave_step s = Some s' -> linked s' /\ left s' < left s.
Proof.
  intros Hl Hs. destruct Hl as [mb sb d|mb sb d|p mb sb log d Ha|off rem p mb sb log d Ho Ha
    |off rem p mb sb log d Ho Hr Ha Hc|off rem mb sb log d Ho Hr Ht Ha Hc|off rem mb sb log d Ho Ha
    |off rem p mb sb log d Ho Ha|p mb sb log d Ha].
  - done.
  - unfold slave_step in Hs. cbn [rd_mpc rd_spc rd_master rd_slave rd_log rd_sync_done] in Hs.
    rewrite post_pend in Hs. cbn [mbind option_bind] in Hs. unfold slave_ack in Hs.
    rewrite write_idle in Hs. cbn [mbind option_bind] in Hs. rewrite post_idle in Hs. injection Hs as <-.
    assert (Hz : 0 <= told) by (apply Z.mod_pos_bound; lia).
    assert (HL : 0 <= L) by (unfold file_size; lia).
    destruct (Z.eqb_spec told 0) as [Ht|Ht];
      (split; [|unfold left; cbn [rd_mpc rd_spc slave_left]; rewrite ?Z.sub_0_r;
        pose proof (chunks_nonneg told); lia]);
      apply li_header_ack; (split; [done| |lia|by left]).
    + right. split_and!; [done|lia|done].
    + by left.
  - apply (slave_satisfied 0) in Hs as (-> & Ha' & Hlt); [|done|done].
    split; [by apply li_header_ack|unfold left; cbn [rd_mpc rd_spc] in *; lia].
  - apply (slave_satisfied off) in Hs as (-> & Ha' & Hlt); [|done|done].
    split; [by apply li_loop|unfold left; cbn [rd_mpc rd_spc] in *; lia].
  - destruct (decide (off < told)) as [Ht|Hno].
    2: { apply (slave_satisfied off) in Hs as (-> & Ha' & Hlt); [|done|lia].
         split; [by apply li_chunk|unfold left; cbn [rd_mpc rd_spc] in *; lia]. }
    destruct Ha as [Hlog [->|(-> & ? & _)] Hoff Hend]; [|lia]. pose proof (chunk_range rem Hr) as Hn.
    unfold slave_step in Hs. cbn [rd_mpc rd_spc rd_master rd_slave rd_log rd_sync_done] in Hs.
    rewrite (proj2 (Z.ltb_lt _ _) Ht), block_pend in Hs. cbn [mbind option_bind] in Hs.
    rewrite (proj2 (Z.eqb_neq (chunk_size rem) 0)) in Hs by lia.
    injection Hs as <-. split; [|unfold left; cbn [rd_mpc rd_spc slave_left]; lia].
    apply li_copy; [done..| |done]. by split; [|left| |].
  - unfold slave_step in Hs. cbn [rd_mpc rd_spc rd_master rd_slave rd_log rd_sync_done] in Hs.
    injection Hs as <-. cbn [idle rx_buffer]. pose proof (chunk_range rem Hr) as Hn.
    destruct Ha as [-> _ Hoff _]. rewrite Hc, chunk_log by lia. split.
    + apply li_ack; [lia|]. split; [done|by left|lia|right; lia].
    + unfold left; cbn [rd_mpc rd_spc slave_left].
      pose proof (chunks_next (told - off) (chunk_size rem) ltac:(lia)) as Hk.
      rewrite Z.sub_add_distr. assert (told <= L) by (apply Z.mod_le; [unfold file_size|]; lia).
      assert (RDMA_CHUNK_SIZE <= chunk_size rem \/ chunk_size rem = rem)
        by (unfold chunk_size; destruct (_ <? _) eqn:?; lia).
      specialize (Hk ltac:(lia)). lia.
  - unfold slave_step in Hs. cbn [rd_mpc rd_spc rd_master rd_slave rd_log rd_sync_done] in Hs.
    unfold slave_ack in Hs. rewrite write_idle, post_idle in Hs. cbn [mbind option_bind] in Hs.
    replace (if off <? told then idle sb else idle sb) with (idle sb) in Hs by (by destruct (off <? told)).
    injection Hs as <-. split; [by apply li_chunk_ack|unfold left; cbn [rd_mpc rd_spc slave_left]; lia].
  - apply (slave_satisfied off) in Hs as (-> & Ha' & Hlt); [|done|done].
    split; [by apply li_chunk_ack|unfold left; cbn [rd_mpc rd_spc] in *; lia].
  - apply (slave_satisfied L) in Hs as (-> & Ha' & Hlt); [|done|done].
    split; [by apply li_done|unfold left; cbn [rd_mpc rd_spc] in *; lia].
Qed.

(** ** Both sides come to an end *)

Lemma left_nonneg s : 0 <= left s.
Proof.
  unfold left. pose proof chunks_nonneg as Hc.
  destruct (rd_mpc s), (rd_spc s); cbn [master_left slave_left];
    repeat match goal with |- context [chunks ?r] => pose proof (Hc r); generalize dependent (chunks r); intros end;
    lia.
Qed.

Lemma run_linked k s s' :
  nsteps (rdma_step file) k s s' -> linked s -> linked s' /\ Z.of_nat k + left s' <= left s.
Proof.
  induction 1 as [s|k s s1 s2 Hst _ IH]; intros Hl; [split; [done|lia]|].
  assert (Hk : linked s1 /\ left s1 < left s)
    by (destruct Hst; [by apply master_keeps|by apply slave_keeps]).
  destruct Hk as [Hl1 Hlt]. destruct (IH Hl1) as [Hl2 Hle]. split; [done|lia].
Qed.

(** What the slave's log is on the way. *)
Lemma linked_log s : linked s -> rd_log s = old \/ exists off, rd_log s = take off file.
Proof.
  intros Hl. destruct Hl as [| |p mb sb log d [-> _ _ _]|off rem p mb sb log d _ [-> _ _ _]
    |off rem p mb sb log d _ _ [-> _ _ _] _|off rem mb sb log d _ _ _ [-> _ _ _] _
    |off rem mb sb log d _ [-> _ _ _]|off rem p mb sb log d _ [-> _ _ _]|p mb sb log d [-> _ _ _]];
    [by left|by left|by right; eexists..].
Qed.

(** The states in which neither side can step. *)
Definition stuck (s : rdma_state) : Prop := forall s', ~ rdma_step file s s'.

(** Both returned, or the slave returned and the master waits for it. *)
Lemma linked_stuck s :
  linked s -> stuck s ->
  rd_spc s = SDone /\ rd_sync_done s = true /\
  ((rd_mpc s = MDone /\ rd_log s = file /\ (L = 0 \/ L < told + RDMA_CHUNK_SIZE)) \/
   (exists o r off, rd_mpc s = MChunkAck o r /\ rd_log s = take (Z.to_nat off) file /\ told <= off < L)).
Proof.
  intros Hl Hst.
  assert (Hm : master_step file s = None).
  { destruct (master_step file s) eqn:E; [|done]. exfalso. by eapply Hst, step_master. }
  assert (Hs : slave_step s = None).
  { destruct (slave_step s) eqn:E; [|done]. exfalso. by eapply Hst, step_slave. }
  assert (Htold : told <= L).
  { apply Z.mod_le; [unfold file_size|]; lia. }
  destruct Hl as [mb sb d|mb sb d|p mb sb log d Ha|off rem p mb sb log d Ho Ha
    |off rem p mb sb log d Ho Hr Ha Hc|off rem mb sb log d Ho Hr Ht Ha Hc|off rem mb sb log d Ho Ha
    |off rem p mb sb log d Ho Ha|p mb sb log d Ha]; try done.
  - exfalso. unfold master_step in Hm. cbn [rd_mpc] in Hm. by destruct (0 <? rem).
  - destruct Ha as [Hlog [->|(-> & Ht & ->)] Hoff _]; cbn [rd_mpc rd_spc rd_log rd_sync_done].
    + exfalso. unfold slave_step in Hs. cbn [rd_spc rd_slave] in Hs.
      destruct (off <? told); [|done]. rewrite block_pend in Hs. cbn [mbind option_bind] in Hs.
      by destruct (chunk_size rem =? 0).
    + split; [done|]. split; [done|]. right. exists (off + chunk_size rem), (rem - chunk_size rem), off.
      split; [done|]. split; [done|lia].
  - destruct Ha as [Hlog [->|(-> & Ht & ->)] Hoff Hend]; cbn [rd_mpc rd_spc rd_log rd_sync_done].
    + exfalso. unfold slave_step in Hs. cbn [rd_spc rd_slave] in Hs.
      by rewrite (proj2 (Z.ltb_ge _ _) Htold) in Hs.
    + split; [done|]. split; [done|]. left. split; [done|]. split; [|done].
      rewrite Hlog. unfold file_size. by rewrite Nat2Z.id, take_ge.
Qed.
End transfer.

(** ** The promises *)

(** C15.  A log of less than 4 GB is transferred: however the two sides
    interleave, the run is over after a bounded number of steps; where it ends
    both sides have returned, the slave's log is the master's and the slave
    announced it; and on the way what the slave has written is always the
    beginning of the master's log, or what its log held before. *)
Theorem rdma_transfer file mbuf sbuf old k s :
  file_size file < 2 ^ 32 -> nsteps (rdma_step file) k (rdma_start mbuf sbuf old) s ->
  Z.of_nat k <= 3 * file_size file + 7 /\
  (rd_log s = old \/ exists off, rd_log s = take off file) /\
  (stuck file s ->
   rd_mpc s = MDone /\ rd_spc s = SDone /\ rd_log s = file /\ rd_sync_done s = true).
Proof.
  intros HL Hrun. pose proof (li_start file old mbuf sbuf false) as H0.
  destruct (run_linked file old k _ s Hrun H0) as [Hl Hk].
  pose proof (left_nonneg file s) as Hpos.
  assert (Ht : told file = file_size file) by (apply Z.mod_small; unfold file_size in *; lia).
  unfold left in Hk at 2. cbn [rd_mpc rd_spc rdma_start master_left slave_left] in Hk.
  pose proof (chunks_bound (file_size file) ltac:(unfold file_size; lia)) as Hb.
  pose proof (chunks_mono (told file) (file_size file) ltac:(lia)) as Hmono.
  split; [lia|]. split; [by apply linked_log|]. intros Hst.
  destruct (linked_stuck file old s Hl Hst) as (Hs & Hd & [(Hm & Hlog & _)|(o & r & off & _ & _ & Hr)]);
    [done|lia].
Qed.

(** The size the slave is told has 32 bits: the transfer of a log of 4 GB
    or more ends with the slave announcing success and replaying a beginning
    of the log, however the two sides interleave, while the master waits for
    an answer that never comes, in the thread that serves all clients. *)
Theorem rdma_large_never_finishes file mbuf sbuf old k s :
  2 ^ 32 <= file_size file -> nsteps (rdma_step file) k (rdma_start mbuf sbuf old) s ->
  Z.of_nat k <= 3 * file_size file + 7 /\
  (stuck file s ->
   rd_spc s = SDone /\ rd_sync_done s = true /\
   (exists off, rd_log s = take (Z.to_nat off) file /\ off < file_size file) /\
   exists o r, rd_mpc s = MChunkAck o r).
Proof.
  intros HL Hrun. pose proof (li_start file old mbuf sbuf false) as H0.
  destruct (run_linked file old k _ s Hrun H0) as [Hl Hk].
  pose proof (left_nonneg file s) as Hpos.
  assert (Ht : told file <= file_size file - 2 ^ 32).
  { unfold told. pose proof (Z.div_mod (file_size file) (2 ^ 32)).
    assert (1 <= file_size file / 2 ^ 32) by (apply Z.div_le_lower_bound; lia). lia. }
  unfold left in Hk at 2. cbn [rd_mpc rd_spc rdma_start master_left slave_left] in Hk.
  pose proof (chunks_bound (file_size file) ltac:(unfold file_size; lia)) as Hb.
  pose proof (chunks_mono (told file) (file_size file) ltac:(lia)) as Hmono.
  split; [lia|]. intros Hst.
  destruct (linked_stuck file old s Hl Hst) as (Hs & Hd & [(Hm & Hlog & Hr)|(o & r & off & Hm & Hlog & Hr)]).
  - exfalso. unfold RDMA_CHUNK_SIZE in Hr. lia.
  - split; [done|]. split; [done|]. split; [exists off; split; [done|lia]|by exists o, r].
Qed.

(** ** Examples *)

(** A run that follows a schedule: [true] for the master. *)
Fixpoint run_schedule (file : bytes) (sched : list bool) (s : rdma_state) : option rdma_state :=
  match sched with
  | [] => Some s
  | b :: sched =>
    s' ← (if b : bool then master_step file s else slave_step s);
    run_schedule file sched s'
  end.

Lemma run_schedule_steps file sched s s' :
  run_schedule file sched s = Some s' -> nsteps (rdma_step file) (length sched) s s'.
Proof.
  revert s. induction sched as [|b sched IH]; intros s; cbn [run_schedule length].
  - intros [= ->]. apply nsteps_O.
  - destruct b; [destruct (master_step file s) as [s1|] eqn:E|destruct (slave_step s) as [s1|] eqn:E];
      try done; cbn [mbind option_bind]; intros Hs; eapply nsteps_l;
      [by apply step_master|by apply IH|by apply step_slave|by apply IH].
Qed.

Definition small_run : list bool := [true; false; true; true; false; false; false; false; true; true].

Definition small_start : rdma_state := rdma_start [x61] [x62; x63] (str "mine").

Definition small_end : rdma_state :=
  Eval vm_compute in default small_start (run_schedule (str "log") small_run small_start).

Lemma small_end_stuck : stuck (str "log") small_end.
Proof. intros s' Hs. inversion Hs as [? ? E|? ? E]; subst; by vm_compute in E. Qed.

Lemma rdma_transfer_witness :
  file_size (str "log") < 2 ^ 32 /\ nsteps (rdma_step (str "log")) 10 small_start small_end /\
  stuck (str "log") small_end /\ Z.of_nat 10 <= 3 * file_size (str "log") + 7 /\
  rd_mpc small_end = MDone /\ rd_spc small_end = SDone /\ rd_log small_end = str "log" /\
  rd_sync_done small_end = true.
Proof.
  assert (Hl : file_size (str "log") < 2 ^ 32) by (by vm_compute).
  assert (Hr : nsteps (rdma_step (str "log")) 10 small_start small_end)
    by (apply (run_schedule_steps (str "log") small_run); vm_compute; reflexivity).
  split; [exact Hl|]. split; [exact Hr|]. split; [exact small_end_stuck|].
  destruct (rdma_transfer (str "log") [x61] [x62; x63] (str "mine") 10 small_end Hl Hr) as (Hk & _ & Hend).
  split; [exact Hk|]. exact (Hend small_end_stuck).
Defined.

(** A log of exactly 4 GB. *)
Definition huge_log : bytes := replicate (Z.to_nat (2 ^ 32)) x00.

Lemma huge_log_size : file_size huge_log = 2 ^ 32.
Proof. unfold file_size, huge_log. rewrite length_replicate. by apply Z2Nat.id. Qed.

Lemma rdma_large_never_finishes_witness :
  2 ^ 32 <= file_size huge_log /\
  nsteps (rdma_step huge_log) 0 (rdma_start [] [] []) (rdma_start [] [] []) /\
  Z.of_nat 0 <= 3 * file_size huge_log + 7.
Proof.
  assert (H0 : 2 ^ 32 <= file_size huge_log) by (rewrite huge_log_size; lia).
  split; [exact H0|]. split; [apply nsteps_O|].
  exact (proj1 (rdma_large_never_finishes huge_log [] [] [] 0 _ H0 (nsteps_O _ _))).
Defined.
