(* ===== verification/RdmaFail.v ===== *)
(** * Failures during the transfer over RDMA (repl.c, rdma.c)

    Rdma takes the device to work; here every call of the verbs library may
    fail, and each side runs by itself against what its calls answer: a write
    is accepted or not and its completions are polled, a wait gives an event
    or not, the notification is renewed or not, and completions are polled
    again.  For C16 the two sides meet in the buffer of the slave, which the master's
    later writes overwrite ([delivers]).  The file
    proves which results tell the truth: the master's 0 means the log was
    written in full, the slave's SYNC_DONE that as much as was announced is in
    its log; and it shows what is not looked at.

    The receives a side has posted are in Rdma; a call that fails posts none.
    What is printed about a failure is not modelled. *)

From S2P Require Import Prelude KvData Engine Config Resp Repl Aof ExpireQueue Store Snapshot Ai.
From S2P Require Import Commands Lookup Protocol Net Server Sync Rdma RdmaSpec.

Open Scope Z_scope.
Open Scope kvs_scope.

(** ** The verbs *)

(** [struct ibv_wc]; the status is success or not. *)
Record ibv_wc := Wc {
  wc_id : Z;
  wc_success : bool;
  wc_opcode : Z;
  wc_imm : Z
}.

(** What [ibv_poll_cq] answers: nothing yet, an error, a completion. *)
Inductive poll :=
| PollNone
| PollError
| PollWc (wc : ibv_wc).

(** The answers to one [rdma_master_write_log_imm]: whether the request is
    accepted, and the polls behind it. *)
Record write_answer := WriteAnswer {
  wa_post : bool;
  wa_polls : list poll
}.

(** The answers to one [rdma_slave_block_and_get_imm]: whether there is an
    event, whether the notification is renewed, the polls; and what the buffer
    holds when the call returns. *)
Record block_answer := BlockAnswer {
  ba_event : bool;
  ba_notify : bool;
  ba_polls : list poll;
  ba_buffer : bytes
}.

(** The loop on the send queue: completions of other requests are dropped. *)
Fixpoint poll_send (ans : list poll) : run Z :=
  match ans with
  | [] => MoreAnswers
  | PollNone :: ans => poll_send ans
  | PollError :: _ => Ret (-3)
  | PollWc wc :: ans =>
    if wc_id wc =? 99 then Ret (if wc_success wc then 0 else -4) else poll_send ans
  end.

(** The result of [rdma_master_write_log_imm]; [ctx] tells whether the
    structure exists. *)
Definition write_log_imm (ctx : bool) (a : write_answer) : run Z :=
  if negb ctx then Ret (-1) else if negb (wa_post a) then Ret (-2) else poll_send (wa_polls a).

(** [IBV_WC_RECV_RDMA_WITH_IMM] of the verbs library, and the first poll that is not empty. *)
Definition WC_RECV_RDMA_WITH_IMM : Z := 129.

Fixpoint poll_recv (ans : list poll) : run (option ibv_wc) :=
  match ans with
  | [] => MoreAnswers
  | PollNone :: ans => poll_recv ans
  | PollError :: _ => Ret None
  | PollWc wc :: _ => Ret (Some wc)
  end.

(** [rdma_slave_block_and_get_imm]: the result, and what [*out_log_size] is
    afterwards. *)
Definition block_and_get_imm (out : Z) (a : block_answer) : run (Z * Z) :=
  if negb (ba_event a) then Ret (-1, out)
  else if negb (ba_notify a) then Ret (-2, out)
  else
    let! wc := poll_recv (ba_polls a) in
    match wc with
    | Some wc =>
      if negb (wc_success wc) then Ret (-3, out)
      else Ret (0, if Z.land (wc_opcode wc) WC_RECV_RDMA_WITH_IMM =? 0 then out else u32 (wc_imm wc))
    | None => Ret (-3, out)
    end.

(** ** The master *)

(** The log as [stat] finds it, whether it opens and is mapped. *)
Record master_env := MasterEnv {
  me_ctx : bool;
  me_file : option bytes;
  me_open_ok : bool;
  me_map_ok : bool
}.

(** A completed write: the immediate data and the payload. *)
Abbreviation message := (Z * bytes)%type.

(** The loop over the chunks: the value of [ret] behind it and the writes that
    were completed. *)
Fixpoint send_chunks (file : bytes) (ws : list write_answer) (bs : list block_answer)
  (offset remaining ret : Z) : run (Z * list message) :=
  if 0 <? remaining then
    match ws with
    | [] => MoreAnswers
    | w :: ws =>
      let n := chunk_size remaining in
      let! ret := write_log_imm true w in
      if ret <? 0 then Ret (ret, [])
      else
        match bs with
        | [] => MoreAnswers
        | b :: bs =>
          let! _ := block_and_get_imm 0 b in
          let! r := send_chunks file ws bs (offset + n) (remaining - n) ret in
          Ret (r.1, (n, chunk_at file offset remaining) :: r.2)
        end
    end
  else Ret (ret, []).

(** The size, its acknowledgement, and what follows. *)
Definition send_header (size : Z) (ws : list write_answer) (bs : list block_answer)
  (k : list write_answer -> list block_answer -> run (Z * list message)) : run (Z * list message) :=
  match ws with
  | [] => MoreAnswers
  | w :: ws =>
    let! ret := write_log_imm true w in
    if ret <? 0 then Ret (-1, [])
    else
      match bs with
      | [] => MoreAnswers
      | b :: bs =>
        let! _ := block_and_get_imm 0 b in
        let! r := k ws bs in
        Ret (r.1, (u32 size, []) :: r.2)
      end
  end.

(** [repl_sync_log_via_rdma] *)
Definition repl_sync_log_via_rdma (e : master_env) (ws : list write_answer) (bs : list block_answer)
  : run (Z * list message) :=
  if negb (me_ctx e) then Ret (-1, [])
  else
    match me_file e with
    | None | Some [] => send_header 0 ws bs (fun _ _ => Ret (0, []))
    | Some file =>
      if negb (me_open_ok e && me_map_ok e) then Ret (-1, [])
      else
        send_header (file_size file) ws bs
          (fun ws bs => send_chunks file ws bs 0 (file_size file) 0)
    end.

(** ** The slave *)

(** Whether the log opens, and whether there is a connection to announce the
    end on. *)
Record slave_env := SlaveEnv {
  se_open_ok : bool;
  se_fd : Z
}.

(** The slave's log, the writes it answered with, whether it announced the end
    and replays the log, and its running flag. *)
Record slave_end := SlaveEnd {
  sl_log : bytes;
  sl_acks : nat;
  sl_sent : bytes;
  sl_replay : bool;
  sl_running : bool
}.

(** What [write] answers: the bytes written, or a failure.  The call is given
    [n] bytes from the start of the buffer, which is not longer than the
    ring. *)
Definition write_buffer (log buffer : bytes) (n written : Z) : run (bytes * bool) :=
  if RING_BUFFER_SIZE <? n then Undef
  else Ret (log ++ take (Z.to_nat (Z.min written n)) buffer, written =? n).

(** The loop of the thread, and what follows it: one wait, one [write] and one
    answer for each chunk. *)
Fixpoint recv_chunks (fd total : Z) (bs : list (block_answer * Z)) (ws : list write_answer)
  (log : bytes) (received : Z) (acks : nat) : run slave_end :=
  if received <? total then
    match bs with
    | [] => MoreAnswers
    | (b, written) :: bs =>
      let! (ret, n) := block_and_get_imm 0 b in
      if (ret <? 0) || (n =? 0) then Ret (SlaveEnd log acks [] false false)
      else
        let! (log, full) := write_buffer log (ba_buffer b) n written in
        if negb full then Ret (SlaveEnd log acks [] false false)
        else
          match ws with
          | [] => MoreAnswers
          | w :: ws =>
            let! _ := write_log_imm true w in
            recv_chunks fd total bs ws log (received + n) (S acks)
          end
    end
  else Ret (SlaveEnd log acks (if 0 <=? fd then SYNC_DONE else []) true false).

(** [pure_rdma_repl_slave_thread]; [running] is [g_slave_rdma_running]. *)
Definition pure_rdma_repl_slave_thread (e : slave_env) (running : bool) (log : bytes)
  (head : block_answer) (bs : list (block_answer * Z)) (ws : list write_answer) : run slave_end :=
  if running then Ret (SlaveEnd log 0 [] false true)
  else
    let! (ret, total) := block_and_get_imm 0 head in
    if ret <? 0 then Ret (SlaveEnd log 0 [] false false)
    else
      match ws with
      | w :: ws =>
        if total =? 0 then
          let! _ := write_log_imm true w in
          Ret (SlaveEnd (if se_open_ok e then [] else log) 1
                 (if 0 <=? se_fd e then SYNC_DONE else []) false false)
        else if negb (se_open_ok e) then Ret (SlaveEnd log 0 [] false false)
        else
          let! _ := write_log_imm true w in
          recv_chunks (se_fd e) total bs ws [] 0 1
      | [] => if (total =? 0) || se_open_ok e then MoreAnswers else Ret (SlaveEnd log 0 [] false false)
      end.

(** ** The results of the verbs *)

Lemma write_log_imm_range ctx a r : write_log_imm ctx a = Ret r -> -4 <= r <= 0.
Proof.
  unfold write_log_imm. destruct ctx; [|by intros [= <-]]. destruct (wa_post a); [|by intros [= <-]].
  simpl. induction (wa_polls a) as [|[| |wc] ans IH]; simpl; [done|done|by intros [= <-]|].
  destruct (wc_id wc =? 99); [|done]. intros [= <-]. by destruct (wc_success wc).
Qed.

(** What a wait that went well gives the slave. *)
Definition received_size (b : block_answer) : Z :=
  match block_and_get_imm 0 b with Ret (_, n) => n | _ => 0 end.

Definition received_chunk (b : block_answer) : bytes :=
  take (Z.to_nat (received_size b)) (ba_buffer b).

(** ** The master *)

(** What the loop has completed is the log from [offset] on: all of it with
    result 0, and a part of it with a negative one. *)
Lemma send_chunks_sound file ws bs offset remaining r sent :
  0 <= offset -> offset + remaining = file_size file -> 0 <= remaining ->
  send_chunks file ws bs offset remaining 0 = Ret (r, sent) ->
  -4 <= r <= 0 /\ Forall (fun m : message => m.1 = Z.of_nat (length m.2)) sent /\
  exists rest, take (Z.to_nat offset) file ++ concat (snd <$> sent) ++ rest = file /\
    (r = 0 <-> rest = []).
Proof.
  revert bs offset remaining r sent.
  induction ws as [|w ws IH]; intros bs offset remaining r sent Ho Hl Hr; cbn [send_chunks];
    destruct (Z.ltb_spec 0 remaining) as [Hp|Hp]; try done.
  1, 3: intros [= <- <-]; split_and!; [lia|lia|done|exists []]; simpl;
    (rewrite take_ge by (unfold file_size in Hl; lia)); by rewrite app_nil_r.
  destruct (write_log_imm true w) as [ret| | | |] eqn:Hw; try done. cbn [run_bind].
  apply write_log_imm_range in Hw. pose proof (chunk_range remaining Hp) as Hc.
  destruct (Z.ltb_spec ret 0) as [Hn|Hn].
  - intros [= <- <-]. split_and!; [lia|lia|done|]. exists (drop (Z.to_nat offset) file). simpl.
    rewrite take_drop. split; [done|]. split; [lia|]. intros Hd.
    apply (f_equal length) in Hd. rewrite length_drop in Hd. unfold file_size in Hl. simpl in Hd. lia.
  - replace ret with 0 by lia. destruct bs as [|b bs]; [done|].
    destruct (block_and_get_imm 0 b) as [x| | | |]; try done. cbn [run_bind].
    destruct (send_chunks file ws bs _ _ 0) as [[r' sent']| | | |] eqn:Hs; try done.
    cbn [run_bind]. intros [= <- <-]. apply IH in Hs as (Hrr & Hf & rest & Hrest & Hz); [|lia..].
    split; [done|]. split.
    + constructor; [|done]. cbn [fst snd]. rewrite (chunk_length file offset remaining) by lia. lia.
    + exists rest. split; [|done]. cbn [fmap list_fmap concat snd].
      by rewrite <- app_assoc, app_assoc, (chunk_log file offset remaining) by lia.
Qed.

(** The log as the master reads it. *)
Definition master_log (e : master_env) : bytes := default [] (me_file e).

(** Whatever fails, the master's result tells the truth about its own writes:
    with 0 the size and every byte of the log were written to the slave, and
    otherwise the size and a beginning of the log, or nothing. *)
Theorem master_tells_truth e ws bs r sent :
  repl_sync_log_via_rdma e ws bs = Ret (r, sent) ->
  -4 <= r <= 0 /\
  (sent = [] /\ r <> 0 \/
   exists data rest, sent = (u32 (file_size (master_log e)), []) :: data /\
     Forall (fun m : message => m.1 = Z.of_nat (length m.2)) data /\
     concat (snd <$> data) ++ rest = master_log e /\ (r = 0 <-> rest = [])).
Proof.
  assert (Hh : forall size k, send_header size ws bs k = Ret (r, sent) ->
    (r = -1 /\ sent = []) \/ exists ws' bs' data, k ws' bs' = Ret (r, data) /\
       sent = (u32 size, []) :: data).
  { intros size k. unfold send_header. destruct ws as [|w ws']; [done|].
    destruct (write_log_imm true w) as [ret| | | |]; try done. cbn [run_bind].
    destruct (ret <? 0); [intros [= <- <-]; by left|]. destruct bs as [|b bs']; [done|].
    destruct (block_and_get_imm 0 b); try done. cbn [run_bind].
    destruct (k ws' bs') as [[r' data]| | | |] eqn:Ek; try done. cbn [run_bind].
    intros [= <- <-]. right. by exists ws', bs', data. }
  unfold repl_sync_log_via_rdma, master_log. destruct (me_ctx e); cbn [negb].
  2: { intros [= <- <-]. split; [lia|]. by left. }
  destruct (me_file e) as [[|c file]|]; cbn [default]; unfold id.
  1, 3: intros [[-> ->]|(ws' & bs' & data & [= <- <-] & ->)]%Hh; (split; [lia|]);
    [by left|right; exists [], []; by split_and!].
  destruct (negb (me_open_ok e && me_map_ok e)); [intros [= <- <-]; split; [lia|]; by left|].
  intros [[-> ->]|(ws' & bs' & data & Hk & ->)]%Hh; [split; [lia|]; by left|].
  apply send_chunks_sound in Hk as (Hr & Hf & rest & Hrest & Hz); [|unfold file_size; lia..].
  split; [done|]. right. by exists data, rest.
Qed.

(** Two runs that give the same when both return. *)
Definition agree {A} (m m' : run A) : Prop := forall x y, m = Ret x -> m' = Ret y -> x = y.

Lemma agree_refl {A} (m : run A) : agree m m.
Proof. unfold agree. congruence. Qed.

Lemma agree_bind {A B} (m m' : run A) (f g : A -> run B) :
  agree m m' -> (forall a, agree (f a) (g a)) -> agree (run_bind m f) (run_bind m' g).
Proof.
  intros Hm Hf x y. destruct m as [a| | | |], m' as [a'| | | |]; try done. simpl.
  rewrite (Hm a a') by done. apply Hf.
Qed.

Lemma agree_skip {A B} (m m' : run A) (k k' : run B) :
  agree k k' -> agree (let! _ := m in k) (let! _ := m' in k').
Proof. intros Hk x y. destruct m, m'; try done. apply Hk. Qed.

Lemma send_chunks_acks file ws bs bs' off rem ret :
  agree (send_chunks file ws bs off rem ret) (send_chunks file ws bs' off rem ret).
Proof.
  revert bs bs' off rem ret. induction ws as [|w ws IH]; intros bs bs' off rem ret; cbn [send_chunks];
    destruct (0 <? rem); try apply agree_refl.
  apply agree_bind; [apply agree_refl|]. intros ret'. destruct (ret' <? 0); [apply agree_refl|].
  destruct bs, bs'; try done. apply agree_skip, agree_bind; [apply IH|intros a; apply agree_refl].
Qed.

Lemma send_header_acks size ws bs bs' k :
  (forall w b b', agree (k w b) (k w b')) -> agree (send_header size ws bs k) (send_header size ws bs' k).
Proof.
  intros Hk. unfold send_header. destruct ws as [|w ws]; [apply agree_refl|].
  apply agree_bind; [apply agree_refl|]. intros ret. destruct (ret <? 0); [apply agree_refl|].
  destruct bs, bs'; try done. apply agree_skip, agree_bind; [apply Hk|intros a; apply agree_refl].
Qed.

(** The result of the master's waits is not looked at: whatever the
    acknowledgements are, failures of its device included, it writes the same
    and returns the same.  So a wait that fails, interrupted by a signal say,
    is followed by the next chunk on top of one the slave may not have
    copied. *)
Theorem master_ignores_acks e ws bs bs' :
  agree (repl_sync_log_via_rdma e ws bs) (repl_sync_log_via_rdma e ws bs').
Proof.
  unfold repl_sync_log_via_rdma. destruct (negb (me_ctx e)); [apply agree_refl|].
  destruct (me_file e) as [[|c file]|]; [|destruct (negb _); [apply agree_refl|]|];
    apply send_header_acks; intros w b b'; try apply agree_refl. apply send_chunks_acks.
Qed.

(** ** The slave *)

(** What the loop leaves: it has appended the chunks it waited for, up to the
    one that failed, and when it ends well they are as many bytes as were
    announced. *)
Definition recv_sound (total : Z) (bs : list block_answer) (log : bytes) (received : Z) (s : slave_end)
  : Prop :=
  sl_running s = false /\
  exists k last, sl_log s = log ++ concat (received_chunk <$> take k bs) ++ last /\
    Forall (fun b => 0 < received_size b <= RING_BUFFER_SIZE) (take k bs) /\
    last `prefix_of` default [] (received_chunk <$> bs !! k) /\
    (sl_replay s = true -> last = [] /\ (k <= length bs)%nat /\
      total <= received + foldr Z.add 0 (received_size <$> take k bs)) /\
    (sl_replay s = false -> sl_sent s = []).

Lemma recv_stop total bs log received acks last :
  last `prefix_of` default [] (received_chunk <$> bs !! 0%nat) ->
  recv_sound total bs log received (SlaveEnd (log ++ last) acks [] false false).
Proof. intros Hl. split; [done|]. by exists 0%nat, last. Qed.

Lemma recv_stop_at_once total bs log received acks :
  recv_sound total bs log received (SlaveEnd log acks [] false false).
Proof.
  pose proof (recv_stop total bs log received acks [] (prefix_nil _)) as H. by rewrite app_nil_r in H.
Qed.

Lemma recv_end total bs log received acks sent :
  total <= received -> recv_sound total bs log received (SlaveEnd log acks sent true false).
Proof.
  intros Ht. split; [done|]. exists 0%nat, []. cbn. rewrite app_nil_r.
  split; [done|]. split; [done|]. split; [apply prefix_nil|]. split; [|done].
  intros _. rewrite take_0. simpl. split; [done|]. lia.
Qed.

Lemma recv_next total b bs log received s :
  0 < received_size b <= RING_BUFFER_SIZE ->
  recv_sound total bs (log ++ received_chunk b) (received + received_size b) s ->
  recv_sound total (b :: bs) log received s.
Proof.
  intros Hb [Hrun (k & last & Hlog & Hf & Hl & Ht & Hs)]. split; [done|]. exists (S k), last.
  cbn [take fmap list_fmap concat foldr]. split; [by rewrite Hlog, <- !app_assoc|].
  split; [by constructor|]. split; [done|]. split; [|done].
  intros Hr. destruct (Ht Hr) as (-> & Hk & Hle). split; [done|]. simpl. lia.
Qed.

Lemma block_size_range b ret n : block_and_get_imm 0 b = Ret (ret, n) -> 0 <= n.
Proof.
  unfold block_and_get_imm. destruct (ba_event b); [|by intros [= <- <-]].
  destruct (ba_notify b); [|by intros [= <- <-]]. cbn [negb].
  destruct (poll_recv (ba_polls b)) as [[wc|]| | | |]; try done; cbn [run_bind]; [|by intros [= <- <-]].
  destruct (wc_success wc); [|by intros [= <- <-]]. cbn [negb]. intros [= <- <-].
  destruct (Z.land _ _ =? 0); [done|]. apply u32_range.
Qed.

Lemma recv_chunks_sound fd total bs ws log received acks s :
  recv_chunks fd total bs ws log received acks = Ret s -> recv_sound total bs.*1 log received s.
Proof.
  revert ws log received acks. induction bs as [|[b w] bs IH]; intros ws log received acks; cbn [recv_chunks];
    destruct (Z.ltb_spec received total) as [Hr|Hr]; try done.
  1, 3: intros [= <-]; by apply recv_end.
  destruct (block_and_get_imm 0 b) as [[ret n]| | | |] eqn:Hb; try done. cbn [run_bind].
  assert (Hn : received_size b = n) by (unfold received_size; by rewrite Hb).
  apply block_size_range in Hb.
  destruct ((ret <? 0) || (n =? 0)) eqn:He; [intros [= <-]; apply recv_stop_at_once|].
  apply orb_false_iff in He as [_ Hn0%Z.eqb_neq].
  unfold write_buffer. destruct (Z.ltb_spec RING_BUFFER_SIZE n) as [|Hring]; [done|]. cbn [run_bind].
  destruct (Z.eqb_spec w n) as [->|Hw]; cbn [negb].
  - destruct ws as [|a ws]; [done|]. destruct (write_log_imm true a); try done. cbn [run_bind].
    intros Hs. change (recv_sound total (b :: bs.*1) log received s).
    apply recv_next; [rewrite Hn; lia|]. rewrite Hn. unfold received_chunk. rewrite Hn.
    rewrite Z.min_id in Hs. by eapply IH.
  - intros [= <-]. apply recv_stop. cbn. unfold received_chunk. rewrite Hn.
    replace (Z.to_nat (Z.min w n)) with (Nat.min (Z.to_nat (Z.min w n)) (Z.to_nat n)) by lia.
    rewrite <- take_take. apply prefix_take.
Qed.

(** Every path of the thread leaves its flag as it was, so that the next
    transfer can be received; while one runs, another does nothing. *)
Theorem slave_restores_flag e running log head bs ws s :
  pure_rdma_repl_slave_thread e running log head bs ws = Ret s ->
  sl_running s = running /\ (running = true -> s = SlaveEnd log 0 [] false true).
Proof.
  unfold pure_rdma_repl_slave_thread. destruct running; [by intros [= <-]|].
  intros Hs. split; [|done]. revert Hs.
  destruct (block_and_get_imm 0 head) as [[ret total]| | | |]; try done. cbn [run_bind].
  destruct (ret <? 0); [by intros [= <-]|]. destruct ws as [|w ws].
  { destruct ((total =? 0) || se_open_ok e); [done|]. by intros [= <-]. }
  destruct (total =? 0); [destruct (write_log_imm true w); try done; by intros [= <-]|].
  destruct (negb (se_open_ok e)); [by intros [= <-]|].
  destruct (write_log_imm true w); try done. cbn [run_bind].
  by intros [Hr _]%recv_chunks_sound.
Qed.

(** ** Both sides *)

(** Whether a wait succeeded. *)
Definition wait_ok (b : block_answer) : bool :=
  match block_and_get_imm 0 b with Ret (ret, _) => 0 <=? ret | _ => false end.

Definition count_ok (bs : list block_answer) : nat := length (filter (fun b => wait_ok b = true) bs).

(** The slave's buffer: each write goes to its start. *)
Definition ring_after (ring : bytes) (data : list message) : bytes :=
  foldl (fun ring (m : message) => m.2 ++ drop (length m.2) ring) ring data.

(** What the device does with the master's messages behind the size; [waits]
    are the master's waits, that for the acknowledgement of the size first.
    The slave's i-th wait fails, or gives the immediate data of the i-th
    message; when the slave copies the buffer the master has written [j]
    messages into it.  By then the slave has written [S i] acknowledgements,
    and the master, which wrote the j-th message behind its j-th wait, has got
    no more of them. *)
Definition delivers (ring : bytes) (data : list message) (waits bs : list block_answer) : Prop :=
  forall i b, bs !! i = Some b ->
    received_size b = 0 \/
    exists m j, data !! i = Some m /\ received_size b = m.1 /\
      (i < j <= length data)%nat /\ (count_ok (take j waits) <= S i)%nat /\
      ba_buffer b = ring_after ring (take j data).

Lemma ring_after_snoc ring data m :
  ring_after ring (data ++ [m]) = m.2 ++ drop (length m.2) (ring_after ring data).
Proof. unfold ring_after. by rewrite foldl_app. Qed.

Lemma ring_after_length ring data m :
  m ∈ data -> (length m.2 <= length (ring_after ring data))%nat.
Proof.
  induction data as [|m' data IH] using rev_ind; [by intros ?%elem_of_nil|].
  rewrite ring_after_snoc, elem_of_app, list_elem_of_singleton, length_app, length_drop.
  intros [Hm| ->]; [apply IH in Hm|]; lia.
Qed.

Lemma ring_after_last ring data i m :
  data !! i = Some m -> take (length m.2) (ring_after ring (take (S i) data)) = m.2.
Proof. intros Hm. rewrite (take_S_r _ _ _ Hm), ring_after_snoc. by rewrite take_app_length. Qed.

Lemma count_ok_all bs : Forall (fun b => wait_ok b = true) bs -> count_ok bs = length bs.
Proof.
  unfold count_ok. induction 1 as [|b bs Hb _ IH]; [done|].
  rewrite filter_cons_True by done. simpl. by rewrite IH.
Qed.

(** What was received, in size whatever the master's waits were, and in
    content when none of them failed. *)
Lemma delivered_sizes ring data waits bs k :
  delivers ring data waits bs -> Forall (fun b => 0 < received_size b <= RING_BUFFER_SIZE) (take k bs) ->
  received_size <$> take k bs = fst <$> take (length (take k bs)) data.
Proof.
  intros Hd Hf. apply list_eq. intros i. rewrite !list_lookup_fmap.
  destruct (take k bs !! i) as [b|] eqn:Hb.
  - pose proof (lookup_lt_Some _ _ _ Hb) as Hi. rewrite lookup_take_lt by done.
    rewrite Forall_lookup in Hf. apply Hf in Hb as Hp. apply lookup_take_Some in Hb as [Hb _].
    destruct (Hd i b Hb) as [H0|(m & j & Hm & Hsz & _)]; [lia|]. by rewrite Hm; simpl; rewrite Hsz.
  - apply lookup_ge_None in Hb as Hi. by rewrite lookup_take_ge by done.
Qed.

Lemma delivered_chunk_length ring data waits bs k :
  Forall (fun m : message => m.1 = Z.of_nat (length m.2)) data ->
  delivers ring data waits bs -> Forall (fun b => 0 < received_size b <= RING_BUFFER_SIZE) (take k bs) ->
  Forall (fun b => Z.of_nat (length (received_chunk b)) = received_size b) (take k bs).
Proof.
  intros Hsz Hd Hf. apply Forall_lookup. intros i b Hb. rewrite Forall_lookup in Hf.
  apply Hf in Hb as Hp. apply lookup_take_Some in Hb as [Hb _].
  destruct (Hd i b Hb) as [H0|(m & j & Hm & Hs & Hj & _ & Hbuf)]; [lia|].
  rewrite Forall_lookup in Hsz. apply Hsz in Hm as Hlen.
  assert (Hin : m ∈ take j data).
  { apply list_elem_of_lookup. exists i. rewrite lookup_take_lt by lia. done. }
  apply (ring_after_length ring) in Hin. unfold received_chunk. rewrite Hbuf, length_take. lia.
Qed.

Lemma delivered_chunks ring data waits bs k :
  Forall (fun m : message => m.1 = Z.of_nat (length m.2)) data -> (length data <= length waits)%nat ->
  Forall (fun b => wait_ok b = true) waits ->
  delivers ring data waits bs -> Forall (fun b => 0 < received_size b <= RING_BUFFER_SIZE) (take k bs) ->
  received_chunk <$> take k bs = snd <$> take (length (take k bs)) data.
Proof.
  intros Hsz Hl Hw Hd Hf. apply list_eq. intros i. rewrite !list_lookup_fmap.
  destruct (take k bs !! i) as [b|] eqn:Hb.
  - pose proof (lookup_lt_Some _ _ _ Hb) as Hi. rewrite lookup_take_lt by done.
    rewrite Forall_lookup in Hf. apply Hf in Hb as Hp. apply lookup_take_Some in Hb as [Hb _].
    destruct (Hd i b Hb) as [H0|(m & j & Hm & Hs & Hj & Hc & Hbuf)]; [lia|].
    rewrite count_ok_all, length_take in Hc by (by apply Forall_take).
    replace j with (S i) in Hbuf by lia. rewrite Forall_lookup in Hsz. apply Hsz in Hm as Hlen.
    rewrite Hm. simpl. f_equal. unfold received_chunk. rewrite Hbuf, Hs, Hlen, Nat2Z.id.
    by apply ring_after_last.
  - apply lookup_ge_None in Hb as Hi. by rewrite lookup_take_ge by done.
Qed.

Lemma chunks_length (bs : list block_answer) :
  Forall (fun b => Z.of_nat (length (received_chunk b)) = received_size b) bs ->
  Z.of_nat (length (concat (received_chunk <$> bs))) = foldr Z.add 0 (received_size <$> bs).
Proof.
  induction 1 as [|b bs Hb _ IH]; [done|]. cbn [fmap list_fmap concat foldr].
  rewrite length_app. lia.
Qed.

(** The master waits behind each write. *)
Lemma send_chunks_waits file ws bs offset remaining ret r sent :
  send_chunks file ws bs offset remaining ret = Ret (r, sent) -> (length sent <= length bs)%nat.
Proof.
  revert bs offset remaining ret r sent.
  induction ws as [|w ws IH]; intros bs offset remaining ret r sent; cbn [send_chunks];
    destruct (0 <? remaining); try done.
  1, 3: intros [= <- <-]; simpl; lia.
  destruct (write_log_imm true w) as [ret'| | | |]; try done. cbn [run_bind].
  destruct (ret' <? 0); [intros [= <- <-]; simpl; lia|]. destruct bs as [|b bs]; [done|].
  destruct (block_and_get_imm 0 b); try done. cbn [run_bind].
  destruct (send_chunks file ws bs _ _ ret') as [[r' sent']| | | |] eqn:Hs; try done.
  cbn [run_bind]. intros [= <- <-]. apply IH in Hs. simpl. lia.
Qed.

Lemma master_waits e ws bs r sent :
  repl_sync_log_via_rdma e ws bs = Ret (r, sent) -> (length sent <= length bs)%nat.
Proof.
  assert (Hh : forall size k,
    (forall ws' bs' r' data, k ws' bs' = Ret (r', data) -> (length data <= length bs')%nat) ->
    send_header size ws bs k = Ret (r, sent) -> (length sent <= length bs)%nat).
  { intros size k Hk. unfold send_header. destruct ws as [|w ws']; [done|].
    destruct (write_log_imm true w) as [ret| | | |]; try done. cbn [run_bind].
    destruct (ret <? 0); [intros [= <- <-]; simpl; lia|]. destruct bs as [|b bs']; [done|].
    destruct (block_and_get_imm 0 b); try done. cbn [run_bind].
    destruct (k ws' bs') as [[r' data]| | | |] eqn:Ek; try done. cbn [run_bind].
    intros [= <- <-]. apply Hk in Ek. simpl. lia. }
  unfold repl_sync_log_via_rdma. destruct (negb (me_ctx e)); [intros [= <- <-]; simpl; lia|].
  destruct (me_file e) as [[|c file]|]; [|destruct (negb _); [intros [= <- <-]; simpl; lia|]|];
    apply Hh; intros ws' bs' r' data; [by intros [= <- <-]; simpl; lia| |by intros [= <- <-]; simpl; lia].
  apply send_chunks_waits.
Qed.

Lemma sizes_length data :
  Forall (fun m : message => m.1 = Z.of_nat (length m.2)) data ->
  foldr Z.add 0 (fst <$> data) = Z.of_nat (length (concat (snd <$> data))).
Proof.
  induction 1 as [|m data Hm _ IH]; [done|]. cbn [fmap list_fmap foldr concat].
  rewrite IH, length_app. lia.
Qed.

(** A slave that replays has appended chunks of the announced size in all. *)
Lemma slave_replays_chunks e log head bs ws s :
  pure_rdma_repl_slave_thread e false log head bs ws = Ret s -> sl_replay s = true ->
  exists k, Forall (fun b => 0 < received_size b <= RING_BUFFER_SIZE) (take k bs.*1) /\
    sl_log s = concat (received_chunk <$> take k bs.*1) /\
    0 < received_size head <= foldr Z.add 0 (received_size <$> take k bs.*1).
Proof.
  unfold pure_rdma_repl_slave_thread. intros Hs Hr. revert Hs.
  destruct (block_and_get_imm 0 head) as [[ret total]| | | |] eqn:Hb; try done. cbn [run_bind].
  assert (Ht : received_size head = total) by (unfold received_size; by rewrite Hb).
  apply block_size_range in Hb. destruct (ret <? 0); [by intros [= <-]|]. destruct ws as [|w ws].
  { destruct ((total =? 0) || se_open_ok e); [done|]. by intros [= <-]. }
  destruct (Z.eqb_spec total 0) as [|Ht0]; [destruct (write_log_imm true w); try done; by intros [= <-]|].
  destruct (negb (se_open_ok e)); [by intros [= <-]|].
  destruct (write_log_imm true w); try done. cbn [run_bind].
  intros [_ (k & last & Hlog & Hf & _ & Hrep & _)]%recv_chunks_sound.
  destruct (Hrep Hr) as (-> & _ & Hle). exists k. rewrite app_nil_r in Hlog. by split_and!; try lia.
Qed.

(** C16.  Whatever fails at either end, a slave that replays its log has as many
    bytes in it as the master's log of less than 4 GB; and when none of the
    master's waits for an acknowledgement failed, it has the master's log.
    (When one failed, the master's next chunk may come on top of one the slave
    has not copied yet: [overwritten_chunk].) *)
Theorem failed_transfer_not_replayed me wsm bsm r sent e log head bs ws s ring :
  file_size (master_log me) < 2 ^ 32 ->
  repl_sync_log_via_rdma me wsm bsm = Ret (r, sent) ->
  received_size head = from_option fst 0 (sent !! 0%nat) ->
  delivers ring (tail sent) bsm bs.*1 ->
  pure_rdma_repl_slave_thread e false log head bs ws = Ret s ->
  sl_replay s = true ->
  file_size (sl_log s) = file_size (master_log me) /\
  (Forall (fun b => wait_ok b = true) bsm -> sl_log s = master_log me).
Proof.
  intros HL Hm0 Hh Hd Hs Hr. apply master_waits in Hm0 as Hw. apply master_tells_truth in Hm0 as [_ Hm].
  apply slave_replays_chunks in Hs as (k & Hf & Hlog & Hle); [|done].
  assert (Hp : 0 < received_size head) by tauto. apply proj2 in Hle.
  destruct Hm as [[-> _]|(data & rest & -> & Hsz & Hcat & _)]; [simpl in Hh; lia|].
  cbn [tail lookup list_lookup from_option fst length] in *.
  set (j := length (take k bs.*1)) in *.
  pose proof (delivered_sizes _ _ _ _ _ Hd Hf) as Hsizes. fold j in Hsizes.
  rewrite Hsizes, sizes_length in Hle by (by apply Forall_take).
  rewrite Hh, u32_small in Hle by (unfold file_size in *; lia).
  assert (Hsent : concat (snd <$> take j data) = master_log me).
  { rewrite <- (take_drop j data), fmap_app, concat_app, <- app_assoc in Hcat.
    apply (f_equal length) in Hcat as Hlen. rewrite length_app in Hlen. unfold file_size in Hle.
    assert (Hnil : concat (snd <$> drop j data) ++ rest = []) by (apply length_zero_iff_nil; lia).
    by rewrite Hnil, app_nil_r in Hcat. }
  rewrite Hlog. split.
  - unfold file_size. rewrite chunks_length by (by eapply delivered_chunk_length).
    rewrite Hsizes, sizes_length by (by apply Forall_take). by rewrite Hsent.
  - intros Hok. rewrite (delivered_chunks ring data bsm) by (done || lia). exact Hsent.
Qed.

(** ** Examples *)

(** Calls that go well: a write, and a wait for [n] with [buffer]. *)
Definition good_write : write_answer := WriteAnswer true [PollNone; PollWc (Wc 99 true 1 0)].
Definition good_wait (n : Z) (buffer : bytes) : block_answer :=
  BlockAnswer true true [PollNone; PollWc (Wc 1 true 129 n)] buffer.

(** A wait that a signal interrupts. *)
Definition interrupted : block_answer := BlockAnswer false true [] [].

Definition small_log : master_env := MasterEnv true (Some (str "abc")) true true.

(** A log of one chunk, with an interrupted wait at the master. *)
Example small_sent :
  repl_sync_log_via_rdma small_log [good_write; good_write] [good_wait 1 []; interrupted]
  = Ret (0, [(3, []); (3, str "abc")]).
Proof. reflexivity. Qed.

Example small_received :
  pure_rdma_repl_slave_thread (SlaveEnv true (-1)) false (str "old") (good_wait 3 [])
    [(good_wait 3 (str "abcxyz"), 3)] [good_write; good_write]
  = Ret (SlaveEnd (str "abc") 2 [] true false).
Proof. reflexivity. Qed.

(** The device hands the chunk over; the master's second wait was interrupted. *)
Example small_delivered :
  delivers (str "xxxxxx") [(3, str "abc")] [good_wait 1 []; good_wait 1 []] [good_wait 3 (str "abcxxx")].
Proof.
  intros [|i] b Hb; [|done]. injection Hb as <-. right. exists (3, str "abc"), 1%nat.
  split_and!; [done|done|simpl; lia|simpl; lia|apply Nat.leb_le; reflexivity|done].
Qed.

Lemma failed_transfer_not_replayed_witness :
  file_size (master_log small_log) < 2 ^ 32 /\
  sl_log (SlaveEnd (str "abc") 2 [] true false) = master_log small_log.
Proof.
  split; [done|].
  apply (failed_transfer_not_replayed small_log [good_write; good_write] [good_wait 1 []; good_wait 1 []] 0
           [(3, []); (3, str "abc")] (SlaveEnv true (-1)) (str "old") (good_wait 3 [])
           [(good_wait 3 (str "abcxxx"), 3)] [good_write; good_write] _ (str "xxxxxx"));
    [done|reflexivity|reflexivity|exact small_delivered|reflexivity|done|].
  repeat constructor.
Defined.

(** With two chunks and an interrupted wait between them the slave can copy the
    first one with the second on top of it: the device allows it. *)
Example overwritten_chunk (c d : bytes) :
  (0 < length d <= length c)%nat ->
  let n := Z.of_nat (length c) in
  n < 2 ^ 32 ->
  delivers [] [(n, c); (Z.of_nat (length d), d)] [good_wait 1 []; interrupted; good_wait 1 []]
    [good_wait n (d ++ drop (length d) c)].
Proof.
  intros Hl n Hn [|i] b Hb; [|done]. injection Hb as <-. right. exists (n, c), 2%nat.
  split_and!; [done| |simpl; lia|simpl; lia|apply Nat.leb_le; reflexivity|].
  - unfold received_size. simpl. by rewrite u32_small by lia.
  - unfold ring_after. simpl. by rewrite drop_nil, app_nil_r.
Qed.

(** The second chunk is not sent: the master says so; the slave, whose wait
    fails, has the beginning of the log in place of its own. *)
Example chunk_lost :
  pure_rdma_repl_slave_thread (SlaveEnv true (-1)) false (str "old") (good_wait 6 [])
    [(good_wait 3 (str "abcxyz"), 3); (BlockAnswer true true [PollError] [], 0)] [good_write; good_write]
  = Ret (SlaveEnd (str "abc") 2 [] false false).
Proof. reflexivity. Qed.

(** The master's log is empty and the slave's does not open: the slave
    announces the end all the same, and keeps its log. *)
Example empty_not_truncated :
  pure_rdma_repl_slave_thread (SlaveEnv false 5) false (str "old") (good_wait 0 []) [] [good_write]
  = Ret (SlaveEnd (str "old") 1 SYNC_DONE false false).
Proof. reflexivity. Qed.
