(* ===== verification/Connect.v ===== *)
(** * The hand-shake before the transfer over RDMA (repl.c)

    The slave sends its queue pair's address in an RDMA_CONNECT request over
    TCP, the master configures its own queue pair with it and answers with its
    address in an RDMA_CONNECT_ACK, of which the slave takes the lines.  The
    file proves that each side reads what the other has written, and shows
    what becomes of an answer that arrives in two pieces. *)

From S2P Require Import Prelude KvData Engine Config Resp Ai Commands Lookup.

Open Scope Z_scope.
Open Scope kvs_scope.

(** The members of [struct ring_meta] that travel. *)
Record ring_meta := RingMeta {
  rm_rkey : Z;
  rm_buf_va : Z;
  rm_qpn : Z;
  rm_gid : bytes
}.

(** ** The texts *)

Definition hex_digit (d : Z) : byte := if d <? 10 then z2b (48 + d) else z2b (87 + d).

(** ["%02x"] *)
Definition hex2 (b : byte) : bytes := [hex_digit (b2z b / 16); hex_digit (b2z b mod 16)].

(** The [sprintf] of the request and of its answer: [%u], [%lu], [%u] and
    sixteen [%02x]. *)
Definition meta_text (name : bytes) (m : ring_meta) : bytes :=
  resp_encode [name; dec (rm_rkey m); dec (rm_buf_va m); dec (rm_qpn m); concat (hex2 <$> rm_gid m)].

Definition connect_text : ring_meta -> bytes := meta_text (str "RDMA_CONNECT").
Definition ack_text : ring_meta -> bytes := meta_text (str "RDMA_CONNECT_ACK").

(** ** Reading numbers *)

(** [strtoul(l, NULL, 10)] and [strtoull]: a value of 64 bits; the text must
    end before the buffer does. *)
Definition strtoul (l : bytes) : res Z :=
  let* l := skip_spaces l in
  let '(neg, l) :=
    match l with
    | b :: l' => if bool_decide (b = MINUS) then (true, l')
                 else if bool_decide (b = PLUS) then (false, l') else (false, l)
    | [] => (false, l)
    end in
  let '(v, r) := parse_digits 0 l in
  match r with
  | [] => UB
  | _ => Ok (if 2 ^ 64 <=? v then 2 ^ 64 - 1 else if neg : bool then (- v) mod 2 ^ 64 else v)
  end.

Definition hex_value (b : byte) : option Z :=
  let v := b2z b in
  if (48 <=? v) && (v <=? 57) then Some (v - 48)
  else if (97 <=? v) && (v <=? 102) then Some (v - 87)
  else if (65 <=? v) && (v <=? 70) then Some (v - 55)
  else None.

(** [sscanf(l, "%02x", &b)]: one or two digits.  Without a digit the variable
    is used although nothing was assigned; a sign or a prefix [0x], which
    [sscanf] takes too, are not covered. *)
Definition scan_hex2 (l : bytes) : res Z :=
  let* l := skip_spaces l in
  match l with
  | b1 :: b2 :: _ =>
    match hex_value b1, hex_value b2 with
    | Some h, Some d => Ok (16 * h + d)
    | Some h, None => if bool_decide (b2 = x78 \/ b2 = x58) then UB else Ok h
    | None, _ => UB
    end
  | _ => UB
  end.

(** The loop over the [n] bytes of the GID. *)
Fixpoint read_gid (n : nat) (l : bytes) : res bytes :=
  match n with
  | O => Ok []
  | S n =>
    let* b := scan_hex2 l in
    let* gid := read_gid n (drop 2 l) in Ok (z2b b :: gid)
  end.

(** The address in four texts; the conversions to 32 bits cut. *)
Definition read_meta (rkey va qpn gid : bytes) : res ring_meta :=
  let* rkey := strtoul rkey in
  let* va := strtoul va in
  let* qpn := strtoul qpn in
  let* gid := read_gid 16 gid in
  Ok (RingMeta (u32 rkey) va (u32 qpn) gid).

(** ** The master *)

(** [handle_slave_rdma_connect]: the address the queue pair is configured
    with, and the answer; [own] is the master's address.  A request with fewer
    arguments is read past its argument array. *)
Definition connect_reply (own : ring_meta) (req : resp_request) : res (ring_meta * bytes) :=
  let* a1 := argn req 1 in
  let* a2 := argn req 2 in
  let* a3 := argn req 3 in
  let* a4 := argn req 4 in
  let* slave := read_meta (arg_ptr a1) (arg_ptr a2) (arg_ptr a3) (arg_ptr a4) in
  Ok (slave, ack_text own).

(** ** The slave *)

Definition ACK_BUF : nat := 511.

(** Is [needle] in the string? *)
Fixpoint strstr (l needle : bytes) : bool :=
  bool_decide (take (length needle) l = needle) ||
  match l with [] => false | _ :: l => strstr l needle end.

(** The loop that receives the answer, into [acc]; each element of [segs] is
    what one [recv] finds, nothing for the end of the stream or an error. *)
Fixpoint recv_ack (segs : list bytes) (acc : bytes) : bytes :=
  match segs with
  | [] => acc
  | seg :: segs =>
    if (ACK_BUF <=? length acc)%nat then acc
    else
      match take (ACK_BUF - length acc) seg with
      | [] => acc
      | d => if strstr (cstr (acc ++ d)) CRLF then acc ++ d else recv_ack segs (acc ++ d)
      end
  end.

(** [strtok] with CR and LF: the parts between them that are not empty. *)
Fixpoint strtok_lines (cur l : bytes) : list bytes :=
  match l with
  | [] => match cur with [] => [] | _ => [cur] end
  | b :: l =>
    if bool_decide (b = CR \/ b = LF)
    then match cur with [] => strtok_lines [] l | _ => cur :: strtok_lines [] l end
    else strtok_lines (cur ++ [b]) l
  end.

(** What [repl_connect_to_master] does with the answer: it configures its
    queue pair, sends SYNC and starts the receiving thread; or it leaves all
    that and returns the descriptor all the same; or the configuration fails
    and the connection is closed. *)
Inductive connected :=
| Configured (master : ring_meta)
| NotConfigured
| ConfigFailed.

(** The lines are strings of their own, each with its NUL; a line shorter than
    the GID would be read past it. *)
Definition read_ack (configure_ok : bool) (segs : list bytes) : res connected :=
  let ack := cstr (recv_ack segs []) in
  if negb (strstr ack (str "RDMA_CONNECT_ACK")) then Ok NotConfigured
  else
    let lines := take 16 (strtok_lines [] ack) in
    if (length lines <? 11)%nat then Ok NotConfigured
    else
      let line i := default [] (lines !! i) ++ [x00] in
      let* master := read_meta (line 4%nat) (line 6%nat) (line 8%nat) (line 10%nat) in
      Ok (if configure_ok then Configured master else ConfigFailed).

(** ** Numbers are read back *)

Lemma strtoul_dec z b r :
  0 <= z < 2 ^ 64 -> is_digit b = false -> strtoul (dec z ++ b :: r) = Ok z.
Proof.
  intros Hz Hb. unfold strtoul, dec. destruct (Z.ltb_spec z 0); [lia|].
  destruct (dec_u_head z) as (x & t & Hx & Hd). pose proof (parse_digits_dec_u z (b :: r)) as Hp.
  rewrite Hx.
  cbn [app skip_spaces]. rewrite digit_not_space by done. cbn [rbind].
  rewrite !bool_decide_false by (intros ->; done).
  rewrite Hx in Hp. cbn [app] in Hp. rewrite Hp; [|lia|done].
  by destruct (Z.leb_spec (2 ^ 64) z); [lia|].
Qed.

Lemma scan_hex2_hex2 b r : scan_hex2 (hex2 b ++ r) = Ok (b2z b).
Proof. destruct b; reflexivity. Qed.

Lemma read_gid_text gid r : read_gid (length gid) (concat (hex2 <$> gid) ++ r) = Ok gid.
Proof.
  induction gid as [|b gid IH]; [done|]. cbn [length read_gid].
  rewrite fmap_cons. cbn [concat]. rewrite <- app_assoc, scan_hex2_hex2. cbn [rbind].
  change (drop 2 (hex2 b ++ ?x)) with x. rewrite IH. cbn [rbind]. by rewrite z2b_b2z.
Qed.

(** What the hardware gives: 32 and 64 bits, sixteen bytes. *)
Definition meta_ok (m : ring_meta) : Prop :=
  0 <= rm_rkey m < 2 ^ 32 /\ 0 <= rm_buf_va m < 2 ^ 64 /\ 0 <= rm_qpn m < 2 ^ 32 /\
  length (rm_gid m) = 16%nat.

Lemma read_meta_text m b1 r1 b2 r2 b3 r3 r4 :
  meta_ok m -> is_digit b1 = false -> is_digit b2 = false -> is_digit b3 = false ->
  read_meta (dec (rm_rkey m) ++ b1 :: r1) (dec (rm_buf_va m) ++ b2 :: r2)
    (dec (rm_qpn m) ++ b3 :: r3) (concat (hex2 <$> rm_gid m) ++ r4) = Ok m.
Proof.
  intros (Hk & Hv & Hq & Hg) H1 H2 H3. unfold read_meta.
  rewrite !strtoul_dec by (done || lia). cbn [rbind]. rewrite <- Hg, read_gid_text. cbn [rbind].
  unfold u32. rewrite !Z.mod_small by lia. by destruct m.
Qed.

(** ** Lines *)

(** A text without line ends and NUL. *)
Definition plain (l : bytes) : Prop := Forall (fun b => b <> CR /\ b <> LF /\ b <> x00) l.

Lemma strtok_plain cur l r :
  plain l -> cur ++ l <> [] -> strtok_lines cur (l ++ CRLF ++ r) = (cur ++ l) :: strtok_lines [] r.
Proof.
  intros Hl. revert cur. induction Hl as [|b l (H1 & H2 & _) Hl IH]; intros cur Hne.
  - rewrite app_nil_r in *. by destruct cur.
  - cbn [app strtok_lines]. rewrite bool_decide_false by naive_solver.
    rewrite IH by (by destruct cur). by rewrite <- app_assoc.
Qed.

Lemma plain_digits l : forallb is_digit l = true -> plain l.
Proof.
  intros Hl. apply Forall_forall. intros b Hb. rewrite forallb_forall in Hl.
  specialize (Hl b (proj1 (list_elem_of_In _ _) Hb)). split_and!; by intros ->.
Qed.

Lemma dec_digits z : 0 <= z -> forallb is_digit (dec z) = true /\ dec z <> [].
Proof.
  intros Hz. unfold dec. destruct (Z.ltb_spec z 0); [lia|]. split; [apply digs_digits|].
  unfold dec_u. pose proof (ndigits_pos 20 z). by destruct (ndigits 20 z); [lia|].
Qed.

Lemma hex_digit_plain d : 0 <= d < 16 -> plain [hex_digit d].
Proof.
  intros Hd. assert (Hall : Forall (fun d => plain [hex_digit d]) (seqZ 0 16)).
  { repeat (apply Forall_cons; split; [by repeat constructor|]). by apply Forall_nil. }
  rewrite Forall_forall in Hall. apply Hall, elem_of_seqZ. lia.
Qed.

Lemma plain_hex gid : plain (concat (hex2 <$> gid)).
Proof.
  induction gid as [|b gid IH]; [by apply Forall_nil|]. rewrite fmap_cons. cbn [concat].
  apply Forall_app_2; [|exact IH]. pose proof (b2z_range b).
  change (hex2 b) with ([hex_digit (b2z b / 16)] ++ [hex_digit (b2z b mod 16)]).
  apply Forall_app_2; apply hex_digit_plain; [|by apply Z.mod_pos_bound].
  split; [by apply Z.div_pos; lia|by apply Z.div_lt_upper_bound; lia].
Qed.

(** Arguments that are lines. *)
Definition lines_ok (args : list bytes) : Prop := Forall (fun a => plain a /\ a <> []) args.

(** The lines of a request: its header, and two for each argument. *)
Definition request_lines (args : list bytes) : list bytes :=
  (STAR :: dec (Z.of_nat (length args))) ::
  concat ((fun a => [DOLLAR :: dec (Z.of_nat (length a)); a]) <$> args).

Lemma plain_header c n : (c <> CR /\ c <> LF /\ c <> x00) -> plain (c :: dec (Z.of_nat n)).
Proof. intros Hc. constructor; [done|]. apply plain_digits, dec_digits. lia. Qed.

Lemma strtok_bulks args :
  lines_ok args ->
  strtok_lines [] (concat (resp_bulk <$> args))
  = concat ((fun a => [DOLLAR :: dec (Z.of_nat (length a)); a]) <$> args).
Proof.
  induction 1 as [|a args [Ha Hne] _ IH]; [done|]. rewrite !fmap_cons. cbn [concat].
  unfold resp_bulk at 1.
  change (DOLLAR :: ?x) with ([DOLLAR] ++ x) at 1. rewrite <- !app_assoc.
  rewrite (app_assoc [DOLLAR]). rewrite strtok_plain by (done || by apply plain_header).
  rewrite strtok_plain by done. by rewrite IH.
Qed.

Lemma strtok_request args : lines_ok args -> strtok_lines [] (resp_encode args) = request_lines args.
Proof.
  intros Ha. unfold resp_encode. change (STAR :: ?x) with ([STAR] ++ x). rewrite app_assoc.
  rewrite strtok_plain by (done || by apply plain_header). by rewrite strtok_bulks.
Qed.

Lemma strstr_app l needle r : strstr (l ++ needle ++ r) needle = true.
Proof.
  induction l as [|b l IH]; [|by cbn [app strstr]; rewrite IH, orb_true_r].
  cbn [app]. destruct (needle ++ r) as [|x y] eqn:E; cbn [strstr]; rewrite <- E;
    by rewrite take_app_length, bool_decide_true.
Qed.

Lemma strstr_cons b l needle : strstr l needle = true -> strstr (b :: l) needle = true.
Proof. intros Hs. cbn [strstr]. by rewrite Hs, orb_true_r. Qed.

Lemma strstr_skip p l needle : strstr l needle = true -> strstr (p ++ l) needle = true.
Proof. intros Hs. induction p as [|b p IH]; [done|]. by apply strstr_cons. Qed.

Lemma plain_no_nul l : plain l -> no_nul l.
Proof.
  intros Hl. eapply Forall_impl; [exact Hl|]. intros b (_ & _ & Hb) Hz. apply Hb.
  by apply (b2z_inj b x00).
Qed.

Lemma request_no_nul args : lines_ok args -> no_nul (resp_encode args).
Proof.
  intros Ha. assert (Hcr : no_nul CRLF) by (by repeat constructor).
  assert (Hd : forall c n, c <> CR /\ c <> LF /\ c <> x00 -> no_nul (c :: dec (Z.of_nat n)))
    by (intros; by apply plain_no_nul, plain_header).
  unfold resp_encode. rewrite app_comm_cons.
  apply Forall_app_2; [by apply Hd|]. apply Forall_app_2; [exact Hcr|].
  induction Ha as [|a args [Hp _] _ IH]; [by apply Forall_nil|]. rewrite fmap_cons. cbn [concat].
  apply Forall_app_2; [|exact IH]. unfold resp_bulk. rewrite app_comm_cons.
  apply Forall_app_2; [by apply Hd|]. apply Forall_app_2; [exact Hcr|].
  by apply Forall_app_2; [apply plain_no_nul|].
Qed.

(** ** The two texts *)

Definition meta_args (name : bytes) (m : ring_meta) : list bytes :=
  [name; dec (rm_rkey m); dec (rm_buf_va m); dec (rm_qpn m); concat (hex2 <$> rm_gid m)].

Lemma hex_length gid : length (concat (hex2 <$> gid)) = (2 * length gid)%nat.
Proof. induction gid as [|b gid IH]; [done|]. rewrite fmap_cons. simpl in *. lia. Qed.

Lemma meta_lines_ok name m : plain name -> name <> [] -> meta_ok m -> lines_ok (meta_args name m).
Proof.
  intros Hn Hne (Hk & Hv & Hq & Hg).
  assert (Hd : forall z, 0 <= z -> plain (dec z) /\ dec z <> []).
  { intros z Hz. destruct (dec_digits z Hz) as [Hd Hz0]. split; [exact (plain_digits _ Hd)|exact Hz0]. }
  repeat (apply Forall_cons; split); [done|apply Hd; lia|apply Hd; lia|apply Hd; lia| |by apply Forall_nil].
  split; [apply plain_hex|]. intros Hz. apply (f_equal length) in Hz.
  rewrite hex_length, Hg in Hz. done.
Qed.

Lemma dec_length z n : (1 <= n)%nat -> 0 <= z < 10 ^ Z.of_nat n -> (length (dec z) <= n)%nat.
Proof.
  intros Hn Hz. unfold dec. destruct (Z.ltb_spec z 0); [lia|]. unfold dec_u. rewrite length_digs.
  by apply ndigits_le.
Qed.

Lemma bulk_length a : (length a <= 99)%nat -> (length (resp_bulk a) <= length a + 7)%nat.
Proof.
  intros Ha. unfold resp_bulk. cbn [length]. rewrite !length_app.
  pose proof (dec_length (Z.of_nat (length a)) 2). simpl (length CRLF). lia.
Qed.

(** The answer fits the slave's buffer. *)
Lemma ack_fits m : meta_ok m -> (length (ack_text m) <= ACK_BUF)%nat.
Proof.
  intros (Hk & Hv & Hq & Hg). unfold ack_text, meta_text, resp_encode.
  cbn [fmap list_fmap concat length]. rewrite !length_app. simpl (length CRLF).
  change (length (dec (Z.of_nat 5))) with 1%nat.
  pose proof (dec_length (rm_rkey m) 10) as H1. pose proof (dec_length (rm_buf_va m) 20) as H2.
  pose proof (dec_length (rm_qpn m) 10) as H3. pose proof (hex_length (rm_gid m)) as H4.
  pose proof (bulk_length (str "RDMA_CONNECT_ACK")) as B0. pose proof (bulk_length (dec (rm_rkey m))) as B1.
  pose proof (bulk_length (dec (rm_buf_va m))) as B2. pose proof (bulk_length (dec (rm_qpn m))) as B3.
  pose proof (bulk_length (concat (hex2 <$> rm_gid m))) as B4.
  change (length (str "RDMA_CONNECT_ACK")) with 16%nat in *.
  assert (10 ^ Z.of_nat 10 = 10000000000) by reflexivity.
  assert (10 ^ Z.of_nat 20 = 100000000000000000000) by reflexivity.
  unfold ACK_BUF. simpl (length []). lia.
Qed.

(** ** The promises *)

(** C27.  The hand-shake tells each side the other's address: the master reads
    from the request the slave's memory key, address, queue pair number and
    GID, and the slave reads the master's from the answer when [recv] returns
    it in one piece. *)
Theorem connect_roundtrip slave master r segs :
  meta_ok slave -> meta_ok master ->
  connect_reply master (request_at (meta_args (str "RDMA_CONNECT") slave) r)
    = Ok (slave, ack_text master) /\
  read_ack true (ack_text master :: segs) = Ok (Configured master).
Proof.
  intros Hs Hm. split.
  - unfold connect_reply. unfold argn, meta_args.
    cbn [request_at argv_at req_argv lookup list_lookup rbind arg_ptr].
    match goal with |- rbind (read_meta ?a ?b ?c ?d) _ = _ =>
      assert (E : read_meta a b c d = Ok slave) by (by apply (read_meta_text slave CR _ CR _ CR _)) end.
    by rewrite E.
  - assert (Hl : lines_ok (meta_args (str "RDMA_CONNECT_ACK") master))
      by (apply meta_lines_ok; [by apply (bool_decide_unpack _)|done|done]).
    pose proof (ack_fits master Hm) as Hfit.
    assert (Hrecv : recv_ack (ack_text master :: segs) [] = ack_text master).
    { cbn [recv_ack length]. rewrite Nat.sub_0_r, take_ge by done. change (ACK_BUF <=? 0)%nat with false.
      destruct (ack_text master) as [|b l] eqn:E; [done|]. cbn [app]. rewrite <- E.
      rewrite cstr_no_nul by (by apply request_no_nul). unfold ack_text, meta_text, resp_encode.
      rewrite app_comm_cons. by rewrite strstr_app. }
    unfold read_ack. rewrite Hrecv, cstr_no_nul by (by apply request_no_nul).
    assert (Hname : strstr (ack_text master) (str "RDMA_CONNECT_ACK") = true).
    { unfold ack_text, meta_text, resp_encode. rewrite fmap_cons. cbn [concat]. unfold resp_bulk at 1.
      rewrite <- app_comm_cons, <- !app_assoc.
      apply strstr_cons, strstr_skip, strstr_skip, strstr_cons, strstr_skip, strstr_skip.
      apply (strstr_app []). }
    rewrite Hname. cbn [negb]. change (ack_text master) with (resp_encode (meta_args (str "RDMA_CONNECT_ACK") master)).
    rewrite strtok_request by done.
    unfold request_lines, meta_args. cbn [fmap list_fmap concat app take length lookup list_lookup from_option id].
    change (11 <? 11)%nat with false. cbn [rbind].
    match goal with |- rbind (read_meta ?a ?b ?c ?d) _ = _ =>
      assert (E : read_meta a b c d = Ok master)
        by (by apply (read_meta_text master x00 [] x00 [] x00 [] [x00])) end.
    by rewrite E.
Qed.

Lemma strtok_some cur l : cur <> [] -> (1 <= length (strtok_lines cur l))%nat.
Proof.
  revert cur. induction l as [|b l IH]; intros cur Hc; cbn [strtok_lines].
  - destruct cur; [done|simpl; lia].
  - destruct (bool_decide _); [destruct cur; [done|simpl; lia]|]. apply IH. by destruct cur.
Qed.

Lemma strtok_take cur l k : (length (strtok_lines cur (take k l)) <= length (strtok_lines cur l))%nat.
Proof.
  revert cur k. induction l as [|b l IH]; intros cur k; [by rewrite take_nil|].
  destruct k as [|k]; cbn [take].
  - destruct cur as [|c cur]; [simpl; lia|]. apply (strtok_some (c :: cur)). done.
  - cbn [strtok_lines]. destruct (bool_decide _); [|apply IH].
    destruct cur; simpl; [apply IH|]. apply le_n_S, IH.
Qed.

(** The answer up to the line of the GID. *)
Definition ack_head (m : ring_meta) : bytes :=
  STAR :: dec 5 ++ CRLF ++
  concat (resp_bulk <$> [str "RDMA_CONNECT_ACK"; dec (rm_rkey m); dec (rm_buf_va m); dec (rm_qpn m)]) ++
  (DOLLAR :: dec 32) ++ CRLF.

Lemma ack_split m :
  meta_ok m -> ack_text m = ack_head m ++ concat (hex2 <$> rm_gid m) ++ CRLF.
Proof.
  intros (_ & _ & _ & Hg). unfold ack_text, meta_text, ack_head, resp_encode.
  rewrite !fmap_cons. cbn [concat fmap list_fmap].
  assert (Hb : resp_bulk (concat (hex2 <$> rm_gid m))
    = (DOLLAR :: dec 32) ++ CRLF ++ concat (hex2 <$> rm_gid m) ++ CRLF).
  { unfold resp_bulk. rewrite hex_length, Hg. by rewrite app_comm_cons. }
  rewrite Hb, !app_nil_r. rewrite <- ?app_comm_cons, <- !app_assoc. by rewrite <- ?app_comm_cons, <- ?app_assoc.
Qed.

Lemma ack_head_lines m : meta_ok m -> length (strtok_lines [] (ack_head m)) = 10%nat.
Proof.
  intros Hm.
  assert (Hl : lines_ok (meta_args (str "RDMA_CONNECT_ACK") m))
    by (apply meta_lines_ok; [by apply (bool_decide_unpack _)|done|done]).
  unfold ack_head. rewrite app_comm_cons.
  rewrite strtok_plain by (done || by apply (plain_header STAR 5)).
  unfold meta_args in Hl. do 4 (apply Forall_cons in Hl as [[? ?] Hl]).
  cbn [fmap list_fmap concat]. unfold resp_bulk. rewrite <- !app_assoc.
  rewrite !app_comm_cons, <- !app_assoc.
  change (CRLF ++ [] ++ (DOLLAR :: dec 32) ++ CRLF) with (CRLF ++ (DOLLAR :: dec 32) ++ CRLF ++ []).
  repeat match goal with |- context [strtok_lines [] (?l ++ CRLF ++ ?r)] =>
    rewrite (strtok_plain [] l r) by (done || by apply plain_header || by apply (plain_header DOLLAR 32)) end.
  done.
Qed.

(** The slave stops receiving at the first line end.  When the answer
    arrives in two pieces, the first without the GID, the slave leaves its
    queue pair alone, sends no SYNC and starts no transfer, and the caller
    gets the descriptor as after success. *)
Theorem split_ack_ignored configure_ok m k segs :
  meta_ok m -> (4 <= k)%nat -> (k + 34 <= length (ack_text m))%nat ->
  read_ack configure_ok (take k (ack_text m) :: segs) = Ok NotConfigured.
Proof.
  intros Hm Hk Hlen. pose proof (ack_fits m Hm) as Hfit.
  assert (Hl : lines_ok (meta_args (str "RDMA_CONNECT_ACK") m))
    by (apply meta_lines_ok; [by apply (bool_decide_unpack _)|done|done]).
  assert (Hn : no_nul (take k (ack_text m))).
  { pose proof (request_no_nul _ Hl) as Hn. change (resp_encode _) with (ack_text m) in Hn.
    rewrite <- (take_drop k) in Hn. by apply Forall_app in Hn as [? _]. }
  assert (Hcrlf : exists l, take k (ack_text m) = (STAR :: dec 5) ++ CRLF ++ l).
  { unfold ack_text, meta_text, resp_encode. do 4 (destruct k as [|k]; [lia|]). by eexists. }
  destruct Hcrlf as [l Ht].
  assert (Hrecv : recv_ack (take k (ack_text m) :: segs) [] = take k (ack_text m)).
  { cbn [recv_ack length]. rewrite Nat.sub_0_r, (take_ge (take k _)) by (rewrite length_take; lia).
    change (ACK_BUF <=? 0)%nat with false.
    destruct (take k (ack_text m)) as [|b x] eqn:E; [done|]. cbn [app]. rewrite <- E in *.
    rewrite cstr_no_nul by done. rewrite Ht. by rewrite strstr_app. }
  unfold read_ack. rewrite Hrecv, cstr_no_nul by done.
  destruct (strstr (take k (ack_text m)) (str "RDMA_CONNECT_ACK")); [|done]. cbn [negb].
  assert (Hhead : take k (ack_text m) = take k (ack_head m)).
  { rewrite (ack_split m Hm) in Hlen |- *. rewrite take_app_le; [done|].
    rewrite !length_app, hex_length in Hlen. destruct Hm as (_ & _ & _ & Hg). rewrite Hg in Hlen.
    simpl (length CRLF) in Hlen. lia. }
  pose proof (strtok_take [] (ack_head m) k) as Hle. rewrite ack_head_lines in Hle by done.
  rewrite Hhead. by rewrite (proj2 (Nat.ltb_lt _ _)) by (rewrite length_take; lia).
Qed.

(** ** Examples *)

Definition sample_meta (n : Z) : ring_meta :=
  RingMeta (n * 1001) (2 ^ 47 + n) (n + 17) (z2b <$> seqZ (n + 100) 16).

Lemma sample_meta_ok : meta_ok (sample_meta 1) /\ meta_ok (sample_meta 2).
Proof. by repeat split. Qed.

Lemma connect_roundtrip_witness :
  meta_ok (sample_meta 1) /\ meta_ok (sample_meta 2) /\
  connect_reply (sample_meta 2) (request_at (meta_args (str "RDMA_CONNECT") (sample_meta 1)) [])
    = Ok (sample_meta 1, ack_text (sample_meta 2)) /\
  read_ack true [ack_text (sample_meta 2); str "later"] = Ok (Configured (sample_meta 2)).
Proof.
  destruct sample_meta_ok as [H1 H2]. split; [exact H1|]. split; [exact H2|].
  exact (connect_roundtrip (sample_meta 1) (sample_meta 2) [] [str "later"] H1 H2).
Defined.

(** The answer's first 60 bytes, then the rest. *)
Lemma split_ack_ignored_witness :
  meta_ok (sample_meta 2) /\ (60 + 34 <= length (ack_text (sample_meta 2)))%nat /\
  read_ack true [take 60 (ack_text (sample_meta 2)); drop 60 (ack_text (sample_meta 2))] = Ok NotConfigured.
Proof.
  destruct sample_meta_ok as [_ H2].
  assert (Hl : (60 + 34 <= length (ack_text (sample_meta 2)))%nat)
    by (apply (bool_decide_unpack _); by vm_compute).
  split; [exact H2|]. split; [exact Hl|].
  apply split_ack_ignored; [exact H2|lia|exact Hl].
Defined.
