(* ===== verification/Verbs.v ===== *)
(** * The RDMA resources (rdma.c, repl.c)

    [rdma_ring_init] acquires a dozen resources of the verbs library and of
    the allocator, [rdma_ring_destroy] releases them, [rdma_ring_configure]
    takes the queue pair through its states, and two functions look for the
    GID that stands for the host's address.  The library's answers are an
    argument.  The file proves that nothing is released while something else
    needs it and what is left when a step fails, what a configuration leaves,
    and when the two searches agree. *)

From S2P Require Import Prelude KvData Rdma Connect.

Open Scope Z_scope.
Open Scope kvs_scope.

(** ** Resources *)

(** What [rdma_ring_init] acquires: the members of [struct rdma_ring_ctx], the
    structure itself and the list of devices. *)
Inductive resource :=
| RingMem | DevList | Context | Pd | Channel | SendCq | RecvCq | Qp | Buffer | MrBuf | Meta | MrMeta.

#[export] Instance resource_eq_dec : EqDecision resource.
Proof. solve_decision. Defined.

Inductive event :=
| Acquire (r : resource)
| Release (r : resource).

(** The library's answers: which acquisitions succeed, the names of the
    devices, and whether the notification can be asked for. *)
Record verbs := Verbs {
  vb_ok : resource -> bool;
  vb_devices : list bytes;
  vb_notify : bool
}.

(** The members that are not NULL, and the calls made. *)
Abbreviation ring_state := (list resource * list event)%type.

(** A call that sets a member. *)
Definition acquire (v : verbs) (r : resource) (s : ring_state) : ring_state :=
  if vb_ok v r then (s.1 ++ [r], s.2 ++ [Acquire r]) else s.

Definition is_set (r : resource) (s : ring_state) : bool := bool_decide (r ∈ s.1).

(** The order in which [rdma_ring_destroy] looks at the members. *)
Definition destroy_order : list resource :=
  [Qp; SendCq; RecvCq; Channel; MrBuf; MrMeta; Buffer; Meta; Pd; Context].

(** [rdma_ring_destroy] on a structure whose members [ptrs] are not NULL. *)
Definition rdma_ring_destroy (ptrs : list resource) : list event :=
  (Release <$> filter (fun r => r ∈ ptrs) destroy_order) ++ [Release RingMem].

(** What [rdma_ring_init] returns: the structure, NULL, or a member of a NULL
    pointer was read. *)
Inductive ring_result :=
| RingOk (ptrs : list resource)
| RingNull
| RingUB.

(** The label [err]. *)
Definition ring_err (s : ring_state) : list event * ring_result :=
  (s.2 ++ rdma_ring_destroy s.1, RingNull).

(** Is there a device of that name, or any device when none is asked for? *)
Definition find_device (v : verbs) (dev_name : option bytes) : bool :=
  match dev_name with
  | Some n => bool_decide (n ∈ vb_devices v)
  | None => match vb_devices v with [] => false | _ => true end
  end.

(** A call whose result is tested, and what follows it. *)
Definition need (v : verbs) (r : resource) (s : ring_state) (k : ring_state -> list event * ring_result)
  : list event * ring_result :=
  let s := acquire v r s in if is_set r s then k s else ring_err s.

(** [rdma_ring_init].  The list of devices goes back whether the device opened
    or not, both completion queues are created before they are tested, and
    the two memory regions are not tested; the first one's key is read. *)
Definition rdma_ring_init (v : verbs) (dev_name : option bytes) : list event * ring_result :=
  if negb (vb_ok v RingMem) then ([], RingNull)
  else if negb (vb_ok v DevList) then ring_err ([], [Acquire RingMem])
  else if negb (find_device v dev_name) then ring_err ([], [Acquire RingMem; Acquire DevList])
  else
    let open := acquire v Context ([], [Acquire RingMem; Acquire DevList]) in
    let s := (open.1, open.2 ++ [Release DevList]) in
    if negb (is_set Context s) then ring_err s
    else
      need v Pd s (fun s =>
      need v Channel s (fun s =>
      let s := acquire v RecvCq (acquire v SendCq s) in
      if negb (is_set SendCq s && is_set RecvCq s) || negb (vb_notify v) then ring_err s
      else
        need v Qp s (fun s =>
        need v Buffer s (fun s =>
        need v Meta (acquire v MrBuf s) (fun s =>
        let s := acquire v MrMeta s in
        if negb (is_set MrBuf s) then (s.2, RingUB) else (s.2, RingOk s.1)))))).

(** ** The GID of the host *)

(** [ibv_query_gid] on port 1. *)
Abbreviation gid_table := (nat -> option bytes).

Definition gid_zero : bytes := replicate 16 x00.

(** Not all zero, and an IPv4 address mapped to IPv6. *)
Definition gid_ipv4 (g : bytes) : bool :=
  negb (bool_decide (g = gid_zero)) &&
  bool_decide (g !! 10%nat = Some xff) && bool_decide (g !! 11%nat = Some xff).

(** The loop of [get_rocev2_ipv4_gid] over the last [n] of the 16 entries: it
    ends at an entry that cannot be read. *)
Fixpoint rocev2_from (q : gid_table) (i n : nat) : option (bytes * nat) :=
  match n with
  | O => None
  | S n =>
    match q i with
    | None => None
    | Some g => if gid_ipv4 g then Some (g, i) else rocev2_from q (S i) n
    end
  end.

Definition get_rocev2_ipv4_gid (q : gid_table) : option (bytes * nat) := rocev2_from q 0 16.

(** The loop of [rdma_get_local_sgid_index]: it goes on behind such an
    entry. *)
Fixpoint sgid_from (q : gid_table) (i n : nat) : option nat :=
  match n with
  | O => None
  | S n =>
    match q i with
    | Some g => if gid_ipv4 g then Some i else sgid_from q (S i) n
    | None => sgid_from q (S i) n
    end
  end.

Definition rdma_get_local_sgid_index (q : gid_table) : nat := default 1%nat (sgid_from q 0 16).

(** The GID that [repl_connect_to_master] and [handle_slave_rdma_connect] tell
    the other side. *)
Definition advertised_gid (q : gid_table) : bytes :=
  match get_rocev2_ipv4_gid q with
  | Some (g, _) => g
  | None => default gid_zero (q 0%nat)
  end.

(** ** The queue pair *)

Inductive qp_state := QpReset | QpInit | QpRtr | QpRts.

#[export] Instance qp_state_eq_dec : EqDecision qp_state.
Proof. solve_decision. Defined.

(** The state of the queue pair, what it is connected to, its receives, and
    [remote_meta] of the structure around it. *)
Record qpair := QPair {
  qp_st : qp_state;
  qp_dest : option ring_meta;
  qp_sgid : nat;
  qp_posted : nat;
  qp_remote : option ring_meta
}.

(** The answers of [ibv_query_port] and [ibv_modify_qp]. *)
Record port := Port {
  pt_query : bool;
  pt_modify : qp_state -> qp_state -> bool;
  pt_gids : gid_table
}.

(** [rdma_ring_configure]; only the queue pair number and the GID of
    [remote] go into the queue pair, the address and the key are used by the
    writes. *)
Definition rdma_ring_configure (p : port) (remote : ring_meta) (q : qpair) : qpair * Z :=
  let q := QPair (qp_st q) (qp_dest q) (qp_sgid q) (qp_posted q) (Some remote) in
  if negb (pt_query p) then (q, -1)
  else if negb (pt_modify p (qp_st q) QpInit) then (q, -1)
  else
    let q := QPair QpInit (qp_dest q) (qp_sgid q) (qp_posted q) (qp_remote q) in
    if negb (pt_modify p QpInit QpRtr) then (q, -2)
    else
      let q := QPair QpRtr (Some remote) (rdma_get_local_sgid_index (pt_gids p))
                 ((qp_posted q + MAX_RECV_WR) `min` MAX_RECV_WR) (qp_remote q) in
      if negb (pt_modify p QpRtr QpRts) then (q, -3)
      else (QPair QpRts (qp_dest q) (qp_sgid q) (qp_posted q) (qp_remote q), 0).

(** [repl_init] and [repl_destroy] on [g_rdma_ctx]. *)
Definition repl_init (v : verbs) (dev : bytes) : res (option (list resource) * Z) :=
  match (rdma_ring_init v (Some dev)).2 with
  | RingOk p => Ok (Some p, 0)
  | RingNull => Ok (None, -1)
  | RingUB => UB
  end.

Definition repl_destroy (g_rdma_ctx : option (list resource)) : option (list resource) * list event :=
  match g_rdma_ctx with
  | Some p => (None, rdma_ring_destroy p)
  | None => (None, [])
  end.

(** ** Lifetimes *)

(** What must be alive while [r] is: the verbs library refuses to release it,
    and memory registered with the device must not be freed. *)
Definition needs (r : resource) : list resource :=
  match r with
  | Pd | Channel | SendCq => [Context]
  | RecvCq => [Context; Channel]
  | Qp => [Pd; SendCq; RecvCq]
  | MrBuf => [Pd; Buffer]
  | MrMeta => [Pd; Meta]
  | _ => []
  end.

Definition all_in (l l' : list resource) : bool := forallb (fun r => bool_decide (r ∈ l')) l.

(** What is alive after the calls, none when one of them acquires what is
    alive already or without what it needs, or releases what is not alive or
    still needed. *)
Fixpoint play (live : list resource) (evs : list event) : option (list resource) :=
  match evs with
  | [] => Some live
  | Acquire r :: evs =>
    if bool_decide (r ∈ live) || negb (all_in (needs r) live) then None else play (r :: live) evs
  | Release r :: evs =>
    let rest := filter (fun x => x <> r) live in
    if negb (bool_decide (r ∈ live)) || negb (forallb (fun x => all_in (needs x) rest) rest)
    then None else play rest evs
  end.

(** Every member but the two that are not tested is set. *)
Definition ring_complete (p : list resource) : Prop :=
  forall r, r <> RingMem -> r <> DevList -> r <> MrMeta -> r ∈ p.

Lemma acquire_eq v r s :
  acquire v r s = if vb_ok v r then (s.1 ++ [r], s.2 ++ [Acquire r]) else s.
Proof. done. Qed.

Lemma need_eq v r s k :
  r ∉ s.1 -> need v r s k
  = if vb_ok v r then k (s.1 ++ [r], s.2 ++ [Acquire r]) else ring_err s.
Proof.
  intros Hr. unfold need, acquire, is_set. destruct (vb_ok v r).
  - rewrite bool_decide_true; [done|]. set_solver.
  - by rewrite bool_decide_false.
Qed.

(** C21.  Whatever the library answers, [rdma_ring_init] and
    [rdma_ring_destroy] acquire nothing without what it needs and release
    nothing that is still needed.  A structure that is returned has its
    members, and releasing it leaves nothing; when NULL is returned nothing is
    left but the list of devices when no device fits; and the only NULL member
    that is ever read is the memory region of the buffer. *)
Theorem ring_lifetimes v dev_name :
  let '(evs, out) := rdma_ring_init v dev_name in
  match out with
  | RingOk p => ring_complete p /\
      exists live, play [] evs = Some live /\ play live (rdma_ring_destroy p) = Some []
  | RingNull => play [] evs = Some
      (if vb_ok v RingMem && vb_ok v DevList && negb (find_device v dev_name) then [DevList] else [])
  | RingUB => vb_ok v MrBuf = false
  end.
Proof.
  unfold rdma_ring_init. generalize (find_device v dev_name). intros found.
  destruct (vb_ok v RingMem); [|reflexivity]. destruct (vb_ok v DevList); [|reflexivity].
  destruct found; [|reflexivity]. cbn [negb andb].
  rewrite acquire_eq. destruct (vb_ok v Context); [|reflexivity]. cbn.
  rewrite need_eq by set_solver. destruct (vb_ok v Pd); [|reflexivity]. cbn.
  rewrite need_eq by set_solver. destruct (vb_ok v Channel); [|reflexivity]. cbn.
  rewrite !acquire_eq. destruct (vb_ok v SendCq), (vb_ok v RecvCq); try reflexivity.
  destruct (vb_notify v); [|reflexivity]. cbn.
  rewrite need_eq by set_solver. destruct (vb_ok v Qp); [|reflexivity]. cbn.
  rewrite need_eq by set_solver. destruct (vb_ok v Buffer); [|reflexivity]. cbn.
  rewrite acquire_eq. destruct (vb_ok v MrBuf) eqn:Em;
    (rewrite need_eq by set_solver); (destruct (vb_ok v Meta); [|reflexivity]); cbn; rewrite acquire_eq;
    [|by destruct (vb_ok v MrMeta)].
  destruct (vb_ok v MrMeta); cbn; (split; [intros [] ? ? ?; try done; set_solver|]); by eexists.
Qed.

(** ** The two searches *)

Lemma rocev2_sgid q i n g j :
  rocev2_from q i n = Some (g, j) -> sgid_from q i n = Some j /\ q j = Some g.
Proof.
  revert i. induction n as [|n IH]; intros i; [done|]. cbn [rocev2_from sgid_from].
  destruct (q i) as [x|] eqn:E; [|done]. destruct (gid_ipv4 x); [|apply IH].
  by intros [= <- <-].
Qed.

(** When the hand-shake finds an IPv4 GID, the queue pair sends from the
    address the other side was told. *)
Theorem advertised_is_used q g i :
  get_rocev2_ipv4_gid q = Some (g, i) ->
  advertised_gid q = g /\ q (rdma_get_local_sgid_index q) = Some (advertised_gid q).
Proof.
  intros Hg. unfold advertised_gid, rdma_get_local_sgid_index. rewrite Hg. split; [done|].
  by destruct (rocev2_sgid _ _ _ _ _ Hg) as [-> Hq].
Qed.

(** Without one the hand-shake tells the first GID and the queue pair sends
    from the second. *)
Theorem advertised_differs q g0 g1 :
  (forall i g, (i < 16)%nat -> q i = Some g -> gid_ipv4 g = false) ->
  q 0%nat = Some g0 -> q 1%nat = Some g1 -> g0 <> g1 ->
  q (rdma_get_local_sgid_index q) <> Some (advertised_gid q).
Proof.
  intros Hno H0 H1 Hne.
  assert (Hs : forall n i, (i + n <= 16)%nat -> sgid_from q i n = None).
  { induction n as [|n IH]; intros i Hi; [done|]. cbn [sgid_from].
    destruct (q i) as [g|] eqn:E; [rewrite (Hno i g) by (done || lia)|]; apply IH; lia. }
  unfold rdma_get_local_sgid_index, advertised_gid. rewrite (Hs 16%nat 0%nat) by lia.
  destruct (get_rocev2_ipv4_gid q) as [[g i]|] eqn:E.
  { apply rocev2_sgid in E as [E _]. rewrite (Hs 16%nat 0%nat) in E by lia. done. }
  rewrite H0. cbn [default]. unfold id. rewrite H1. congruence.
Qed.

(** ** Configuration *)

(** When every step succeeds the queue pair can send to the peer it was given,
    and has its receives. *)
Theorem configure_connects p remote q :
  pt_query p = true -> pt_modify p (qp_st q) QpInit = true ->
  pt_modify p QpInit QpRtr = true -> pt_modify p QpRtr QpRts = true ->
  let '(q', r) := rdma_ring_configure p remote q in
  r = 0 /\ qp_st q' = QpRts /\ qp_dest q' = Some remote /\ qp_remote q' = Some remote /\
  qp_posted q' = MAX_RECV_WR.
Proof.
  intros Hq H1 H2 H3. unfold rdma_ring_configure. rewrite Hq. cbn [negb qp_st]. rewrite H1, H2, H3.
  cbn [negb qp_dest qp_remote qp_posted]. split_and!; try done. lia.
Qed.

(** A queue pair that is connected does not go back to its first state: when
    another slave shakes hands it stays connected to the old one, but the
    writes are addressed to the memory of the new one.  The master answers
    the request as if it had worked. *)
Theorem reconfigure_keeps_peer p remote q :
  pt_modify p QpRts QpInit = false -> qp_st q = QpRts ->
  let '(q', r) := rdma_ring_configure p remote q in
  r = -1 /\ qp_dest q' = qp_dest q /\ qp_remote q' = Some remote.
Proof.
  intros Hm Hs. unfold rdma_ring_configure. destruct (negb (pt_query p)); [done|].
  cbn [qp_st]. by rewrite Hs, Hm.
Qed.

(** ** Examples *)

(** The library gives everything but the memory region of the buffer. *)
Example init_without_region :
  (rdma_ring_init (Verbs (fun r => negb (bool_decide (r = MrBuf))) [str "rxe0"] true)
     (Some (str "rxe0"))).2 = RingUB.
Proof. reflexivity. Qed.

(** The device is missing: its list is not given back. *)
Example init_without_device :
  play [] (rdma_ring_init (Verbs (fun _ => true) [str "mlx5_0"] true) (Some (str "rxe0"))).1
  = Some [DevList].
Proof. reflexivity. Qed.

(** An unreadable entry ends one of the searches. *)
Example searches_differ :
  let mapped : bytes := replicate 10 x00 ++ [xff; xff; x0a; x00; x00; x01] in
  let q : gid_table := fun i => if (i =? 2)%nat then Some mapped else None in
  rdma_get_local_sgid_index q = 2%nat /\ advertised_gid q = gid_zero.
Proof. split; reflexivity. Qed.
