(* ===== verification/Events.v ===== *)
(** * The connections of the two other servers (reactor.c, proactor.c)

    The reactor reads and writes when epoll says so, the proactor hands reads
    and writes to io_uring and goes on when they complete; both give the
    protocol layer what is in the receive buffer and keep what it leaves.  The
    definitions follow one connection; what the peer has sent and the kernel
    has not handed over waits in the record, and each step has the kernel's
    answers.  The built server uses the coroutines of Net.v; these two are
    chosen with NETWORK_SELECT. *)

From S2P Require Import Prelude KvData Engine Config Resp Repl Aof ExpireQueue Store Ai.
From S2P Require Import Commands Lookup Protocol Net.

Open Scope Z_scope.
Open Scope kvs_scope.

(** A connection, the node it works on, what waits at the kernel, and what
    was sent. *)
Inductive state (C : Type) :=
| Open (c : C) (nd : node) (input sent : bytes)
| Shut (nd : node) (sent : bytes).
Arguments Open {C} c nd input sent.
Arguments Shut {C} nd sent.

Section events.
Context `{AiOps}.

(** ** The loop over the receive buffer *)

(** The same in both servers: it ends when the buffer is used up, at status 1,
    or at a negative status, which closes the connection. *)
Fixpoint parse_all (fuel calls : nat) (turns : nat -> nat -> turn) (k : nat) (fd : Z)
  (buf : bytes) (total : Z) (nd : node) (w : option wbuf) : run (Z * node * option wbuf * bool) :=
  match calls with
  | O => MoreFuel
  | S calls =>
    if total <? 0 then Undef
    else if total <? Z.of_nat (length buf) then
      let! r := protocol_process_stream fuel (turns k) fd (drop (Z.to_nat total) buf) nd w in
      let '(status, parsed, nd, w) := r in
      if status =? 1 then Ret (total, nd, w, false)
      else if status <? 0 then Ret (total, nd, w, true)
      else parse_all fuel calls turns (S k) fd buf (total + default 0 parsed) nd w
    else Ret (total, nd, w, false)
  end.

(** What the replies are packed into: nothing for the connection to a master. *)
Definition reply_buffer (c : conn) : option wbuf :=
  match cn_role c with CONN_MASTER => None | _ => Some (cn_w c) end.

(** The connection after the loop. *)
Definition keep_rest (c : conn) (total : Z) (w : option wbuf) : conn :=
  Conn (cn_fd c) (cn_role c)
    (if 0 <? total then drop (Z.to_nat total) (cn_rbuffer c) else cn_rbuffer c)
    (cn_rcapacity c) (default (cn_w c) w).

(** A buffer with room for [room] bytes at least; the capacity is an [int]. *)
Definition make_room (e : cenv) (i : nat) (room least : Z) (c : conn) : run (option conn) :=
  if cn_rcapacity c - rlength c <? room then
    if 2 ^ 31 <=? cn_rcapacity c * 2 then Undef
    else
      let new_capacity := cn_rcapacity c * 2 in
      let new_capacity := if new_capacity <? least then least else new_capacity in
      if alloc_ok e i new_capacity
      then Ret (Some (Conn (cn_fd c) (cn_role c) (cn_rbuffer c) new_capacity (cn_w c)))
      else Ret None
  else Ret (Some c).

(** ** The reactor *)

(** A connection with what epoll is asked to report. *)
Record rconn := RConn {
  rc_conn : conn;
  rc_epollin : bool;
  rc_epollout : bool
}.

(** [reactor_set_event] on a registered descriptor: writing never excludes
    reading, and a master is always read. *)
Definition reactor_set_event (epollin epollout : bool) (c : rconn) : rconn :=
  let master := match cn_role (rc_conn c) with CONN_MASTER => true | _ => false end in
  RConn (rc_conn c) (if master || epollout then true else epollin) epollout.

(** The environment of one event: the allocations, the results of the calls
    to [recv], the turns of the protocol and the result of [send]. *)
Record revent := REvent {
  rv_env : cenv;
  rv_recv : list recv_answer;
  rv_turns : nat -> nat -> turn;
  rv_send : send_result
}.

(** The loop around [recv]: the connection and the bytes that are new; no
    connection when it is to be closed. *)
Fixpoint recv_loop (e : cenv) (i : nat) (ans : list recv_answer) (c : conn) (input : bytes)
  (total_new : Z) : run (option (conn * bytes * Z)) :=
  match ans with
  | [] => MoreAnswers
  | a :: ans =>
    let! o := make_room e i 4096 8192 c in
    match o with
    | None => Ret None
    | Some c =>
      match a, input with
      | RecvEnd, _ => Ret None
      | RecvAgain, _ | RecvSome _, [] => Ret (Some (c, input, total_new))
      | RecvSome n, _ =>
        let d := take ((1 `max` n) `min` Z.to_nat (cn_rcapacity c - rlength c)) input in
        let c' := Conn (cn_fd c) (cn_role c) (cn_rbuffer c ++ d) (cn_rcapacity c) (cn_w c) in
        recv_loop e (S i) ans c' (drop (length d) input) (total_new + Z.of_nat (length d))
      end
    end
  end.

(** [recv_cb]; closing frees both buffers and clears the entry. *)
Definition recv_cb (fuel calls : nat) (v : revent) (c : rconn) (nd : node) (input sent : bytes)
  : run (state rconn) :=
  let! r := recv_loop (rv_env v) 0 (rv_recv v) (rc_conn c) input 0 in
  match r with
  | None => Ret (Shut nd sent)
  | Some (k, input, total_new) =>
    let c := RConn k (rc_epollin c) (rc_epollout c) in
    if (total_new =? 0) && (rlength k =? 0) then Ret (Open c nd input sent)
    else
      let! r := parse_all fuel calls (rv_turns v) 0 (cn_fd k) (cn_rbuffer k) 0 nd (reply_buffer k) in
      let '(total, nd, w, close) := r in
      if close : bool then Ret (Shut nd sent)
      else
        let k' := keep_rest k total w in
        let c' := RConn k' (rc_epollin c) (rc_epollout c) in
        let client := match cn_role k' with CONN_CLIENT => true | _ => false end in
        Ret (Open (if (0 <? total) && client && (0 <? wb_len (cn_w k'))
                   then reactor_set_event false true c' else c') nd input sent)
  end.

(** [send_cb] *)
Definition send_cb (v : revent) (c : rconn) (nd : node) (input sent : bytes) : state rconn :=
  let k := rc_conn c in
  let w := cn_w k in
  let with_w w := Conn (cn_fd k) (cn_role k) (cn_rbuffer k) (cn_rcapacity k) w in
  if 0 <? wb_len w then
    match rv_send v with
    | SendFail => Shut nd sent
    | SendAgain => Open c nd input sent
    | SendSome n =>
      let out := take (Z.to_nat n) (wb_data w) in
      if n <? wb_len w then
        Open (RConn (with_w (WBuf (drop (Z.to_nat n) (wb_data w)) (wb_cap w)))
                (rc_epollin c) (rc_epollout c)) nd input (sent ++ out)
      else
        Open (reactor_set_event true false (RConn (with_w (WBuf [] (wb_cap w)))
                (rc_epollin c) (rc_epollout c))) nd input (sent ++ out)
    end
  else Open (reactor_set_event true false c) nd input sent.

(** What [reactor_start] does with the events of one descriptor. *)
Definition reactor_event (fuel calls : nat) (epollin epollout : bool) (v : revent) (s : state rconn)
  : run (state rconn) :=
  match s with
  | Shut _ _ => Ret s
  | Open c nd input sent =>
    let! s := if epollin then recv_cb fuel calls v c nd input sent else Ret s in
    match s with
    | Shut _ _ => Ret s
    | Open c nd input sent => Ret (if epollout then send_cb v c nd input sent else s)
    end
  end.

(** The two buffers of a new entry. *)
Definition new_buffers (e : cenv) (fd : Z) (role : conn_role) (rcapacity : Z) (w : wbuf) : option conn :=
  if alloc_ok e 0 rcapacity then Some (Conn fd role [] rcapacity w) else None.

(** [accept_cb]: what [accept] gave, the table after it. *)
Definition accept_cb (e : cenv) (clientfd : Z) (conns : gmap Z rconn) : gmap Z rconn :=
  if (clientfd <? 0) || (CONNECTION_SIZE <=? clientfd) then conns
  else
    match new_buffers e clientfd CONN_CLIENT INIT_BUFFER_SIZE (WBuf [] INIT_BUFFER_SIZE) with
    | Some k => if alloc_ok e 1 INIT_BUFFER_SIZE then <[clientfd := RConn k true false]> conns
                else delete clientfd conns
    | None => delete clientfd conns
    end.

(** [reactor_host_slave_connection]: nothing is undone when the buffer is
    missing; the entry keeps its role and its callbacks, and no event comes. *)
Definition reactor_host_slave_connection (e : cenv) (fd : Z) (w : wbuf) (conns : gmap Z rconn)
  : gmap Z rconn * bool :=
  if (fd <? 0) || (CONNECTION_SIZE <=? fd) then (conns, false)
  else
    match new_buffers e fd CONN_MASTER 4096 w with
    | Some k => (<[fd := RConn k true false]> conns, true)
    | None => (<[fd := RConn (Conn fd CONN_MASTER [] 0 (WBuf [] 0)) false false]> conns, false)
    end.

(** ** The proactor *)

(** The operation a connection has at io_uring. *)
Inductive op :=
| OpRecv
| OpSend.

Record pconn := PConn {
  pc_conn : conn;
  pc_op : option op
}.

(** The environment of one completion; [pv_sqe] says whether the submission
    queue has a free entry, which no caller tests. *)
Record pevent := PEvent {
  pv_env : cenv;
  pv_turns : nat -> nat -> turn;
  pv_sqe : bool
}.

(** [submit_recv] *)
Definition submit_recv (e : cenv) (sqe : bool) (k : conn) (nd : node) (input sent : bytes)
  : run (state pconn) :=
  let! o := make_room e 60 65536 65536 k in
  match o with
  | None => Ret (Shut nd sent)
  | Some k => if sqe then Ret (Open (PConn k (Some OpRecv)) nd input sent) else Undef
  end.

(** [submit_send] *)
Definition submit_send (sqe : bool) (k : conn) (nd : node) (input sent : bytes) : run (state pconn) :=
  if wb_len (cn_w k) <=? 0 then Ret (Open (PConn k None) nd input sent)
  else if sqe then Ret (Open (PConn k (Some OpSend)) nd input sent)
  else Undef.

(** [on_recv_completed] with the [res] bytes that io_uring put into the
    buffer. *)
Definition on_recv_completed (fuel calls : nat) (v : pevent) (res : Z) (k : conn) (nd : node)
  (input sent : bytes) : run (state pconn) :=
  if res <=? 0 then Ret (Shut nd sent)
  else
    let d := take (Z.to_nat res) input in
    let input := drop (Z.to_nat res) input in
    let k := Conn (cn_fd k) (cn_role k) (cn_rbuffer k ++ d) (cn_rcapacity k) (cn_w k) in
    let! r := parse_all fuel calls (pv_turns v) 0 (cn_fd k) (cn_rbuffer k) 0 nd (reply_buffer k) in
    let '(total, nd, w, close) := r in
    if close : bool then Ret (Shut nd sent)
    else
      let k := keep_rest k total w in
      if 0 <? wb_len (cn_w k) then submit_send (pv_sqe v) k nd input sent
      else submit_recv (pv_env v) (pv_sqe v) k nd input sent.

(** [on_send_completed] with the [res] bytes that io_uring took. *)
Definition on_send_completed (v : pevent) (res : Z) (k : conn) (nd : node) (input sent : bytes)
  : run (state pconn) :=
  if res <? 0 then Ret (Shut nd sent)
  else
    let w := cn_w k in
    let with_w w := Conn (cn_fd k) (cn_role k) (cn_rbuffer k) (cn_rcapacity k) w in
    let out := take (Z.to_nat res) (wb_data w) in
    if (0 <? wb_len w) && (res <? wb_len w) then
      submit_send (pv_sqe v) (with_w (WBuf (drop (Z.to_nat res) (wb_data w)) (wb_cap w))) nd input
        (sent ++ out)
    else submit_recv (pv_env v) (pv_sqe v) (with_w (WBuf [] (wb_cap w))) nd input (sent ++ out).

(** What [proactor_start] does with a completion: the operation that was
    submitted, with its result. *)
Definition proactor_event (fuel calls : nat) (v : pevent) (res : Z) (s : state pconn) : run (state pconn) :=
  match s with
  | Shut _ _ => Ret s
  | Open c nd input sent =>
    match pc_op c with
    | Some OpRecv => on_recv_completed fuel calls v res (pc_conn c) nd input sent
    | Some OpSend => on_send_completed v res (pc_conn c) nd input sent
    | None => Ret s
    end
  end.

(** [on_accept_completed]: the next accept is submitted, the new connection
    gets its buffers and its first read. *)
Definition on_accept_completed (e : cenv) (sqe : bool) (clientfd : Z) (nd : node) (input : bytes)
  : run (option (state pconn)) :=
  if (clientfd <? 0) || (CONNECTION_SIZE <=? clientfd) then Ret None
  else
    match new_buffers e clientfd CONN_CLIENT INIT_BUFFER_SIZE (WBuf [] INIT_BUFFER_SIZE) with
    | Some k =>
      if alloc_ok e 1 INIT_BUFFER_SIZE
      then let! s := submit_recv e sqe k nd input [] in Ret (Some s)
      else Ret None
    | None => Ret None
    end.

(** [proactor_host_slave_connection] *)
Definition proactor_host_slave_connection (e : cenv) (sqe : bool) (fd : Z) (w : wbuf) (nd : node)
  (input : bytes) : run (option (state pconn)) :=
  if (fd <? 0) || (CONNECTION_SIZE <=? fd) then Ret None
  else
    match new_buffers e fd CONN_MASTER 65536 w with
    | Some k => let! s := submit_recv e sqe k nd input [] in Ret (Some s)
    | None => Ret None
    end.
End events.
