(* ===== verification/EventsSpec.v ===== *)
(** * What the two event servers promise (Events.v)

    Complete requests are run once each and in order, and no reply byte is
    lost or sent twice, whatever the kernel takes of the send buffer.  But
    neither server looks at the number of bytes the protocol layer consumed:
    with the beginning of a request in the buffer their loop never ends. *)

From S2P Require Import Prelude KvData Engine Config Resp Repl Aof ExpireQueue Store Ai.
From S2P Require Import Commands Lookup Protocol ProtocolSpec Net Events.

Open Scope Z_scope.
Open Scope kvs_scope.

Section loop.
Context `{AiOps}.

(** ** The loop over the receive buffer *)

(** On the beginning of a request it makes no progress. *)
Lemma parse_all_partial fuel calls turns k fd pre rest nd w :
  (forall k, unpack_mem (turns k)) -> (0 < fuel)%nat -> partial rest -> rest <> [] ->
  parse_all fuel calls turns k fd (pre ++ rest) (Z.of_nat (length pre)) nd w = MoreFuel.
Proof.
  intros Hm Hf Hp Hne. revert k. induction calls as [|calls IH]; intros k; [done|]. cbn [parse_all].
  rewrite (proj2 (Z.ltb_ge _ 0)), Nat2Z.id, drop_app_length by lia.
  rewrite (proj2 (Z.ltb_lt _ _)) by (rewrite length_app; destruct rest; simpl; [done|lia]).
  rewrite process_partial by done. cbn [run_bind from_option id].
  change (0 =? 1) with false. change (0 <? 0) with false. cbv iota. rewrite Z.add_0_r. apply IH.
Qed.

(** Complete requests are run, and then the loop ends or does not. *)
Lemma parse_all_requests fuel calls turns fd cmds rest nd w :
  (forall k, unpack_mem (turns k)) -> Forall resp_size_ok cmds -> partial rest ->
  (length cmds < fuel)%nat -> encoded cmds ++ rest <> [] ->
  parse_all fuel (S (S calls)) turns 0 fd (encoded cmds ++ rest) 0 nd w
  = let! r := run_requests (turns 0%nat) 0 fd nd w cmds rest in
    match rest with
    | [] => Ret (Z.of_nat (length (encoded cmds)), r.1, r.2, false)
    | _ => MoreFuel
    end.
Proof.
  intros Hm Hs Hp Hf Hne. remember (S calls) as n eqn:En. cbn [parse_all].
  rewrite (proj2 (Z.ltb_ge 0 0)) by lia.
  rewrite (proj2 (Z.ltb_lt 0 _)) by (destruct (encoded cmds ++ rest); simpl; [done|lia]).
  change (drop (Z.to_nat 0) ?l) with l. unfold encoded at 1.
  rewrite stream_all_requests by done. fold (encoded cmds).
  destruct (run_requests _ _ _ _ _ _ _) as [[nd1 w1]| | | |]; try done. cbn [run_bind from_option id fst snd].
  change (0 =? 1) with false. change (0 <? 0) with false. cbv iota. rewrite Z.add_0_l.
  destruct rest as [|b rest].
  - subst n. cbn [parse_all]. rewrite app_nil_r, (proj2 (Z.ltb_ge _ 0)), Z.ltb_irrefl by lia. done.
  - by apply parse_all_partial; [|lia| |].
Qed.

(** ** The send buffer only grows *)

(** What is waiting to be sent, before and after. *)
Definition out_grows (w w' : option wbuf) : Prop :=
  match w, w' with
  | None, None => True
  | Some w, Some w' => wb_data w `prefix_of` wb_data w'
  | _, _ => False
  end.

#[export] Instance out_grows_preorder : PreOrder out_grows.
Proof.
  split; [by intros [w|]; simpl|]. intros [w1|] [w2|] [w3|]; simpl; try done. apply transitivity.
Qed.

Lemma pack_grows e w r w' : pack_to e w r = Ok w' -> out_grows w w'.
Proof.
  destruct w as [w|]; [|by intros [= <-]]. cbn [pack_to].
  destruct (resp_pack_with_realloc e 0 w r) as [w1|] eqn:E; [|done]. intros [= <-].
  apply resp_pack_with_realloc_grows in E as [E|(p & _ & E)]; cbn [out_grows]; rewrite E;
    [done|by eexists].
Qed.

Lemma request_grows t fd nd w raw req nd' w' :
  process_request t fd nd w raw req = Ret (nd', w') -> out_grows w w'.
Proof.
  unfold process_request. destruct (special_repl _ _ _ _) as [[s d]| | | |]; try done. cbn [run_bind].
  assert (Hp : forall (ping : bool) w1, (if ping then let! p := ping_reply t req in
      of_res (pack_to (call (tn_cmd t) 53) w p) else Ret w) = Ret w1 -> out_grows w w1).
  { intros [] w1; [|by intros [= <-]]. destruct (ping_reply t req); try done. cbn [run_bind].
    destruct (pack_to _ _ _) as [w2|] eqn:E; [|done]. intros [= <-]. by eapply pack_grows. }
  specialize (Hp (req_is (str "PING") req)).
  destruct (if req_is (str "PING") req then _ else _) as [w1| | | |]; try done. cbn [run_bind].
  specialize (Hp w1 eq_refl). destruct (d || _); [by intros [= _ <-]|].
  destruct (if _ <? _ then _ else _) as [cmd| | | |]; try done. cbn [run_bind].
  destruct (if _ && _ then _ else _) as [nd1| | | |]; try done. cbn [run_bind].
  destruct (kvs_execute_batch _ _ _ _) as [[s' rep]|]; [|done]. cbn [of_res run_bind].
  destruct (pack_to _ _ _) as [w2|] eqn:E; [|done]. intros [= _ <-].
  etrans; [exact Hp|by eapply pack_grows].
Qed.

Lemma stream_grows fuel ts n fd buf p nd w p' nd' w' :
  stream_loop fuel ts n fd buf p nd w = Ret (p', nd', w') -> out_grows w w'.
Proof.
  revert n p nd w. induction fuel as [|fuel IH]; intros n p nd w; [done|]. cbn [stream_loop].
  destruct (_ <? _); [|by intros [= _ _ <-]].
  destruct (has_complete_resp_command _ _ _) as [[len|]|]; [|by intros [= _ _ <-]|done].
  cbn [of_res run_bind]. destruct (resp_unpack_no_modify _ _ _ _ _) as [req|]; [|done].
  cbn [of_res run_bind]. destruct (process_request _ _ _ _ _ _) as [[nd1 w1]| | | |] eqn:E; try done.
  cbn [run_bind]. intros Hs. etrans; [by eapply request_grows|by eapply IH].
Qed.

Lemma process_grows fuel ts fd buf nd w st pa nd' w' :
  protocol_process_stream fuel ts fd buf nd w = Ret (st, pa, nd', w') -> out_grows w w'.
Proof.
  unfold protocol_process_stream. destruct buf as [|b buf]; [by intros [= _ _ _ <-]|].
  destruct (negb _); [by intros [= _ _ _ <-]|].
  destruct (stream_loop _ _ _ _ _ _ _ _) as [[[p1 nd1] w1]| | | |] eqn:E; try done. cbn [run_bind].
  intros [= _ _ _ <-]. by eapply stream_grows.
Qed.

Lemma parse_all_grows fuel calls turns k fd buf total nd w total' nd' w' close :
  parse_all fuel calls turns k fd buf total nd w = Ret (total', nd', w', close) -> out_grows w w'.
Proof.
  revert k total nd w. induction calls as [|calls IH]; intros k total nd w; [done|]. cbn [parse_all].
  destruct (_ <? 0); [done|]. destruct (_ <? _); [|by intros [= _ _ <- _]].
  destruct (protocol_process_stream _ _ _ _ _ _) as [[[[st pa] nd1] w1]| | | |] eqn:E; try done.
  cbn [run_bind]. apply process_grows in E.
  destruct (st =? 1); [by intros [= _ _ <- _]|]. destruct (st <? 0); [by intros [= _ _ <- _]|].
  intros Hr. etrans; [exact E|by eapply IH].
Qed.
End loop.

(** ** The connection keeps what the peer is to get *)

(** Bytes sent, then bytes waiting; nothing more is known of a closed
    connection. *)
Definition output {C} (conn_of : C -> conn) (s : state C) : option bytes :=
  match s with
  | Open c _ _ sent => Some (sent ++ wb_data (cn_w (conn_of c)))
  | Shut _ _ => None
  end.

(** The output of [s'] extends that of [s]. *)
Definition output_grows {C} (conn_of : C -> conn) (s s' : state C) : Prop :=
  match output conn_of s, output conn_of s' with
  | Some o, Some o' => o `prefix_of` o'
  | _, None => True
  | None, Some _ => False
  end.

Lemma output_same {C} (f : C -> conn) c1 c2 nd1 nd2 i1 i2 sent1 sent2 :
  sent1 ++ wb_data (cn_w (f c1)) = sent2 ++ wb_data (cn_w (f c2)) ->
  output_grows f (Open c1 nd1 i1 sent1) (Open c2 nd2 i2 sent2).
Proof. intros He. unfold output_grows. cbn [output]. by rewrite He. Qed.

(** What a send takes and what stays are what waited. *)
Lemma output_split n (sent w : bytes) : sent ++ w = (sent ++ take n w) ++ drop n w.
Proof. by rewrite <- app_assoc, take_drop. Qed.

Section output.
Context `{AiOps}.

Lemma make_room_keeps e i room least c c' :
  make_room e i room least c = Ret (Some c') ->
  cn_w c' = cn_w c /\ cn_role c' = cn_role c /\ cn_rbuffer c' = cn_rbuffer c /\ cn_fd c' = cn_fd c.
Proof.
  unfold make_room. destruct (_ <? room); [|by intros [= <-]].
  destruct (_ <=? _); [done|]. by destruct (alloc_ok _ _ _); [intros [= <-]|].
Qed.

Lemma recv_loop_keeps e i ans c input total k input' n :
  recv_loop e i ans c input total = Ret (Some (k, input', n)) ->
  cn_w k = cn_w c /\ cn_role k = cn_role c /\ exists d, input = d ++ input' /\ cn_rbuffer k = cn_rbuffer c ++ d.
Proof.
  revert i c input total. induction ans as [|a ans IH]; intros i c input total; [done|].
  cbn [recv_loop]. destruct (make_room _ _ _ _ _) as [[c1|]| | | |] eqn:E; try done. cbn [run_bind].
  apply make_room_keeps in E as (Hw & Hr & Hb & _).
  assert (Hend : forall x : conn * bytes * Z, (c1, input, total) = x -> x = (k, input', n) ->
    cn_w k = cn_w c /\ cn_role k = cn_role c /\
    exists d, input = d ++ input' /\ cn_rbuffer k = cn_rbuffer c ++ d).
  { intros x <- [= <- <- <-]. split_and!; [done|done|]. exists []. by rewrite app_nil_r. }
  destruct a as [m| |]; [destruct input as [|b input]| |]; try done;
    try (intros [= H1 H2 H3]; by eapply Hend; [reflexivity|f_equal; [f_equal|]]).
  intros Hs. apply IH in Hs as (Hw' & Hr' & d & Hi & Hb'). cbn [cn_w cn_role cn_rbuffer] in *.
  split; [congruence|]. split; [congruence|].
  set (d0 := take _ (b :: input)) in *. exists (d0 ++ d). split.
  - rewrite <- app_assoc, <- Hi. symmetry. apply take_rest.
  - rewrite Hb', Hb. by rewrite app_assoc.
Qed.

Lemma keep_rest_output c total w :
  out_grows (reply_buffer c) w -> wb_data (cn_w c) `prefix_of` wb_data (cn_w (keep_rest c total w)).
Proof.
  unfold reply_buffer, keep_rest. cbn [cn_w]. destruct (cn_role c), w; simpl; done.
Qed.

Lemma set_event_conn i o c : rc_conn (reactor_set_event i o c) = rc_conn c.
Proof. done. Qed.

Lemma recv_cb_output fuel calls v c nd input sent s' :
  recv_cb fuel calls v c nd input sent = Ret s' ->
  output_grows rc_conn (Open c nd input sent) s'.
Proof.
  unfold recv_cb. destruct (recv_loop _ _ _ _ _ _) as [[[[k input'] n]|]| | | |] eqn:E; try done;
    cbn [run_bind]; [|by intros [= <-]].
  apply recv_loop_keeps in E as (Hw & Hr & _).
  destruct (_ && _); [intros [= <-]; apply output_same; cbn [rc_conn]; by rewrite Hw|].
  destruct (parse_all _ _ _ _ _ _ _ _ _) as [[[[total nd'] w'] close]| | | |] eqn:Ep; try done.
  cbn [run_bind]. apply parse_all_grows in Ep.
  destruct close; [by intros [= <-]|]. intros [= <-].
  apply (keep_rest_output k total w') in Ep. unfold output_grows. cbn [output].
  destruct (_ && _); rewrite ?set_event_conn; cbn [rc_conn]; rewrite <- Hw; by apply prefix_app.
Qed.

Lemma send_cb_output v c nd input sent :
  output_grows rc_conn (Open c nd input sent) (send_cb v c nd input sent).
Proof.
  unfold send_cb. destruct (Z.ltb_spec 0 (wb_len (cn_w (rc_conn c)))) as [Hw|Hw];
    [|by apply output_same].
  destruct (rv_send v) as [n| |]; [|by apply output_same|done].
  destruct (Z.ltb_spec n (wb_len (cn_w (rc_conn c)))) as [Hn|Hn]; apply output_same.
  - cbn [rc_conn cn_w wb_data]. by rewrite <- output_split.
  - rewrite set_event_conn. cbn [rc_conn cn_w wb_data]. unfold wb_len in *.
    by rewrite app_nil_r, (take_ge (wb_data _)) by lia.
Qed.

Lemma submit_recv_output e sqe k nd input sent s' :
  submit_recv e sqe k nd input sent = Ret s' -> output_grows pc_conn (Open (PConn k None) nd input sent) s'.
Proof.
  unfold submit_recv. destruct (make_room _ _ _ _ _) as [[k'|]| | | |] eqn:E; try done; cbn [run_bind];
    [|by intros [= <-]].
  apply make_room_keeps in E as [Hw _]. destruct sqe; [|done]. intros [= <-].
  apply output_same. cbn [pc_conn]. by rewrite Hw.
Qed.

Lemma submit_send_output sqe k nd input sent s' :
  submit_send sqe k nd input sent = Ret s' -> output_grows pc_conn (Open (PConn k None) nd input sent) s'.
Proof.
  unfold submit_send. destruct (_ <=? _); [intros [= <-]; by apply output_same|].
  destruct sqe; [intros [= <-]; by apply output_same|done].
Qed.

Lemma output_grows_from {C} (f : C -> conn) c1 c2 nd1 nd2 i1 i2 sent1 sent2 s' :
  (sent1 ++ wb_data (cn_w (f c1))) `prefix_of` (sent2 ++ wb_data (cn_w (f c2))) ->
  output_grows f (Open c2 nd2 i2 sent2) s' -> output_grows f (Open c1 nd1 i1 sent1) s'.
Proof.
  intros Hp. unfold output_grows. cbn [output]. destruct (output f s'); [|done]. by apply transitivity.
Qed.

Lemma on_recv_output fuel calls v res c nd input sent s' :
  on_recv_completed fuel calls v res (pc_conn c) nd input sent = Ret s' ->
  output_grows pc_conn (Open c nd input sent) s'.
Proof.
  unfold on_recv_completed. destruct (_ <=? _); [by intros [= <-]|].
  set (k := Conn _ _ _ _ _).
  destruct (parse_all _ _ _ _ _ _ _ _ _) as [[[[total nd'] w'] close]| | | |] eqn:Ep; try done.
  cbn [run_bind]. apply parse_all_grows, (keep_rest_output k total w') in Ep.
  destruct close; [by intros [= <-]|]. intros Hs.
  eapply (output_grows_from _ _ (PConn (keep_rest k total w') None)); [apply prefix_app, Ep|].
  destruct (0 <? _); [by eapply submit_send_output|by eapply submit_recv_output].
Qed.

Lemma on_send_output v res c nd input sent s' :
  on_send_completed v res (pc_conn c) nd input sent = Ret s' ->
  output_grows pc_conn (Open c nd input sent) s'.
Proof.
  unfold on_send_completed. destruct (Z.ltb_spec res 0) as [|Hres]; [by intros [= <-]|].
  set (w := cn_w (pc_conn c)). destruct (Z.ltb_spec 0 (wb_len w)) as [Hw|Hw]; cbn [andb].
  - destruct (Z.ltb_spec res (wb_len w)) as [Hn|Hn]; intros Hs.
    + apply submit_send_output in Hs. eapply output_grows_from; [|exact Hs].
      cbn [pc_conn cn_w wb_data]. by rewrite <- output_split.
    + apply submit_recv_output in Hs. eapply output_grows_from; [|exact Hs].
      cbn [pc_conn cn_w wb_data]. unfold wb_len in *. by rewrite app_nil_r, (take_ge (wb_data w)) by lia.
  - intros Hs. apply submit_recv_output in Hs. eapply output_grows_from; [|exact Hs].
    cbn [pc_conn cn_w wb_data]. fold w. unfold wb_len in *.
    destruct (wb_data w); [by rewrite take_nil, !app_nil_r|simpl in Hw; lia].
Qed.
End output.

(** ** The promises *)

(** C29.  No reply is lost, sent twice or out of order: after each event of the
    reactor and each completion of the proactor, whatever the kernel took of
    the send buffer, what was sent followed by what waits continues what it
    was before, or the connection is closed. *)
Theorem replies_not_lost `{AiOps} :
  (forall fuel calls i o v s s', reactor_event fuel calls i o v s = Ret s' ->
     output_grows rc_conn s s') /\
  (forall fuel calls v res s s', proactor_event fuel calls v res s = Ret s' ->
     output_grows pc_conn s s').
Proof.
  split.
  - intros fuel calls i o v [c nd input sent|nd sent] s'; [|by intros [= <-]]. cbn [reactor_event].
    destruct (if i then _ else _) as [s1| | | |] eqn:E; try done. cbn [run_bind].
    assert (H1 : output_grows rc_conn (Open c nd input sent) s1).
    { destruct i; [by eapply recv_cb_output|injection E as <-; by apply output_same]. }
    destruct s1 as [c1 nd1 input1 sent1|]; intros [= <-]; [|done].
    destruct o; [|done]. eapply output_grows_from; [exact H1|apply send_cb_output].
  - intros fuel calls v res [c nd input sent|nd sent] s'; [|by intros [= <-]]. cbn [proactor_event].
    destruct (pc_op c) as [[]|]; [by apply on_recv_output|by apply on_send_output|intros [= <-]; by apply output_same].
Qed.

(** What the two servers do with a receive buffer [buf] of connection [k] once
    the kernel has filled it: [served] for complete requests. *)
Definition served `{AiOps} (turns : nat -> nat -> turn) (k : conn) (cmds : list (list bytes)) (nd : node)
  : run (conn * node) :=
  let! r := run_requests (turns 0%nat) 0 (cn_fd k) nd (reply_buffer k) cmds [] in
  Ret (keep_rest k (Z.of_nat (length (encoded cmds))) r.2, r.1).

(** When the receive buffer holds complete requests and nothing else both
    servers run each of them once, in order, and go on: the reactor waits for
    the socket to take the replies, the proactor submits them, or the next
    read. *)
Theorem complete_requests_served `{AiOps} fuel calls cmds :
  Forall resp_size_ok cmds -> cmds <> [] -> (length cmds < fuel)%nat ->
  (forall v c nd input sent k input' n,
     (forall i, unpack_mem (rv_turns v i)) ->
     recv_loop (rv_env v) 0 (rv_recv v) (rc_conn c) input 0 = Ret (Some (k, input', n)) ->
     cn_rbuffer k = encoded cmds ->
     recv_cb fuel (S (S calls)) v c nd input sent
     = let! r := served (rv_turns v) k cmds nd in
       let '(k', nd') := r in
       let c' := RConn k' (rc_epollin c) (rc_epollout c) in
       let client := match cn_role k' with CONN_CLIENT => true | _ => false end in
       Ret (Open (if client && (0 <? wb_len (cn_w k')) then reactor_set_event false true c' else c')
              nd' input' sent)) /\
  (forall v res k nd input sent,
     (forall i, unpack_mem (pv_turns v i)) -> 0 < res ->
     cn_rbuffer k ++ take (Z.to_nat res) input = encoded cmds ->
     on_recv_completed fuel (S (S calls)) v res k nd input sent
     = let! r := served (pv_turns v)
                   (Conn (cn_fd k) (cn_role k) (encoded cmds) (cn_rcapacity k) (cn_w k)) cmds nd in
       let '(k', nd') := r in
       if 0 <? wb_len (cn_w k') then submit_send (pv_sqe v) k' nd' (drop (Z.to_nat res) input) sent
       else submit_recv (pv_env v) (pv_sqe v) k' nd' (drop (Z.to_nat res) input) sent).
Proof.
  intros Hs Hne Hf.
  assert (Henc : encoded cmds <> []).
  { intros Hz. apply Hne, encoded_nil. by rewrite Hz. }
  assert (Hlen : 0 < Z.of_nat (length (encoded cmds))) by (destruct (encoded cmds); simpl; [done|lia]).
  assert (Hparse : forall turns fd nd w, (forall i, unpack_mem (turns i)) ->
    parse_all fuel (S (S calls)) turns 0 fd (encoded cmds) 0 nd w
    = let! r := run_requests (turns 0%nat) 0 fd nd w cmds [] in
      Ret (Z.of_nat (length (encoded cmds)), r.1, r.2, false)).
  { intros turns fd nd w Hm. rewrite <- (app_nil_r (encoded cmds)) at 1.
    apply (parse_all_requests fuel calls turns fd cmds [] nd w Hm Hs partial_nil Hf).
    by rewrite app_nil_r. }
  split.
  - intros v c nd input sent k input' n Hm Hr Hb. unfold recv_cb. rewrite Hr. cbn [run_bind].
    assert (Hz : rlength k =? 0 = false) by (unfold rlength; rewrite Hb; by apply Z.eqb_neq; lia).
    rewrite Hz, andb_false_r, Hb, Hparse by done. unfold served.
    destruct (run_requests _ _ _ _ _ _ _) as [[nd1 w1]| | | |]; try done. cbn [run_bind fst snd].
    by rewrite (proj2 (Z.ltb_lt 0 _) Hlen).
  - intros v res k nd input sent Hm Hres Hb. unfold on_recv_completed.
    rewrite (proj2 (Z.leb_gt _ _)) by done. rewrite Hb. cbn [cn_fd cn_rbuffer].
    rewrite Hparse by done. unfold served. cbn [cn_fd].
    by destruct (run_requests _ _ _ _ _ _ _) as [[nd1 w1]| | | |].
Qed.

(** C40.  The protocol layer answers the beginning of a request with status 0
    and no bytes consumed, and neither server looks at the number: with such a
    rest in the receive buffer the reactor's callback and the proactor's
    completion never return, however often they turn, and with them the only
    thread of the server. *)
Theorem half_request_spins `{AiOps} fuel calls cmds rest :
  Forall resp_size_ok cmds -> partial rest -> rest <> [] -> (length cmds < fuel)%nat ->
  (forall v c nd input sent k input' n s',
     (forall i, unpack_mem (rv_turns v i)) ->
     recv_loop (rv_env v) 0 (rv_recv v) (rc_conn c) input 0 = Ret (Some (k, input', n)) ->
     cn_rbuffer k = encoded cmds ++ rest -> recv_cb fuel calls v c nd input sent <> Ret s') /\
  (forall v res k nd input sent s',
     (forall i, unpack_mem (pv_turns v i)) -> 0 < res ->
     cn_rbuffer k ++ take (Z.to_nat res) input = encoded cmds ++ rest ->
     on_recv_completed fuel calls v res k nd input sent <> Ret s').
Proof.
  intros Hs Hp Hne Hf.
  assert (Hbuf : encoded cmds ++ rest <> []) by (by destruct (encoded cmds)).
  assert (Hparse : forall turns fd nd w x, (forall i, unpack_mem (turns i)) ->
    parse_all fuel calls turns 0 fd (encoded cmds ++ rest) 0 nd w <> Ret x).
  { intros turns fd nd w x Hm. destruct calls as [|[|calls]]; [done| |].
    - cbn [parse_all]. destruct (_ <? 0); [done|]. destruct (Z.ltb_spec 0 (Z.of_nat (length (encoded cmds ++ rest)))).
      + change (drop (Z.to_nat 0) ?l) with l. unfold encoded. rewrite stream_all_requests by done.
        by destruct (run_requests _ _ _ _ _ _ _) as [[nd1 w1]| | | |].
      + exfalso. destruct (encoded cmds ++ rest); simpl in *; [done|lia].
    - rewrite parse_all_requests by done. destruct rest; [done|].
      by destruct (run_requests _ _ _ _ _ _ _) as [[nd1 w1]| | | |]. }
  split.
  - intros v c nd input sent k input' n s' Hm Hr Hb. unfold recv_cb. rewrite Hr. cbn [run_bind].
    assert (Hz : rlength k =? 0 = false).
    { unfold rlength. rewrite Hb. apply Z.eqb_neq. destruct (encoded cmds ++ rest); simpl; [done|lia]. }
    rewrite Hz, andb_false_r, Hb.
    specialize (Hparse (rv_turns v) (cn_fd k) nd (reply_buffer k)).
    destruct (parse_all _ _ _ _ _ _ _ _ _) as [x| | | |]; try done. by destruct (Hparse x Hm).
  - intros v res k nd input sent s' Hm Hres Hb. unfold on_recv_completed.
    rewrite (proj2 (Z.leb_gt _ _)) by done. rewrite Hb. cbn [cn_fd cn_rbuffer].
    match goal with |- context [parse_all _ _ ?t _ ?f _ _ ?m ?w] => specialize (Hparse t f m w) end.
    destruct (parse_all _ _ _ _ _ _ _ _ _) as [x| | | |]; try done. by destruct (Hparse x Hm).
Qed.

(** ** Examples *)

Definition sample_conn : conn := Conn 5 CONN_CLIENT [] INIT_BUFFER_SIZE (WBuf [] INIT_BUFFER_SIZE).

Definition sample_revent (send : send_result) : revent :=
  REvent (call (sample_cmdenv 0) 0) [RecvSome 30; RecvSome 5000; RecvAgain] (fun _ _ => sample_turn 9) send.

Definition sample_pevent : pevent := PEvent (call (sample_cmdenv 0) 0) (fun _ _ => sample_turn 9) true.

Definition received (input : bytes) : conn :=
  Conn 5 CONN_CLIENT input 8192 (WBuf [] INIT_BUFFER_SIZE).

Lemma sample_received input :
  input = encoded sample_cmds \/ input = encoded sample_cmds ++ sample_tail ->
  recv_loop (rv_env (sample_revent SendAgain)) 0 (rv_recv (sample_revent SendAgain)) sample_conn input 0
  = Ret (Some (received input, [], Z.of_nat (length input))).
Proof. intros [-> | ->]; by vm_compute. Qed.

Lemma complete_requests_served_witness :
  Forall resp_size_ok sample_cmds /\
  @recv_cb sample_ai 9 3 (sample_revent SendAgain) (RConn sample_conn true false) sample_node
    (encoded sample_cmds) []
  = (let! r := @served sample_ai (fun _ _ => sample_turn 9) (received (encoded sample_cmds)) sample_cmds
                 sample_node in
     let '(k', nd') := r in
     let c' := RConn k' true false in
     let client := match cn_role k' with CONN_CLIENT => true | _ => false end in
     Ret (Open (if client && (0 <? wb_len (cn_w k')) then reactor_set_event false true c' else c')
            nd' [] [])).
Proof.
  split; [exact sample_cmds_ok|].
  exact (proj1 (complete_requests_served (H := sample_ai) 9 1 sample_cmds sample_cmds_ok
                  ltac:(discriminate) ltac:(simpl; lia))
           (sample_revent SendAgain) (RConn sample_conn true false) sample_node (encoded sample_cmds) []
           (received (encoded sample_cmds)) [] _ (fun _ _ _ _ => eq_refl)
           (sample_received _ (or_introl eq_refl)) eq_refl).
Defined.

Lemma half_request_spins_witness :
  Forall resp_size_ok sample_cmds /\ partial sample_tail /\
  (forall calls s', @recv_cb sample_ai 9 calls (sample_revent SendAgain) (RConn sample_conn true false)
     sample_node (encoded sample_cmds ++ sample_tail) [] <> Ret s').
Proof.
  split; [exact sample_cmds_ok|]. split; [exact sample_partial|]. intros calls s'.
  exact (proj1 (half_request_spins (H := sample_ai) 9 calls sample_cmds sample_tail sample_cmds_ok
                  sample_partial ltac:(discriminate) ltac:(simpl; lia))
           (sample_revent SendAgain) (RConn sample_conn true false) sample_node _ [] _ [] _ s'
           (fun _ _ _ _ => eq_refl) (sample_received _ (or_intror eq_refl)) eq_refl).
Defined.

(** The replies to the sample leave in two sends of 7 bytes and of the rest. *)
Definition sample_sent (s : run (state rconn)) : option (bytes * bytes) :=
  match s with
  | Ret (Open c _ _ sent) => Some (sent, wb_data (cn_w (rc_conn c)))
  | _ => None
  end.

Example replies_in_two_sends :
  sample_sent
    (let! s := @reactor_event sample_ai 9 3 true true (sample_revent (SendSome 7))
                 (Open (RConn sample_conn true false) sample_node (encoded sample_cmds) []) in
     @reactor_event sample_ai 9 3 false true (sample_revent (SendSome 100)) s)
  = Some (str "+OK" ++ CRLF ++ str "+OK" ++ CRLF ++ str "+OK" ++ CRLF, []).
Proof. by vm_compute. Qed.
