(* ===== verification/WellFormed.v ===== *)
(** * What holds of the state whatever clients send

    The types of the server's state: each engine is well formed, the rings are
    indexed within their bounds and hold items of the right kind, the buffers
    of the log fit.  The file proves that every handler of the command table,
    the stream loop on any bytes, the deletions of the expiry thread and the
    start from any log and any snapshot file keep to them.  Array slots with a
    NULL key, which an empty key leaves behind, are allowed here; the engine's
    own invariant, under which it is a map, excludes them. *)

From S2P Require Import Prelude KvData Engine EngineSpec Config Resp Repl Aof ExpireQueue Store Ai.
From S2P Require Import ArrayEngine HashEngine RbTree SkipList ZSet Engines Snapshot Commands Lookup.
From S2P Require Import CommandSpec Protocol Expire DeleteSpec Net Server RestartSpec Sync System.

Open Scope Z_scope.
Open Scope kvs_scope.

(** ** The array with dead slots *)

Record array_wf (inst : kvs_array) : Prop := {
  awf_table : is_Some (ka_table inst);
  awf_total : ka_total inst = Z.of_nat (length (array_items inst));
  awf_idx : ka_idx inst = ka_total inst;
  awf_size : ka_total inst <= KVS_ARRAY_SIZE;
  awf_keys : NoDup (array_entries (array_items inst)).*1
}.

Lemma array_inv_wf inst : array_inv inst -> array_wf inst.
Proof. by intros [? ? ? ? ? ?]. Qed.

Section array.
Implicit Types (e : cenv) (inst : kvs_array) (k : bytes) (v : kv_data) (x : Z).

Lemma array_wf_find inst k :
  array_wf inst ->
  match find_key_index inst (kd_of k) with
  | Some i => exists l1 it l2, array_items inst = l1 ++ it :: l2 /\ i = length l1
  | None => k ∉ (array_entries (array_items inst)).*1
  end.
Proof.
  intros [_ Ht _ _ _]. unfold find_key_index. rewrite Ht, Nat2Z.id, take_ge by done.
  destruct (find_from _ _ _) as [j|] eqn:E.
  - apply (find_from_Some _ _ _ _ k) in E as (l1 & it & l2 & Hl & -> & _); [|done]. by eauto.
  - by apply (find_from_None _ _ _ k) in E.
Qed.

Lemma entries_alter (f : array_item -> array_item) l1 it l2 :
  ai_key (f it) = ai_key it ->
  (array_entries (alter f (length l1) (l1 ++ it :: l2))).*1 = (array_entries (l1 ++ it :: l2)).*1.
Proof.
  intros Hf. rewrite alter_mid, !array_entries_app, !fmap_app. f_equal.
  unfold array_entries. cbn [omap list_omap]. unfold item_entry at 1.
  rewrite Hf. unfold item_entry at 3. by destruct (kd_data (ai_key it)).
Qed.

Lemma array_set_wf e inst k v x : array_wf inst -> array_wf (kvs_array_set e inst (kd_of k) v x).1.
Proof.
  intros Hi. pose proof (array_wf_find inst k Hi) as Hf. pose proof Hi as [Hs Ht Hx Hz Hn].
  unfold kvs_array_set. destruct (find_key_index inst (kd_of k)) as [i|].
  - destruct Hf as (l1 & it & l2 & Hl & ->). destruct (kv_data_dup e 0 v) as [v' ret].
    rewrite Hl in *. destruct (negb (ret =? 0)); (split; cbn; [done| |done|done|]);
      try (by rewrite length_alter); by rewrite entries_alter.
  - destruct (Z.leb_spec KVS_ARRAY_SIZE (ka_total inst)); [done|].
    destruct (kv_data_dup e 0 (kd_of k)) as [key ret] eqn:Ek. simpl.
    destruct (Z.eqb_spec ret 0) as [->|]; [|done]. simpl.
    destruct (kv_data_dup e 1 v) as [v' ret]. destruct (negb (ret =? 0)); [done|].
    split; simpl; [done| |done|lia|]; change (array_items (KvsArray (Some ?l) _ _)) with l.
    { rewrite length_app, Ht. simpl. lia. }
    rewrite array_entries_app, fmap_app. unfold array_entries at 2. simpl. unfold item_entry. simpl.
    destruct (kd_data key) as [kb|] eqn:Ed; simpl; [|by rewrite app_nil_r].
    pose proof (kv_data_dup_bytes e 0 (kd_of k)) as Hb. rewrite Ek in Hb. specialize (Hb eq_refl).
    unfold kd_bytes in Hb. simpl in Hb. rewrite Ed in Hb. simpl in Hb. subst kb.
    apply NoDup_app. split; [done|]. split; [|apply NoDup_singleton].
    intros y Hy Hk. apply list_elem_of_singleton in Hk. by subst y.
Qed.

Lemma array_del_wf e inst k : array_wf inst -> array_wf (kvs_array_del e inst (kd_of k)).1.
Proof.
  intros Hi. pose proof (array_wf_find inst k Hi) as Hf. pose proof Hi as [Hs Ht Hx Hz Hn].
  unfold kvs_array_del. destruct (find_key_index inst (kd_of k)) as [i|]; [|done].
  destruct Hf as (l1 & it & l2 & Hl & ->). pose proof (array_remove_mid l1 it l2) as Hp.
  rewrite Hl in *. split; simpl; [done| |done|lia|]; change (array_items (KvsArray (Some ?l) _ _)) with l.
  - apply Permutation_length in Hp. rewrite Hp, Ht, !length_app. simpl. lia.
  - assert (Hq : (array_entries (array_remove (l1 ++ it :: l2) (length l1))).*1
                 ≡ₚ (array_entries (l1 ++ l2)).*1) by (unfold array_entries; by rewrite Hp).
    rewrite Hq. eapply sublist_NoDup; [exact Hn|]. rewrite !array_entries_app, !fmap_app.
    apply sublist_app; [done|]. change (it :: l2) with ([it] ++ l2).
    rewrite array_entries_app, fmap_app. by apply sublist_inserts_l.
Qed.
End array.

(** ** The engines *)

(** [P] is kept by every operation, the keys being what the handlers and the
    expiry thread give. *)
Class EngineWf (T : Type) `{KvEngine T} (P : T -> Prop) : Prop := {
  ewf_set e t k v x : P t -> P (eng_set e t (kd_of k) v x).1;
  ewf_get e t k : P t -> P (eng_get e t (kd_of k)).1;
  ewf_del e t k : P t -> P (eng_del e t (kd_of k)).1;
  ewf_mod e t k v x : P t -> P (eng_mod e t (kd_of k) v x).1;
  ewf_exist e t k : P t -> P (eng_exist e t (kd_of k)).1;
  ewf_del_if_expired e t k h x : P t -> P (eng_del_if_expired e t (KvData (Some k) h) x).1
}.

#[export] Instance array_engine_wf : EngineWf kvs_array array_wf.
Proof.
  assert (Hg : forall e t k, array_wf t -> array_wf (kvs_array_get e t (kd_of k)).1).
  { intros e t k Hi. unfold kvs_array_get. destruct (find_key_index _ _); [|done].
    destruct (_ !! _); [|done]. destruct (is_expired _ _); [by apply array_del_wf|done]. }
  split; intros e t k; intros; simpl.
  - by apply array_set_wf.
  - by apply Hg.
  - by apply array_del_wf.
  - by apply array_set_wf.
  - unfold kvs_array_exist. pose proof (Hg e t k) as Ht.
    destruct (kvs_array_get e t (kd_of k)). by apply Ht.
  - rewrite array_del_key. unfold kvs_array_del_if_expired.
    destruct (find_key_index _ _); [|done]. destruct (_ !! _); [|done].
    destruct (negb _); [done|]. by apply array_del_wf.
Qed.

(** An engine whose laws hold for all keys; the hash cached in the key of a
    timer needs a look of its own. *)
Lemma laws_engine_wf T `{KvEngineLaws T} :
  (forall k, eng_key k) ->
  (forall e t k h x, eng_inv t -> eng_inv (eng_del_if_expired e t (KvData (Some k) h) x).1) ->
  EngineWf T eng_inv.
Proof.
  intros Hk Hd. split; intros e t k; intros; try rewrite eng_mod_set; try rewrite eng_exist_spec by done;
    simpl; auto using eng_set_inv, eng_get_inv, eng_del_inv.
Qed.

Lemma del_if_expired_inv {T} `{KvEngineLaws T} e (t : T) k x :
  eng_inv t -> eng_key k -> eng_inv (eng_del_if_expired e t (kd_of k) x).1.
Proof.
  intros Hi Hk. rewrite eng_del_if_expired_spec by done. destruct (eng_abs t !! k) as [[v x']|]; [|done].
  case_bool_decide; [by apply eng_del_inv|done].
Qed.

Lemma chain_find_key b k h : chain_find b (KvData (Some k) h) = chain_find b (kd_of k).
Proof. induction b as [|n b IH]; [done|]. simpl. by rewrite IH. Qed.

(** A hash that is not the key's finds the key in its own bucket or not at
    all. *)
Lemma hash_del_stale e t k h :
  hash_inv t ->
  kvs_hash_del e t (KvData (Some k) h) = kvs_hash_del e t (kd_of k) \/
  (kvs_hash_del e t (KvData (Some k) h)).1 = t.
Proof.
  intros Hi. destruct (hinv_shape _ Hi) as (bs & ex & Hb & He & Hm & _ & Hok).
  unfold kvs_hash_del. rewrite Hb, Hm, (kv_data_hash_spec (kd_of k) k) by (auto with kvs; lia).
  assert (Hh : exists hh, kv_data_hash (KvData (Some k) h) (2 ^ ex)
                 = (Z.land hh (2 ^ ex - 1), KvData (Some k) hh)).
  { unfold kv_data_hash, kv_data_hash_calc. simpl. destruct (Z.leb_spec (2 ^ ex) 0); [lia|].
    destruct (negb (h =? 0)); eauto. }
  destruct Hh as [hh ->]. rewrite !chain_find_key. destruct (2 ^ ex <=? Z.land hh _); [by right|].
  destruct (chain_find (bucket_at bs (Z.land hh _)) _) as [[[b1 n] b2]|] eqn:Ef; [|by right].
  left. pose proof Ef as Hc. apply chain_find_Some in Hc as [Hbk Hn].
  unfold bucket_at in Hbk. destruct (bs !! _) as [b|] eqn:El; [|by destruct b1].
  destruct (Hok _ b n El) as (_ & Hhash & Hland); [simpl in Hbk; rewrite Hbk; set_solver|].
  change (kd_bytes (kd_of k)) with k in Hn. rewrite Hn in Hhash. rewrite Hhash in Hland.
  assert (0 < 2 ^ ex) by (apply Z.pow_pos_nonneg; lia).
  assert (0 <= Z.land hh (2 ^ ex - 1)) by (apply Z.land_nonneg; right; lia).
  rewrite Z2Nat.id in Hland by done. rewrite <- Hland, Ef.
  pose proof (land_mask_range (kv_hash_short k) ex ltac:(lia) (kv_hash_short_nonneg k)) as Hr.
  rewrite <- Hland in Hr. by destruct (Z.leb_spec (2 ^ ex) (Z.land hh (2 ^ ex - 1))); [lia|].
Qed.

#[export] Instance hash_engine_wf : EngineWf kvs_hash hash_inv.
Proof.
  refine (laws_engine_wf kvs_hash (fun _ => I) _). intros e t k h x Hi. simpl.
  unfold kvs_hash_del_if_expired. destruct (hash_lookup _ _); [|done].
  destruct (_ =? _); [|done]. simpl.
  destruct (hash_del_stale e t k h Hi) as [-> | ->]; [by apply hash_del_cases|done].
Qed.

#[export] Instance rbtree_engine_wf : EngineWf kvs_rbtree rb_inv.
Proof.
  refine (laws_engine_wf kvs_rbtree (fun _ => I) _). intros e t k h x Hi.
  change (eng_inv (eng_del_if_expired e t (kd_of k) x).1). by apply del_if_expired_inv.
Qed.

#[export] Instance skip_engine_wf : EngineWf kvs_skip sk_inv.
Proof.
  refine (laws_engine_wf kvs_skip (fun _ => I) _). intros e t k h x Hi.
  change (eng_inv (kvs_skip_del_if_expired e t (KvData (Some k) h) x).1). rewrite skip_del_key.
  change (eng_inv (eng_del_if_expired e t (kd_of k) x).1). by apply del_if_expired_inv.
Qed.

(** ** The stores *)

(** The array with dead slots, the other engines well formed. *)
Definition store_wf (s : engines) : Prop :=
  array_wf (global_array s) /\ forall d, d <> DbArray -> store_inv_at s d.

Lemma store_inv_wf s : store_inv s -> store_wf s.
Proof. intros Hs. split; [apply array_inv_wf, (Hs DbArray)|intros d _; apply Hs]. Qed.

(** A slot whose engine keeps [P]. *)
Class SlotWf {T} `{KvEngine T} (sl : slot T) (P : T -> Prop) : Prop := {
  slot_wf :: EngineWf T P;
  slot_wf_get s : store_wf s -> P (sl_get sl s);
  slot_wf_put s t : store_wf s -> P t -> store_wf (sl_put sl t s)
}.

Ltac solve_slot_wf d :=
  split; [apply _|intros s [Ha Hs]; first [exact Ha|by apply (Hs d)]
         |intros s t [Ha Hs] Ht; split; [first [exact Ht|exact Ha]|intros d' Hd'; specialize (Hs d' Hd'); by destruct d']].

#[export] Instance slot_array_wf : SlotWf slot_array array_wf.
Proof. solve_slot_wf DbArray. Qed.
#[export] Instance slot_rbtree_wf : SlotWf slot_rbtree rb_inv.
Proof. solve_slot_wf DbRbtree. Qed.
#[export] Instance slot_hash_wf : SlotWf slot_hash hash_inv.
Proof. solve_slot_wf DbHash. Qed.
#[export] Instance slot_hash1_wf : SlotWf slot_hash1 hash_inv.
Proof. solve_slot_wf DbHash1. Qed.
#[export] Instance slot_hash2_wf : SlotWf slot_hash2 hash_inv.
Proof. solve_slot_wf DbHash2. Qed.
#[export] Instance slot_hash3_wf : SlotWf slot_hash3 hash_inv.
Proof. solve_slot_wf DbHash3. Qed.
#[export] Instance slot_hash4_wf : SlotWf slot_hash4 hash_inv.
Proof. solve_slot_wf DbHash4. Qed.
#[export] Instance slot_skip_wf : SlotWf slot_skip sk_inv.
Proof. solve_slot_wf DbSkip. Qed.

(** ** The node *)

(** The indices of a ring are within it, and every timer is of a store. *)
Definition queue_wf (q : expire_queue) : Prop :=
  0 <= eq_head q < EXPIRE_QUEUE_SIZE /\ 0 <= eq_tail q < EXPIRE_QUEUE_SIZE /\
  forall i item, eq_items q !! i = Some item -> is_Some (timer_db (ei_type item)).

Definition repl_wf (r : repl) : Prop :=
  0 <= g_repl_backlog_head r < REPL_BACKLOG_MAX /\ 0 <= g_repl_backlog_tail r < REPL_BACKLOG_MAX /\
  0 <= g_repl_backlog_count r <= REPL_BACKLOG_MAX.

Definition aof_wf (a : aof) : Prop :=
  zlen (aof_buf_active a) <= AOF_BUF_SIZE /\ zlen (aof_buf_flush a) <= AOF_BUF_SIZE.

Record server_wf (s : server) : Prop := {
  swf_store : store_wf (sv_eng s);
  swf_child : forall x, sv_child s = Some x -> store_wf x;
  swf_queue : queue_wf (sv_cmdq s);
  swf_repl : repl_wf (sv_repl s)
}.

Definition node_wf (nd : node) : Prop := server_wf (nd_sv nd) /\ aof_wf (nd_aof nd).

(** A reply has a body only when it says so. *)
Definition reply_wf (r : resp_reply) : Prop :=
  is_Some (rep_body r) -> rep_status r = KVS_RESP_GET_OK.

Lemma with_eng_wf s en : server_wf s -> store_wf en -> server_wf (with_eng en s).
Proof. by intros []. Qed.

Lemma with_repl_wf s r : server_wf s -> repl_wf r -> server_wf (with_repl r s).
Proof. by intros []. Qed.

Lemma with_cmdq_wf s q : server_wf s -> queue_wf q -> server_wf (with_cmdq q s).
Proof. by intros []. Qed.

Lemma with_ai_wf s x : server_wf s -> server_wf (with_ai x s).
Proof. by intros []. Qed.

Lemma with_rdma_ctx_wf s x : server_wf s -> server_wf (with_rdma_ctx x s).
Proof. by intros []. Qed.

Lemma with_save_wf s pid child :
  server_wf s -> (forall x, child = Some x -> store_wf x) -> server_wf (with_save pid child s).
Proof. by intros []. Qed.

Lemma queue_next_range i : 0 <= queue_next i < EXPIRE_QUEUE_SIZE.
Proof.
  unfold queue_next, EXPIRE_QUEUE_MASK, EXPIRE_QUEUE_SIZE. change (65536 - 1) with (Z.ones 16).
  rewrite Z.land_ones by lia. apply Z.mod_pos_bound. lia.
Qed.

Lemma queue_push_wf q item :
  queue_wf q -> is_Some (timer_db (ei_type item)) -> queue_wf (queue_push q item).1.
Proof.
  intros (Hh & Ht & Hi) Hty. unfold queue_push. destruct (_ =? _); [done|].
  split; [apply queue_next_range|]. split; [done|]. intros i x. simpl.
  rewrite lookup_insert_Some. intros [[_ <-]|[_ Hx]]; eauto.
Qed.

Lemma queue_pop_wf q :
  queue_wf q ->
  queue_wf (queue_pop q).1 /\ forall item, (queue_pop q).2 = Some item -> is_Some (timer_db (ei_type item)).
Proof.
  intros (Hh & Ht & Hi). unfold queue_pop. destruct (_ =? _); [done|]. cbn [fst snd].
  split; [split; [done|]; split; [apply queue_next_range|done]|]. intros item [= <-].
  destruct (eq_items q !! eq_tail q) as [x|] eqn:E; simpl; [by eapply Hi|by eexists].
Qed.

Lemma expire_push_wf e i stale q type key x version :
  queue_wf q -> is_Some (timer_db type) ->
  queue_wf (expire_push_cmd e i stale q type key x version).1.
Proof. intros Hq Ht. unfold expire_push_cmd. destruct (alloc_ok _ _ _); [by apply queue_push_wf|done]. Qed.

Create HintDb wf.
#[export] Hint Resolve with_eng_wf with_repl_wf with_cmdq_wf with_ai_wf with_rdma_ctx_wf : wf.
#[export] Hint Resolve swf_store swf_child swf_queue swf_repl expire_push_wf : wf.

(** ** The handlers *)

(** The outcome of a handler. *)
Definition out_wf (o : res (server * resp_reply)) : Prop :=
  match o with Ok (s, r) => server_wf s /\ reply_wf r | UB => True end.

Lemma bind_wf {A} (m : res A) (f : A -> res (server * resp_reply)) :
  (forall a, m = Ok a -> out_wf (f a)) -> out_wf (rbind m f).
Proof. destruct m as [a|]; [|done]. intros Hf. by apply Hf. Qed.

Lemma done_wf s st : server_wf s -> out_wf (done s st).
Proof. intros Hs. split; [done|]. intros [b [=]]. Qed.

Lemma set_reply_body_wf e r : reply_wf (kvs_set_reply_body e r).
Proof.
  unfold kvs_set_reply_body. destruct r as [d|]; [|by intros [b [=]]].
  destruct (kd_data d) as [[|b l]|]; [by intros [x [=]]| |by intros [x [=]]].
  destruct (alloc_ok _ _ _); [done|by intros [x [=]]].
Qed.

Lemma put_wf {T} `{KvEngine T} (sl : slot T) P `{!SlotWf sl P} s t :
  server_wf s -> P t -> server_wf (with_eng (sl_put sl t (sv_eng s)) s).
Proof. intros Hs Ht. apply with_eng_wf; [done|]. apply (slot_wf_put (P := P)); [apply Hs|done]. Qed.

(** Runs over the guards, arguments and numbers of a handler; an argument is a
    key of the kind the engines know. *)
Ltac wf_guards :=
  repeat lazymatch goal with
  | |- out_wf (if ?b then _ else _) => destruct b
  | |- out_wf (rbind (arg_data _ _) _) =>
    apply bind_wf; let k := fresh "k" in let E := fresh "E" in
    intros k E; apply arg_data_kd in E; rewrite E; clear E; generalize (kd_bytes k); clear k; intros k
  | |- out_wf (rbind _ _) => apply bind_wf; intros ? _
  | |- out_wf (done _ _) => apply done_wf
  end.

Section engine.
Context {T : Type} `{KvEngine T} (sl : slot T) (P : T -> Prop) `{!SlotWf sl P}.
Implicit Types (c : cmdenv) (s : server) (req : resp_request).

(** An operation on the slot. *)
Lemma slot_op_wf s (o : T -> T) :
  server_wf s -> (forall t, P t -> P (o t)) ->
  server_wf (with_eng (sl_put sl (o (sl_get sl (sv_eng s))) (sv_eng s)) s).
Proof. intros Hs Ho. apply (put_wf sl P); [done|]. apply Ho, (slot_wf_get (P := P)), Hs. Qed.

(** What follows an operation that gives a new engine and a result. *)
Lemma op_wf {R} s (o : T -> T * R) (f : T -> R -> res (server * resp_reply)) :
  server_wf s -> (forall t, P t -> P (o t).1) ->
  (forall t r, server_wf (with_eng (sl_put sl t (sv_eng s)) s) -> out_wf (f t r)) ->
  out_wf (let '(t, r) := o (sl_get sl (sv_eng s)) in f t r).
Proof.
  intros Hs Ho Hf. rewrite (surjective_pairing (o _)). apply Hf.
  by apply (slot_op_wf s (fun t => (o t).1)).
Qed.

Lemma cmd_set_wf type timer c s req :
  is_Some (timer_db type) -> server_wf s -> out_wf (cmd_set sl type timer c s req).
Proof.
  intros Hty Hs. unfold cmd_set. wf_guards; try done.
  apply (op_wf s (fun t => eng_set (call c 1) t (kd_of k) (kd_of k0) a)); [done| |].
  - intros. by apply ewf_set.
  - intros t r Hs'. wf_guards. destruct (_ && _ && _); [|done].
    apply with_cmdq_wf; [done|]. apply expire_push_wf; [apply Hs'|done].
Qed.

Lemma cmd_get_wf c s req : server_wf s -> out_wf (cmd_get sl c s req).
Proof.
  intros Hs. unfold cmd_get. wf_guards; [done|].
  apply (op_wf s (fun t => eng_get (call c 0) t (kd_of k))); [done|intros; by apply ewf_get|].
  intros t r Hs'. split; [done|apply set_reply_body_wf].
Qed.

Lemma cmd_del_wf c s req : server_wf s -> out_wf (cmd_del sl c s req).
Proof.
  intros Hs. unfold cmd_del. wf_guards; [done|].
  apply (op_wf s (fun t => eng_del (call c 0) t (kd_of k))); [done|intros; by apply ewf_del|].
  intros. by apply done_wf.
Qed.

Lemma cmd_mod_wf c s req : server_wf s -> out_wf (cmd_mod sl c s req).
Proof.
  intros Hs. unfold cmd_mod. wf_guards; [done|].
  apply (op_wf s (fun t => eng_mod (call c 0) t (kd_of k) (kd_of k0) 0));
    [done|intros; by apply ewf_mod|].
  intros. by apply done_wf.
Qed.

Lemma cmd_exists_wf c s req : server_wf s -> out_wf (cmd_exists sl c s req).
Proof.
  intros Hs. unfold cmd_exists. wf_guards; [done|].
  apply (op_wf s (fun t => eng_exist (call c 0) t (kd_of k))); [done|intros; by apply ewf_exist|].
  intros. by apply done_wf.
Qed.
End engine.

(** The hash tables the handlers use directly. *)
Lemma hash_set_wf e t k v x : hash_inv t -> hash_inv (kvs_hash_set e t (kd_of k) v x).1.
Proof. exact (ewf_set (P := hash_inv) e t k v x). Qed.

Lemma hash_get_wf e t k : hash_inv t -> hash_inv (kvs_hash_get e t (kd_of k)).1.
Proof. exact (ewf_get (P := hash_inv) e t k). Qed.

Lemma hash_del_wf e t k : hash_inv t -> hash_inv (kvs_hash_del e t (kd_of k)).1.
Proof. exact (ewf_del (P := hash_inv) e t k). Qed.

Lemma hash_append_wf e t k id : hash_inv t -> hash_inv (kvs_hash_append e t (kd_of k) (kd_of id)).1.
Proof.
  intros Hi. unfold kvs_hash_append. destruct (kh_buckets t); [|done]. cbn [kd_data kd_of].
  destruct (_ =? 0); [done|]. pose proof (hash_get_wf e t k Hi) as Hg.
  destruct (kvs_hash_get e t (kd_of k)) as [t' r]. cbn [fst] in Hg.
  destruct (_ =? _)%nat; [by apply hash_set_wf|].
  destruct (bool_decide _); [done|]. destruct (negb _); [done|]. destruct (negb _); [done|].
  by apply hash_set_wf.
Qed.

Lemma hash_reply_wf (sl : slot kvs_hash) `{!SlotWf sl hash_inv} c s req :
  server_wf s -> out_wf (hash_reply sl c s req).
Proof.
  intros Hs. unfold hash_reply. wf_guards; [done|].
  apply (op_wf sl hash_inv s (fun t => kvs_hash_get (call c 0) t (kd_of k)));
    [done|intros t Ht; by apply hash_get_wf|].
  intros t r Hs'. split; [done|apply set_reply_body_wf].
Qed.

Lemma cmd_setctx_wf c s req : server_wf s -> out_wf (cmd_setctx c s req).
Proof.
  intros Hs. unfold cmd_setctx. wf_guards; [done|].
  apply (op_wf slot_hash2 hash_inv s (fun t => kvs_hash_set (call c 0) t (kd_of k) (kd_of k0) a1));
    [done|intros t Ht; by apply hash_set_wf|].
  intros t r Hs'. wf_guards; [done|]. destruct (_ && _); [|done].
  apply with_cmdq_wf; [done|]. apply expire_push_wf; [apply Hs'|by eexists].
Qed.

Lemma cmd_delctx_wf c s req : server_wf s -> out_wf (cmd_delctx c s req).
Proof.
  intros Hs. unfold cmd_delctx. wf_guards; [done|].
  apply (op_wf slot_hash2 hash_inv s (fun t => kvs_hash_del (call c 0) t (kd_of k)));
    [done|intros t Ht; by apply hash_del_wf|].
  intros. by apply done_wf.
Qed.

Lemma cmd_setrec_wf c s req : server_wf s -> out_wf (cmd_setrec c s req).
Proof.
  intros Hs. unfold cmd_setrec. wf_guards; [done|].
  apply (op_wf slot_hash3 hash_inv s (fun t => kvs_hash_set (call c 0) t (kd_of k) (kd_of k0) 0));
    [done|intros t Ht; by apply hash_set_wf|].
  intros. by apply done_wf.
Qed.

Lemma cmd_setidx_wf c s req : server_wf s -> out_wf (cmd_setidx c s req).
Proof.
  intros Hs. unfold cmd_setidx. wf_guards; [done|].
  apply (op_wf slot_hash4 hash_inv s (fun t => kvs_hash_append (call c 0) t (kd_of k) (kd_of k0)));
    [done|intros t Ht; by apply hash_append_wf|].
  intros. by apply done_wf.
Qed.

Lemma cmd_zadd_wf c s req : server_wf s -> out_wf (cmd_zadd c s req).
Proof.
  intros Hs. unfold cmd_zadd. wf_guards; [done|done|].
  apply (op_wf slot_skip sk_inv s (fun t => kvs_zset_add (call c 0) t a0 (kd_of k)));
    [done|intros t Ht; by apply zset_add_inv|].
  intros. by apply done_wf.
Qed.

(** ** Range queries and records *)

Lemma add_record_wf c k b id :
  hash_inv (rb_hash b) -> hash_inv (rb_hash (add_record c k b id).1).
Proof.
  intros Hi. unfold add_record. pose proof (hash_get_wf (call c k) (rb_hash b) (cstr id) Hi) as Hg.
  destruct (kvs_hash_get _ _ _) as [t r]. destruct r as [d|]; [|done].
  destruct (kd_bytes d); [done|]. by destruct (_ && _).
Qed.

Lemma add_records_wf c k b ids :
  hash_inv (rb_hash b) -> hash_inv (rb_hash (add_records c k b ids).1).
Proof.
  revert k b. induction ids as [|id ids IH]; intros k b Hi; [done|]. cbn [add_records].
  pose proof (add_record_wf c k b id Hi) as Ha. destruct (add_record c k b id) as [b' []]; [|done].
  by apply IH.
Qed.

Lemma build_records_wf c k s ids :
  server_wf s -> server_wf (build_records_newline c k s ids).1 /\
                 reply_wf (build_records_newline c k s ids).2.
Proof.
  intros Hs. unfold build_records_newline.
  destruct (_ =? _)%nat; [split; [done|by intros [b [=]]]|].
  destruct (negb _); [split; [done|by intros [b [=]]]|].
  pose proof (add_records_wf c (S k) (RecBuf (global_hash3 (sv_eng s)) [] 4096 0) ids) as Ha.
  destruct (add_records _ _ _ _) as [b ok]. split.
  - apply (put_wf slot_hash3 hash_inv); [done|]. apply Ha. by apply (slot_wf_get (sl := slot_hash3)), Hs.
  - cbn [snd]. destruct (negb ok); [by intros [x [=]]|]. destruct (_ =? _)%nat; [by intros [x [=]]|done].
Qed.

Lemma cmd_zrange_wf c s req : server_wf s -> out_wf (cmd_zrange c s req).
Proof.
  intros Hs. unfold cmd_zrange. apply bind_wf. intros [ids|st] _; [|by apply done_wf].
  cbv zeta. wf_guards; [by split|done].
Qed.

Lemma cmd_zrangerec_wf c s req : server_wf s -> out_wf (cmd_zrangerec c s req).
Proof.
  intros Hs. unfold cmd_zrangerec. apply bind_wf. intros [ids|st] _; [|by apply done_wf].
  pose proof (build_records_wf c 1 s ids Hs). by destruct (build_records_newline c 1 s ids).
Qed.

Lemma cmd_getidxrec_wf c s req : server_wf s -> out_wf (cmd_getidxrec c s req).
Proof.
  intros Hs. unfold cmd_getidxrec. wf_guards; [done|].
  apply (op_wf slot_hash4 hash_inv s (fun t => kvs_hash_get (call c 0) t (kd_of k)));
    [done|intros t Ht; by apply hash_get_wf|].
  intros t r Hs'. destruct (kd_bytes <$> r) as [[|b l]|]; [by apply done_wf| |by apply done_wf].
  wf_guards; [done|]. destruct (copy_ids _ _ _ _ _) as [ids|]; [|by apply done_wf].
  pose proof (build_records_wf c 2 _ ids Hs'). by destruct (build_records_newline c 2 _ ids).
Qed.

(** ** The other commands *)

Section ai.
Context `{AiOps}.

Lemma cmd_keep_wf c s req : server_wf s -> out_wf (cmd_keep c s req).
Proof.
  intros Hs. unfold cmd_keep. wf_guards; [done|].
  apply (op_wf slot_hash1 hash_inv s (fun t => kvs_hash_set (call c 0) t (kd_of k) (kd_of k0) 0));
    [done|intros t Ht; by apply hash_set_wf|].
  intros t r Hs'. wf_guards; [done|done|].
  destruct (keep_build_index _ _ _ _ _) as [x ret]. by apply done_wf, with_ai_wf.
Qed.

Lemma match_find_answer_wf c s q : server_wf s -> server_wf (match_find_answer c s q).1.
Proof.
  intros Hs. unfold match_find_answer. destruct (match_find_best_key _ _ _) as [ret [[key ?]|]];
    destruct ret; try done.
  pose proof (slot_op_wf slot_hash1 hash_inv s (fun t => (kvs_hash_get (call c 1) t (kd_of key)).1)
    Hs (fun t Ht => hash_get_wf _ t key Ht)) as Hg. cbn [sl_get slot_hash1] in Hg.
  destruct (kvs_hash_get _ _ _) as [t r]. destruct r as [d|]; [|done].
  destruct (kd_data d) as [[|b l]|]; [done| |done]. by destruct (alloc_ok _ _ _).
Qed.

Lemma cmd_match_wf c s req : server_wf s -> out_wf (cmd_match c s req).
Proof.
  intros Hs. unfold cmd_match. wf_guards; [done..|].
  pose proof (match_find_answer_wf c s (kd_bytes (kd_of k)) Hs) as Hm.
  destruct (match_find_answer _ _ _) as [s' [ret answer]]. wf_guards; [done|].
  destruct answer; wf_guards; [by split|done..].
Qed.

Lemma cmd_sys_save_wf c s req : server_wf s -> out_wf (cmd_sys_save c s req).
Proof.
  intros Hs. unfold cmd_sys_save. destruct (negb _); [by apply done_wf|]. cbv zeta.
  assert (Hs' : server_wf (if negb (sv_save_pid s =? -1) && (c_waitpid c =? sv_save_pid s)
                           then with_save (-1) (sv_child s) s else s)).
  { destruct (_ && _); [|done]. apply with_save_wf; [done|apply Hs]. }
  generalize dependent (if negb (sv_save_pid s =? -1) && (c_waitpid c =? sv_save_pid s)
                        then with_save (-1) (sv_child s) s else s). intros s' Hs'.
  wf_guards; [done..|]. apply with_save_wf; [done|]. intros x [= <-]. apply Hs'.
Qed.

Lemma cmd_sys_sync_wf c s req : server_wf s -> out_wf (cmd_sys_sync c s req).
Proof.
  intros Hs. apply done_wf, with_repl_wf; [done|]. destruct (swf_repl _ Hs) as (? & ? & ?).
  by repeat split; simpl; try lia.
Qed.

Lemma cmd_sys_sync_done_wf c s req : server_wf s -> out_wf (cmd_sys_sync_done c s req).
Proof.
  intros Hs. apply done_wf, with_rdma_ctx_wf, with_repl_wf; [done|]. apply (swf_repl _ Hs).
Qed.

(** The five commands of an engine. *)
Ltac wf_slot sl P :=
  first [apply (cmd_set_wf sl P); [by eexists|done]|by apply (cmd_get_wf sl P)
        |by apply (cmd_del_wf sl P)|by apply (cmd_mod_wf sl P)|by apply (cmd_exists_wf sl P)].

Ltac wf_handler :=
  first [wf_slot slot_array array_wf|wf_slot slot_rbtree rb_inv|wf_slot slot_hash hash_inv
        |wf_slot slot_skip sk_inv|by apply cmd_keep_wf|by apply cmd_match_wf|by apply cmd_setctx_wf
        |by apply hash_reply_wf; [apply _|]|by apply cmd_delctx_wf|by apply cmd_setrec_wf
        |by apply cmd_getidxrec_wf|by apply cmd_setidx_wf|by apply cmd_zadd_wf|by apply cmd_zrange_wf
        |by apply cmd_zrangerec_wf|by apply cmd_sys_save_wf|by apply cmd_sys_sync_wf
        |by apply cmd_sys_sync_done_wf].

(** Every handler of the table, on any request. *)
Lemma execute_wf c s cmd req :
  (forall x, cmd = Some x -> x ∈ g_cmd_table) -> server_wf s ->
  out_wf (kvs_execute_batch c s cmd req).
Proof.
  intros Hin Hs. destruct cmd as [x|]; [|by apply done_wf]. specialize (Hin x eq_refl).
  unfold g_cmd_table in Hin. cbn [kvs_execute_batch].
  repeat (apply elem_of_cons in Hin as [->|Hin]; [cbn [cmd_proc]; try wf_handler|]).
  - unfold cmd_sys_memtrim. by wf_guards.
  - inversion Hin.
Qed.

Lemma lookup_in_table name len cmd x :
  lookup_command name len = Ok cmd -> cmd = Some x -> x ∈ g_cmd_table.
Proof.
  unfold lookup_command. destruct (lookup_name _ _ _) as [[i|]|]; cbn [rbind]; [|congruence..].
  intros [= <-] Hx. by eapply list_elem_of_lookup_2.
Qed.

(** The command a request names. *)
Lemma command_in_table req cmd :
  (if 0 <? req_argc req then
     let! a := of_res (argn req 0) in of_res (lookup_command (arg_ptr a) (arg_len a))
   else Ret None) = Ret cmd ->
  forall x, cmd = Some x -> x ∈ g_cmd_table.
Proof.
  intros Hc x Hx. destruct (0 <? req_argc req); [|congruence].
  destruct (argn req 0) as [a|]; [|done]. cbn [of_res run_bind] in Hc.
  destruct (lookup_command _ _) as [c|] eqn:El; [|done]. injection Hc as ->.
  by eapply lookup_in_table.
Qed.

(** ** Requests *)

(** The outcome of a run. *)
Definition run_wf {A} (P : A -> Prop) (r : run A) : Prop :=
  match r with Ret a => P a | _ => True end.

Lemma run_bind_wf {A B} (P : A -> Prop) (Q : B -> Prop) (m : run A) (f : A -> run B) :
  run_wf P m -> (forall a, P a -> run_wf Q (f a)) -> run_wf Q (run_bind m f).
Proof. destruct m; simpl; auto. Qed.

Lemma run_bind_any {A B} (Q : B -> Prop) (m : run A) (f : A -> run B) :
  (forall a, m = Ret a -> run_wf Q (f a)) -> run_wf Q (run_bind m f).
Proof. destruct m; simpl; auto. Qed.

Lemma trigger_wf sqe a : aof_wf a -> aof_wf (aof_trigger_flush_nolock sqe a).
Proof.
  intros [Ha Hf]. unfold aof_trigger_flush_nolock. destruct (_ || _); [done|].
  by destruct (negb sqe).
Qed.

Lemma check_cqe_wf u a : aof_wf a -> aof_wf (aof_check_cqe_nonblock u a).
Proof.
  intros [Ha Hf]. unfold aof_check_cqe_nonblock. destruct (negb _); [done|].
  destruct (u_peek u); [done|]. cbv zeta. destruct (_ <=? _); [apply trigger_wf|]; by split.
Qed.

Lemma make_room_wf us len a a' :
  aof_wf a -> aof_make_room us len a = Done a' ->
  aof_wf a' /\ zlen (aof_buf_active a') + len <= AOF_BUF_SIZE.
Proof.
  revert a. induction us as [|u us IH]; intros a Ha; cbn [aof_make_room];
    destruct (Z.leb_spec (zlen (aof_buf_active a) + len) AOF_BUF_SIZE); try congruence;
    try (by intros [= <-]).
  cbv zeta. destruct (_ && _); [done|]. apply IH, trigger_wf.
  pose proof (check_cqe_wf u a Ha) as Hc. destruct (_ && _); [|done]. by destruct Hc.
Qed.

Lemma persistence_write_wf us a data a' :
  aof_wf a -> kvs_persistence_write us a data = Done a' -> aof_wf a'.
Proof.
  intros Ha. unfold kvs_persistence_write. destruct (_ || _); [by intros [= <-]|].
  destruct (_ <? _); [by intros [= <-]|].
  destruct (aof_make_room us (zlen data) a) as [a1| |] eqn:Em; [|done..]. intros [= <-].
  destruct (make_room_wf _ _ _ _ Ha Em) as [[_ Hf] Hr]. split; [|done].
  unfold zlen in *. simpl. rewrite length_app. lia.
Qed.

Lemma flush_wf u now a (f : bool) :
  aof_wf a -> aof_wf (if f then set_last_flush now (aof_trigger_flush_nolock (u_sqe u) a) else a).
Proof. intros Ha. destruct f; [|done]. exact (trigger_wf (u_sqe u) a Ha). Qed.

Lemma backlog_push_wf e i r data r' : repl_wf r -> backlog_push e i r data = Ok r' -> repl_wf r'.
Proof.
  intros (Hh & Ht & Hc). unfold backlog_push. destruct (Z.ltb_spec (g_repl_backlog_count r) REPL_BACKLOG_MAX).
  - destruct (alloc_ok _ _ _); [|done]. intros [= <-]. split; [done|].
    split; simpl; [apply Z.mod_pos_bound; done|lia].
  - by intros [= <-].
Qed.

Lemma log_write_wf t nd raw : node_wf nd -> run_wf node_wf (log_write t nd raw).
Proof.
  intros [Hs Ha]. unfold log_write. apply (run_bind_wf aof_wf).
  - destruct (aof_enabled _); [|done].
    destruct (kvs_persistence_write _ _ _) as [a| |] eqn:Ew; [|done..].
    by apply persistence_write_wf in Ew.
  - intros a Ha'. apply (run_bind_wf repl_wf).
    + destruct (backlog_wanted _ _); [|apply Hs].
      destruct (backlog_push _ _ _ _) as [r|] eqn:Ep; [|done].
      eapply backlog_push_wf; [apply Hs|done].
    + intros r Hr. split; [by apply with_repl_wf|done].
Qed.

Lemma special_repl_wf t fd s req :
  server_wf s -> run_wf (fun r => server_wf r.1) (special_repl t fd s req).
Proof.
  assert (Hf : server_wf s -> server_wf (with_repl (set_slave_fd fd (sv_repl s)) s)).
  { intros Hs. apply with_repl_wf; [done|apply (swf_repl _ Hs)]. }
  intros Hs. unfold special_repl, handle_slave_rdma_connect.
  destruct (g_enable_repl_master _); [|done]. destruct (req_is _ _).
  - destruct (_ || _); [done|]. by apply Hf.
  - destruct (_ && _); [by apply Hf|done].
Qed.

(** The send buffer, if there is one, is not longer than its capacity. *)
Definition send_wf (w : option wbuf) : Prop :=
  match w with Some w => wb_len w <= wb_cap w | None => True end.

Lemma pack_wf e w r : send_wf w -> run_wf send_wf (of_res (pack_to e w r)).
Proof.
  intros Hw. destruct w as [w|]; [|done]. cbn [pack_to].
  destruct (resp_pack_with_realloc e 0 w r) as [w'|] eqn:E; [|done].
  by apply resp_pack_with_realloc_fits in E as [? _].
Qed.

(** What a call of the protocol layer keeps. *)
Definition served_wf (r : node * option wbuf) : Prop := node_wf r.1 /\ send_wf r.2.

Lemma process_request_wf t fd nd w raw req :
  node_wf nd -> send_wf w -> run_wf served_wf (process_request t fd nd w raw req).
Proof.
  intros [Hs Ha] Hw. unfold process_request.
  eapply run_bind_wf; [by apply special_repl_wf|]. intros [s special] Hs1. cbn [fst] in Hs1.
  apply (run_bind_wf send_wf).
  { destruct (req_is _ _); [|done]. apply run_bind_any. intros p _. by apply pack_wf. }
  intros w1 Hw1. destruct (special || _); [by split|].
  apply run_bind_any. intros cmd Hc. apply (run_bind_wf node_wf).
  { destruct (_ && _); [by apply log_write_wf|done]. }
  intros nd1 [Hs2 Ha2]. apply run_bind_any. intros [s3 reply] Hx.
  destruct (kvs_execute_batch _ _ _ _) as [x|] eqn:Ex; [|done]. injection Hx as ->.
  pose proof (execute_wf (tn_cmd t) (nd_sv nd1) cmd req) as He. rewrite Ex in He.
  destruct He as [He _]; [by eapply command_in_table|done|].
  eapply run_bind_wf; [by apply pack_wf|]. intros w2 Hw2. by split.
Qed.

Lemma stream_loop_wf fuel ts n fd buf processed nd w :
  node_wf nd -> send_wf w ->
  run_wf (fun r => served_wf (r.1.2, r.2)) (stream_loop fuel ts n fd buf processed nd w).
Proof.
  revert n processed nd w. induction fuel as [|fuel IH]; intros n processed nd w Hn Hw; [done|].
  cbn [stream_loop]. destruct (_ <? _); [|done]. apply run_bind_any. intros [len|] _; [|done].
  apply run_bind_any. intros req _. eapply run_bind_wf; [by apply process_request_wf|].
  intros [nd1 w1] [Hn1 Hw1]. by apply IH.
Qed.

Lemma process_stream_wf fuel ts fd buf nd w :
  node_wf nd -> send_wf w ->
  run_wf (fun r => served_wf (r.1.2, r.2)) (protocol_process_stream fuel ts fd buf nd w).
Proof.
  intros Hn Hw. unfold protocol_process_stream. destruct buf as [|b buf]; [done|].
  destruct (negb _); [done|]. eapply run_bind_wf; [by apply stream_loop_wf|].
  by intros [[p nd1] w1].
Qed.

(** ** Connections *)

(** Neither buffer is longer than its capacity. *)
Definition conn_wf (c : conn) : Prop :=
  rlength c <= cn_rcapacity c /\ wb_len (cn_w c) <= wb_cap (cn_w c).

Definition client_wf (cl : client) : Prop := node_wf (cl_node cl) /\ conn_wf (cl_conn cl).

Definition client_state_wf (s : client_state) : Prop :=
  match s with Running cl => client_wf cl | Closed nd _ => node_wf nd end.

Lemma parse_loop_wf fuel calls turns k fd buf total nd w :
  node_wf nd -> send_wf w ->
  run_wf (fun r => served_wf (r.1.1.2, r.1.2)) (parse_loop fuel calls turns k fd buf total nd w).
Proof.
  revert k total nd w. induction calls as [|calls IH]; intros k total nd w Hn Hw; [done|].
  cbn [parse_loop]. destruct (total <? 0); [done|]. destruct (total <? _); [|done].
  eapply run_bind_wf; [by apply process_stream_wf|]. intros [[[st p] nd1] w1] [Hn1 Hw1].
  destruct (_ || _); [done|]. destruct (st <? 0); [done|]. by apply IH.
Qed.

Lemma client_serve_wf fuel it c nd rest sent :
  node_wf nd -> conn_wf c -> run_wf client_state_wf (client_serve fuel it c nd rest sent).
Proof.
  intros Hn [Hc Hw]. unfold client_serve.
  eapply run_bind_wf; [apply parse_loop_wf; [done|by destruct (cn_role c)]|].
  intros [[[total nd1] w] close] [Hn1 Hw1]. cbn [fst snd] in *. destruct close; [done|].
  rewrite send_replies_take. split; [done|]. unfold conn_wf, rlength in *.
  cbn [cl_conn cn_rbuffer cn_rcapacity cn_w wb_cap]. split.
  - destruct (0 <? total); [rewrite length_drop; lia|done].
  - assert (Hd : wb_len (default (cn_w c) w) <= wb_cap (default (cn_w c) w)) by (by destruct w).
    unfold wb_len in *. simpl. lia.
Qed.

Lemma grow_rbuffer_wf e c c' :
  rlength c <= cn_rcapacity c -> grow_rbuffer e c = Some c' ->
  cn_w c' = cn_w c /\ rlength c' <= cn_rcapacity c'.
Proof.
  unfold grow_rbuffer, rlength. intros Hc. destruct (_ && _); [|by intros [= <-]].
  destruct (alloc_ok _ _ _); [|done]. intros [= <-]. split; [done|]. simpl.
  destruct (Z.ltb_spec (cn_rcapacity c * 2) 65536); lia.
Qed.

Lemma client_turn_wf fuel it cl : client_wf cl -> run_wf client_state_wf (client_turn fuel it cl).
Proof.
  destruct cl as [c nd input sent]. intros [Hn [Hc Hw]]. unfold client_turn. cbn [cl_conn cl_node] in *.
  destruct (_ <=? rlength c); [by split|].
  destruct (grow_rbuffer (it_env it) c) as [c1|] eqn:Eg; [|done].
  destruct (grow_rbuffer_wf _ _ _ Hc Eg) as [Hw1 Hc1]. rewrite <- Hw1 in Hw.
  assert (Hl : forall g, client_state_wf (client_leave it g nd sent)).
  { intros g. destruct Hn as [Hs Ha]. split; [done|]. cbn [nd_aof].
    destruct (aof_enabled g); [|done]. unfold kvs_persistence_force_flush.
    destruct (negb _); [done|]. by apply flush_wf, check_cqe_wf. }
  destruct (it_recv it) as [n| |]; [|by split|by apply Hl]. destruct input as [|b input]; [by split|].
  cbv zeta. destruct (_ =? 0)%nat; [by apply Hl|]. apply client_serve_wf; [done|].
  unfold conn_wf, rlength in *. cbn [cn_rbuffer cn_rcapacity cn_w]. split; [|done].
  rewrite length_app, length_take. lia.
Qed.

Lemma client_run_wf fuel its cl : client_wf cl -> run_wf client_state_wf (client_run fuel its cl).
Proof.
  revert cl. induction its as [|it its IH]; intros cl Hc; [done|]. cbn [client_run].
  eapply run_bind_wf; [by apply client_turn_wf|]. intros [cl1|nd sent] H1; [by apply IH|done].
Qed.

(** ** Deletions *)

Lemma slot_del_wf {T} `{KvEngine T} (sl : slot T) P `{!SlotWf sl P} e s k h x :
  store_wf s ->
  store_wf (let '(t, r) := eng_del_if_expired e (sl_get sl s) (KvData (Some k) h) x in
            (sl_put sl t s, r)).1.
Proof.
  intros Hs. rewrite (surjective_pairing (eng_del_if_expired _ _ _ _)). cbn [fst].
  apply (slot_wf_put (P := P)); [done|]. apply ewf_del_if_expired. by apply slot_wf_get.
Qed.

Lemma process_delete_wf t nd item : node_wf nd -> run_wf node_wf (process_delete t nd item).
Proof.
  intros [Hs Ha]. unfold process_delete.
  destruct (engine_del_if_expired _ _ _ _ _) as [en deleted] eqn:E.
  assert (Hen : store_wf en).
  { change en with (en, deleted).1. rewrite <- E. unfold engine_del_if_expired.
    destruct Hs as [Hst _ _ _]. repeat (destruct (_ =? _); [by eapply slot_del_wf; [apply _|]|]). done. }
  assert (Hn : node_wf (Node (with_eng en (nd_sv nd)) (nd_aof nd))) by (split; [by apply with_eng_wf|done]).
  destruct (deleted =? 0); [done|]. unfold protocol_handle_internal_del.
  destruct (alloc_ok _ _ _); [by apply log_write_wf|done].
Qed.

Lemma process_deletes_wf cnt ts n q nd :
  queue_wf q -> node_wf nd ->
  run_wf (fun r => queue_wf r.1 /\ node_wf r.2) (process_deletes cnt ts n q nd).
Proof.
  revert n q nd. induction cnt as [|cnt IH]; intros n q nd Hq Hn; [done|]. cbn [process_deletes].
  destruct (queue_pop_wf q Hq) as [Hq1 _]. destruct (queue_pop q) as [q1 [item|]]; [|done].
  eapply run_bind_wf; [by apply process_delete_wf|]. intros nd1 Hn1. by apply IH.
Qed.

(** ** The expiry thread *)

Definition item_wf (item : expire_item) : Prop := is_Some (timer_db (ei_type item)).
Abbreviation heap_wf h := (Forall item_wf (hp_data h)).

Lemma heap_push_wf ok h item h' :
  heap_wf h -> item_wf item -> heap_push ok h item = Ok h' -> heap_wf h'.
Proof.
  intros Hh Hi. unfold heap_push. destruct (_ && _); [done|]. intros [= <-]. cbn [hp_data].
  rewrite heap_up_perm. apply Forall_app. split; [done|]. by constructor.
Qed.

Lemma heap_pop_wf h :
  heap_wf h -> heap_wf (heap_pop h).1 /\ forall item, (heap_pop h).2 = Some item -> item_wf item.
Proof.
  intros Hh. unfold heap_pop. destruct (hp_data h) as [|x l] eqn:E; [by split; [cbn; rewrite E|]|].
  cbn [fst snd hp_data]. split; [|intros item [= <-]; by apply Forall_cons in Hh as [? _]].
  rewrite heap_down_perm. apply Forall_take, Forall_insert; [done|].
  destruct ((x :: l) !! _) as [y|] eqn:Ey; [|by apply Forall_cons in Hh as [? _]].
  by eapply Forall_lookup_1 in Ey.
Qed.

Lemma drain_wf fuel ok q h q' h' :
  queue_wf q -> heap_wf h -> drain_commands fuel ok q h = Ok (q', h') -> queue_wf q' /\ heap_wf h'.
Proof.
  revert q h. induction fuel as [|fuel IH]; intros q h Hq Hh; cbn [drain_commands];
    [by intros [= <- <-]|].
  destruct (queue_pop_wf q Hq) as [Hq1 Hi]. destruct (queue_pop q) as [q1 [item|]];
    [|by intros [= <- <-]].
  destruct (heap_push ok h item) as [h1|] eqn:Ep; [|done]. cbn [rbind].
  apply IH; [done|]. by eapply heap_push_wf; [|apply Hi|].
Qed.

Lemma deliver_wf fuel now h dq :
  heap_wf h -> queue_wf dq ->
  let '(h', dq', held) := deliver_due fuel now h dq in
  heap_wf h' /\ queue_wf dq' /\ forall item, held = Some item -> item_wf item.
Proof.
  revert h dq. induction fuel as [|fuel IH]; intros h dq Hh Hq; [done|]. cbn [deliver_due].
  destruct (hp_data h) as [|x l] eqn:E; [by rewrite E|]. destruct (_ <=? _); [|by rewrite E].
  destruct (heap_pop_wf h) as [Hh1 Hi]; [by rewrite E|].
  destruct (heap_pop h) as [h1 [item|]]; [|by split].
  pose proof (queue_push_wf dq item Hq (Hi _ eq_refl)) as Hq1.
  destruct (queue_push dq item) as [dq1 [|p|p]]; [by apply IH|..];
    (split; [done|]; split; [done|]; intros ? [= <-]; by apply Hi).
Qed.

(** ** The system *)

Definition conns_wf (conns : gmap Z conn) : Prop :=
  forall fd c, conns !! fd = Some c -> conn_wf c.

Record system_wf (s : system) : Prop := {
  sys_node : node_wf (sy_node s);
  sys_heap : heap_wf (sy_heap s);
  sys_delq : queue_wf (sy_delq s);
  sys_held : forall now item, sy_thread s = ThreadPush now item -> item_wf item;
  sys_conns : conns_wf (sy_conns s)
}.

Lemma conns_insert_wf conns fd c :
  conns_wf conns -> conn_wf c -> conns_wf (<[fd := c]> conns).
Proof. intros Hc Hl fd' c'. rewrite lookup_insert_Some. intros [[_ <-]|[_ Hx]]; eauto. Qed.

Lemma conns_close_wf conns fd : conns_wf conns -> conns_wf (ntyco_close_and_free_connection fd conns).
Proof.
  intros Hc. unfold ntyco_close_and_free_connection. destruct (_ || _); [done|].
  by apply conns_insert_wf.
Qed.

Lemma conns_accept_wf fd ok conns : conns_wf conns -> conns_wf (accept_client fd ok conns).1.
Proof.
  intros Hc. unfold accept_client. destruct (fd <? 0); [done|]. destruct (_ <=? fd); [done|].
  assert (Hi : conns_wf (<[fd := Conn fd CONN_CLIENT
      (cn_rbuffer (default (Conn 0 CONN_CLIENT [] 0 (WBuf [] 0)) (conns !! fd)))
      (cn_rcapacity (default (Conn 0 CONN_CLIENT [] 0 (WBuf [] 0)) (conns !! fd)))
      (cn_w (default (Conn 0 CONN_CLIENT [] 0 (WBuf [] 0)) (conns !! fd)))]> conns)).
  { apply conns_insert_wf; [done|]. destruct (conns !! fd) as [c|] eqn:E; [|done]. exact (Hc fd c E). }
  by destruct ok.
Qed.

Lemma conns_host_wf e fd w conns :
  wb_len w <= wb_cap w -> conns_wf conns -> conns_wf (ntyco_host_slave_connection e fd w conns).1.
Proof.
  intros Hw Hc. unfold ntyco_host_slave_connection. destruct (_ || _); [done|].
  destruct (alloc_ok e 0 65536); [by apply conns_insert_wf|]. apply conns_insert_wf; [done|].
  destruct (conns !! fd) as [c|] eqn:E; [|done]. destruct (Hc fd c E). split; [|done]. unfold rlength in *. simpl. lia.
Qed.

Lemma with_node_wf s nd : system_wf s -> node_wf nd -> system_wf (with_node nd s).
Proof. by intros []. Qed.

Lemma with_conns_wf s conns new live :
  system_wf s -> conns_wf conns -> system_wf (with_conns conns new live s).
Proof. by intros []. Qed.

Lemma close_conn_wf fd nd s : system_wf s -> node_wf nd -> system_wf (close_conn fd nd s).
Proof. intros Hs Hn. apply with_node_wf, Hn. apply with_conns_wf; [done|]. apply conns_close_wf, Hs. Qed.

Lemma thread_turn_wf ok now s s' : system_wf s -> thread_turn ok now s = Ok s' -> system_wf s'.
Proof.
  intros Hw. pose proof Hw as [[Hs Ha] Hh Hq Ht Hc]. unfold thread_turn. destruct (sy_thread s) as [|t item].
  - unfold expire_turn. destruct (drain_commands _ _ _ _) as [[q h]|] eqn:Ed; [|done]. cbn [rbind].
    destruct (drain_wf _ _ _ _ _ _ (swf_queue _ Hs) Hh Ed) as [Hq1 Hh1].
    pose proof (deliver_wf (length (hp_data h)) now h (sy_delq s) Hh1 Hq) as Hd.
    destruct (deliver_due _ _ _ _) as [[h1 dq] held]. destruct Hd as (Hh2 & Hq2 & Hi).
    cbn [rbind]. intros [= <-]. split; simpl; try done; [split; [by apply with_cmdq_wf|done]|].
    destruct held; [|done]. intros t i [= _ <-]. by apply Hi.
  - pose proof (queue_push_wf (sy_delq s) item Hq (Ht t item eq_refl)) as Hq1.
    destruct (queue_push (sy_delq s) item) as [dq [|p|p]]; [|by intros [= <-]..].
    pose proof (deliver_wf (length (hp_data (sy_heap s))) t (sy_heap s) dq Hh Hq1) as Hd.
    destruct (deliver_due _ _ _ _) as [[h1 dq1] held]. destruct Hd as (Hh2 & Hq2 & Hi).
    intros [= <-]. split; simpl; try done; [split; [by apply with_cmdq_wf, Hs|done]|].
    destruct held; [|done]. intros t' i [= _ <-]. by apply Hi.
Qed.

(** ** Starting *)

Lemma queue_zero_wf : queue_wf queue_zero.
Proof. split; [done|]. split; [done|]. intros i item Hi. cbn in Hi. by rewrite lookup_empty in Hi. Qed.

Lemma recover_loop_wf fuel ts n buf processed s :
  server_wf s -> run_wf (fun r => server_wf r.2) (recover_loop fuel ts n buf processed s).
Proof.
  revert n processed s. induction fuel as [|fuel IH]; intros n processed s Hs; [done|].
  cbn [recover_loop]. destruct (_ <? _); [|done]. apply run_bind_any. intros [len|] _; [|done].
  apply run_bind_any. intros req _. apply (run_bind_wf server_wf); [|intros; by apply IH].
  unfold recover_request. destruct (_ || _); [done|]. apply run_bind_any. intros cmd Hc.
  apply run_bind_any. intros [s1 reply] Hx.
  destruct (kvs_execute_batch _ _ _ _) as [x|] eqn:Ex; [|done]. injection Hx as ->.
  pose proof (execute_wf (tn_cmd (ts n)) s cmd req) as Hw. rewrite Ex in Hw.
  destruct Hw as [Hw _]; [by eapply command_in_table|done|done].
Qed.

Lemma persistence_recover_wf fuel b log nd :
  node_wf nd -> run_wf node_wf (kvs_persistence_recover fuel b log nd).
Proof.
  intros [Hs Ha]. unfold kvs_persistence_recover. destruct (_ || _); [done|].
  apply (run_bind_wf (fun r => server_wf r.2)); [|by intros [n s] Hr].
  unfold protocol_process_recover. destruct (_ <=? 0); [done|]. by apply recover_loop_wf.
Qed.

Lemma load_set_wf e s type k v x : store_wf s -> store_wf (load_set e s type k v x).
Proof.
  intros Hs. unfold load_set, slot_set.
  repeat (destruct (_ =? _);
    [first [refine (slot_wf_put (P := array_wf) _ _ Hs _)|refine (slot_wf_put (P := rb_inv) _ _ Hs _)
           |refine (slot_wf_put (P := hash_inv) _ _ Hs _)|refine (slot_wf_put (P := sk_inv) _ _ Hs _)];
     apply ewf_set; by apply slot_wf_get|]). done.
Qed.

Lemma load_loop_wf fuel c n now l s : store_wf s -> store_wf (load_loop fuel c n now l s).
Proof.
  revert n l s. induction fuel as [|fuel IH]; intros n l s Hs; [done|]. cbn [load_loop].
  destruct (snap_parse l) as [[[[[type x] k] v] l1]|]; [|done].
  destruct (_ && _); apply IH; [done|by apply load_set_wf].
Qed.

Lemma snapshot_load_wf c file ok s : store_wf s -> store_wf (kvs_snapshot_load c file ok s).1.
Proof.
  intros Hs. unfold kvs_snapshot_load. destruct file as [f|]; [|done]. destruct (_ || _); [done|].
  cbv zeta. destruct (negb _); [done|]. by apply load_loop_wf.
Qed.

Lemma init_wf fuel b nd r :
  cmd_mem_ok (bt_cmd b) -> init_kvengine fuel b = Ret (nd, r) -> node_wf nd.
Proof.
  intros Hm. unfold init_kvengine. destruct (init_engines_ok _ (bt_seed b) Hm) as (en & -> & Hi & _).
  cbn [of_res run_bind].
  assert (Hen : store_wf (if g_enable_snapshot (c_glob (bt_cmd b))
      then (kvs_snapshot_load (bt_cmd b) (bt_snapshot b) (bt_map_ok b) en).1 else en)).
  { destruct (g_enable_snapshot _); [apply snapshot_load_wf|]; by apply store_inv_wf. }
  generalize dependent (if g_enable_snapshot (c_glob (bt_cmd b))
      then (kvs_snapshot_load (bt_cmd b) (bt_snapshot b) (bt_map_ok b) en).1 else en). intros en' Hen.
  assert (Hs : server_wf (new_server en')) by (split; [done|done|apply queue_zero_wf|by repeat split]).
  assert (Hl : run_wf node_wf (if aof_enabled (c_glob (bt_cmd b)) then init_log fuel b (new_server en')
                               else Ret (Node (new_server en') aof_closed))).
  { destruct (aof_enabled _); [|by repeat split; try apply Hs]. unfold init_log.
    destruct (bt_log b) as [log|]; [|by repeat split; try apply Hs].
    unfold kvs_persistence_init. destruct (_ && _); [|done]. cbn [fst].
    apply persistence_recover_wf. by repeat split; try apply Hs. }
  destruct (if aof_enabled _ then _ else _) as [nd1| | | |]; try done. destruct Hl as [Hs1 Ha1].
  cbn [run_bind]. destruct (_ && _); [by intros [= <- _]|]. destruct (_ && _); [by intros [= <- _]|].
  intros [= <- _]. split; [|done]. apply with_ai_wf. by destruct (_ && _); [apply with_rdma_ctx_wf|].
Qed.

(** ** Every step *)

Lemma tcp_slave_wf fuel b e fd input nd :
  node_wf nd -> run_wf client_state_wf (slave_init_tcp fuel b e fd input nd).
Proof.
  intros Hn. unfold slave_init_tcp. destruct (tcp_sendfile_recv_thread e input) as [r|]; [|done].
  apply (run_bind_wf node_wf).
  - destruct (rc_replay r); [by apply persistence_recover_wf|done].
  - by intros nd1 Hn1; split.
Qed.

Lemma backlog_send_wf r x : 0 < g_repl_backlog_count r -> repl_wf r -> repl_wf (backlog_send r x).1.1.
Proof.
  intros Hp (Hh & Ht & Hc). unfold backlog_send. destruct x as [n| |]; [|done..].
  destruct (_ =? _); [|done]. split; [apply Z.mod_pos_bound; done|]. split; simpl; [done|lia].
Qed.

Lemma backlog_send_loop_wf max sends r : repl_wf r -> repl_wf (backlog_send_loop r max sends).1.
Proof.
  revert max r. induction sends as [|x sends IH]; intros [|max] r Hr; try done.
  cbn [backlog_send_loop]. destruct (Z.ltb_spec 0 (g_repl_backlog_count r)) as [Hp|]; [|done].
  pose proof (backlog_send_wf r x Hp Hr) as Hb. destruct (backlog_send r x) as [[r1 out] []]; [|done].
  specialize (IH max r1 Hb). by destruct (backlog_send_loop r1 max sends).
Qed.

Lemma client_step_wf fuel it fd input s :
  system_wf s -> run_wf system_wf (client_step fuel it fd input s).
Proof.
  intros Hs. unfold client_step. destruct (sy_conns s !! fd) as [c|] eqn:Ec; [|done].
  apply (run_bind_wf client_state_wf).
  - apply client_turn_wf. split; [apply Hs|]. exact (sys_conns _ Hs fd c Ec).
  - intros [cl|nd sent] Hcl; [|by apply close_conn_wf]. destruct Hcl as [Hn Hl].
    apply with_node_wf, Hn. apply with_conns_wf; [done|]. apply conns_insert_wf; [apply Hs|exact Hl].
Qed.

Lemma client_start_wf e fd s : system_wf s -> system_wf (client_start e fd s).
Proof.
  intros Hs. unfold client_start, client_init. destruct (sy_conns s !! fd) as [c|]; [|done].
  destruct (_ && _).
  - apply with_conns_wf; [done|]. by apply conns_insert_wf; [apply Hs|].
  - apply close_conn_wf; [|apply Hs]. by apply with_conns_wf, Hs.
Qed.

Lemma system_step_wf fuel s s' : system_wf s -> system_step fuel s s' -> system_wf s'.
Proof.
  intros Hs Hst. destruct Hst as [fd ok conns o s Ha|e fd s _|it fd input s s' _ Ht|ts q nd s He
    |g u now s|sends r out s Hm|b e fd input cl s Hi|e fd w conns started s Hw Hh|ok now s s' Ht].
  - apply with_conns_wf; [done|]. change conns with (conns, o).1. rewrite <- Ha.
    apply conns_accept_wf, Hs.
  - by apply client_start_wf.
  - pose proof (client_step_wf fuel it fd input s Hs) as Hw. by rewrite Ht in Hw.
  - pose proof (process_deletes_wf 500 ts 0 (sy_delq s) (sy_node s) (sys_delq _ Hs) (sys_node _ Hs)) as Hw.
    unfold expire_co_turn, expire_process_deletes in He. rewrite He in Hw. destruct Hw as [Hq Hn].
    by destruct Hs.
  - apply with_node_wf; [done|]. destruct (sys_node _ Hs) as [Hv Ha].
    unfold persistence_co_turn. destruct (aof_enabled g); [|done]. split; [done|]. cbn [nd_aof].
    unfold kvs_persistence_flush_pending. destruct (negb _); [done|]. by apply flush_wf, check_cqe_wf.
  - destruct (sys_node _ Hs) as [Hv Ha]. unfold backlog_sent. apply with_node_wf.
    + apply with_conns_wf; [done|]. destruct (_ =? _); [apply Hs|apply conns_close_wf, Hs].
    + split; [|done]. apply with_repl_wf; [done|]. change r with (r, out).1. rewrite <- Hm.
      unfold master_repl_send. destruct (_ && _); [apply backlog_send_loop_wf|]; apply Hv.
  - pose proof (tcp_slave_wf fuel b e fd input (sy_node s) (sys_node _ Hs)) as Hw.
    rewrite Hi in Hw. destruct Hw as [Hn Hl]. apply with_node_wf, Hn.
    apply with_conns_wf; [done|]. by apply conns_insert_wf; [apply Hs|].
  - apply with_conns_wf; [done|]. change conns with (conns, started).1. rewrite <- Hh.
    apply conns_host_wf; [done|apply Hs].
  - by eapply thread_turn_wf.
Qed.

End ai.

(** ** An example *)

(** A connection was accepted and its coroutine has started. *)
Definition connected_system (nd : node) : system :=
  client_start (env_at 0) 5
    (with_conns (accept_client 5 true ∅).1 (∅ ∪ {[5]}) ∅ (system_start nd)).

(** A SET of the empty key, which leaves a dead slot in the array, a SET with
    an expiry time and bytes that are no request. *)
Definition odd_input : bytes :=
  resp_encode [str "SET"; []; str "v"] ++
  resp_encode [str "RSET"; str "k"; str "v"; str "PX"; str "10"] ++ str "+junk".

Definition served_odd (nd : node) : run system :=
  @client_step sample_ai 9 (sample_iter 4096) 5 odd_input (connected_system nd).

(** The log it starts from is cut in the middle of a command. *)
Lemma odd_input_served :
  exists nd s, @init_kvengine sample_ai 9 (sample_boot (take 30 keep_log)) = Ret (nd, 0) /\
    served_odd nd = Ret s.
Proof.
  assert (Hb : match @init_kvengine sample_ai 9 (sample_boot (take 30 keep_log)) with
               | Ret (nd, r) => (r =? 0) && match served_odd nd with Ret _ => true | _ => false end
               | _ => false
               end = true) by (vm_compute; reflexivity).
  destruct (init_kvengine _ _) as [[nd r]| | | |]; try discriminate.
  apply andb_true_iff in Hb as [Hr Hb]. apply Z.eqb_eq in Hr. subst r.
  exists nd. destruct (served_odd nd) as [s| | | |]; try discriminate. by exists s.
Qed.

