(* ===== verification/Relay.v ===== *)
(** * The relay of the replication stream (ebpf_relay.c)

    The relay gets the payloads of the packets the master receives, puts them
    back in order by their TCP sequence numbers and forwards the stream to the
    slave through a ring buffer that grows.  A payload that is ahead of the
    stream waits in a pool of 128 entries; when the pool is full everything in
    it is dropped and the stream starts again with the next packet.

    The ring is a block of [rb_size] bytes, and every copy into it, out of it
    or between two of them is undefined outside its block; an entry of the pool
    that is not in use is [None].  What [malloc] gives and what [send] answers are arguments, and
    [rl_sent] are the bytes [send] took. *)

From S2P Require Import Prelude Memory.

Open Scope Z_scope.
Open Scope kvs_scope.

(** ** Constants and state *)

Definition MAX_PAYLOAD_SIZE : Z := 1024.
Definition RING_SIZE : Z := 64 * 1024 * 1024.
Definition OOO_MAX : nat := 128.

(** [SEQ_GT]: the distance of two sequence numbers as a signed number. *)
Definition SEQ_GT (a b : Z) : bool := 0 <? i32 (u32 (a - b)).

Record event_t := Event {
  ev_seq : Z;
  ev_payload : bytes
}.

#[export] Instance event_eq_dec : EqDecision event_t.
Proof. solve_decision. Defined.

Record ooo_node := OooNode {
  oo_seq : Z;
  oo_data : bytes
}.

Record ring_buf := RingBuf {
  rb_buf : Z -> byte;
  rb_size : Z;
  rb_head : Z;
  rb_tail : Z;
  rb_bytes : Z
}.

Record relay := Relay {
  rl_rb : ring_buf;
  rl_pool : list (option ooo_node);
  rl_expected : Z;
  rl_seq_initialized : bool;
  rl_running : bool;
  rl_sent : bytes
}.

Definition empty_pool : list (option ooo_node) := replicate OOO_MAX None.

(** ** The ring buffer *)

(** What [malloc] gives: memory with any content, or nothing. *)
Definition allocator : Type := Z -> option (Z -> byte).

Definition rb_init (al : allocator) (size : Z) : option ring_buf :=
  buf ← al size; Some (RingBuf buf size 0 0 0).

(** The loop that copies the content to the new buffer. *)
Fixpoint copy_content (fuel : nat) (old : Z -> byte) (size h remaining : Z) (new : Z -> byte)
  (new_size pos : Z) : res (Z -> byte) :=
  match fuel with
  | O => UB
  | S fuel =>
    if 0 <? remaining then
      let chunk := size - h in
      let chunk := if remaining <? chunk then remaining else chunk in
      let* piece := load_block size old h chunk in
      let* new := store_block new_size new pos piece in
      copy_content fuel old size ((h + chunk) mod size) (remaining - chunk) new new_size (pos + chunk)
    else Ok new
  end.

(** The enlargement of [rb_write]; the content takes at most two pieces. *)
Definition rb_grow (al : allocator) (rb : ring_buf) (need : Z) : res (option ring_buf) :=
  let new_size := double_cap 64 (u64 (rb_size rb * 2)) need in
  match al new_size with
  | None => Ok None
  | Some new_buf =>
    let* buf := copy_content 3 (rb_buf rb) (rb_size rb) (rb_head rb) (rb_bytes rb) new_buf
                  new_size 0 in
    Ok (Some (RingBuf buf new_size 0 (rb_bytes rb) (rb_bytes rb)))
  end.

Definition rb_put (rb : ring_buf) (data : bytes) : res ring_buf :=
  let len := Z.of_nat (length data) in
  let space_to_end := rb_size rb - rb_tail rb in
  if len <=? space_to_end then
    let* buf := store_block (rb_size rb) (rb_buf rb) (rb_tail rb) data in
    let tail := rb_tail rb + len in
    Ok (RingBuf buf (rb_size rb) (rb_head rb) (if tail =? rb_size rb then 0 else tail)
          (rb_bytes rb + len))
  else
    let first := take (Z.to_nat space_to_end) data in
    let rest := drop (Z.to_nat space_to_end) data in
    let* buf := store_block (rb_size rb) (rb_buf rb) (rb_tail rb) first in
    let* buf := store_block (rb_size rb) buf 0 rest in
    Ok (RingBuf buf (rb_size rb) (rb_head rb) (len - space_to_end) (rb_bytes rb + len)).

Definition rb_write (al : allocator) (rb : ring_buf) (data : bytes) : res (ring_buf * Z) :=
  let need := u64 (rb_bytes rb + Z.of_nat (length data)) in
  if rb_size rb <? need then
    let* r := rb_grow al rb need in
    match r with
    | None => Ok (rb, -1)
    | Some rb => let* rb := rb_put rb data in Ok (rb, 0)
    end
  else let* rb := rb_put rb data in Ok (rb, 0).

(** What [send] answers: a number of bytes, EAGAIN, or a failure. *)
Inductive send_answer := SendBytes (n : Z) | SendAgain | SendFails.

(** [rb_send]: the state and the result.  [send] is handed the bytes up to the
    end of the content or of the buffer and takes a part of them. *)
Definition rb_send (r : relay) (s : send_answer) : res (relay * Z) :=
  let rb := rl_rb r in
  if rb_bytes rb =? 0 then Ok (r, 0)
  else if rb_head rb =? rb_tail rb then Ok (r, 0)
  else
    let avail := if rb_head rb <? rb_tail rb then rb_tail rb - rb_head rb
                 else rb_size rb - rb_head rb in
    let avail := if rb_bytes rb <? avail then rb_bytes rb else avail in
    let* out := load_block (rb_size rb) (rb_buf rb) (rb_head rb) avail in
    let stop := Relay rb (rl_pool r) (rl_expected r) (rl_seq_initialized r) false (rl_sent r) in
    match s with
    | SendBytes n =>
      if 0 <? n then
        let sent := if avail <? n then avail else n in
        let head := rb_head rb + sent in
        Ok (Relay (RingBuf (rb_buf rb) (rb_size rb) (if head =? rb_size rb then 0 else head)
                     (rb_tail rb) (rb_bytes rb - sent))
              (rl_pool r) (rl_expected r) (rl_seq_initialized r) (rl_running r)
              (rl_sent r ++ take (Z.to_nat sent) out), sent)
      else Ok (stop, -1)
    | SendAgain => Ok (r, 0)
    | SendFails => Ok (stop, -1)
    end.

(** [flush_all]: at most 64 rounds, one answer each. *)
Fixpoint flush_rounds (rounds : nat) (answers : list send_answer) (r : relay) : res relay :=
  match rounds, answers with
  | S rounds, s :: answers =>
    if (0 <? rb_bytes (rl_rb r)) && rl_running r then
      let* w := rb_send r s in
      let '(r, ret) := w in
      if ret <=? 0 then Ok r else flush_rounds rounds answers r
    else Ok r
  | _, _ => Ok r
  end.

Definition flush_all (answers : list send_answer) (r : relay) : res relay :=
  flush_rounds 64 answers r.

(** ** Packets out of order *)

Definition ooo_find_seq (pool : list (option ooo_node)) (seq : Z) : option nat :=
  fst <$> list_find (fun o => oo_seq <$> o = Some seq) pool.

Definition ooo_find_free (pool : list (option ooo_node)) : option nat :=
  fst <$> list_find (fun o => o = None) pool.

Definition with_pool (pool : list (option ooo_node)) (r : relay) : relay :=
  Relay (rl_rb r) pool (rl_expected r) (rl_seq_initialized r) (rl_running r) (rl_sent r).

(** [ooo_insert]; an entry has room for [MAX_PAYLOAD_SIZE] bytes. *)
Definition ooo_insert (r : relay) (seq : Z) (data : bytes) : res relay :=
  match ooo_find_seq (rl_pool r) seq with
  | Some _ => Ok r
  | None =>
    match ooo_find_free (rl_pool r) with
    | None => Ok (Relay (rl_rb r) empty_pool (rl_expected r) false (rl_running r) (rl_sent r))
    | Some idx =>
      if in_block MAX_PAYLOAD_SIZE 0 (Z.of_nat (length data))
      then Ok (with_pool (<[idx := Some (OooNode seq data)]> (rl_pool r)) r)
      else UB
    end
  end.

(** Appending to the ring and advancing the expected number; the result of
    [rb_write] is not tested. *)
Definition forward (al : allocator) (r : relay) (data : bytes) : res relay :=
  let* w := rb_write al (rl_rb r) data in
  Ok (Relay w.1 (rl_pool r) (u32 (rl_expected r + Z.of_nat (length data)))
        (rl_seq_initialized r) (rl_running r) (rl_sent r)).

(** [ooo_flush]: each turn but the last one takes an entry out of the pool. *)
Fixpoint ooo_flush (fuel : nat) (al : allocator) (r : relay) : res relay :=
  match fuel with
  | O => UB
  | S fuel =>
    match ooo_find_seq (rl_pool r) (rl_expected r) with
    | None => Ok r
    | Some i =>
      match rl_pool r !! i with
      | Some (Some n) =>
        let* r := forward al r (oo_data n) in
        ooo_flush fuel al (with_pool (<[i := None]> (rl_pool r)) r)
      | _ => UB
      end
    end
  end.

Definition process_tcp_payload (al : allocator) (r : relay) (seq : Z) (data : bytes) : res relay :=
  let r := if rl_seq_initialized r then r
           else Relay (rl_rb r) (rl_pool r) seq true (rl_running r) (rl_sent r) in
  let len := Z.of_nat (length data) in
  if seq =? rl_expected r then
    let* r := forward al r data in ooo_flush (S OOO_MAX) al r
  else if SEQ_GT seq (rl_expected r) then ooo_insert r seq data
  else
    let e := u32 (seq + len) in
    if SEQ_GT e (rl_expected r) then
      let offset := u32 (rl_expected r - seq) in
      let new_len := u32 (e - rl_expected r) in
      if in_block len offset new_len then
        let* r := forward al r (take (Z.to_nat new_len) (drop (Z.to_nat offset) data)) in
        ooo_flush (S OOO_MAX) al r
      else UB
    else Ok r.

(** [handle_event]: payloads of another length are ignored. *)
Definition handle_event (al : allocator) (r : relay) (e : event_t) : res relay :=
  let len := Z.of_nat (length (ev_payload e)) in
  if (len =? 0) || (MAX_PAYLOAD_SIZE <? len) then Ok r
  else process_tcp_payload al r (ev_seq e) (ev_payload e).

(** One turn of the main loop: the events of a poll, then the flush. *)
Fixpoint poll_events (al : allocator) (r : relay) (es : list event_t) : res relay :=
  match es with
  | [] => Ok r
  | e :: es => let* r := handle_event al r e in poll_events al r es
  end.

Definition relay_turn (al : allocator) (r : relay) (es : list event_t) (answers : list send_answer)
  : res relay :=
  let* r := poll_events al r es in flush_all answers r.

Fixpoint relay_main (al : allocator) (r : relay) (turns : list (list event_t * list send_answer))
  : res relay :=
  match turns with
  | [] => Ok r
  | (es, answers) :: turns =>
    if rl_running r then let* r := relay_turn al r es answers in relay_main al r turns else Ok r
  end.

(** The relay before its first packet. *)
Definition relay_start (rb : ring_buf) : relay := Relay rb empty_pool 0 false true [].

(** A run of the loop in which the pool never overflows, with the events it
    has seen. *)
Inductive relay_run (al : allocator) : relay -> list event_t -> relay -> Prop :=
| run_start r : relay_run al r [] r
| run_event r0 es r e r' :
    relay_run al r0 es r -> handle_event al r e = Ok r' -> rl_seq_initialized r' = true ->
    relay_run al r0 (es ++ [e]) r'
| run_flush r0 es r answers r' :
    relay_run al r0 es r -> flush_all answers r = Ok r' -> relay_run al r0 es r'.
