(* ===== verification/RingSpec.v ===== *)
(** * The ring buffer of the relay is a queue

    Whatever the size of the ring and wherever its content wraps, writing
    appends to the content, also when the ring is enlarged, and sending moves a
    prefix of it to the slave. *)

From S2P Require Import Prelude Memory Relay.

Open Scope Z_scope.
Open Scope kvs_scope.

(** ** The ring is a queue *)

Record ring_ok (rb : ring_buf) : Prop := {
  ro_size : RING_SIZE <= rb_size rb < 2 ^ 33;
  ro_head : 0 <= rb_head rb < rb_size rb;
  ro_bytes : 0 <= rb_bytes rb <= rb_size rb;
  ro_tail : rb_tail rb = (rb_head rb + rb_bytes rb) mod rb_size rb
}.

Lemma size_pos n : RING_SIZE <= n < 2 ^ 33 -> MAX_PAYLOAD_SIZE < n < 2 ^ 33 /\ 0 < n.
Proof. unfold RING_SIZE, MAX_PAYLOAD_SIZE. lia. Qed.

(** The byte at distance [j] from the head. *)
Definition ring_at (rb : ring_buf) (j : Z) : byte := rb_buf rb ((rb_head rb + j) mod rb_size rb).

Definition ring_content (rb : ring_buf) : bytes :=
  (fun j => ring_at rb (Z.of_nat j)) <$> seq 0 (Z.to_nat (rb_bytes rb)).

Lemma length_content rb : length (ring_content rb) = Z.to_nat (rb_bytes rb).
Proof. unfold ring_content. by rewrite length_fmap, length_seq. Qed.

Lemma content_lookup rb j :
  (j < Z.to_nat (rb_bytes rb))%nat -> ring_content rb !! j = Some (ring_at rb (Z.of_nat j)).
Proof.
  intros Hj. unfold ring_content. by rewrite list_lookup_fmap, lookup_seq_lt.
Qed.

(** The position of a distance, without the remainder. *)
Lemma wrap_pos a j size :
  0 <= a < size -> 0 <= j <= size ->
  (a + j) mod size = if a + j <? size then a + j else a + j - size.
Proof.
  intros Ha Hj. destruct (Z.ltb_spec (a + j) size).
  - apply Z.mod_small. lia.
  - rewrite <- (Z.mod_add _ (-1) size) by lia. rewrite Z.mod_small; lia.
Qed.

Lemma content_ext rb l :
  length l = Z.to_nat (rb_bytes rb) ->
  (forall j b, l !! j = Some b -> ring_at rb (Z.of_nat j) = b) -> ring_content rb = l.
Proof.
  intros Hlen Hl. apply list_eq_same_length with (n := length l); [done|by rewrite length_content|].
  intros j x y Hj. rewrite content_lookup by lia. intros [= <-] Hy. by apply Hl.
Qed.

(** The ring behind [rb_put], which stays inside its block. *)
Definition filled (rb : ring_buf) (data : bytes) : ring_buf :=
  let len := Z.of_nat (length data) in
  let k := rb_size rb - rb_tail rb in
  if len <=? k then
    RingBuf (write_bytes (rb_buf rb) (rb_tail rb) data) (rb_size rb) (rb_head rb)
      (if rb_tail rb + len =? rb_size rb then 0 else rb_tail rb + len) (rb_bytes rb + len)
  else
    RingBuf (write_bytes (write_bytes (rb_buf rb) (rb_tail rb) (take (Z.to_nat k) data)) 0
               (drop (Z.to_nat k) data))
      (rb_size rb) (rb_head rb) (len - k) (rb_bytes rb + len).

Lemma tail_range rb : ring_ok rb -> 0 <= rb_tail rb < rb_size rb.
Proof. intros [Hs%size_pos _ _ ->]. apply Z.mod_pos_bound. lia. Qed.

Lemma rb_put_filled rb data :
  ring_ok rb -> rb_bytes rb + Z.of_nat (length data) <= rb_size rb ->
  rb_put rb data = Ok (filled rb data).
Proof.
  intros Hok Hfit. pose proof (tail_range rb Hok). destruct Hok as [Hs%size_pos Hh Hb Ht].
  unfold rb_put, filled. destruct (Z.leb_spec (Z.of_nat (length data)) (rb_size rb - rb_tail rb)).
  - by rewrite store_block_ok by lia.
  - rewrite store_block_ok by (rewrite ?length_take; lia). cbn [rbind].
    by rewrite store_block_ok by (rewrite ?length_drop; lia).
Qed.

(** Storing bytes from a position of the ring on, with the wrap. *)
Lemma put_at rb data i :
  ring_ok rb -> rb_bytes rb + Z.of_nat (length data) <= rb_size rb -> 0 <= i < rb_size rb ->
  rb_buf (filled rb data) ((rb_tail rb + i) mod rb_size rb)
  = default (rb_buf rb ((rb_tail rb + i) mod rb_size rb)) (data !! Z.to_nat i).
Proof.
  intros [Hs%size_pos Hh Hb Ht] Hfit Hi.
  assert (Htr : 0 <= rb_tail rb < rb_size rb) by (rewrite Ht; apply Z.mod_pos_bound; lia).
  rewrite (wrap_pos (rb_tail rb) i) by lia. unfold filled.
  destruct (Z.leb_spec (Z.of_nat (length data)) (rb_size rb - rb_tail rb)); simpl.
  - destruct (Z.ltb_spec (rb_tail rb + i) (rb_size rb)).
    + unfold write_bytes. rewrite (proj2 (Z.leb_le _ _)) by lia.
      by replace (rb_tail rb + i - rb_tail rb) with i by lia.
    + rewrite write_bytes_out by lia. by rewrite lookup_ge_None_2 by lia.
  - set (k := rb_size rb - rb_tail rb).
    destruct (Z.ltb_spec (rb_tail rb + i) (rb_size rb)).
    + rewrite write_bytes_out by (rewrite length_drop; lia).
      unfold write_bytes. rewrite (proj2 (Z.leb_le _ _)) by lia.
      replace (rb_tail rb + i - rb_tail rb) with i by lia.
      by rewrite lookup_take_lt by lia.
    + unfold write_bytes at 1. rewrite (proj2 (Z.leb_le 0 _)) by lia.
      rewrite lookup_drop.
      replace (Z.to_nat k + Z.to_nat (rb_tail rb + i - rb_size rb - 0))%nat with (Z.to_nat i) by lia.
      destruct (data !! Z.to_nat i); [done|]. simpl.
      apply write_bytes_out. rewrite length_take. lia.
Qed.

Lemma put_fields rb data :
  ring_ok rb -> rb_bytes rb + Z.of_nat (length data) <= rb_size rb ->
  rb_size (filled rb data) = rb_size rb /\ rb_head (filled rb data) = rb_head rb /\
  rb_bytes (filled rb data) = rb_bytes rb + Z.of_nat (length data) /\
  rb_tail (filled rb data) = (rb_tail rb + Z.of_nat (length data)) mod rb_size rb.
Proof.
  intros [Hs%size_pos Hh Hb Ht] Hfit.
  assert (Htr : 0 <= rb_tail rb < rb_size rb) by (rewrite Ht; apply Z.mod_pos_bound; lia).
  rewrite wrap_pos by lia. unfold filled.
  destruct (Z.leb_spec (Z.of_nat (length data)) (rb_size rb - rb_tail rb)); simpl;
    (split; [done|]; split; [done|]; split; [done|]).
  - destruct (Z.eqb_spec (rb_tail rb + Z.of_nat (length data)) (rb_size rb)),
      (Z.ltb_spec (rb_tail rb + Z.of_nat (length data)) (rb_size rb)); lia.
  - rewrite (proj2 (Z.ltb_ge _ _)) by lia. lia.
Qed.

Lemma filled_ok rb data :
  ring_ok rb -> rb_bytes rb + Z.of_nat (length data) <= rb_size rb ->
  ring_ok (filled rb data) /\ ring_content (filled rb data) = ring_content rb ++ data.
Proof.
  intros Hok Hfit. pose proof Hok as [Hs%size_pos Hh Hb Ht].
  destruct (put_fields rb data Hok Hfit) as (F1 & F2 & F3 & F4).
  split.
  - split; rewrite ?F1, ?F2, ?F3, ?F4; [apply Hok|done|lia|].
    rewrite Ht, Zplus_mod_idemp_l. f_equal. lia.
  - apply content_ext; [rewrite length_app, length_content, F3; lia|].
    intros j b Hj. unfold ring_at. rewrite F1, F2.
    assert (Hjl : (j < Z.to_nat (rb_bytes rb) + length data)%nat).
    { apply lookup_lt_Some in Hj. by rewrite length_app, length_content in Hj. }
    set (i := (Z.of_nat j - rb_bytes rb) mod rb_size rb).
    assert (Hi : 0 <= i < rb_size rb) by (apply Z.mod_pos_bound; lia).
    assert (Hpos : (rb_head rb + Z.of_nat j) mod rb_size rb = (rb_tail rb + i) mod rb_size rb).
    { rewrite Ht. unfold i. rewrite <- Zplus_mod. f_equal. lia. }
    rewrite Hpos, put_at by done. rewrite <- Hpos.
    destruct (decide (j < Z.to_nat (rb_bytes rb))%nat) as [Hlt|Hge].
    + rewrite lookup_app_l, content_lookup in Hj by (rewrite ?length_content; lia).
      assert (i = Z.of_nat j - rb_bytes rb + rb_size rb) as ->.
      { symmetry. apply (Z.mod_unique _ _ (-1)); lia. }
      rewrite lookup_ge_None_2 by lia. by simplify_eq.
    + rewrite lookup_app_r, length_content in Hj by (rewrite length_content; lia).
      assert (i = Z.of_nat j - rb_bytes rb) as -> by (apply Z.mod_small; lia).
      replace (Z.to_nat (Z.of_nat j - rb_bytes rb)) with (j - Z.to_nat (rb_bytes rb))%nat by lia.
      by rewrite Hj.
Qed.

Lemma put_ok rb data :
  ring_ok rb -> rb_bytes rb + Z.of_nat (length data) <= rb_size rb ->
  exists rb', rb_put rb data = Ok rb' /\ ring_ok rb' /\
    ring_content rb' = ring_content rb ++ data.
Proof.
  intros Hok Hfit. exists (filled rb data). split; [by apply rb_put_filled|by apply filled_ok].
Qed.

(** The content lies in at most two pieces. *)
Lemma content_pieces rb :
  ring_ok rb ->
  let n := Z.min (rb_bytes rb) (rb_size rb - rb_head rb) in
  ring_content rb = read_bytes (rb_buf rb) (rb_head rb) (Z.to_nat n)
                      ++ read_bytes (rb_buf rb) 0 (Z.to_nat (rb_bytes rb - n)).
Proof.
  intros [Hs%size_pos Hh Hb Ht] n. apply content_ext.
  { rewrite length_app, !length_read_bytes. lia. }
  intros j b Hj. pose proof (lookup_lt_Some _ _ _ Hj) as Hlt.
  rewrite length_app, !length_read_bytes in Hlt. unfold ring_at. rewrite wrap_pos by lia.
  destruct (decide (j < Z.to_nat n)%nat).
  - rewrite lookup_app_l, lookup_read_bytes in Hj by (rewrite ?length_read_bytes; lia).
    rewrite (proj2 (Z.ltb_lt _ _)) by lia. congruence.
  - rewrite lookup_app_r, length_read_bytes, lookup_read_bytes in Hj
      by (rewrite ?length_read_bytes; lia).
    rewrite (proj2 (Z.ltb_ge _ _)) by lia. injection Hj as <-. f_equal. lia.
Qed.

Lemma content_take rb n :
  ring_ok rb -> 0 <= n <= rb_bytes rb -> n <= rb_size rb - rb_head rb ->
  read_bytes (rb_buf rb) (rb_head rb) (Z.to_nat n) = take (Z.to_nat n) (ring_content rb).
Proof.
  intros Hok Hn Hs. rewrite content_pieces by done.
  rewrite take_app_le by (rewrite length_read_bytes; lia).
  by rewrite take_read_bytes by lia.
Qed.

(** ** Growing *)

Lemma copy_ok rb new new_size :
  ring_ok rb -> rb_bytes rb <= new_size ->
  exists buf, copy_content 3 (rb_buf rb) (rb_size rb) (rb_head rb) (rb_bytes rb) new new_size 0
      = Ok buf /\
    read_bytes buf 0 (Z.to_nat (rb_bytes rb)) = ring_content rb.
Proof.
  intros Hok Hnew. pose proof Hok as [Hs%size_pos Hh Hb Ht]. rewrite content_pieces by done.
  set (p := Z.min (rb_bytes rb) (rb_size rb - rb_head rb)). cbn [copy_content].
  destruct (Z.ltb_spec 0 (rb_bytes rb)).
  2: { exists new. split; [done|]. replace (rb_bytes rb) with 0 by lia.
       by replace p with 0 by (unfold p; lia). }
  replace (if rb_bytes rb <? rb_size rb - rb_head rb then rb_bytes rb
           else rb_size rb - rb_head rb) with p
    by (unfold p; destruct (Z.ltb_spec (rb_bytes rb) (rb_size rb - rb_head rb)); lia).
  rewrite load_block_ok by lia. cbn [rbind].
  rewrite store_block_ok by (rewrite ?length_read_bytes; lia). cbn [rbind].
  set (new1 := write_bytes new 0 (read_bytes (rb_buf rb) (rb_head rb) (Z.to_nat p))).
  assert (Hn1 : read_bytes new1 0 (Z.to_nat p)
                = read_bytes (rb_buf rb) (rb_head rb) (Z.to_nat p)).
  { unfold new1. rewrite <- (length_read_bytes (rb_buf rb) (rb_head rb) (Z.to_nat p)) at 2.
    apply read_write_bytes. }
  destruct (Z.ltb_spec 0 (rb_bytes rb - p)).
  2: { exists new1. split; [done|]. replace (rb_bytes rb - p) with 0 by lia.
       replace (rb_bytes rb) with p by lia. by rewrite Hn1, app_nil_r. }
  replace ((rb_head rb + p) mod rb_size rb) with 0
    by (replace (rb_head rb + p) with (rb_size rb) by lia; by rewrite Z_mod_same_full).
  rewrite (proj2 (Z.ltb_lt (rb_bytes rb - p) _)) by lia.
  set (q := rb_bytes rb - p) in *. rewrite load_block_ok by lia. cbn [rbind].
  rewrite store_block_ok by (rewrite ?length_read_bytes; lia). cbn [rbind].
  rewrite Z.sub_diag, Z.ltb_irrefl. eexists. split; [done|].
  replace (Z.to_nat (rb_bytes rb)) with (Z.to_nat p + Z.to_nat q)%nat by lia.
  rewrite read_bytes_app, !Z.add_0_l. rewrite Z2Nat.id by lia. f_equal.
  - rewrite <- Hn1. apply read_bytes_ext. intros x Hx. apply write_bytes_out. lia.
  - rewrite <- (length_read_bytes (rb_buf rb) 0 (Z.to_nat q)) at 2. apply read_write_bytes.
Qed.

(** Memory is there for the sizes the ring can grow to. *)
Definition memory_for_ring (al : allocator) : Prop := forall n, n < 2 ^ 33 -> is_Some (al n).

Lemma rb_write_ok al rb data :
  memory_for_ring al -> ring_ok rb -> Z.of_nat (length data) <= MAX_PAYLOAD_SIZE ->
  rb_bytes rb + Z.of_nat (length data) < 2 ^ 32 ->
  exists rb', rb_write al rb data = Ok (rb', 0) /\ ring_ok rb' /\
    ring_content rb' = ring_content rb ++ data.
Proof.
  intros Hal Hok Hlen Hbytes. pose proof Hok as [Hs' Hh Hb Ht].
  pose proof (size_pos _ Hs') as Hs. unfold rb_write. rewrite u64_small by lia.
  destruct (Z.ltb_spec (rb_size rb) (rb_bytes rb + Z.of_nat (length data))) as [Hlt|Hge].
  2: { destruct (put_ok rb data Hok) as (rb' & -> & H1 & H2); [lia|]. by exists rb'. }
  unfold rb_grow. rewrite (u64_small (rb_size rb * 2)) by lia. unfold double_cap.
  rewrite (proj2 (Z.ltb_ge _ _)) by lia.
  destruct (Hal (rb_size rb * 2)) as [new Hnew]; [lia|]. rewrite Hnew.
  destruct (copy_ok rb new (rb_size rb * 2) Hok ltac:(lia)) as (buf & -> & Hread). cbn [rbind].
  match goal with |- context [rb_put ?x data] => set (rb1 := x) end.
  assert (Hok1 : ring_ok rb1).
  { split; simpl; [lia..|]. rewrite Z.mod_small; lia. }
  assert (Hc1 : ring_content rb1 = ring_content rb).
  { rewrite content_pieces by done. simpl. rewrite Z.min_l, Z.sub_diag by lia.
    by rewrite Hread, app_nil_r. }
  destruct (put_ok rb1 data Hok1) as (rb' & -> & H1 & H2); [simpl; lia|].
  exists rb'. split; [done|]. by rewrite H2, Hc1.
Qed.

(** ** Sending *)

Definition rb_advance (rb : ring_buf) (k : Z) : ring_buf :=
  RingBuf (rb_buf rb) (rb_size rb)
    (if rb_head rb + k =? rb_size rb then 0 else rb_head rb + k) (rb_tail rb) (rb_bytes rb - k).

Lemma advance_ok rb k :
  ring_ok rb -> 0 <= k <= rb_bytes rb -> k <= rb_size rb - rb_head rb ->
  ring_ok (rb_advance rb k) /\
  ring_content (rb_advance rb k) = drop (Z.to_nat k) (ring_content rb).
Proof.
  intros Hok Hk Hks. pose proof Hok as [Hs' Hh Hb Ht]. pose proof (size_pos _ Hs') as Hs.
  assert (Hmod : forall x, ((if rb_head rb + k =? rb_size rb then 0 else rb_head rb + k) + x)
                           mod rb_size rb = (rb_head rb + (k + x)) mod rb_size rb).
  { intros x. destruct (Z.eqb_spec (rb_head rb + k) (rb_size rb)) as [E|].
    - replace (rb_head rb + (k + x)) with (0 + x + 1 * rb_size rb) by lia.
      by rewrite Z.mod_add by lia.
    - f_equal. lia. }
  split.
  - split; simpl; [done|destruct (Z.eqb_spec (rb_head rb + k) (rb_size rb)); lia|lia|].
    rewrite Hmod, Ht. f_equal. lia.
  - apply content_ext; [rewrite length_drop, length_content; simpl; lia|].
    intros j b Hj. rewrite lookup_drop in Hj. pose proof (lookup_lt_Some _ _ _ Hj) as Hlt.
    rewrite length_content in Hlt. rewrite content_lookup in Hj by done. injection Hj as <-.
    unfold ring_at. simpl. rewrite Hmod. do 3 f_equal. lia.
Qed.

(** What sending leaves alone, and the bytes it only moves. *)
Record sending_only (r r' : relay) : Prop := {
  so_ring : ring_ok (rl_rb r');
  so_bytes : rl_sent r' ++ ring_content (rl_rb r') = rl_sent r ++ ring_content (rl_rb r);
  so_pool : rl_pool r' = rl_pool r;
  so_expected : rl_expected r' = rl_expected r;
  so_init : rl_seq_initialized r' = rl_seq_initialized r
}.

(** What [send] is offered. *)
Definition send_avail (rb : ring_buf) : Z :=
  let avail := if rb_head rb <? rb_tail rb then rb_tail rb - rb_head rb
               else rb_size rb - rb_head rb in
  if rb_bytes rb <? avail then rb_bytes rb else avail.

Lemma send_avail_range rb :
  ring_ok rb -> 0 <= send_avail rb <= Z.min (rb_bytes rb) (rb_size rb - rb_head rb).
Proof.
  intros Hok. pose proof (tail_range rb Hok). destruct Hok as [Hs%size_pos Hh Hb Ht].
  unfold send_avail. repeat case_match; lia.
Qed.

Lemma send_avail_pos rb : ring_ok rb -> 0 < rb_bytes rb -> 0 < send_avail rb.
Proof. intros [Hs%size_pos Hh Hb Ht] ?. unfold send_avail. repeat case_match; lia. Qed.

Lemma rb_send_ok r s :
  ring_ok (rl_rb r) -> exists r' ret, rb_send r s = Ok (r', ret) /\ sending_only r r'.
Proof.
  intros Hok. pose proof (send_avail_range _ Hok) as Hav. unfold rb_send.
  destruct (Z.eqb_spec (rb_bytes (rl_rb r)) 0); [by exists r, 0|].
  destruct (Z.eqb_spec (rb_head (rl_rb r)) (rb_tail (rl_rb r))); [by exists r, 0|].
  fold (send_avail (rl_rb r)). pose proof (ro_head _ Hok).
  rewrite load_block_ok by lia. cbn [rbind].
  destruct s as [m| |]; [|by eexists _, _..]. destruct (Z.ltb_spec 0 m); [|by eexists _, _].
  set (k := if send_avail _ <? m then _ else m).
  assert (Hk : 0 <= k <= send_avail (rl_rb r))
    by (unfold k; destruct (Z.ltb_spec (send_avail (rl_rb r)) m); lia).
  destruct (advance_ok (rl_rb r) k Hok) as [H1 H2]; [lia..|]. eexists _, _. split; [done|].
  split; simpl; try done. change (RingBuf _ _ _ _ _) with (rb_advance (rl_rb r) k).
  rewrite H2, take_read_bytes, content_take, <- app_assoc, take_drop by (done || lia). done.
Qed.

Lemma flush_all_ok answers r :
  ring_ok (rl_rb r) -> exists r', flush_all answers r = Ok r' /\ sending_only r r'.
Proof.
  unfold flush_all. generalize 64%nat as rounds.
  induction answers as [|s answers IH] in r |- *; intros [|rounds] Hok; simpl;
    try (exists r; by split).
  destruct (_ && _); [|exists r; by split].
  destruct (rb_send_ok r s Hok) as (r1 & ret & -> & H1). cbn [rbind].
  destruct (ret <=? 0); [by exists r1|].
  destruct (IH r1 rounds (so_ring _ _ H1)) as (r' & Hr' & [A B C D E]).
  exists r'. split; [done|]. destruct H1. split; [done|congruence..].
Qed.

(** When the slave takes something, something is sent, unless the ring is
    exactly full. *)
Lemma rb_send_progress r n :
  ring_ok (rl_rb r) -> 0 < rb_bytes (rl_rb r) < rb_size (rl_rb r) -> 0 < n ->
  exists r' ret, rb_send r (SendBytes n) = Ok (r', ret) /\ 0 < ret /\
    rl_running r' = rl_running r /\ rb_bytes (rl_rb r') = rb_bytes (rl_rb r) - ret /\
    rb_size (rl_rb r') = rb_size (rl_rb r).
Proof.
  intros Hok Hb Hn. pose proof (send_avail_range _ Hok). pose proof (send_avail_pos _ Hok).
  pose proof Hok as [Hs%size_pos Hh _ Ht]. unfold rb_send.
  rewrite (proj2 (Z.eqb_neq _ _)) by lia. destruct (Z.eqb_spec (rb_head (rl_rb r)) (rb_tail (rl_rb r))) as [E|].
  - rewrite Ht, wrap_pos in E by lia. case_match; lia.
  - fold (send_avail (rl_rb r)). rewrite load_block_ok by lia. cbn [rbind].
    rewrite (proj2 (Z.ltb_lt _ _)) by done. eexists _, _. split; [done|]. simpl.
    split; [case_match; lia|done].
Qed.

(** The slave takes at least a byte. *)
Definition takes (a : send_answer) : Prop := exists m, a = SendBytes m /\ 0 < m.

Lemma flush_rounds_progress answers rounds r :
  ring_ok (rl_rb r) -> rb_bytes (rl_rb r) < rb_size (rl_rb r) -> rl_running r = true ->
  Forall takes answers ->
  exists r', flush_rounds rounds answers r = Ok r' /\ rl_running r' = true /\
    rb_size (rl_rb r') = rb_size (rl_rb r) /\ rb_bytes (rl_rb r') <= rb_bytes (rl_rb r) /\
    (rounds <> 0%nat -> answers <> [] ->
     rb_bytes (rl_rb r') <= Z.max 0 (rb_bytes (rl_rb r) - 1)).
Proof.
  revert rounds r. induction answers as [|a answers IH]; intros [|rounds] r Hok Hlt Hrun Ha;
    try (exists r; by split_and!). cbn [flush_rounds].
  apply Forall_cons in Ha as [(m & -> & Hm) Ha].
  destruct (Z.ltb_spec 0 (rb_bytes (rl_rb r))) as [Hpos|Hz].
  2: { exists r. split_and!; try done; lia. }
  rewrite Hrun. cbn [andb].
  destruct (rb_send_progress r m Hok ltac:(lia) Hm) as (r1 & ret & Hs & Hret & H1 & H2 & H3).
  destruct (rb_send_ok r (SendBytes m) Hok) as (r1' & ret' & Hs' & Hso). rewrite Hs in Hs'.
  injection Hs' as <- <-. rewrite Hs. cbn [rbind]. rewrite (proj2 (Z.leb_gt _ _)) by lia.
  destruct (IH rounds r1 (so_ring _ _ Hso)) as (r' & Hr' & G1 & G2 & G3 & _);
    [lia|congruence|done|].
  exists r'. split_and!; [done|done|congruence|lia|lia].
Qed.

(** Turn after turn in which the slave takes at least a byte. *)
Fixpoint flush_turns (turns : list (list send_answer)) (r : relay) : res relay :=
  match turns with
  | [] => Ok r
  | answers :: turns => let* r := flush_all answers r in flush_turns turns r
  end.

(** As many turns as bytes wait empty a ring that is not exactly full. *)
Lemma flush_turns_empty turns r :
  ring_ok (rl_rb r) -> rb_bytes (rl_rb r) < rb_size (rl_rb r) -> rl_running r = true ->
  Forall (fun a => a <> [] /\ Forall takes a) turns ->
  rb_bytes (rl_rb r) <= Z.of_nat (length turns) ->
  exists r', flush_turns turns r = Ok r' /\ rl_sent r' = rl_sent r ++ ring_content (rl_rb r).
Proof.
  revert r. induction turns as [|a turns IH]; intros r Hok Hlt Hrun Ha Hn.
  - exists r. split; [done|]. unfold ring_content.
    replace (Z.to_nat (rb_bytes (rl_rb r))) with 0%nat by (simpl in Hn; lia). by rewrite app_nil_r.
  - apply Forall_cons in Ha as [[Hne Ha] Hts]. cbn [flush_turns].
    destruct (flush_rounds_progress a 64 r Hok Hlt Hrun Ha) as (r1 & Hf & H1 & H2 & H3 & H4).
    destruct (flush_all_ok a r Hok) as (r1' & Hf' & Hso). unfold flush_all in *.
    rewrite Hf in Hf'. injection Hf' as <-. rewrite Hf. cbn [rbind].
    pose proof (ro_bytes _ (so_ring _ _ Hso)) as Hb1. specialize (H4 ltac:(done) Hne).
    destruct (IH r1 (so_ring _ _ Hso)) as (r' & Hr' & Hsent); [lia|done|done|simpl in Hn; lia|].
    exists r'. split; [done|]. by rewrite Hsent, (so_bytes _ _ Hso).
Qed.

(** A ring that is exactly full looks empty to the sender. *)
Lemma full_ring_sends_nothing r s :
  ring_ok (rl_rb r) -> rb_bytes (rl_rb r) = rb_size (rl_rb r) -> rb_send r s = Ok (r, 0).
Proof.
  intros [Hs%size_pos Hh Hb Ht] Hfull. unfold rb_send.
  rewrite (proj2 (Z.eqb_neq _ _)) by lia. rewrite Ht, Hfull.
  replace (rb_head (rl_rb r) + rb_size (rl_rb r))
    with (rb_head (rl_rb r) + 1 * rb_size (rl_rb r)) by lia.
  by rewrite Z.mod_add, Z.mod_small, Z.eqb_refl by lia.
Qed.
