(* ===== verification/Affinity.v ===== *)
(** * The processors of the relay's NUMA node (ebpf_relay.c)

    [bind_to_numa] reads the list of processors that the kernel prints for a
    node, [0-3,8,10-11] say, and binds the relay to them.  The file proves that
    every list that fits in the buffer is read as the set it stands for, and
    shows what a longer one is read as. *)

From S2P Require Import Prelude KvData Engine Resp Config.

Open Scope Z_scope.
Open Scope kvs_scope.

(** ** [sscanf] *)

(** The conversion [%d]: a value outside [int] is undefined. *)
Definition scan_int (l : bytes) : res (option (Z * bytes)) :=
  let l := drop_spaces l in
  let '(neg, l) := match l with
                   | x2d :: r => (true, r)
                   | x2b :: r => (false, r)
                   | _ => (false, l)
                   end in
  match l with
  | b :: _ =>
    if is_digit b then
      let '(v, r) := parse_digits 0 l in
      let v := if neg : bool then - v else v in
      if (- 2 ^ 31 <=? v) && (v <? 2 ^ 31) then Ok (Some (v, r)) else UB
    else Ok None
  | [] => Ok None
  end.

(** [%d-%d], and [%d] when that gives less than two. *)
Definition scan_range (l : bytes) : res (option (Z * option Z)) :=
  let* r := scan_int l in
  match r with
  | None => Ok None
  | Some (a, x2d :: r) =>
    let* r := scan_int r in
    Ok (Some (a, fst <$> r))
  | Some (a, _) => Ok (Some (a, None))
  end.

(** ** The set of processors *)

(** The bits of [cpu_set_t]; [CPU_SET] leaves others alone. *)
Definition CPU_SETSIZE : Z := 1024.

Definition cpu_set (i : Z) (set : gset Z) : gset Z :=
  if (0 <=? i) && (i <? CPU_SETSIZE) then {[i]} ∪ set else set.

(** One processor, or the loop from [a] to [b], whose counter is an [int]. *)
Definition cpu_set_range (a : Z) (b : option Z) (set : gset Z) : res (gset Z) :=
  match b with
  | None => Ok (cpu_set a set)
  | Some b =>
    if (a <=? b) && (b =? 2 ^ 31 - 1) then UB
    else Ok (foldr cpu_set set (seqZ a (b + 1 - a)))
  end.

(** ** The list *)

Fixpoint skip_comma (l : bytes) : bytes :=
  match l with
  | [] => []
  | b :: l => if bool_decide (b = x2c) then l else skip_comma l
  end.

(** The loop over the text up to its end; a turn consumes at least a byte. *)
Fixpoint parse_cpulist (fuel : nat) (p : bytes) (set : gset Z) : res (gset Z) :=
  match fuel, p with
  | O, _ | _, [] => Ok set
  | S fuel, _ :: _ =>
    let* r := scan_range p in
    match r with
    | None => Ok set
    | Some (a, b) =>
      let* set := cpu_set_range a b set in
      parse_cpulist fuel (skip_comma p) set
    end
  end.

(** [fgets] with a buffer of [size] bytes: up to the end of the first line. *)
Fixpoint fgets (size : nat) (file : bytes) : bytes :=
  match size, file with
  | S (S size' as n), b :: file => b :: if bool_decide (b = LF) then [] else fgets n file
  | _, _ => []
  end.

(** [bind_to_numa] on the content of the file, none when it does not open: the
    result and the set the relay is bound to; [affinity_ok] is the answer of
    [sched_setaffinity]. *)
Definition bind_to_numa (file : option bytes) (affinity_ok : gset Z -> bool) : res (Z * option (gset Z)) :=
  match file with
  | None => Ok (-1, None)
  | Some file =>
    match fgets 1024 file with
    | [] => Ok (-1, None)
    | buf =>
      let p := cstr buf in
      let* set := parse_cpulist (length p) p ∅ in
      Ok (if affinity_ok set then (0, Some set) else (-1, None))
    end
  end.

(** ** What the kernel prints *)

Definition show_range (x : Z * Z) : bytes :=
  dec_u x.1 ++ if x.1 =? x.2 then [] else x2d :: dec_u x.2.

Fixpoint ranges_text (rs : list (Z * Z)) : bytes :=
  match rs with
  | [] => []
  | [x] => show_range x
  | x :: rs => show_range x ++ x2c :: ranges_text rs
  end.

Definition cpulist (rs : list (Z * Z)) : bytes := ranges_text rs ++ [LF].

Definition range_ok (x : Z * Z) : Prop := 0 <= x.1 <= x.2 /\ x.2 < 2 ^ 31 - 1.

(** What a text of ranges consists of. *)
Definition range_byte (b : byte) : Prop := is_digit b = true \/ b = x2d.

Lemma digits_range_bytes z : Forall range_byte (dec_u z).
Proof.
  apply Forall_forall. intros b Hb. left.
  pose proof (digs_digits (ndigits 20 z) z) as Hd. rewrite forallb_forall in Hd.
  apply Hd. by apply list_elem_of_In.
Qed.

Lemma show_range_bytes x : Forall range_byte (show_range x).
Proof.
  apply Forall_app_2; [apply digits_range_bytes|]. destruct (x.1 =? x.2); [done|].
  constructor; [by right|apply digits_range_bytes].
Qed.

Lemma range_byte_plain b : range_byte b -> b <> x2c /\ b <> LF /\ b2z b <> 0.
Proof.
  intros [Hd| ->]; [|done]. split_and!; [by intros ->..|]. unfold is_digit in Hd. intros H0. by rewrite H0 in Hd.
Qed.

(** ** Reading it *)

Definition not_digit_head (l : bytes) : Prop :=
  match l with b :: _ => is_digit b = false | [] => True end.

Lemma scan_int_dec z r :
  0 <= z < 2 ^ 31 -> not_digit_head r -> scan_int (dec_u z ++ r) = Ok (Some (z, r)).
Proof.
  intros Hz Hr. destruct (dec_u_head z) as (x & t & Hx & Hd). pose proof (parse_digits_dec_u z r) as Hp.
  unfold scan_int. rewrite Hx in Hp |- *. cbn [app drop_spaces] in *. rewrite digit_not_space by done.
  assert (Hs : x <> x2d /\ x <> x2b) by (split; by intros ->).
  replace (match x with x2d => (true, t ++ r) | x2b => (false, t ++ r) | _ => (false, x :: t ++ r) end)
    with (false, x :: t ++ r) by (destruct Hs; by destruct x).
  rewrite Hd, Hp by (done || lia). cbn [negb].
  by rewrite (proj2 (Z.leb_le _ _)), (proj2 (Z.ltb_lt _ _)) by lia.
Qed.

Lemma scan_range_show x r :
  range_ok x -> not_digit_head r -> head r <> Some x2d ->
  scan_range (show_range x ++ r) = Ok (Some (x.1, if x.1 =? x.2 then None else Some x.2)).
Proof.
  destruct x as [a b]. intros [Hab Hb] Hr Hh. unfold scan_range, show_range. cbn [fst snd] in *.
  rewrite <- app_assoc. destruct (Z.eqb_spec a b) as [->|Hne].
  - cbn [app]. rewrite scan_int_dec by (done || lia). cbn [rbind].
    destruct r as [|c r]; [done|]. simpl in Hh. destruct c; done.
  - cbn [app]. rewrite scan_int_dec by (done || lia). cbn [rbind].
    by rewrite scan_int_dec by (done || lia).
Qed.

Lemma skip_comma_plain w r : Forall range_byte w -> skip_comma (w ++ r) = skip_comma r.
Proof.
  induction 1 as [|b w Hb _ IH]; [done|]. apply range_byte_plain in Hb as (Hb & _).
  cbn [app skip_comma]. by rewrite bool_decide_false.
Qed.

(** ** The set *)

Lemma elem_of_cpu_set i set c : c ∈ cpu_set i set <-> c ∈ set \/ (c = i /\ 0 <= c < CPU_SETSIZE).
Proof.
  unfold cpu_set. destruct (Z.leb_spec 0 i), (Z.ltb_spec i CPU_SETSIZE); cbn [andb]; set_solver by lia.
Qed.

(** The set a list of ranges stands for, as far as it fits, added to [set]. *)
Definition in_ranges (rs : list (Z * Z)) (c : Z) : Prop :=
  0 <= c < CPU_SETSIZE /\ exists x, x ∈ rs /\ x.1 <= c <= x.2.

Lemma elem_of_cpu_range set l c :
  c ∈ foldr cpu_set set l <-> c ∈ set \/ (c ∈ l /\ 0 <= c < CPU_SETSIZE).
Proof.
  induction l as [|i l IH]; cbn [foldr]; [set_solver|].
  rewrite elem_of_cpu_set, IH, elem_of_cons. naive_solver.
Qed.

Lemma cpu_set_range_ok x set :
  range_ok x -> exists set', cpu_set_range x.1 (if x.1 =? x.2 then None else Some x.2) set = Ok set' /\
    forall c, c ∈ set' <-> c ∈ set \/ in_ranges [x] c.
Proof.
  destruct x as [a b]. intros [Hab Hb]. unfold cpu_set_range, in_ranges. cbn [fst snd] in *.
  destruct (Z.eqb_spec a b) as [->|Hne].
  - eexists. split; [done|]. intros c. rewrite elem_of_cpu_set. split.
    + intros [H|[-> H]]; [by left|right]. split; [done|]. exists (b, b). simpl. split; [set_solver|lia].
    + intros [H|[H (x & ->%list_elem_of_singleton & Hx)]]; [by left|right]. simpl in Hx. lia.
  - rewrite (proj2 (Z.eqb_neq b _)), andb_false_r by lia. eexists. split; [done|]. intros c.
    rewrite elem_of_cpu_range, elem_of_seqZ. split.
    + intros [H|[Hc H]]; [by left|right]. split; [done|]. exists (a, b). simpl. split; [set_solver|lia].
    + intros [H|[H (x & ->%list_elem_of_singleton & Hx)]]; [by left|right]. simpl in Hx. lia.
Qed.

Lemma parse_cpulist_ranges rs fuel set :
  Forall range_ok rs -> (length rs <= fuel)%nat ->
  exists set', parse_cpulist fuel (cpulist rs) set = Ok set' /\
    forall c, c ∈ set' <-> c ∈ set \/ in_ranges rs c.
Proof.
  intros Hok. revert fuel set. induction Hok as [|x rs Hx Hrs IH]; intros fuel set Hf.
  { exists set. split; [by destruct fuel|]. intros c. unfold in_ranges. set_solver. }
  destruct fuel as [|fuel]; [simpl in Hf; lia|]. simpl in Hf.
  assert (Hhead : exists b r, show_range x = b :: r).
  { destruct (dec_u_head x.1) as (b & t & Hb & _). unfold show_range. rewrite Hb. by eexists _, _. }
  assert (Ht : exists r, cpulist (x :: rs) = show_range x ++ r /\ not_digit_head r /\
    head r <> Some x2d /\ skip_comma r = match rs with [] => [] | _ => cpulist rs end).
  { unfold cpulist. destruct rs as [|y rs]; [by exists [LF]|].
    exists (x2c :: ranges_text (y :: rs) ++ [LF]). split_and!; [|done..].
    change (ranges_text (x :: y :: rs)) with (show_range x ++ x2c :: ranges_text (y :: rs)).
    by rewrite <- app_assoc. }
  destruct Ht as (r & -> & Hr & Hh & Hskip). destruct Hhead as (b & t & Hb).
  assert (Hstep : parse_cpulist (S fuel) (show_range x ++ r) set
    = let* o := scan_range (show_range x ++ r) in
      match o with
      | None => Ok set
      | Some (a, b) =>
        let* set := cpu_set_range a b set in parse_cpulist fuel (skip_comma (show_range x ++ r)) set
      end) by (by rewrite Hb).
  rewrite Hstep, scan_range_show, skip_comma_plain, Hskip by (done || apply show_range_bytes). cbn [rbind].
  destruct (cpu_set_range_ok x set Hx) as (s1 & -> & H1). cbn [rbind].
  assert (Hrest : exists s2, parse_cpulist fuel (match rs with [] => [] | _ => cpulist rs end) s1 = Ok s2 /\
    forall c, c ∈ s2 <-> c ∈ s1 \/ in_ranges rs c).
  { destruct rs as [|y rs]; [|apply IH; lia]. exists s1. split; [by destruct fuel|].
    intros c. unfold in_ranges. set_solver. }
  destruct Hrest as (s2 & -> & H2). exists s2. split; [done|]. intros c. rewrite H2, H1.
  unfold in_ranges. set_solver.
Qed.

(** ** The binding *)

Lemma ranges_text_plain rs : Forall (fun b => b <> LF /\ b2z b <> 0) (ranges_text rs).
Proof.
  assert (Hs : forall x, Forall (fun b => b <> LF /\ b2z b <> 0) (show_range x)).
  { intros x. eapply Forall_impl; [apply show_range_bytes|]. intros b Hb. by apply range_byte_plain in Hb as (_ & ? & ?). }
  induction rs as [|x [|y rs] IH]; [done|apply Hs|].
  change (ranges_text (x :: y :: rs)) with (show_range x ++ x2c :: ranges_text (y :: rs)).
  apply Forall_app_2; [apply Hs|]. by constructor.
Qed.

Lemma cpulist_turns rs : (length rs <= length (cpulist rs))%nat.
Proof.
  unfold cpulist. induction rs as [|x [|y rs] IH]; [simpl; lia|rewrite length_app; simpl; lia|].
  change (ranges_text (x :: y :: rs)) with (show_range x ++ x2c :: ranges_text (y :: rs)).
  rewrite <- app_assoc, length_app. cbn [app length] in *. lia.
Qed.

Lemma fgets_whole_line n w :
  Forall (fun b => b <> LF /\ b2z b <> 0) w -> (length w + 1 < n)%nat -> fgets n (w ++ [LF]) = w ++ [LF].
Proof.
  intros Hw. revert n. induction Hw as [|b w [Hb _] _ IH]; intros [|[|n]] Hn; simpl in Hn; try lia; [done|].
  change (fgets (S (S n)) ((b :: w) ++ [LF]))
    with (b :: if bool_decide (b = LF) then [] else fgets (S n) (w ++ [LF])).
  rewrite bool_decide_false by done. by rewrite IH by lia.
Qed.

(** A list of processors that fits in the buffer, as the kernel prints it, is
    read as the set it stands for: the relay is bound to exactly the
    processors of the ranges, those with a number of 1024 or more apart. *)
Theorem bind_to_numa_exact rs affinity_ok :
  Forall range_ok rs -> (length (cpulist rs) <= 1023)%nat ->
  exists set, (forall c, c ∈ set <-> in_ranges rs c) /\
    bind_to_numa (Some (cpulist rs)) affinity_ok
    = Ok (if affinity_ok set then (0, Some set) else (-1, None)).
Proof.
  intros Hok Hlen. pose proof (ranges_text_plain rs) as Hp.
  destruct (parse_cpulist_ranges rs (length (cpulist rs)) ∅ Hok (cpulist_turns rs)) as (set & Hset & Hin).
  exists set. split; [intros c; rewrite Hin; set_solver|].
  assert (Hcstr : cstr (cpulist rs) = cpulist rs).
  { apply cstr_no_nul. unfold cpulist. apply Forall_app_2; [|by repeat constructor].
    eapply Forall_impl; [exact Hp|]. by intros b []. }
  unfold bind_to_numa. unfold cpulist in Hlen at 1. rewrite length_app in Hlen. cbn [length] in Hlen.
  replace (fgets 1024 (cpulist rs)) with (cpulist rs) by (symmetry; apply fgets_whole_line; [done|lia]).
  destruct (cpulist rs) as [|b l] eqn:E; [unfold cpulist in E; by destruct (ranges_text rs)|].
  by rewrite Hcstr, Hset.
Qed.

(** ** Examples *)

Example two_ranges :
  bind_to_numa (Some (str "0-1,4" ++ [LF])) (fun s => bool_decide (s = {[0; 1; 4]}))
  = Ok (0, Some {[0; 1; 4]}).
Proof. vm_compute. reflexivity. Qed.

(** A node without processors: the empty set, which the system refuses. *)
Example no_processors :
  bind_to_numa (Some [LF]) (fun s => negb (bool_decide (s = ∅))) = Ok (-1, None).
Proof. vm_compute. reflexivity. Qed.

(** A line that is longer than the buffer is cut inside a number: the list
    ends with processor 1 where the file says 12. *)
Example long_line_cut :
  let line := concat (replicate 511 (str "0,")) ++ str "12" ++ [LF] in
  bind_to_numa (Some line) (fun s => bool_decide (s = {[0; 1]})) = Ok (0, Some {[0; 1]}).
Proof. vm_compute. reflexivity. Qed.
