(* ===== verification/Capture.v ===== *)
(** * The capture program in the kernel (sync_filter.bpf.c)

    The classifier looks at each frame that arrives and hands the payload of the
    segments for port 2000 to the relay, at most [MAX_PAYLOAD_SIZE] bytes of
    each.  [linear] are the bytes between [data] and [data_end]; what
    [bpf_skb_load_bytes] gives for an offset and a length, and whether the ring
    of events has room, are arguments.  The address and the port of the sender,
    which the relay never reads, are not kept in the event. *)

From S2P Require Import Prelude Memory Relay.

Open Scope Z_scope.
Open Scope kvs_scope.

Definition ETH_HLEN : Z := 14.
Definition ETH_P_IP : Z := 0x0800.

(** A byte and the integers of a header, most significant byte first. *)
Definition u8_at (l : bytes) (i : nat) : Z := b2z (l !!! i).
Definition be16_at (l : bytes) (i : nat) : Z := 256 * u8_at l i + u8_at l (S i).
Definition be32_at (l : bytes) (i : nat) : Z := 65536 * be16_at l i + be16_at l (S (S i)).

(** The fields of the headers, at their offsets in the frame: the TCP header is
    taken to follow an IP header without options. *)
Definition h_proto (l : bytes) : Z := be16_at l 12.
Definition ip_ihl (l : bytes) : Z := Z.land (u8_at l 14) 15.
Definition ip_tot_len (l : bytes) : Z := be16_at l 16.
Definition ip_protocol (l : bytes) : Z := u8_at l 23.
Definition ip_saddr (l : bytes) : Z := be32_at l 26.
Definition tcp_dest (l : bytes) : Z := be16_at l 36.
Definition tcp_seq (l : bytes) : Z := be32_at l 38.
Definition tcp_doff (l : bytes) : Z := Z.shiftr (u8_at l 46) 4.
Definition tcp_rst_syn_fin (l : bytes) : bool := negb (Z.land (u8_at l 47) 7 =? 0).

(** [handle_tc_dual_write]: the event submitted, and the drop counter. *)
Definition handle_tc_dual_write (linear : bytes) (load : Z -> Z -> option bytes) (reserve : bool)
  (drops : Z) : option event_t * Z :=
  let avail := Z.of_nat (length linear) in
  if avail <? ETH_HLEN then (None, drops)
  else if negb (h_proto linear =? ETH_P_IP) then (None, drops)
  else if avail <? ETH_HLEN + 20 then (None, drops)
  else if negb (ip_protocol linear =? 6) then (None, drops)
  else if avail <? ETH_HLEN + 40 then (None, drops)
  else if negb (tcp_dest linear =? 2000) then (None, drops)
  else if ip_saddr linear =? 0xc0a82581 then (None, drops)
  else if tcp_rst_syn_fin linear then (None, drops)
  else
    let total := ip_tot_len linear in
    let ihl := ip_ihl linear * 4 in
    let thl := tcp_doff linear * 4 in
    let len := total - ihl - thl in
    if len <? 1 then (None, drops)
    else
      let len := if MAX_PAYLOAD_SIZE <? len then MAX_PAYLOAD_SIZE else len in
      let offset := ETH_HLEN + ihl + thl in
      if negb reserve then (None, u64 (drops + 1))
      else
        match load offset len with
        | None => (None, drops)
        | Some payload => (Some (Event (tcp_seq linear) payload), drops)
        end.

(** ** Frames *)

Definition be16_bytes (n : Z) : bytes := [z2b (n / 256); z2b n].
Definition be32_bytes (n : Z) : bytes := be16_bytes (n / 65536) ++ be16_bytes n.

(** A data segment for port 2000 without options, its other fields zero. *)
Definition tcp_header (saddr seq : Z) (len : nat) : bytes :=
  replicate 12 x00 ++ be16_bytes ETH_P_IP ++
  [x45; x00] ++ be16_bytes (40 + Z.of_nat len) ++ replicate 5 x00 ++ [x06; x00; x00] ++
  be32_bytes saddr ++ replicate 4 x00 ++
  [x00; x00] ++ be16_bytes 2000 ++ be32_bytes seq ++ replicate 4 x00 ++ [x50; x18] ++
  replicate 6 x00.

Definition tcp_frame (saddr seq : Z) (payload : bytes) : bytes :=
  tcp_header saddr seq (length payload) ++ payload.

(** [bpf_skb_load_bytes]: bytes of the frame, or a failure. *)
Definition load_of_frame (frame : bytes) (off len : Z) : option bytes :=
  if (0 <=? off) && (0 <? len) && (off + len <=? Z.of_nat (length frame))
  then Some (take (Z.to_nat len) (drop (Z.to_nat off) frame)) else None.

Lemma be16_round n : 0 <= n < 65536 -> 256 * b2z (z2b (n / 256)) + b2z (z2b n) = n.
Proof. intros. rewrite !b2z_z2b. Z.to_euclidean_division_equations. lia. Qed.

Lemma be32_round n :
  0 <= n < 2 ^ 32 ->
  65536 * (256 * b2z (z2b (n / 65536 / 256)) + b2z (z2b (n / 65536)))
    + (256 * b2z (z2b (n / 256)) + b2z (z2b n)) = n.
Proof.
  intros. rewrite be16_round by (Z.to_euclidean_division_equations; lia).
  rewrite !b2z_z2b. Z.to_euclidean_division_equations. lia.
Qed.

Lemma linear_byte saddr seq payload m i :
  (54 <= m)%nat -> (i < 54)%nat ->
  take m (tcp_frame saddr seq payload) !!! i = tcp_header saddr seq (length payload) !!! i.
Proof.
  intros Hm Hi. rewrite !list_lookup_total_alt. f_equal. unfold tcp_frame.
  rewrite lookup_take_lt by lia. by rewrite lookup_app_l by done.
Qed.

Lemma handle_tcp_frame saddr seq payload m drops :
  (54 <= m)%nat -> 0 <= saddr < 2 ^ 32 -> saddr <> 0xc0a82581 -> 0 <= seq < 2 ^ 32 ->
  0 < Z.of_nat (length payload) <= 65495 ->
  handle_tc_dual_write (take m (tcp_frame saddr seq payload))
    (load_of_frame (tcp_frame saddr seq payload)) true drops
  = (Some (Event seq (take (Z.to_nat MAX_PAYLOAD_SIZE) payload)), drops).
Proof.
  intros Hm Hsa Hne Hseq Hlen. set (frame := tcp_frame saddr seq payload).
  assert (Hfl : length frame = (54 + length payload)%nat) by done.
  assert (Hl : (54 <= length (take m frame))%nat) by (rewrite length_take; lia).
  assert (Hproto : h_proto (take m frame) = ETH_P_IP).
  { unfold h_proto, be16_at, u8_at, frame. by rewrite !linear_byte by lia. }
  assert (Hip : ip_protocol (take m frame) = 6).
  { unfold ip_protocol, u8_at, frame. by rewrite !linear_byte by lia. }
  assert (Hdest : tcp_dest (take m frame) = 2000).
  { unfold tcp_dest, be16_at, u8_at, frame. by rewrite !linear_byte by lia. }
  assert (Hsaddr : ip_saddr (take m frame) = saddr).
  { unfold ip_saddr, be32_at, be16_at, u8_at, frame. rewrite !linear_byte by lia.
    by apply be32_round. }
  assert (Hsq : tcp_seq (take m frame) = seq).
  { unfold tcp_seq, be32_at, be16_at, u8_at, frame. rewrite !linear_byte by lia.
    by apply be32_round. }
  assert (Hfl' : tcp_rst_syn_fin (take m frame) = false).
  { unfold tcp_rst_syn_fin, u8_at, frame. by rewrite !linear_byte by lia. }
  assert (Htot : ip_tot_len (take m frame) = 40 + Z.of_nat (length payload)).
  { unfold ip_tot_len, be16_at, u8_at, frame. rewrite !linear_byte by lia.
    apply be16_round. lia. }
  assert (Hihl : ip_ihl (take m frame) = 5).
  { unfold ip_ihl, u8_at, frame. by rewrite !linear_byte by lia. }
  assert (Hdoff : tcp_doff (take m frame) = 5).
  { unfold tcp_doff, u8_at, frame. by rewrite !linear_byte by lia. }
  unfold handle_tc_dual_write.
  rewrite Hproto, Hip, Hdest, Hsaddr, Hsq, Hfl', Htot, Hihl, Hdoff, !Z.eqb_refl.
  cbn [negb]. unfold ETH_HLEN, MAX_PAYLOAD_SIZE in *.
  rewrite !(proj2 (Z.ltb_ge (Z.of_nat (length (take m frame))) _)) by lia.
  rewrite (proj2 (Z.eqb_neq _ _)) by done.
  rewrite (proj2 (Z.ltb_ge _ 1)) by lia.
  replace (40 + Z.of_nat (length payload) - 5 * 4 - 5 * 4) with (Z.of_nat (length payload)) by lia.
  set (len := if 1024 <? Z.of_nat (length payload) then 1024 else Z.of_nat (length payload)).
  assert (Hlen' : 0 < len <= Z.of_nat (length payload) /\
                  take (Z.to_nat len) payload = take (Z.to_nat 1024) payload).
  { unfold len. destruct (Z.ltb_spec 1024 (Z.of_nat (length payload))); [split; [lia|done]|].
    split; [lia|]. by rewrite !take_ge by lia. }
  unfold load_of_frame. rewrite Hfl. simpl (14 + 5 * 4 + 5 * 4).
  rewrite (proj2 (Z.ltb_lt _ _)), (proj2 (Z.leb_le (54 + len) _)) by lia. simpl.
  by rewrite drop_0, (proj2 Hlen').
Qed.
