(* ===== verification/RelaySpec.v ===== *)
(** * What the relay forwards

    As long as the pool of early packets does not overflow, what is sent and
    what waits in the ring is a piece of the stream from the first packet on,
    for packets in any order, repeated and overlapping; and when the packets
    cut the stream into pieces, all of it is there once each piece has come.
    A byte that no event carries stops the relay for good: that is what happens
    behind a packet longer than the kernel program copies. *)

From S2P Require Import Prelude Memory Relay RingSpec Capture.

Open Scope Z_scope.
Open Scope kvs_scope.

(** ** Positions of the stream and sequence numbers *)

Definition seq_at (isn : Z) (k : nat) : Z := u32 (isn + Z.of_nat k).

Definition cut (s : bytes) (o n : nat) : bytes := take n (drop o s).

(** The event carries the bytes of the stream [s] from position [p] on. *)
Definition segment (isn : Z) (s : bytes) (p : nat) (e : event_t) : Prop :=
  ev_seq e = seq_at isn p /\ (0 < length (ev_payload e))%nat /\
  Z.of_nat (length (ev_payload e)) <= MAX_PAYLOAD_SIZE /\
  (p + length (ev_payload e) <= length s)%nat /\
  ev_payload e = cut s p (length (ev_payload e)).

Definition is_segment (isn : Z) (s : bytes) (e : event_t) : Prop := exists p, segment isn s p e.

Definition carries (isn : Z) (s : bytes) (e : event_t) (k : nat) : Prop :=
  exists p, segment isn s p e /\ (p <= k < p + length (ev_payload e))%nat.

Definition node_of (e : event_t) : ooo_node := OooNode (ev_seq e) (ev_payload e).

Lemma length_cut s o n : (o + n <= length s)%nat -> length (cut s o n) = n.
Proof. intros. unfold cut. rewrite length_take, length_drop. lia. Qed.

Lemma cut_app s o a b : cut s o a ++ cut s (o + a) b = cut s o (a + b).
Proof.
  unfold cut. rewrite <- drop_drop. generalize (drop o s). intros l.
  revert l. induction a as [|a IH]; intros [|x l]; simpl; [done|done|by rewrite ?take_nil|].
  f_equal. apply IH.
Qed.

Lemma cut_cut s o n a b : (a + b <= n)%nat -> cut (cut s o n) a b = cut s (o + a) b.
Proof.
  intros H. unfold cut. rewrite skipn_firstn_comm, take_take, drop_drop. f_equal. lia.
Qed.

Lemma seq_gt_at isn a b :
  Z.of_nat a < 2 ^ 31 -> Z.of_nat b < 2 ^ 31 ->
  SEQ_GT (seq_at isn a) (seq_at isn b) = (b <? a)%nat.
Proof.
  intros Ha Hb. unfold SEQ_GT, seq_at, u32. rewrite <- Zminus_mod.
  replace (isn + Z.of_nat a - (isn + Z.of_nat b)) with (Z.of_nat a - Z.of_nat b) by lia.
  unfold i32. rewrite Zplus_mod_idemp_l, Z.mod_small by lia.
  destruct (Z.ltb_spec 0 (Z.of_nat a - Z.of_nat b + 2 ^ 31 - 2 ^ 31)), (Nat.ltb_spec b a);
    (done || lia).
Qed.

Lemma seq_at_inj isn a b :
  Z.of_nat a < 2 ^ 31 -> Z.of_nat b < 2 ^ 31 -> seq_at isn a = seq_at isn b -> a = b.
Proof.
  intros Ha Hb E. pose proof (seq_gt_at isn a b Ha Hb) as H1.
  pose proof (seq_gt_at isn b a Hb Ha) as H2. rewrite E in H1. rewrite <- E in H2 at 1.
  rewrite E in H2. unfold SEQ_GT in *. rewrite Z.sub_diag in *. simpl in *.
  destruct (Nat.ltb_spec b a), (Nat.ltb_spec a b); (done || lia).
Qed.

Lemma seq_at_add isn p n : u32 (seq_at isn p + Z.of_nat n) = seq_at isn (p + n).
Proof. unfold seq_at, u32. rewrite Zplus_mod_idemp_l. f_equal. lia. Qed.

Lemma seq_at_sub isn a b :
  (b <= a)%nat -> Z.of_nat a < 2 ^ 31 -> u32 (seq_at isn a - seq_at isn b) = Z.of_nat (a - b).
Proof.
  intros Hab Ha. unfold seq_at, u32. rewrite <- Zminus_mod.
  replace (isn + Z.of_nat a - (isn + Z.of_nat b)) with (Z.of_nat (a - b)) by lia.
  apply Z.mod_small. lia.
Qed.

(** ** The pool *)

Lemma find_seq_Some pool seq i :
  ooo_find_seq pool seq = Some i -> exists n, pool !! i = Some (Some n) /\ oo_seq n = seq.
Proof.
  unfold ooo_find_seq. intros ([? ?] & (H1 & H2 & _)%list_find_Some & ->)%fmap_Some. simpl.
  apply fmap_Some in H2 as (nd & -> & ->). eauto.
Qed.

Lemma find_seq_None pool seq n :
  ooo_find_seq pool seq = None -> Some n ∈ pool -> oo_seq n <> seq.
Proof.
  unfold ooo_find_seq. intros H%fmap_None Hn E. apply list_find_None in H.
  rewrite Forall_forall in H. apply (H _ Hn). by rewrite <- E.
Qed.

Lemma find_seq_None_2 pool seq :
  (forall n, Some n ∈ pool -> oo_seq n <> seq) -> ooo_find_seq pool seq = None.
Proof.
  intros Hp. unfold ooo_find_seq. apply fmap_None, list_find_None, Forall_forall.
  intros [n|] Hn; [|done]. simpl. intros [= E]. by apply (Hp n).
Qed.

Lemma find_free_Some pool i : ooo_find_free pool = Some i -> pool !! i = Some None.
Proof.
  unfold ooo_find_free. intros ([? ?] & (H1 & -> & _)%list_find_Some & ->)%fmap_Some. done.
Qed.

(** The entries in use, which bound the turns of [ooo_flush]. *)
Definition in_use (pool : list (option ooo_node)) : nat := length (filter is_Some pool).

Lemma in_use_bound pool : (in_use pool <= length pool)%nat.
Proof. apply length_filter. Qed.

Lemma in_use_release pool i n :
  pool !! i = Some (Some n) -> (S (in_use (<[i := None]> pool)) = in_use pool)%nat.
Proof.
  unfold in_use. revert i. induction pool as [|o pool IH]; intros [|i] Hi; simplify_eq/=.
  - by rewrite !filter_cons.
  - rewrite (filter_cons _ o (<[i:=None]> pool)), (filter_cons _ o pool).
    destruct (decide (is_Some o)); simpl; by rewrite <- (IH i Hi).
Qed.

Lemma elem_of_release (pool : list (option ooo_node)) i o n :
  pool !! i = Some (Some n) -> o <> n -> Some o ∈ pool -> Some o ∈ <[i := None]> pool.
Proof.
  intros Hi Hne (j & Hj)%list_elem_of_lookup. apply list_elem_of_lookup. exists j.
  rewrite list_lookup_insert_ne; [done|]. intros ->. congruence.
Qed.

Lemma elem_of_released (pool : list (option ooo_node)) (i : nat) o : Some o ∈ <[i := None]> pool -> Some o ∈ pool.
Proof.
  intros (j & Hj)%list_elem_of_lookup. apply list_lookup_insert_Some in Hj as [(_ & ? & _)|[_ Hj]].
  - done.
  - by eapply list_elem_of_lookup_2.
Qed.

(** ** The invariant *)

(** [r] has forwarded, of the stream [s], the bytes from position [o] to
    position [n], each of them carried by one of the events [es]; what waits in
    the pool are events of [es]. *)
Record forwarding (isn : Z) (s : bytes) (o : nat) (es : list event_t) (r : relay) (n : nat)
  : Prop := {
  fw_ring : ring_ok (rl_rb r);
  fw_pool_length : length (rl_pool r) = OOO_MAX;
  fw_range : (o <= n <= length s)%nat;
  fw_expected : rl_expected r = seq_at isn n;
  fw_bytes : rl_sent r ++ ring_content (rl_rb r) = cut s o (n - o);
  fw_events : forall e, e ∈ es -> is_segment isn s e;
  fw_pool : forall nd, Some nd ∈ rl_pool r -> exists e, e ∈ es /\ nd = node_of e;
  fw_carried : forall k, (o <= k < n)%nat -> exists e, e ∈ es /\ carries isn s e k
}.

(** Every event of [es] is behind position [n] or waits in the pool. *)
Definition settled (isn : Z) (s : bytes) (es : list event_t) (r : relay) (n : nat) : Prop :=
  forall e p, e ∈ es -> segment isn s p e ->
  (p + length (ev_payload e) <= n)%nat \/ (n <= p)%nat /\ Some (node_of e) ∈ rl_pool r.

(** Two different events never share a byte. *)
Definition no_overlap (isn : Z) (s : bytes) (es : list event_t) : Prop :=
  forall e e' k, e ∈ es -> e' ∈ es -> carries isn s e k -> carries isn s e' k -> e = e'.

Section stream.
  Context (al : allocator) (isn : Z) (s : bytes).
  Hypothesis Hal : memory_for_ring al.
  Hypothesis Hlen : Z.of_nat (length s) < 2 ^ 31.

Lemma segment_pos p q e : segment isn s p e -> segment isn s q e -> p = q.
Proof.
  intros (E1 & L1 & _ & R1 & _) (E2 & L2 & _ & R2 & _).
  apply (seq_at_inj isn); [lia|lia|congruence].
Qed.

(** Forwarding the next bytes of the stream. *)
Lemma forward_ok o es r n m :
  forwarding isn s o es r n -> (n + m <= length s)%nat -> Z.of_nat m <= MAX_PAYLOAD_SIZE ->
  (forall k, (n <= k < n + m)%nat -> exists e, e ∈ es /\ carries isn s e k) ->
  exists r', forward al r (cut s n m) = Ok r' /\ forwarding isn s o es r' (n + m) /\
    rl_pool r' = rl_pool r /\ rl_seq_initialized r' = rl_seq_initialized r.
Proof.
  intros [Hr Hpl Hn He Hb Hes Hp Hc] Hm Hmax Hcar.
  pose proof (length_cut s n m Hm) as Hl.
  assert (Hfill : rb_bytes (rl_rb r) < 2 ^ 31).
  { pose proof (f_equal length Hb) as HL. rewrite length_app, length_content in HL.
    rewrite length_cut in HL by lia. lia. }
  destruct (rb_write_ok al (rl_rb r) (cut s n m) Hal Hr) as (rb' & Hw & Hr' & Hc');
    [unfold MAX_PAYLOAD_SIZE in *; lia..|].
  unfold forward. rewrite Hw. cbn [rbind fst]. eexists. split; [done|].
  split; [|done]. split; simpl; [done|done|lia| | |done|done|].
  - by rewrite He, Hl, seq_at_add.
  - rewrite Hc', app_assoc, Hb. replace n with (o + (n - o))%nat at 2 by lia.
    rewrite cut_app. f_equal. lia.
  - intros k Hk. destruct (decide (k < n)%nat); [apply Hc|apply Hcar]; lia.
Qed.

Lemma forwarding_pool o es r n pool' :
  forwarding isn s o es r n -> length pool' = OOO_MAX ->
  (forall nd, Some nd ∈ pool' -> exists e, e ∈ es /\ nd = node_of e) ->
  forwarding isn s o es (with_pool pool' r) n.
Proof. intros [] Hl Hp. by split. Qed.

(** Advancing over an event at the expected position. *)
Lemma settled_advance es r n e pool' :
  (forall e', e' ∈ es -> is_segment isn s e') ->
  no_overlap isn s es -> settled isn s (filter (fun e' => e' <> e) es) r n ->
  e ∈ es -> segment isn s n e ->
  (forall e', e' ∈ es -> e' <> e -> Some (node_of e') ∈ rl_pool r -> Some (node_of e') ∈ pool') ->
  forall r', rl_pool r' = pool' -> settled isn s es r' (n + length (ev_payload e)).
Proof.
  intros Hes Hno Hset He Hseg Hkeep r' <- e' p' He' Hp'.
  destruct (decide (e' = e)) as [->|Hne].
  { left. by rewrite (segment_pos _ _ _ Hp' Hseg). }
  destruct (Hset e' p') as [?|[Hge Hin]]; [by apply list_elem_of_filter|done|left; lia|].
  right. split; [|by apply Hkeep].
  apply Nat.le_ngt. intros Hlt. apply Hne. apply (Hno e' e p'); [done|done| |].
  - exists p'. split; [done|]. destruct Hp' as (_ & ? & _). lia.
  - exists n. split; [done|lia].
Qed.

(** Taking the entries at the expected position out of the pool. *)
Lemma ooo_flush_ok o es fuel r n :
  forwarding isn s o es r n -> (in_use (rl_pool r) < fuel)%nat ->
  exists r' n', ooo_flush fuel al r = Ok r' /\ forwarding isn s o es r' n' /\
    ooo_find_seq (rl_pool r') (rl_expected r') = None /\
    rl_seq_initialized r' = rl_seq_initialized r /\
    (no_overlap isn s es -> settled isn s es r n -> settled isn s es r' n').
Proof.
  revert r n. induction fuel as [|fuel IH]; intros r n Hfw Hfuel; [lia|]. simpl.
  destruct (ooo_find_seq (rl_pool r) (rl_expected r)) as [i|] eqn:Hfind; [|by exists r, n].
  apply find_seq_Some in Hfind as (nd & Hi & Hseq). rewrite Hi.
  destruct (fw_pool _ _ _ _ _ _ Hfw nd) as (e & He & ->); [by eapply list_elem_of_lookup_2|].
  destruct (fw_events _ _ _ _ _ _ Hfw e He) as (p & Hseg).
  pose proof (fw_range _ _ _ _ _ _ Hfw) as Hr.
  assert (p = n) as ->.
  { destruct Hseg as (E & L & _ & R & _). apply (seq_at_inj isn); [lia|lia|].
    rewrite <- E, <- (fw_expected _ _ _ _ _ _ Hfw). done. }
  pose proof Hseg as (_ & _ & Hmax & Hend & Hdata).
  destruct (forward_ok o es r n (length (ev_payload e)) Hfw) as (r1 & Hf1 & Hfw1 & Hp1 & Hi1);
    [done|done|intros k Hk; exists e; split; [done|by exists n]|].
  rewrite <- Hdata in Hf1. cbn [node_of oo_data]. rewrite Hf1. cbn [rbind].
  destruct (IH (with_pool (<[i := None]> (rl_pool r1)) r1) (n + length (ev_payload e))%nat)
    as (r' & n' & H1 & H2 & H3 & H4 & H5).
  - apply forwarding_pool; [done| |].
    + rewrite length_insert. by apply (fw_pool_length _ _ _ _ _ _ Hfw1).
    + intros nd Hnd%elem_of_released. by apply (fw_pool _ _ _ _ _ _ Hfw1).
  - simpl. rewrite Hp1. pose proof (in_use_release _ _ _ Hi). lia.
  - exists r', n'. split; [done|]. split; [done|]. split; [done|].
    split; [by rewrite H4|]. intros Hno Hset. apply H5; [done|].
    apply (settled_advance es r n e (<[i := None]> (rl_pool r)));
      [apply Hfw|done| |done|done| |simpl; by rewrite Hp1].
    { intros e' p' He' Hp'. apply Hset; [|done]. by apply list_elem_of_filter in He' as [_ ?]. }
    intros e' _ Hne Hin. apply (elem_of_release _ _ _ (node_of e)); [done| |done].
    intros Heq. apply Hne. destruct e, e'. unfold node_of in Heq. simpl in Heq. congruence.
Qed.

Lemma forwarding_event o es r n e :
  forwarding isn s o es r n -> is_segment isn s e -> forwarding isn s o (es ++ [e]) r n.
Proof.
  intros [] He. split; try done.
  - intros e' [?| ->%list_elem_of_singleton]%elem_of_app; auto.
  - intros nd Hnd. destruct (fw_pool0 nd Hnd) as (e' & ? & ->). exists e'.
    by rewrite elem_of_app; auto.
  - intros k Hk. destruct (fw_carried0 k Hk) as (e' & ? & ?). exists e'.
    by rewrite elem_of_app; auto.
Qed.

(** What one event does to the invariant. *)
Definition event_keeps (o : nat) (es : list event_t) (r : relay) (n : nat) (e : event_t)
  (r' : relay) : Prop :=
  exists n', forwarding isn s o (es ++ [e]) r' n' /\
    ooo_find_seq (rl_pool r') (rl_expected r') = None /\
    (o = 0%nat -> no_overlap isn s (es ++ [e]) -> settled isn s es r n ->
     settled isn s (es ++ [e]) r' n').

(** New bytes go to the ring, then what waited for them. *)
Lemma advance_keeps o es r n e p m :
  forwarding isn s o es r n -> segment isn s p e -> (p <= n)%nat -> (0 < m)%nat ->
  (n + m)%nat = (p + length (ev_payload e))%nat ->
  exists r1 r', forward al r (cut s n m) = Ok r1 /\ ooo_flush (S OOO_MAX) al r1 = Ok r' /\
    rl_seq_initialized r' = rl_seq_initialized r /\ event_keeps o es r n e r'.
Proof.
  intros Hfw Hseg Hp Hpos Hm. pose proof Hseg as (_ & _ & Hmax & Hend & _).
  apply forwarding_event with (e := e) in Hfw as Hfw'; [|by exists p].
  destruct (forward_ok o (es ++ [e]) r n m Hfw') as (r1 & Hf & Hfw1 & Hp1 & Hi1); [lia|lia| |].
  { intros k Hk. exists e. rewrite elem_of_app, list_elem_of_singleton. split; [auto|].
    exists p. split; [done|lia]. }
  destruct (ooo_flush_ok o (es ++ [e]) (S OOO_MAX) r1 (n + m) Hfw1)
    as (r' & n' & H1 & H2 & H3 & H4 & H5).
  { pose proof (in_use_bound (rl_pool r1)). rewrite (fw_pool_length _ _ _ _ _ _ Hfw1) in *. lia. }
  exists r1, r'. split; [done|]. split; [done|]. split; [congruence|].
  exists n'. split; [done|]. split; [done|]. intros -> Hno Hset. apply H5; [done|].
  assert (e ∈ es ++ [e]) by (rewrite elem_of_app, list_elem_of_singleton; auto).
  destruct (decide (p = n)) as [->|Hne].
  - replace m with (length (ev_payload e)) by lia.
    apply (settled_advance (es ++ [e]) r n e (rl_pool r)); [|done| |done|done|done|done].
    + apply (fw_events _ _ _ _ _ _ Hfw').
    + intros e' p' [Hne He']%list_elem_of_filter Hp'. apply Hset; [|done].
      apply elem_of_app in He' as [?|?%list_elem_of_singleton]; done.
  - destruct (fw_carried _ _ _ _ _ _ Hfw p) as (e0 & He0 & Hc0); [lia|].
    assert (e0 = e) as ->.
    { apply (Hno e0 e p); [rewrite elem_of_app; auto|done|done|].
      exists p. split; [done|]. destruct Hseg as (_ & ? & _). lia. }
    destruct (Hset e p He0 Hseg) as [?|[? ?]]; lia.
Qed.

(** An event ahead of the stream waits, unless the pool is full. *)
Lemma insert_keeps o es r n e p :
  forwarding isn s o es r n -> ooo_find_seq (rl_pool r) (rl_expected r) = None ->
  segment isn s p e -> (n < p)%nat ->
  exists r', ooo_insert r (ev_seq e) (ev_payload e) = Ok r' /\
    (rl_seq_initialized r' = true -> rl_seq_initialized r = true -> event_keeps o es r n e r').
Proof.
  intros Hfw Hnone Hseg Hp. pose proof Hseg as (Hs & Hpos & Hmax & Hend & Hdata).
  apply forwarding_event with (e := e) in Hfw as Hfw'; [|by exists p].
  assert (Hce : carries isn s e p) by (exists p; split; [done|lia]).
  unfold ooo_insert. destruct (ooo_find_seq (rl_pool r) (ev_seq e)) as [i|] eqn:Hfind.
  - exists r. split; [done|]. intros _ _. exists n. split; [done|]. split; [done|].
    intros -> Hno Hset e' p' He' Hp'.
    apply elem_of_app in He' as [?| ->%list_elem_of_singleton]; [by apply Hset|].
    rewrite (segment_pos p' p e) by done. right. split; [lia|].
    apply find_seq_Some in Hfind as (nd & Hi & Hnd). apply list_elem_of_lookup_2 in Hi.
    destruct (fw_pool _ _ _ _ _ _ Hfw nd Hi) as (e0 & He0 & ->).
    destruct (fw_events _ _ _ _ _ _ Hfw e0 He0) as (p0 & Hp0).
    assert (e0 = e) as ->; [|done].
    apply (Hno e0 e p); [rewrite elem_of_app; auto|rewrite elem_of_app, list_elem_of_singleton; auto| |done].
    exists p0. split; [done|]. pose proof Hp0 as (E & ? & _ & ? & _).
    assert (p0 = p) as -> by (apply (seq_at_inj isn); [lia|lia|simpl in *; congruence]). lia.
  - destruct (ooo_find_free (rl_pool r)) as [i|] eqn:Hfree; [|by eexists].
    rewrite in_block_ok by lia. eexists. split; [done|]. intros _ _.
    apply find_free_Some in Hfree. pose proof (lookup_lt_Some _ _ _ Hfree) as Hilt.
    assert (Hnew : forall nd, Some nd ∈ <[i := Some (node_of e)]> (rl_pool r) <->
                              nd = node_of e \/ Some nd ∈ rl_pool r).
    { intros nd. rewrite !list_elem_of_lookup. split.
      - intros (j & [(_ & [= ->] & _)|[_ Hj]]%list_lookup_insert_Some); eauto.
      - intros [->|(j & Hj)]; [exists i; by apply list_lookup_insert_eq|].
        exists j. rewrite list_lookup_insert_ne; [done|]. congruence. }
    exists n. split; [|split].
    + apply forwarding_pool; [done|by rewrite length_insert, (fw_pool_length _ _ _ _ _ _ Hfw)|].
      intros nd [->|Hnd]%Hnew; [exists e; by rewrite elem_of_app, list_elem_of_singleton; auto|].
      by apply (fw_pool _ _ _ _ _ _ Hfw').
    + apply find_seq_None_2. simpl. intros nd [->|Hnd]%Hnew.
      * simpl. rewrite Hs, (fw_expected _ _ _ _ _ _ Hfw). intros E%seq_at_inj; lia.
      * by apply (find_seq_None _ _ _ Hnone).
    + intros -> Hno Hset e' p' [He'| ->%list_elem_of_singleton]%elem_of_app Hp'.
      * destruct (Hset e' p' He' Hp') as [?|[? ?]]; [by left|right]. split; [done|].
        apply Hnew. by right.
      * rewrite (segment_pos p' p e) by done. right. split; [lia|]. apply Hnew. by left.
Qed.

Lemma process_ok o es r n e p :
  forwarding isn s o es r n -> ooo_find_seq (rl_pool r) (rl_expected r) = None ->
  rl_seq_initialized r = true -> segment isn s p e ->
  exists r', process_tcp_payload al r (ev_seq e) (ev_payload e) = Ok r' /\
    (rl_seq_initialized r' = true -> event_keeps o es r n e r').
Proof.
  intros Hfw Hnone Hinit Hseg. pose proof Hseg as (Hs & Hpos & Hmax & Hend & Hdata).
  pose proof (fw_range _ _ _ _ _ _ Hfw) as Hr.
  unfold process_tcp_payload. rewrite Hinit, (fw_expected _ _ _ _ _ _ Hfw), Hs.
  destruct (Z.eqb_spec (seq_at isn p) (seq_at isn n)) as [E|E].
  - apply seq_at_inj in E as ->; [|lia..].
    destruct (advance_keeps o es r n e n (length (ev_payload e)) Hfw Hseg) as (r1 & r' & F1 & F2 & F3 & F4);
      [lia..|]. rewrite <- Hdata in F1. rewrite F1. cbn [rbind]. eauto.
  - assert (p <> n) by congruence. rewrite seq_gt_at by lia.
    destruct (Nat.ltb_spec n p).
    { destruct (insert_keeps o es r n e p Hfw Hnone Hseg) as (r' & Hr' & Hk); [done|].
      exists r'. rewrite <- Hs. auto. }
    rewrite seq_at_add, seq_gt_at by lia.
    destruct (Nat.ltb_spec n (p + length (ev_payload e))).
    + rewrite !seq_at_sub, !Nat2Z.id by lia.
      set (m := (p + length (ev_payload e) - n)%nat). rewrite in_block_ok by lia.
      assert (take m (drop (n - p) (ev_payload e)) = cut s n m) as ->.
      { change (cut (ev_payload e) (n - p) m = cut s n m). rewrite Hdata, cut_cut by lia.
        f_equal. lia. }
      destruct (advance_keeps o es r n e p m Hfw Hseg) as (r1 & r' & F1 & F2 & F3 & F4);
        [lia..|]. rewrite F1. cbn [rbind]. eauto.
    + exists r. split; [done|]. intros _. exists n.
      split; [apply forwarding_event; [done|by exists p]|]. split; [done|].
      intros -> Hno Hset e' p' [?| ->%list_elem_of_singleton]%elem_of_app Hp'; [by apply Hset|].
      rewrite (segment_pos p' p e) by done. by left.
Qed.

(** ** Runs *)

(** Before the first event there is nothing, after it the invariant holds. *)
Definition run_inv (o : nat) (es : list event_t) (r : relay) : Prop :=
  match es with
  | [] => ring_ok (rl_rb r) /\ rl_pool r = empty_pool /\ rl_seq_initialized r = false /\
          rl_sent r ++ ring_content (rl_rb r) = []
  | _ => exists n, forwarding isn s o es r n /\ rl_seq_initialized r = true /\
           ooo_find_seq (rl_pool r) (rl_expected r) = None /\
           (o = 0%nat -> no_overlap isn s es -> settled isn s es r n)
  end.

Lemma handle_segment r e :
  is_segment isn s e -> handle_event al r e = process_tcp_payload al r (ev_seq e) (ev_payload e).
Proof.
  intros (p & _ & Hpos & Hmax & _). unfold handle_event.
  rewrite (proj2 (Z.eqb_neq _ _)), (proj2 (Z.ltb_ge _ _)) by lia. done.
Qed.

(** Any event of the stream can come next. *)
Lemma event_step o es r e :
  run_inv o es r -> is_segment isn s e -> (es = [] -> segment isn s o e) ->
  exists r', handle_event al r e = Ok r' /\
    (rl_seq_initialized r' = true -> run_inv o (es ++ [e]) r').
Proof.
  intros Hinv He Hfirst. rewrite handle_segment by done. destruct es as [|e0 es].
  - specialize (Hfirst eq_refl). destruct Hinv as (Hr & Hp & Hi & Hb).
    set (r1 := Relay (rl_rb r) (rl_pool r) (ev_seq e) true (rl_running r) (rl_sent r)).
    assert (Hempty : forall nd, Some nd ∉ rl_pool r).
    { rewrite Hp. intros nd Hnd%elem_of_replicate. by destruct Hnd. }
    destruct (process_ok o [] r1 o e o) as (r' & H1 & H2); [|by apply find_seq_None_2; simpl; intros nd ?%Hempty|done|done|].
    { pose proof Hfirst as (E & _ & _ & R & _). split; simpl; try done.
      - by rewrite Hp.
      - lia.
      - by rewrite Hb, Nat.sub_diag.
      - by intros e' ?%not_elem_of_nil.
      - by intros nd ?%Hempty.
      - lia. }
    exists r'. split; [unfold process_tcp_payload; by rewrite Hi|].
    intros Hinit. destruct (H2 Hinit) as (n' & F1 & F2 & F3). exists n'. split; [done|].
    split; [done|]. split; [done|]. intros Ho Hno. apply F3; [done|done|].
    by intros e' p' ?%not_elem_of_nil.
  - destruct Hinv as (n & Hfw & Hi & Hnone & Hset). destruct He as (p & Hseg).
    destruct (process_ok o (e0 :: es) r n e p) as (r' & H1 & H2); [done..|].
    exists r'. split; [done|]. intros Hinit. destruct (H2 Hinit) as (n' & F1 & F2 & F3).
    exists n'. split; [done|]. split; [done|]. split; [done|]. intros Ho Hno.
    apply F3; [done|done|]. apply Hset; [done|]. intros e1 e2 k K1 K2.
    apply Hno; rewrite elem_of_app; by left.
Qed.

Lemma run_inv_ring o es r : run_inv o es r -> ring_ok (rl_rb r).
Proof. intros Hinv. destruct es; [apply Hinv|by destruct Hinv as (n & [] & _)]. Qed.

Lemma flush_keeps o es r answers r' :
  run_inv o es r -> flush_all answers r = Ok r' -> run_inv o es r'.
Proof.
  intros Hinv Hf. destruct (flush_all_ok answers r (run_inv_ring o es r Hinv))
    as (r1 & Hf1 & [S1 S2 S3 S4 S5]). rewrite Hf in Hf1. injection Hf1 as <-.
  destruct es as [|e0 es]; simpl in *.
  - rewrite S2, S3, S5. by destruct Hinv as (_ & ? & ? & ?).
  - destruct Hinv as (n & Hfw & Hi & Hnone & Hset). exists n. rewrite S5, S3, S4.
    split; [|split; [done|split; [done|]]].
    + destruct Hfw. split; rewrite ?S2, ?S3, ?S4; done.
    + intros Ho Hno e p He Hp. rewrite S3. by apply (Hset Ho Hno).
Qed.

Lemma run_keeps o r0 es r :
  relay_run al r0 es r -> run_inv o [] r0 -> (forall e, e ∈ es -> is_segment isn s e) ->
  (forall e, head es = Some e -> segment isn s o e) -> run_inv o es r.
Proof.
  intros Hrun H0. induction Hrun as [r|r0 es r e r' Hrun IH He Hi|r0 es r answers r1 Hrun IH Hf];
    intros Hes Hhd.
  - done.
  - assert (Hinv : run_inv o es r).
    { apply IH; [done| |].
      - intros e' He'. apply Hes. rewrite elem_of_app. by left.
      - intros e' He'. apply Hhd. by destruct es. }
    destruct (event_step o es r e Hinv) as (r'' & H1 & H2).
    + apply Hes. rewrite elem_of_app, list_elem_of_singleton. by right.
    + intros ->. by apply Hhd.
    + rewrite He in H1. injection H1 as <-. by apply H2.
  - eapply flush_keeps; [by apply IH|done].
Qed.

Lemma start_inv o rb : rb_init al RING_SIZE = Some rb -> run_inv o [] (relay_start rb).
Proof.
  unfold rb_init. destruct (al RING_SIZE) as [buf|]; [|done]. intros [= <-].
  split; [by split|]. done.
Qed.
(** The invariant of a run from the first event on. *)
Lemma run_from_start o rb e0 es r :
  rb_init al RING_SIZE = Some rb -> relay_run al (relay_start rb) (e0 :: es) r ->
  segment isn s o e0 -> (forall e, e ∈ es -> is_segment isn s e) -> run_inv o (e0 :: es) r.
Proof.
  intros Hrb Hrun He0 Hes. apply (run_keeps o _ _ _ Hrun (start_inv o rb Hrb)).
  - intros e [->|?]%elem_of_cons; [by exists o|by apply Hes].
  - by intros e [= <-].
Qed.

(** What the kernel program copies of a long packet. *)
Lemma truncated_segment o payload :
  MAX_PAYLOAD_SIZE < Z.of_nat (length payload) <= 65495 ->
  (o + length payload <= length s)%nat -> payload = cut s o (length payload) ->
  let e := Event (seq_at isn o) (take (Z.to_nat MAX_PAYLOAD_SIZE) payload) in
  segment isn s o e /\ length (ev_payload e) = Z.to_nat MAX_PAYLOAD_SIZE.
Proof.
  intros Hpl Hps Hpay e. unfold MAX_PAYLOAD_SIZE in *.
  assert (Hl : length (ev_payload e) = Z.to_nat 1024) by (simpl; rewrite length_take; lia).
  split; [|done]. unfold segment. rewrite Hl. split_and!; [done|lia| |lia|].
  - unfold MAX_PAYLOAD_SIZE. lia.
  - cbn [e ev_payload]. rewrite Hpay. unfold cut. rewrite take_take. f_equal. lia.
Qed.
End stream.

(** ** The promises *)

(** C20.  Whatever the order of the events, repeated and overlapping ones
    included, and however the slave takes the bytes, as long as the pool has not
    overflowed, for a stream of less than 2 GB and with memory for the ring:
    what is sent and what waits in the ring is the stream from the
    first packet on up to some byte, and each forwarded byte was carried by an
    event.  The next event and the next flush are processed without an access
    outside the ring, the packet or an entry of the pool. *)
Theorem relay_forwards_in_order al isn s rb o e0 es r :
  memory_for_ring al -> Z.of_nat (length s) < 2 ^ 31 -> rb_init al RING_SIZE = Some rb ->
  relay_run al (relay_start rb) (e0 :: es) r -> segment isn s o e0 ->
  (forall e, e ∈ es -> is_segment isn s e) ->
  (exists n, rl_sent r ++ ring_content (rl_rb r) = cut s o n /\
     forall k, (o <= k < o + n)%nat -> exists e, e ∈ e0 :: es /\ carries isn s e k) /\
  (forall e, is_segment isn s e -> exists r', handle_event al r e = Ok r') /\
  (forall answers, exists r', flush_all answers r = Ok r').
Proof.
  intros Hal Hlen Hrb Hrun He0 Hes.
  pose proof (run_from_start al isn s Hal Hlen o rb e0 es r Hrb Hrun He0 Hes) as Hinv.
  pose proof (run_inv_ring _ _ _ _ _ Hinv) as Hring.
  destruct Hinv as (n & Hfw & Hi & Hnone & Hset).
  pose proof (fw_range _ _ _ _ _ _ Hfw). split_and!.
  - exists (n - o)%nat. split; [apply (fw_bytes _ _ _ _ _ _ Hfw)|].
    intros k Hk. apply (fw_carried _ _ _ _ _ _ Hfw). lia.
  - intros e He. destruct (event_step al isn s Hal Hlen o (e0 :: es) r e) as (r' & H1 & _);
      [by exists n|done|done|by exists r'].
  - intros answers. destruct (flush_all_ok answers r Hring) as (r' & Hr' & _). by exists r'.
Qed.

(** C19.  The first packet is the start of the stream, no two packets share a
    byte and together they carry all of it, less than 2 GB; there is memory for
    the ring: then, whatever the order of the others, as long as the pool has not overflowed, all of the stream is sent
    or waits in the ring; and when it is shorter than the ring was made and the
    connection is open, turns of the main loop in which the slave takes at
    least a byte each send all of it. *)
Theorem relay_delivers_all al isn s rb e0 es r turns :
  memory_for_ring al -> Z.of_nat (length s) < 2 ^ 31 -> rb_init al RING_SIZE = Some rb ->
  relay_run al (relay_start rb) (e0 :: es) r -> segment isn s 0 e0 ->
  (forall e, e ∈ es -> is_segment isn s e) -> no_overlap isn s (e0 :: es) ->
  (forall k, (k < length s)%nat -> exists e, e ∈ e0 :: es /\ carries isn s e k) ->
  rl_sent r ++ ring_content (rl_rb r) = s /\
  (rl_running r = true -> Z.of_nat (length s) < RING_SIZE ->
   Forall (fun a => a <> [] /\ Forall takes a) turns -> (length s <= length turns)%nat ->
   exists r', flush_turns turns r = Ok r' /\ rl_sent r' = s).
Proof.
  intros Hal Hlen Hrb Hrun He0 Hes Hno Hall.
  pose proof (run_from_start al isn s Hal Hlen 0 rb e0 es r Hrb Hrun He0 Hes) as Hinv.
  pose proof (run_inv_ring _ _ _ _ _ Hinv) as Hring.
  destruct Hinv as (n & Hfw & Hi & Hnone & Hset).
  assert (Hs : rl_sent r ++ ring_content (rl_rb r) = s).
  { rewrite (fw_bytes _ _ _ _ _ _ Hfw). pose proof (fw_range _ _ _ _ _ _ Hfw).
    assert (n = length s) as ->; [|unfold cut; rewrite drop_0, take_ge by lia; done].
    apply Nat.le_antisymm; [lia|]. apply Nat.nlt_ge. intros Hlt.
    destruct (Hall n Hlt) as (e & He & p & Hp & Hk).
    destruct (Hset eq_refl Hno e p He Hp) as [?|[Hge Hin]]; [lia|].
    assert (p = n) as -> by lia. apply (find_seq_None _ _ _ Hnone Hin).
    rewrite (fw_expected _ _ _ _ _ _ Hfw). by destruct Hp as (? & _). }
  split; [done|]. intros Hopen Hfit Hts Hn.
  apply (f_equal length) in Hs as Hl. rewrite length_app, length_content in Hl.
  pose proof (ro_size _ Hring). pose proof (ro_bytes _ Hring).
  destruct (flush_turns_empty turns r Hring) as (r' & Hr' & Hsent); [lia|done|done|lia|].
  exists r'. by rewrite Hsent.
Qed.


(** ** Concrete runs *)

(** A stream of six bytes whose sequence numbers wrap around zero. *)
Definition demo_isn : Z := 2 ^ 32 - 3.
Definition demo_stream : bytes := str "abcdef".
Definition demo_memory : allocator := fun _ => Some (fun _ => x00).
Definition demo_ring : ring_buf := RingBuf (fun _ => x00) RING_SIZE 0 0 0.
Definition demo_event (p n : nat) : event_t :=
  Event (seq_at demo_isn p) (cut demo_stream p n).

(** The state after a list of events. *)
Definition after (es : list event_t) : relay :=
  match poll_events demo_memory (relay_start demo_ring) es with
  | Ok r => r
  | UB => relay_start demo_ring
  end.

Lemma demo_segment p n :
  (0 < n)%nat -> (p + n <= 6)%nat -> segment demo_isn demo_stream p (demo_event p n).
Proof.
  intros Hn Hp. unfold segment, demo_event. simpl ev_payload. rewrite length_cut by (simpl; lia).
  unfold MAX_PAYLOAD_SIZE. split; [done|]. split; [done|]. split; [lia|].
  split; [simpl; lia|]. done.
Qed.

Lemma demo_memory_ok : memory_for_ring demo_memory.
Proof. intros n _. by eexists. Qed.

(** The packet in the middle comes last. *)
Definition demo_events : list event_t := [demo_event 0 2; demo_event 4 2; demo_event 2 2].

Lemma demo_run : relay_run demo_memory (relay_start demo_ring) demo_events (after demo_events).
Proof.
  change demo_events with (([] ++ [demo_event 0 2]) ++ [demo_event 4 2] ++ [demo_event 2 2]).
  rewrite app_assoc.
  apply run_event with (after [demo_event 0 2; demo_event 4 2]); [|reflexivity|reflexivity].
  apply run_event with (after [demo_event 0 2]); [|reflexivity|reflexivity].
  apply run_event with (relay_start demo_ring); [|reflexivity|reflexivity].
  apply run_start.
Qed.

Definition demo_end : relay :=
  match flush_all [SendBytes 3; SendBytes 100] (after demo_events) with
  | Ok r => r
  | UB => relay_start demo_ring
  end.

Lemma demo_run_end : relay_run demo_memory (relay_start demo_ring) demo_events demo_end.
Proof. apply (run_flush _ _ _ _ [SendBytes 3; SendBytes 100]) with (1 := demo_run). reflexivity. Qed.

(** The events of the run, by position. *)
Lemma demo_events_at e k :
  e ∈ demo_events -> carries demo_isn demo_stream e k ->
  e = demo_event (k - k `mod` 2)%nat 2 /\ (k < 6)%nat.
Proof.
  intros He (p & Hp & Hk).
  assert (Hpos : forall q, (q + 2 <= 6)%nat -> e = demo_event q 2 -> p = q).
  { intros q Hq ->. apply (segment_pos demo_isn demo_stream ltac:(done) _ _ _ Hp).
    by apply demo_segment; lia. }
  assert (Hat : forall q, (q + 2 <= 6)%nat -> e = demo_event q 2 -> (q <= k < q + 2)%nat).
  { intros q Hq E. rewrite (Hpos q Hq E), E in Hk. simpl ev_payload in Hk.
    rewrite length_cut in Hk by (simpl; lia). done. }
  assert (He' : e = demo_event 0 2 \/ e = demo_event 4 2 \/ e = demo_event 2 2).
  { apply elem_of_cons in He as [->|[->| ->%list_elem_of_singleton]%elem_of_cons]; auto. }
  destruct He' as [E|[E|E]]; (apply Hat in E as Hr; [|lia]); rewrite E;
    do 6 (destruct k as [|k]; [first [lia|split; [reflexivity|lia]]|]); lia.
Qed.

Lemma demo_no_overlap : no_overlap demo_isn demo_stream demo_events.
Proof.
  intros e e' k He He' Hc Hc'. destruct (demo_events_at e k He Hc) as [-> _].
  by destruct (demo_events_at e' k He' Hc') as [-> _].
Qed.

Lemma demo_rest e : e ∈ [demo_event 4 2; demo_event 2 2] -> is_segment demo_isn demo_stream e.
Proof.
  intros [->| ->%list_elem_of_singleton]%elem_of_cons;
    eexists; apply demo_segment; lia.
Qed.

Lemma demo_all k :
  (k < 6)%nat -> exists e, e ∈ demo_events /\ carries demo_isn demo_stream e k.
Proof.
  intros Hk. assert (Hq : exists q, (q <= k < q + 2)%nat /\ demo_event q 2 ∈ demo_events /\ (q + 2 <= 6)%nat).
  { destruct (decide (k < 2)%nat); [|destruct (decide (k < 4)%nat)];
      [exists 0%nat|exists 2%nat|exists 4%nat]; (split; [lia|]; split; [|lia]).
    - by left.
    - by right; right; left.
    - by right; left. }
  destruct Hq as (q & Hq & Hin & Hle). exists (demo_event q 2). split; [done|]. exists q.
  split; [apply demo_segment; lia|]. simpl ev_payload. rewrite length_cut by (simpl; lia). done.
Qed.

Lemma relay_forwards_in_order_witness :
  (exists n, rl_sent demo_end ++ ring_content (rl_rb demo_end) = cut demo_stream 0 n) /\
  exists r', flush_all [SendAgain] demo_end = Ok r'.
Proof.
  destruct (relay_forwards_in_order demo_memory demo_isn demo_stream demo_ring 0
              (demo_event 0 2) [demo_event 4 2; demo_event 2 2] demo_end)
    as [(n & Hn & _) [_ Hf]].
  - exact demo_memory_ok.
  - done.
  - done.
  - exact demo_run_end.
  - by apply demo_segment; lia.
  - exact demo_rest.
  - split; [by exists n|apply Hf].
Defined.

Lemma relay_delivers_all_witness :
  rl_sent (after demo_events) = [] /\
  exists r', flush_turns (replicate 6 [SendBytes 1]) (after demo_events) = Ok r' /\
    rl_sent r' = demo_stream.
Proof.
  split; [reflexivity|].
  apply (relay_delivers_all demo_memory demo_isn demo_stream demo_ring
           (demo_event 0 2) [demo_event 4 2; demo_event 2 2] (after demo_events)).
  - exact demo_memory_ok.
  - done.
  - done.
  - exact demo_run.
  - by apply demo_segment; lia.
  - exact demo_rest.
  - exact demo_no_overlap.
  - exact demo_all.
  - reflexivity.
  - reflexivity.
  - apply Forall_replicate. split; [done|]. constructor; [by exists 1|constructor].
  - simpl. lia.
Defined.

(** An early packet of which only the end is new is never used: the pool looks
    for the exact number it waits for. *)
Example overlapped_packet_is_lost :
  let es := [demo_event 0 2; demo_event 3 3; demo_event 2 2] in
  ring_content (rl_rb (after es)) = str "abcd" /\
  rl_pool (after es) !! 0%nat = Some (Some (node_of (demo_event 3 3))) /\
  (forall k, (k < 6)%nat -> exists e, e ∈ es /\ carries demo_isn demo_stream e k).
Proof.
  split; [reflexivity|]. split; [reflexivity|]. intros k Hk.
  do 6 (destruct k as [|k];
    [first [exists (demo_event 0 2); split;
             [by left|eexists; split; [apply demo_segment; lia|simpl; lia]]
           |exists (demo_event 2 2); split;
             [by right; right; left|eexists; split; [apply demo_segment; lia|simpl; lia]]
           |exists (demo_event 3 3); split;
             [by right; left|eexists; split; [apply demo_segment; lia|simpl; lia]]]|]).
  lia.
Qed.

(** A packet of 1100 bytes and the packet behind it. *)
Definition long_stream : bytes := replicate 1120 x61.
Definition long_payload : bytes := replicate 1100 x61.
Definition long_event : event_t := Event (seq_at demo_isn 10) (replicate 1024 x61).
Definition next_event : event_t := Event (seq_at demo_isn 1110) (replicate 10 x61).

(** A packet in front of it, the long packet again as it was. *)
Definition first_event : event_t := Event (seq_at demo_isn 0) (replicate 10 x61).
Definition long_events : list event_t := [long_event; next_event; long_event].

Lemma long_run :
  relay_run demo_memory (relay_start demo_ring) (first_event :: long_events)
    (after (first_event :: long_events)).
Proof.
  change (first_event :: long_events)
    with ((([] ++ [first_event]) ++ [long_event]) ++ [next_event] ++ [long_event]) at 1.
  rewrite app_assoc.
  apply run_event with (after [first_event; long_event; next_event]); [|reflexivity|reflexivity].
  apply run_event with (after [first_event; long_event]); [|reflexivity|reflexivity].
  apply run_event with (after [first_event]); [|reflexivity|reflexivity].
  apply run_event with (relay_start demo_ring); [|reflexivity|reflexivity].
  apply run_start.
Qed.

(** An event that carries a piece of the long stream. *)
Lemma long_segment p n :
  (0 < n)%nat -> Z.of_nat n <= MAX_PAYLOAD_SIZE -> (p + n <= 1120)%nat ->
  segment demo_isn long_stream p (Event (seq_at demo_isn p) (replicate n x61)).
Proof.
  intros Hn Hm Hp. unfold segment, cut, long_stream. cbn [ev_seq ev_payload].
  rewrite drop_replicate, take_replicate, !length_replicate. split_and!; try done; try lia.
  by rewrite Nat.min_l by lia.
Qed.

