(* ===== verification/LegacyHash.v ===== *)
(** * The older hash table (hash.c)

    A table of 1024 chains of nodes with arrays for key and value, behind a
    lock.  The build leaves the file out; it is the table kvs_hash.c grew out
    of.  The keys it is made for are C strings of ASCII characters that fit in
    a node: for them it is a map, as long as no key is deleted whose chain is
    empty.  That deletion returns with the lock held; other keys lead out of
    the arrays. *)

From S2P Require Import Prelude.

Open Scope Z_scope.
Open Scope kvs_scope.

(** ** Data *)

Definition MAX_KEY_LEN : nat := 128.
Definition MAX_VALUE_LEN : nat := 512.
Definition MAX_TABLE_SIZE : Z := 1024.

(** The two arrays of a node. *)
Record hashnode_t := HashNode {
  hn_key : bytes;
  hn_value : bytes
}.

(** The chains, none where the pointer is indeterminate; [ht_locked] tells
    whether the lock is held. *)
Record hashtable_t := HashTable {
  ht_nodes : list (option (list hashnode_t));
  ht_count : Z;
  ht_locked : bool
}.

Definition set_chain (h : hashtable_t) (i : Z) (l : list hashnode_t) : hashtable_t :=
  HashTable (<[Z.to_nat i := Some l]> (ht_nodes h)) (ht_count h) (ht_locked h).

Definition set_locked (b : bool) (h : hashtable_t) : hashtable_t :=
  HashTable (ht_nodes h) (ht_count h) b.

(** [hash->count ++] and [hash->count --] on an [int]. *)
Definition add_count (d : Z) (h : hashtable_t) : run hashtable_t :=
  let c := ht_count h + d in
  if (- 2 ^ 31 <=? c) && (c <? 2 ^ 31) then Ret (HashTable (ht_nodes h) c (ht_locked h)) else Undef.

(** ** Strings *)

(** [strncpy]: no terminator when the string fills the array. *)
Definition strncpy (s : bytes) (n : nat) : bytes := take n s ++ replicate (n - length s) x00.

(** Whether [strcmp] of an array with a string gives 0; the array ends where
    [a] does. *)
Fixpoint strcmp_eq (a s : bytes) : run bool :=
  match a, s with
  | [], _ => Undef
  | c :: _, [] => Ret (b2z c =? 0)
  | c :: a, d :: s => if bool_decide (c = d) then strcmp_eq a s else Ret false
  end.

(** A [char] is signed. *)
Definition char_value (b : byte) : Z := if b2z b <? 128 then b2z b else b2z b - 256.

(** The loop of [_hash]. *)
Fixpoint hash_sum (key : bytes) (sum : Z) : run Z :=
  match key with
  | [] => Ret sum
  | b :: key =>
    let sum := sum + char_value b in
    if (- 2 ^ 31 <=? sum) && (sum <? 2 ^ 31) then hash_sum key sum else Undef
  end.

(** The callers have tested that [key] is not NULL. *)
Definition _hash (key : bytes) (size : Z) : run Z :=
  let! sum := hash_sum key 0 in Ret (Z.rem sum size).

(** ** Nodes and chains *)

(** [_create_node] *)
Definition _create_node (malloc_ok : bool) (key value : bytes) : option hashnode_t :=
  if malloc_ok then Some (HashNode (strncpy key MAX_KEY_LEN) (strncpy value MAX_VALUE_LEN)) else None.

(** [hash->nodes[idx]], where the index may be negative. *)
Definition chain (h : hashtable_t) (idx : Z) : run (list hashnode_t) :=
  if idx <? 0 then Undef
  else match ht_nodes h !! Z.to_nat idx with Some (Some l) => Ret l | _ => Undef end.

(** The walk of [put_kv_hashtable] and [get_kv_hashtable]. *)
Fixpoint find_node (l : list hashnode_t) (key : bytes) : run (option hashnode_t) :=
  match l with
  | [] => Ret None
  | node :: l =>
    let! eq := strcmp_eq (hn_key node) key in
    if eq : bool then Ret (Some node) else find_node l key
  end.

(** The chain without the node, as [delete_kv_hashtable] leaves it at its
    head or behind [cur]; none when no node has the key. *)
Fixpoint unlink (l : list hashnode_t) (key : bytes) : run (option (list hashnode_t)) :=
  match l with
  | [] => Ret None
  | node :: l =>
    let! eq := strcmp_eq (hn_key node) key in
    if eq : bool then Ret (Some l)
    else let! r := unlink l key in Ret (cons node <$> r)
  end.

(** ** The lock *)

(** The caller waits while the lock is held. *)
Definition pthread_mutex_lock (h : hashtable_t) : run hashtable_t :=
  if ht_locked h then Hangs else Ret (set_locked true h).

Definition pthread_mutex_unlock (h : hashtable_t) : hashtable_t := set_locked false h.

(** ** Operations *)

(** [init_hashtable] on a table: the chains are what [malloc] finds in the memory,
    pointers only where it is zero. *)
Definition init_hashtable (malloc_ok : bool) (zero : nat -> bool) : Z * option hashtable_t :=
  if malloc_ok then
    (0, Some (HashTable ((fun i => if zero i then Some [] else None) <$> seq 0 (Z.to_nat MAX_TABLE_SIZE))
                0 false))
  else (-1, None).

(** [put_kv_hashtable] on pointers that may be NULL, as in the others. *)
Definition put_kv_hashtable (malloc_ok : bool) (hash : option hashtable_t) (key value : option bytes)
  : run (Z * option hashtable_t) :=
  match hash, key, value with
  | Some h, Some key, Some value =>
    let! idx := _hash key MAX_TABLE_SIZE in
    let! h := pthread_mutex_lock h in
    let! l := chain h idx in
    let! found := find_node l key in
    match found with
    | Some _ => Ret (1, Some (pthread_mutex_unlock h))
    | None =>
      match _create_node malloc_ok key value with
      | None => Undef
      | Some new_node =>
        let! h := add_count 1 (set_chain h idx (new_node :: l)) in
        Ret (0, Some (pthread_mutex_unlock h))
      end
    end
  | _, _, _ => Ret (-1, hash)
  end.

(** [get_kv_hashtable] gives the value array of the node. *)
Definition get_kv_hashtable (hash : option hashtable_t) (key : option bytes)
  : run (option bytes * option hashtable_t) :=
  match hash, key with
  | Some h, Some key =>
    let! idx := _hash key MAX_TABLE_SIZE in
    let! h := pthread_mutex_lock h in
    let! l := chain h idx in
    let! found := find_node l key in
    Ret (hn_value <$> found, Some (pthread_mutex_unlock h))
  | _, _ => Ret (None, hash)
  end.

Definition count_kv_hashtable (hash : hashtable_t) : Z := ht_count hash.

(** [delete_kv_hashtable]: an empty chain is the way out that leaves the lock
    held. *)
Definition delete_kv_hashtable (hash : option hashtable_t) (key : option bytes)
  : run (Z * option hashtable_t) :=
  match hash, key with
  | Some h, Some key =>
    let! idx := _hash key MAX_TABLE_SIZE in
    let! h := pthread_mutex_lock h in
    let! l := chain h idx in
    match l with
    | [] => Ret (-1, Some h)
    | _ =>
      let! r := unlink l key in
      match r with
      | None => Ret (-1, Some (pthread_mutex_unlock h))
      | Some l =>
        let! h := add_count (-1) (set_chain h idx l) in
        Ret (0, Some (pthread_mutex_unlock h))
      end
    end
  | _, _ => Ret (-2, hash)
  end.

Definition exist_kv_hashtable (hash : option hashtable_t) (key : option bytes)
  : run (Z * option hashtable_t) :=
  let! (value, hash) := get_kv_hashtable hash key in
  Ret (match value with Some _ => 1 | None => 0 end, hash).

(** [dest_hashtable]: the nodes in the order they are freed. *)
Fixpoint free_chains (chains : list (option (list hashnode_t))) : run (list hashnode_t) :=
  match chains with
  | [] => Ret []
  | None :: _ => Undef
  | Some l :: chains => let! rest := free_chains chains in Ret (l ++ rest)
  end.

Definition dest_hashtable (hash : option hashtable_t) : run (list hashnode_t) :=
  match hash with Some h => free_chains (ht_nodes h) | None => Ret [] end.

(** ** What the table is made for *)

(** Keys of ASCII characters and values without a byte 0 that leave room for
    the terminator. *)
Definition ascii (b : byte) : Prop := 0 < b2z b < 128.
Definition plain_key (k : bytes) : Prop := Forall ascii k /\ (length k < MAX_KEY_LEN)%nat.
Definition plain_value (v : bytes) : Prop := no_nul v /\ (length v < MAX_VALUE_LEN)%nat.

(** The sum of the characters, and the chain of a key. *)
Definition char_sum (k : bytes) : Z := foldr Z.add 0 (char_value <$> k).
Definition key_chain (k : bytes) : nat := Z.to_nat (char_sum k `mod` MAX_TABLE_SIZE).

Definition node_of (kv : bytes * bytes) : hashnode_t :=
  HashNode (strncpy kv.1 MAX_KEY_LEN) (strncpy kv.2 MAX_VALUE_LEN).

Definition slot_of (l : list (bytes * bytes)) : option (list hashnode_t) := Some (node_of <$> l).

(** A chain of keys and values: each key once, and in this chain. *)
Definition chain_ok (i : nat) (l : list (bytes * bytes)) : Prop :=
  NoDup l.*1 /\ Forall (fun kv => plain_key kv.1 /\ plain_value kv.2 /\ key_chain kv.1 = i) l.

(** The table that holds the map [m]. *)
Definition table_of (h : hashtable_t) (m : gmap bytes bytes) : Prop :=
  exists chains : list (list (bytes * bytes)),
    h = HashTable (slot_of <$> chains) (Z.of_nat (size m)) false /\
    length chains = Z.to_nat MAX_TABLE_SIZE /\
    (forall i l, chains !! i = Some l -> chain_ok i l) /\
    (forall k v, m !! k = Some v <-> exists l, chains !! key_chain k = Some l /\ (k, v) ∈ l).

(** ** Strings *)

Lemma ascii_value b : ascii b -> char_value b = b2z b /\ 0 < char_value b < 128.
Proof. unfold ascii, char_value. intros H. destruct (Z.ltb_spec (b2z b) 128); lia. Qed.

Lemma char_sum_range k : Forall ascii k -> 0 <= char_sum k <= 127 * Z.of_nat (length k).
Proof.
  induction 1 as [|b k Hb _ IH]; [done|]. apply ascii_value in Hb as [_ Hb].
  unfold char_sum in *. cbn [fmap list_fmap foldr length]. lia.
Qed.

Lemma hash_sum_plain k sum :
  Forall ascii k -> 0 <= sum -> sum + 127 * Z.of_nat (length k) < 2 ^ 31 ->
  hash_sum k sum = Ret (sum + char_sum k).
Proof.
  intros Hk. revert sum. induction Hk as [|b k Hb Hk IH]; intros sum H0 Hs.
  { unfold char_sum. simpl. f_equal. lia. }
  apply ascii_value in Hb as [_ Hb]. cbn [hash_sum length] in *.
  rewrite (proj2 (Z.leb_le _ _)), (proj2 (Z.ltb_lt _ _)) by lia. cbn [andb].
  rewrite IH by lia. unfold char_sum. cbn [fmap list_fmap foldr]. f_equal. lia.
Qed.

Lemma hash_plain k :
  plain_key k -> _hash k MAX_TABLE_SIZE = Ret (Z.of_nat (key_chain k)).
Proof.
  intros [Hk Hl]. unfold MAX_KEY_LEN in Hl. unfold _hash. rewrite hash_sum_plain by (done || lia).
  cbn [run_bind]. pose proof (char_sum_range k Hk). unfold key_chain, MAX_TABLE_SIZE.
  rewrite Z.add_0_l, Z.rem_mod_nonneg by lia. f_equal.
  rewrite Z2Nat.id; [done|]. apply Z.mod_pos_bound. lia.
Qed.

Lemma key_chain_range k : (key_chain k < Z.to_nat MAX_TABLE_SIZE)%nat.
Proof.
  unfold key_chain, MAX_TABLE_SIZE. pose proof (Z.mod_pos_bound (char_sum k) 1024). lia.
Qed.

Lemma strncpy_fits s n : (length s < n)%nat -> strncpy s n = s ++ replicate (n - length s) x00.
Proof. intros. unfold strncpy. by rewrite take_ge by lia. Qed.

Lemma strcmp_eq_padded k k' n :
  Forall ascii k -> Forall ascii k' ->
  strcmp_eq (k ++ replicate (S n) x00) k' = Ret (bool_decide (k = k')).
Proof.
  intros Hk. revert k'. induction Hk as [|c k Hc _ IH]; intros k' Hk'.
  - destruct Hk' as [|d k' Hd _]; [done|]. cbn [app replicate strcmp_eq].
    rewrite !bool_decide_false; [done|done|]. intros <-. unfold ascii in Hd. by destruct Hd.
  - destruct Hk' as [|d k' Hd Hk']; cbn [app strcmp_eq].
    + unfold ascii in Hc. by rewrite bool_decide_false, (proj2 (Z.eqb_neq _ _)) by (done || lia).
    + rewrite IH by done. destruct (decide (c = d)) as [->|Hne].
      * rewrite (bool_decide_true (d = d)) by done. f_equal. apply bool_decide_ext. naive_solver.
      * rewrite !bool_decide_false by naive_solver. done.
Qed.

Lemma strcmp_node k k' :
  plain_key k -> plain_key k' ->
  strcmp_eq (strncpy k MAX_KEY_LEN) k' = Ret (bool_decide (k = k')).
Proof.
  intros [Hk Hl] [Hk' _]. rewrite strncpy_fits by done.
  destruct (MAX_KEY_LEN - length k)%nat as [|n] eqn:E; [lia|]. by apply strcmp_eq_padded.
Qed.

(** The value is read back up to its terminator. *)
Lemma cstr_value v : plain_value v -> cstr (strncpy v MAX_VALUE_LEN) = v.
Proof.
  intros [Hv Hl]. rewrite strncpy_fits by done.
  destruct (MAX_VALUE_LEN - length v)%nat as [|n] eqn:E; [lia|]. clear E Hl.
  induction Hv as [|b v Hb _ IH]; [done|]. cbn [app cstr]. rewrite (proj2 (Z.eqb_neq _ _)) by done.
  by rewrite IH.
Qed.

(** ** Chains *)

Lemma find_node_chain i l k :
  chain_ok i l -> plain_key k ->
  find_node (node_of <$> l) k
  = Ret ((fun v => node_of (k, v)) <$> (list_to_map l : gmap bytes bytes) !! k).
Proof.
  intros [_ Hf] Hk. induction Hf as [|[k' v] l (Hp & _ & _) _ IH]; [done|].
  rewrite fmap_cons. rewrite list_to_map_cons. cbn [find_node node_of hn_key fst snd]. rewrite strcmp_node by done.
  cbn [run_bind]. destruct (decide (k' = k)) as [->|Hne].
  - rewrite bool_decide_true by done. by rewrite lookup_insert_eq.
  - rewrite bool_decide_false by done. by rewrite lookup_insert_ne.
Qed.

Lemma unlink_chain i l k :
  chain_ok i l -> plain_key k ->
  unlink (node_of <$> l) k
  = Ret (match (list_to_map l : gmap bytes bytes) !! k with
         | Some _ => Some (node_of <$> filter (fun kv => kv.1 <> k) l)
         | None => None
         end).
Proof.
  intros [Hn Hf] Hk. induction Hf as [|[k' v] l (Hp & _ & _) Hf IH]; [done|].
  rewrite fmap_cons in Hn. rewrite fmap_cons. apply NoDup_cons in Hn as [Hnin Hn].
  rewrite list_to_map_cons. cbn [unlink node_of hn_key fst snd] in *. rewrite strcmp_node by done.
  cbn [run_bind]. destruct (decide (k' = k)) as [->|Hne].
  - rewrite bool_decide_true by done. rewrite lookup_insert_eq, filter_cons_False by naive_solver.
    do 3 f_equal. symmetry. apply filter_every. intros x Hx <-.
    by apply Hnin, list_elem_of_fmap_2.
  - rewrite bool_decide_false by done. rewrite (lookup_insert_ne _ k' k) by done. rewrite IH by done.
    cbn [run_bind]. rewrite filter_cons_True by done. by destruct (list_to_map l !! k).
Qed.

(** ** The table *)

Lemma chain_ok_lookup i l k v : chain_ok i l -> (k, v) ∈ l <-> (list_to_map l : gmap bytes bytes) !! k = Some v.
Proof. intros [Hn _]. by apply elem_of_list_to_map. Qed.

(** The chain of a key, from the table to the map. *)
Lemma table_chain h m k :
  table_of h m ->
  exists l, chain (set_locked true h) (Z.of_nat (key_chain k)) = Ret (node_of <$> l) /\
    chain_ok (key_chain k) l /\
    forall k', key_chain k' = key_chain k -> (list_to_map l : gmap bytes bytes) !! k' = m !! k'.
Proof.
  intros (chains & -> & Hlen & Hok & Hm). pose proof (key_chain_range k) as Hr.
  destruct (lookup_lt_is_Some_2 chains (key_chain k)) as [l Hl]; [lia|]. exists l.
  unfold chain. cbn [set_locked ht_nodes]. destruct (Z.ltb_spec (Z.of_nat (key_chain k)) 0); [lia|].
  rewrite Nat2Z.id, list_lookup_fmap, Hl. cbn [fmap option_fmap option_map slot_of].
  pose proof (Hok _ _ Hl) as Hc. split; [done|]. split; [done|]. intros k' He.
  apply option_eq. intros v. rewrite <- (chain_ok_lookup _ _ _ _ Hc), Hm, He. naive_solver.
Qed.

(** The table with one chain replaced. *)
Lemma table_update h m m' k l' :
  table_of h m -> chain_ok (key_chain k) l' ->
  (forall k' v, key_chain k' = key_chain k -> m' !! k' = Some v <-> (k', v) ∈ l') ->
  (forall k', key_chain k' <> key_chain k -> m' !! k' = m !! k') ->
  table_of (HashTable (ht_nodes (set_chain (set_locked true h) (Z.of_nat (key_chain k)) (node_of <$> l')))
              (Z.of_nat (size m')) false) m'.
Proof.
  intros (chains & -> & Hlen & Hok & Hm) Hl' Hin Hout. exists (<[key_chain k := l']> chains).
  cbn [set_chain set_locked ht_nodes]. rewrite Nat2Z.id.
  split; [by rewrite (list_fmap_insert slot_of)|]. split; [by rewrite length_insert|]. split.
  - intros i l [(<- & <- & _)|[_ Hl]]%list_lookup_insert_Some; [done|by apply Hok].
  - intros k' v. pose proof (key_chain_range k) as Hr.
    destruct (decide (key_chain k' = key_chain k)) as [He|Hne].
    + rewrite Hin, He, list_lookup_insert_eq by (done || lia). naive_solver.
    + by rewrite Hout, Hm, list_lookup_insert_ne by done.
Qed.

Lemma add_count_ok d h :
  - 2 ^ 31 <= ht_count h + d < 2 ^ 31 ->
  add_count d h = Ret (HashTable (ht_nodes h) (ht_count h + d) (ht_locked h)).
Proof.
  intros H. unfold add_count.
  by rewrite (proj2 (Z.leb_le _ _)), (proj2 (Z.ltb_lt _ _)) by lia.
Qed.

Lemma table_count h m : table_of h m -> ht_count h = Z.of_nat (size m) /\ ht_locked h = false.
Proof. by intros (chains & -> & _). Qed.

Lemma table_unlock h m : table_of h m -> pthread_mutex_unlock (set_locked true h) = h.
Proof. by intros (chains & -> & _). Qed.

Lemma table_lock h m : table_of h m -> pthread_mutex_lock h = Ret (set_locked true h).
Proof. by intros (chains & -> & _). Qed.

(** ** Operations *)

Lemma legacy_put_ok h m k v :
  table_of h m -> plain_key k -> plain_value v -> Z.of_nat (size m) < 2 ^ 31 - 1 ->
  exists h', put_kv_hashtable true (Some h) (Some k) (Some v)
    = Ret (match m !! k with Some _ => 1 | None => 0 end, Some h') /\
    table_of h' (match m !! k with Some _ => m | None => <[k := v]> m end).
Proof.
  intros Ht Hk Hv Hs. unfold put_kv_hashtable. rewrite hash_plain by done. cbn [run_bind].
  rewrite (table_lock _ _ Ht). cbn [run_bind].
  destruct (table_chain h m k Ht) as (l & -> & Hl & Hlk). cbn [run_bind].
  rewrite (find_node_chain _ _ _ Hl Hk), Hlk by done. cbn [run_bind]. destruct (m !! k) as [v0|] eqn:Hmk.
  { cbn. rewrite (table_unlock _ _ Ht). by exists h. }
  cbn [fmap option_fmap option_map _create_node]. destruct (table_count _ _ Ht) as [Hc _].
  rewrite add_count_ok; [|cbn [set_chain set_locked ht_count]; lia]. cbn [run_bind].
  eexists. split; [done|]. cbn [pthread_mutex_unlock set_locked ht_nodes ht_count].
  replace (ht_count (set_chain _ _ _) + 1) with (Z.of_nat (size (<[k := v]> m))).
  2: { cbn [set_chain set_locked ht_count]. rewrite map_size_insert_None by done. lia. }
  assert (Hnew : chain_ok (key_chain k) ((k, v) :: l)).
  { destruct Hl as [Hn Hf]. split; [|by constructor]. rewrite fmap_cons. constructor; [|done].
    intros ([k' v'] & Hx & Hin)%list_elem_of_fmap. cbn [fst] in Hx. subst k'.
    apply (chain_ok_lookup (key_chain k) l k v' (conj Hn Hf)) in Hin. rewrite Hlk in Hin; congruence. }
  apply (table_update h m (<[k := v]> m) k ((k, v) :: l) Ht Hnew).
  - intros k' v' He. rewrite (chain_ok_lookup _ _ k' v' Hnew), list_to_map_cons.
    destruct (decide (k = k')) as [<-|Hne]; [by rewrite !lookup_insert_eq|].
    by rewrite !lookup_insert_ne, Hlk by done.
  - intros k' Hne. rewrite lookup_insert_ne; [done|]. by intros ->.
Qed.

Lemma legacy_get_ok h m k :
  table_of h m -> plain_key k ->
  get_kv_hashtable (Some h) (Some k) = Ret ((fun v => strncpy v MAX_VALUE_LEN) <$> m !! k, Some h).
Proof.
  intros Ht Hk. unfold get_kv_hashtable. rewrite hash_plain by done. cbn [run_bind].
  rewrite (table_lock _ _ Ht). cbn [run_bind].
  destruct (table_chain h m k Ht) as (l & -> & Hl & Hlk). cbn [run_bind].
  rewrite (find_node_chain _ _ _ Hl Hk), Hlk by done. cbn [run_bind].
  rewrite (table_unlock _ _ Ht). by destruct (m !! k).
Qed.

(** No key of the map is in the chain of [k]. *)
Definition chain_empty (m : gmap bytes bytes) (k : bytes) : Prop :=
  forall k', key_chain k' = key_chain k -> m !! k' = None.

Lemma empty_chain_nil i l m k :
  chain_ok i l -> (forall k', key_chain k' = key_chain k -> (list_to_map l : gmap bytes bytes) !! k' = m !! k') ->
  i = key_chain k -> chain_empty m k -> l = [].
Proof.
  intros [Hn Hf] Hlk -> He. destruct l as [|[k' v] l]; [done|].
  apply Forall_cons in Hf as [(_ & _ & Hc) _]. cbn [fst] in Hc. pose proof (Hlk k' Hc) as H.
  rewrite list_to_map_cons, lookup_insert_eq, He in H by done. done.
Qed.

Lemma legacy_delete_ok h m k :
  table_of h m -> plain_key k -> ~ chain_empty m k -> Z.of_nat (size m) < 2 ^ 31 ->
  exists h', delete_kv_hashtable (Some h) (Some k)
    = Ret (match m !! k with Some _ => 0 | None => -1 end, Some h') /\ table_of h' (delete k m).
Proof.
  intros Ht Hk Hne Hs. unfold delete_kv_hashtable. rewrite hash_plain by done. cbn [run_bind].
  rewrite (table_lock _ _ Ht). cbn [run_bind].
  destruct (table_chain h m k Ht) as (l & -> & Hl & Hlk). cbn [run_bind].
  pose proof (unlink_chain _ _ _ Hl Hk) as Hu. rewrite Hlk in Hu by done.
  assert (Hcons : exists n l', node_of <$> l = n :: l').
  { destruct l as [|x l]; [|by eexists _, _]. destruct Hne. intros k' He. by rewrite <- Hlk. }
  destruct Hcons as (n & l' & Hcons). rewrite Hcons in Hu |- *. rewrite Hu. cbn [run_bind].
  destruct (m !! k) as [v|] eqn:Hmk.
  2: { rewrite (table_unlock _ _ Ht), delete_id by done. by exists h. }
  destruct (table_count _ _ Ht) as [Hc _]. pose proof (map_size_delete_Some k m (mk_is_Some _ _ Hmk)) as Hsz.
  assert (Hpos : (0 < size m)%nat) by (apply Nat.neq_0_lt_0, (map_size_ne_0_lookup_2 m k); by eexists).
  rewrite add_count_ok; [|cbn [set_chain set_locked ht_count]; lia]. cbn [run_bind].
  eexists. split; [done|]. cbn [pthread_mutex_unlock set_locked ht_nodes ht_count].
  replace (ht_count (set_chain _ _ _) + -1) with (Z.of_nat (size (delete k m)))
    by (cbn [set_chain set_locked ht_count]; lia).
  apply (table_update h m (delete k m) k _ Ht).
  - destruct Hl as [Hn Hf]. split.
    2: { apply Forall_forall. intros x [_ Hx]%list_elem_of_filter. rewrite Forall_forall in Hf. by apply Hf. }
    eapply sublist_NoDup; [exact Hn|]. apply fmap_sublist, sublist_filter.
  - intros k' v' He. rewrite list_elem_of_filter, (chain_ok_lookup _ _ _ _ Hl), Hlk by done. cbn [fst].
    rewrite lookup_delete_Some. naive_solver.
  - intros k' Hk'. rewrite lookup_delete_ne; [done|]. by intros ->.
Qed.

(** ** A map *)

Inductive legacy_op :=
| LPut (k v : bytes)
| LGet (k : bytes)
| LDelete (k : bytes)
| LExist (k : bytes)
| LCount.

Inductive legacy_reply :=
| LInt (z : Z)
| LValue (v : option bytes).

(** A call on the table; a value is read as a C string. *)
Definition legacy_call (h : hashtable_t) (o : legacy_op) : run (legacy_reply * option hashtable_t) :=
  match o with
  | LPut k v => let! (r, h) := put_kv_hashtable true (Some h) (Some k) (Some v) in Ret (LInt r, h)
  | LGet k => let! (r, h) := get_kv_hashtable (Some h) (Some k) in Ret (LValue (cstr <$> r), h)
  | LDelete k => let! (r, h) := delete_kv_hashtable (Some h) (Some k) in Ret (LInt r, h)
  | LExist k => let! (r, h) := exist_kv_hashtable (Some h) (Some k) in Ret (LInt r, h)
  | LCount => Ret (LInt (count_kv_hashtable h), Some h)
  end.

Fixpoint legacy_run (h : hashtable_t) (ops : list legacy_op) : run (list legacy_reply * hashtable_t) :=
  match ops with
  | [] => Ret ([], h)
  | o :: ops =>
    let! (r, h) := legacy_call h o in
    match h with
    | Some h => let! (rs, h) := legacy_run h ops in Ret (r :: rs, h)
    | None => Undef
    end
  end.

(** The same call on a map: a key is put once and not replaced. *)
Definition map_call (m : gmap bytes bytes) (o : legacy_op) : legacy_reply * gmap bytes bytes :=
  match o with
  | LPut k v => match m !! k with Some _ => (LInt 1, m) | None => (LInt 0, <[k := v]> m) end
  | LGet k => (LValue (m !! k), m)
  | LDelete k => match m !! k with Some _ => (LInt 0, delete k m) | None => (LInt (-1), m) end
  | LExist k => (LInt (match m !! k with Some _ => 1 | None => 0 end), m)
  | LCount => (LInt (Z.of_nat (size m)), m)
  end.

Fixpoint map_run (m : gmap bytes bytes) (ops : list legacy_op) : list legacy_reply * gmap bytes bytes :=
  match ops with
  | [] => ([], m)
  | o :: ops =>
    let '(r, m) := map_call m o in
    let '(rs, m) := map_run m ops in (r :: rs, m)
  end.

(** The calls the table is made for: plain arguments, and no deletion from an
    empty chain. *)
Definition call_ok (m : gmap bytes bytes) (o : legacy_op) : Prop :=
  match o with
  | LPut k v => plain_key k /\ plain_value v
  | LGet k | LExist k => plain_key k
  | LDelete k => plain_key k /\ ~ chain_empty m k
  | LCount => True
  end.

Fixpoint calls_ok (m : gmap bytes bytes) (ops : list legacy_op) : Prop :=
  match ops with
  | [] => True
  | o :: ops => call_ok m o /\ calls_ok (map_call m o).2 ops
  end.

Definition values_plain (m : gmap bytes bytes) : Prop := map_Forall (fun _ v => plain_value v) m.

Lemma legacy_call_ok h m o :
  table_of h m -> values_plain m -> call_ok m o -> Z.of_nat (size m) < 2 ^ 31 - 1 ->
  exists h', legacy_call h o = Ret ((map_call m o).1, Some h') /\ table_of h' (map_call m o).2 /\
    values_plain (map_call m o).2 /\ (size (map_call m o).2 <= S (size m))%nat.
Proof.
  intros Ht Hv Hok Hs. destruct o as [k v|k|k|k|]; cbn [legacy_call map_call call_ok] in *.
  - destruct Hok as [Hk Hpv]. destruct (legacy_put_ok h m k v Ht Hk Hpv Hs) as (h' & -> & Ht'). cbn [run_bind].
    exists h'. destruct (m !! k) eqn:E; [split_and!; [done..|cbn [snd]; lia]|]. split; [done|]. split; [done|].
    split; [by apply map_Forall_insert_2|]. cbn [snd]. by rewrite map_size_insert_None.
  - rewrite (legacy_get_ok h m k Ht Hok). cbn [run_bind]. exists h. split_and!; [|done|done|cbn [snd]; lia].
    destruct (m !! k) as [v|] eqn:E; [|done]. cbn [fmap option_fmap option_map fst]. by rewrite cstr_value by (by apply (Hv k)).
  - destruct Hok as [Hk Hne]. destruct (legacy_delete_ok h m k Ht Hk Hne) as (h' & -> & Ht'); [lia|].
    cbn [run_bind]. exists h'. destruct (m !! k) eqn:E; cbn [fst snd].
    + split_and!; [done|done|by apply map_Forall_delete|]. rewrite map_size_delete_Some by done. lia.
    + rewrite delete_id in Ht' by done. split_and!; [done..|lia].
  - unfold exist_kv_hashtable. rewrite (legacy_get_ok h m k Ht Hok). cbn [run_bind]. exists h.
    split_and!; [by destruct (m !! k)|done|done|cbn [snd]; lia].
  - exists h. unfold count_kv_hashtable. rewrite (proj1 (table_count _ _ Ht)).
    split_and!; [done|done|done|cbn [snd]; lia].
Qed.

Lemma legacy_run_ok ops h m :
  table_of h m -> values_plain m -> calls_ok m ops ->
  Z.of_nat (size m) + Z.of_nat (length ops) < 2 ^ 31 ->
  exists h', legacy_run h ops = Ret ((map_run m ops).1, h') /\ table_of h' (map_run m ops).2.
Proof.
  revert h m. induction ops as [|o ops IH]; intros h m Ht Hv Hok Hs; [by exists h|].
  destruct Hok as [Ho Hok]. cbn [length] in Hs.
  destruct (legacy_call_ok h m o Ht Hv Ho) as (h1 & Hcall & Ht1 & Hv1 & Hsz); [lia|].
  cbn [legacy_run map_run]. rewrite Hcall. cbn [run_bind]. destruct (map_call m o) as [r m1].
  cbn [fst snd] in *. destruct (IH h1 m1 Ht1 Hv1 Hok) as (h2 & -> & Ht2); [lia|].
  exists h2. cbn [run_bind]. by destruct (map_run m1 ops).
Qed.

(** On memory that is zero, a new table gives the replies of a map on every
    sequence of calls it is made for, and none of the calls waits or leaves
    the arrays. *)
Theorem legacy_refines_map ops h :
  init_hashtable true (fun _ => true) = (0, Some h) -> calls_ok ∅ ops ->
  Z.of_nat (length ops) < 2 ^ 31 ->
  exists h', legacy_run h ops = Ret ((map_run ∅ ops).1, h') /\ table_of h' (map_run ∅ ops).2.
Proof.
  intros [= <-] Hok Hl. apply legacy_run_ok; [|apply map_Forall_empty|done|by rewrite map_size_empty].
  exists (replicate (Z.to_nat MAX_TABLE_SIZE) []). split.
  { rewrite map_size_empty, fmap_replicate. reflexivity. }
  split; [by rewrite length_replicate|]. split.
  - intros i l [-> _]%lookup_replicate. split; [constructor|done].
  - intros k v. rewrite lookup_empty. split; [done|]. intros (l & [-> _]%lookup_replicate & Hin).
    by apply elem_of_nil in Hin.
Qed.

(** The memory that [dest_hashtable] gives back is every node, once. *)
Theorem dest_frees_all h m :
  table_of h m ->
  exists kvs, dest_hashtable (Some h) = Ret (node_of <$> kvs) /\
    forall k v, (k, v) ∈ kvs <-> m !! k = Some v.
Proof.
  intros (chains & -> & _ & Hok & Hm). exists (concat chains). split.
  - cbn [dest_hashtable ht_nodes]. clear. induction chains as [|l chains IH]; [done|].
    rewrite fmap_cons. cbn [free_chains slot_of concat]. rewrite IH. cbn [run_bind]. by rewrite fmap_app.
  - intros k v. rewrite Hm, list_elem_of_In, in_concat. split.
    + intros (l & [i Hi]%list_elem_of_In%list_elem_of_lookup & Hin%list_elem_of_In). exists l. split; [|done].
      destruct (Hok i l Hi) as [_ Hf]. rewrite Forall_forall in Hf.
      by destruct (Hf _ Hin) as (_ & _ & <-).
    + intros (l & Hl%list_elem_of_lookup_2 & Hin). exists l. by rewrite <- !list_elem_of_In.
Qed.

(** ** What it is not made for *)

(** Deleting a key whose chain is empty returns with the lock held: every
    later call that takes the lock waits for ever. *)
Theorem delete_keeps_lock h m k :
  table_of h m -> plain_key k -> chain_empty m k ->
  exists h', delete_kv_hashtable (Some h) (Some k) = Ret (-1, Some h') /\
    forall k' v, plain_key k' ->
      put_kv_hashtable true (Some h') (Some k') (Some v) = Hangs /\
      get_kv_hashtable (Some h') (Some k') = Hangs /\
      delete_kv_hashtable (Some h') (Some k') = Hangs /\
      exist_kv_hashtable (Some h') (Some k') = Hangs.
Proof.
  intros Ht Hk He. exists (set_locked true h). split.
  - unfold delete_kv_hashtable. rewrite hash_plain by done. cbn [run_bind].
    rewrite (table_lock _ _ Ht). cbn [run_bind].
    destruct (table_chain h m k Ht) as (l & -> & Hl & Hlk). cbn [run_bind].
    by rewrite (empty_chain_nil _ _ _ _ Hl Hlk).
  - intros k' v Hk'. unfold exist_kv_hashtable, put_kv_hashtable, get_kv_hashtable, delete_kv_hashtable.
    by rewrite hash_plain.
Qed.

(** A byte of 128 or more counts negative: the index of a key whose sum is
    below zero is negative too, unless 1024 divides it. *)
Theorem negative_sum_leaves_table h k v sum :
  hash_sum k 0 = Ret sum -> sum < 0 -> sum mod MAX_TABLE_SIZE <> 0 -> ht_locked h = false ->
  put_kv_hashtable true (Some h) (Some k) (Some v) = Undef /\
  get_kv_hashtable (Some h) (Some k) = Undef /\
  delete_kv_hashtable (Some h) (Some k) = Undef.
Proof.
  intros Hsum Hneg Hmod Hlock. unfold MAX_TABLE_SIZE in *.
  assert (Hidx : Z.rem sum 1024 < 0).
  { assert (Z.rem sum 1024 <= 0) by (apply Z.rem_nonpos; lia).
    assert (Z.rem sum 1024 <> 0); [|lia]. intros H0. apply Hmod.
    apply Z.rem_divide in H0; [|lia]. by apply Z.mod_divide. }
  unfold put_kv_hashtable, get_kv_hashtable, delete_kv_hashtable, _hash, MAX_TABLE_SIZE.
  rewrite Hsum. cbn [run_bind]. unfold pthread_mutex_lock. rewrite Hlock. cbn [run_bind].
  unfold chain. by rewrite (proj2 (Z.ltb_lt _ _) Hidx).
Qed.

(** ** Examples *)

(** The memory of a new table is not cleared: where it is not zero the first
    look at a chain follows a wild pointer. *)
Example dirty_memory :
  match init_hashtable true (fun i => negb (i =? 97)%nat) with
  | (_, h) => get_kv_hashtable h (Some (str "a")) = Undef /\ dest_hashtable h = Undef
  end.
Proof. split; vm_compute; reflexivity. Qed.

(** A key of 128 characters is stored without a terminator, and comparing it
    with itself leaves the array. *)
Example long_key :
  let key := replicate 128 x61 in
  match init_hashtable true (fun _ => true) with
  | (_, h) =>
    (let! (_, h) := put_kv_hashtable true h (Some key) (Some (str "v")) in get_kv_hashtable h (Some key))
    = Undef
  end.
Proof. vm_compute. reflexivity. Qed.

(** A key in UTF-8. *)
Example utf8_key :
  match init_hashtable true (fun _ => true) with
  | (_, h) => put_kv_hashtable true h (Some [xe4; xbd; xa0]) (Some (str "v")) = Undef
  end.
Proof. vm_compute. reflexivity. Qed.

(** The second put does not replace the value; the lock is lost by a deletion
    from an empty chain. *)
Example a_run :
  match init_hashtable true (fun _ => true) with
  | (_, Some h) =>
    (let! (rs, h) := legacy_run h [LPut (str "k") (str "1"); LPut (str "k") (str "2"); LGet (str "k");
                                   LDelete (str "k"); LCount] in
     Ret rs) = Ret [LInt 0; LInt 1; LValue (Some (str "1")); LInt 0; LInt 0] /\
    (let! (rs, h) := legacy_run h [LDelete (str "k"); LGet (str "k")] in Ret rs) = Hangs
  | _ => False
  end.
Proof. split; vm_compute; reflexivity. Qed.
